(* ===== verification/_CoqProject ===== *)
-Q . S2P
Prelude.v
BTree.v
F64.v
GuestRam.v
GuestMem.v
MemoryCow.v
SandboxPool.v
VirtQueue.v
Pic.v
Pit.v
Lapic.v
IoApic.v
DeviceBus.v
VirtioBlkMmio.v
VirtioMmio.v
Permissions.v
Stage2.v
Vgic.v
AddressSpace.v
DirtyTracking.v
Utf8.v
Cron.v
NatTable.v
VSwitch.v
Egress.v
NetworkPolicy.v
Crc32.v
VmState.v
Migration.v
AuditChain.v
