(* ===== verification/Prelude.v ===== *)
(** * HyperMachine: a verification of the hypervisor's core

    HyperMachine runs guests on a host: a guest has memory, devices reached
    through registers and queues in that memory, and an interrupt controller;
    agents that drive guests act under a permission graph.  This library models
    those parts of the source and proves what makes them correct.

    ** The parts, their files and the code they model

    - [GuestRam]: the interface of guest memory devices rely on (class [GuestRam],
      contract [GuestRamLaws]).
    - [GuestMem] ([hv2-core/src/memory.rs]): regions, translation, byte access,
      allocation of RAM around the hole below 4 GiB, adoption of a backend's
      pages.  It discharges [GuestRamLaws].
    - [MemoryCow] and [SandboxPool] ([hv2-core/src/memory_cow.rs]): templates,
      copy-on-write clones, and the pool of reference-counted sandboxes over an
      explicit store of shared clones.
    - [VirtQueue] ([hv2-core/src/devices/virtio_queue.rs]): split virtqueues; every
      ring entry is read from guest memory, so everything read is the guest's
      choice.
    - [VirtioBlkMmio] ([hv2-core/src/devices/virtio_blk_mmio.rs]): the block device
      over a queue and a host file (class [BlockFile]).
    - [Pic] ([hv2-core/src/interrupt.rs]): the two cascaded 8259 chips.
    - [Pit] ([hv2-core/src/devices/timer.rs]): the counters of the interval timer,
      their registers, the task that raises their interrupt in the [Pic], and the
      system control port.
    - [Lapic] ([hv2-core/src/devices/lapic.rs]): the local interrupt controller, its
      priorities, timer and interprocessor interrupts.
    - [IoApic] ([hv2-core/src/devices/ioapic.rs]): the redirection table, its
      registers and pins, and what it delivers, in order.
    - [DeviceBus] ([hv2-core/src/device.rs], the access handlers of [vm.rs]): registered
      devices, the regions and ports they answer, and the path of a guest access to a
      device (class [DeviceTrait], of which the timer and the I/O APIC are instances).
    - [VirtioMmio] ([hv2-core/src/devices/virtio_mmio.rs], the records of
      [snapshot/device.rs]): the register window in front of a device (class
      [VirtioMmioDevice], of which the block device is an instance), its interrupt
      line into the [Pic], save and restore.
    - [BTree] and [AddressSpace] ([hv2-core/src/address_space.rs]): ordered maps,
      the guest address space with the host memory behind it, page tracking, and
      the builder of the standard layout.
    - [Stage2] ([hv1-arm/src/stage2.rs]): stage-2 descriptors and mappings of the
      ARM back end.
    - [Vgic] ([hv1-arm/src/vgic.rs]): its interrupt controller: the state of every
      interrupt, acknowledging and ending, and injection.
    - [DirtyTracking] ([hv2-core/src/migration/dirty_tracking.rs]): the bitmap of
      written pages, its iterator, and the tracker over several regions.
    - [Crc32], [Utf8] and [VmState] ([hv2-core/src/migration/state.rs]): the
      checksum, the strings of the format, and the writer and reader of a state.
    - [Migration] ([hv2-core/src/migration/protocol.rs]): the stages of a live
      migration, the pre-copy rounds over the tracker, the message queues.
    - [AuditChain] ([hv2-core/src/security/audit_chain.rs]): the log whose records
      are chained by a MAC, its files and its verifier.
    - [Cron] ([hv2-jobs/src/cron.rs]): the grammar of schedules and the search for
      the times they name.
    - [NatTable] ([hv2-net/src/nat.rs]): address translation of packets, the table of
      mappings and rules, and the checksums.
    - [VSwitch] ([hv2-net/src/vswitch.rs]): the ports of the virtual switch, the table
      of learned addresses, and where a frame goes.
    - [Egress] ([hv2-net/src/egress.rs]) and [NetworkPolicy]
      ([hv2-net/src/network_policy.rs]): where a frame is going, the rules over
      destinations, and what a sandbox may reach by address and by name; the policy
      uses the networks of [Egress].
    - [Permissions] ([hv2-agent/src/permissions]): scopes, roles, grants,
      delegation, revocation, resolution and the audit log.
    - [F64]: IEEE 754 doubles, in which the migration computes its rates.
    - [Prelude]: outcomes, machine integers, bytes and slices, tactics and hints.

    A guest write to a queue's notify register goes through [VirtioMmio.write] to
    the device's [notify], which pops chains from a [VirtQueue] in guest memory,
    serves them from the file, publishes them as used, and makes the transport
    raise its line in the [Pic].  A port or memory exit reaches a device through the
    [DeviceBus], which the [Pit] and the [IoApic] are put behind.  The task of the [Pit] raises line 0 of the same
    controller.  A migration round reads the pages the tracker
    lists from guest memory and clears the tracker.

    ** Conventions

    A method on [&mut self], or on [&self] behind locks, is a function of the
    state monad [ST], one step; the state survives an error as the code left it.
    Outcomes are [Ok], [Err] with the program's error, or [Panic]: overflow checks
    are on and panics abort in every profile, so plain arithmetic that overflows
    is [Panic ArithOverflow].  Integers are [Z] with the width written at each
    operation.  Log messages are not modelled; an error message is its format
    string and its numbers.

    ** What the theorems show

    - Memory: reads and writes never panic and behave as an array per region; a
      clone refines a flat array, whatever the traversal order of its overlay, and
      panics only for a length no buffer can have; the
      pool's accounting is exact in every reachable state and an idle fleet costs
      one baseline; the address space keeps guest and host ranges apart, and the
      builder gives the standard layout for every amount of RAM.
    - Devices: walking a chain returns exactly the chain or an error within fixed
      bounds; a slot is consumed once; completions change nothing else; serving a
      request whose buffers are in order refines an abstract disk and never changes a
      read-only one; a kick ends for a driver that leaves its rings alone, and a hostile
      ring can keep it going for ever ([drain_self_feeding]); an access of the guest
      reaches exactly the device it names, with exactly its bytes, and programming the
      timer through the bus is programming the timer ([timer_over_bus]).
    - Transport and interrupts: the bring-up sequence leaves the device as
      negotiated; the line is asserted exactly while an interrupt is
      unacknowledged; save and restore are inverse; the controller delivers by
      priority, and timer ticks refine a saturating counter.
    - Timers: the interval timer raises its interrupt at the rate of its mode and
      never panics for 173 days; a guest that polls it sees it fall behind
      ([poll_drift]) and can lose an interrupt by reading ([oneshot_interrupt_lost]).
    - Local interrupts: the bit banks refine a set of requests and a stack of
      interrupts in service, whatever is requested, written and ended; the timer
      fires with the period the code gives it.
    - I/O interrupts: a level pin refines a line with an in-service flag, an edge
      pin a one-place latch while it is masked; pins that share a vector get stuck
      ([shared_vector_stuck]) and a masked level line is lost ([masked_level_lost]).
    - Migration: the iterator over a bitmap lists exactly the dirty pages; rounds of
      pre-copy send every written byte, except one written between the reading and
      the clearing ([lost_write]); stages follow their order and rounds end; a state
      is read back as it was written, bursts of errors are caught by the checksum,
      and the reader ends on any bytes.
    - Audit chain: what is acknowledged stays in the log and verifies, whatever a failed
      write leaves behind, and a log that is not torn is resumed; two logs that end in
      one MAC are the same log, their events included, unless two of their own messages
      collide.
    - Schedules: every expression in the grammar parses to the values it names; the
      searches return the first selected minute, in UTC and across the gaps and folds
      of a zone, and say there is none only when there is none within their horizon.
    - Networking: a translated packet is right to its checksums and its replies come
      back to the endpoint that sent it, the table stays a bijection, and no packet
      makes it panic; a frame leaves exactly when a rule admits the destination its
      headers name; what a sandbox reaches is characterised for every address and name;
      the switch remembers the port an address last sent from and delivers there, and
      leaks floods between VLANs ([flood_crosses_vlans]).
    - ARM interrupts: the controller refines three sets of interrupt numbers, takes the
      one of best priority, and takes none that was not raised.
    - Translation: a stage-2 table maps each guest address at most once, translation
      panics exactly where a host range runs past 64 bits, and mapping and unmapping change exactly what they name.
    - Permissions: access is given exactly along live covering grants of the
      principal and its inherited roles; delegation never widens; role inheritance
      stays acyclic; every search ends.

    Theorems on the code's faults are next to the parts they are about:
    [VirtQueue.pop_address_overflow], [VirtioBlkMmio.serve_address_overflow],
    [MemoryCow.cow_read_spec] (the length is allocated before it is checked),
    [DeviceBus.qword_read_twice], [DeviceBus.unregistered_still_answers],
    [DeviceBus.port_access_spec] (a wide read of a free port), [Pic.vector_base_overflow],
    [Pic.cascade_request_lost], [VirtioMmio.restore_mismatch],
    [AddressSpace.zero_size_replaces], the last clause of
    [AddressSpace.write_spec] (only the first page of a write becomes dirty),
    [Stage2.translate_host_overflow], [Stage2.page_is_table],
    [Permissions.revoke_keeps_delegated], [Permissions.delegation_never_logged],
    [IoApic.shared_vector_stuck], [IoApic.masked_level_lost],
    [VmState.region_roundtrip_iff], [VmState.hostile_length], [VmState.cpu_size],
    [Migration.lost_write], [AuditChain.plus_sign_accepted],
    [AuditChain.append_after_failed_sync], [AuditChain.unterminated_merges], [Pit.tick_rate] (a
    square wave fires at half its rate), [Pit.oneshot_interrupt_lost],
    [Pit.poll_drift], [Pit.latch_never_released], [Pit.read_write_share_latch],
    [Pit.uptime_overflow], [Lapic.timer_period] (a larger divisor fires sooner),
    [Lapic.tmr_sticky], [NatTable.forward_takes_replies],
    [NatTable.udp_checksum_dropped], [NetworkPolicy.mapped_address_allowed],
    [VSwitch.flood_crosses_vlans], [VSwitch.untagged_crosses_vlans],
    [Vgic.acknowledge_cpu_panics], [Vgic.sgi_any_cpu],
    [Vgic.default_priority_silent].

    ** Loops and their bounds

    A loop that is not structural takes fuel, and running out is the outcome
    [Panic FuelExhausted], which the theorems exclude.  Copies of a buffer take
    its length, since each turn moves at least one byte; a walk of a chain takes
    the queue's own limit; [climb] the depth of a scope; the search for a role
    cycle one more than the principals (a path in an acyclic graph repeats none);
    [inherited_roles] the number of role edges and two; [is_range_mapped] the
    number of regions and two (each turn leaves one behind); a step of the bitmap's
    iterator the words and one, and all of its steps 64 for each word and one; the
    reader of a state the length of its input and one (each section takes at least
    its header); a decimal number of 64 bits has at most 20 digits; folding the carries of
    a checksum takes two turns, since the sum has 32 bits.  The loops of [Cron] are
    bounded in the source: 146098 days in UTC, which is one Gregorian cycle and the day
    it starts on, 146103 local dates in a zone, and 3000001 in a batch, which the year
    10000 ends first.  [drain] keeps its
    fuel as an argument: 65536 turns are enough for a driver that leaves its ring
    index alone, and no number is for the hostile ring.

    ** Parameters

    Code outside the repository is a class with documented laws and an instance
    that satisfies them: host allocation ([HostAlloc], and the allocator of
    [GuestMem]), the file of a disk ([BlockFile]), the order in which a hash set is
    traversed ([IterOrder] and [HashOrder], any permutation), the file system of a log
    ([FileSystem]), the calendar and the time zones of schedules ([Calendar],
    [TimeZones], with the proleptic Gregorian calendar and a zone with a fold as
    instances); the MAC, the constant-time comparison and the JSON of scalars and records
    of the audit chain are arguments of its functions, with the laws of tokens
    ([ScalarTokens]) and of a sink whose failed writes may be partial ([SinkLaws]).  Clocks are arguments.

    ** Not modelled

    The backends (KVM, WHPX, HVF) and the VMX and SVM code are calls into the
    operating system or the processor.  The virtual machine object other than its access
    handlers, the API
    servers, the cluster and the daemons are asynchronous glue over third-party
    frameworks.  The remaining devices, the PCI transport over the same queues, the
    real-time clock, snapshot files, nested paging, NUMA, the gateway and the proxies of the
    networking crate, the registers and processors of the ARM back end and the other
    modules of the agent layer are not reached. *)

(** ** Shared vocabulary of the development *)

From Stdlib Require Export ZArith Lia.
From stdpp Require Export base strings numbers option gmap list.

#[global] Open Scope Z_scope.

(** ** Outcomes of Rust code

    A call returns a value, returns one of the program's errors, or panics.
    The workspace is built with [overflow-checks = true] and
    [panic = "abort"] in the release profile as well, so an arithmetic overflow
    of a plain [+], [-] or [*] is a panic, never a wrap-around. *)

Inductive panic : Type :=
| ArithOverflow
| IndexOutOfBounds
| DivByZero
| ExpectFailed
(** A collection asked for more than [isize::MAX] bytes. *)
| CapacityOverflow
(** Not an outcome of the program: what a bounded model of a loop returns when
    its bound is too small.  Theorems on loops show it does not happen. *)
| FuelExhausted.

(** [hv2_core::Error]: the text of a message is its format string and the
    numbers formatted into it. *)
Inductive Error : Type :=
| VM (msg : string) (args : list Z)
| Cpu (msg : string) (args : list Z)
| Memory (msg : string) (args : list Z)
| Device (msg : string) (args : list Z)
| Gpu (msg : string) (args : list Z)
| Network (msg : string) (args : list Z)
| Hypervisor (msg : string) (args : list Z)
| Config (msg : string) (args : list Z)
| Io (msg : string) (args : list Z)
| Serialization (msg : string) (args : list Z)
| InvalidState (msg : string) (args : list Z)
| NotSupported (msg : string) (args : list Z)
| PermissionDenied (msg : string) (args : list Z)
| ResourceExhausted (msg : string) (args : list Z)
| InvalidMemoryAccess (address : Z).

(** [Result<A, E>], or the panic that ended the process. *)
Inductive Res (E A : Type) : Type :=
| Ok (a : A)
| Err (e : E)
| Panic (p : panic).
Arguments Ok {E A} _.
Arguments Err {E A} _.
Arguments Panic {E A} _.

Abbreviation Result := (Res Error).

#[global] Instance Res_ret {E} : MRet (Res E) := fun A a => Ok a.
#[global] Instance Res_bind {E} : MBind (Res E) := fun A B f m =>
  match m with Ok a => f a | Err e => Err e | Panic p => Panic p end.
#[global] Instance Res_fmap {E} : FMap (Res E) := fun A B f m =>
  match m with Ok a => Ok (f a) | Err e => Err e | Panic p => Panic p end.

(** Methods on [&mut self]: the state survives an error with whatever was
    written before it, exactly as a mutable borrow does. *)
Definition ST (S E A : Type) : Type := S -> Res E A * S.

#[global] Instance ST_ret {S E} : MRet (ST S E) := fun A a s => (Ok a, s).
#[global] Instance ST_bind {S E} : MBind (ST S E) := fun A B f m s =>
  match m s with
  | (Ok a, s') => f a s'
  | (Err e, s') => (Err e, s')
  | (Panic p, s') => (Panic p, s')
  end.

(** A computation that leaves the state alone, one that reads it, one that
    replaces it. *)
Definition st_lift {S E A} (r : Res E A) : ST S E A := fun s => (r, s).
Definition st_gets {S E A} (f : S -> A) : ST S E A := fun s => (Ok (f s), s).
Definition st_read {S E A} (f : S -> Res E A) : ST S E A := fun s => (f s, s).
Definition st_modify {S E} (f : S -> S) : ST S E unit := fun s => (Ok tt, f s).

(** A method of one half of a pair of objects. *)
Definition st_fst {S T E A} (c : ST S E A) : ST (S * T) E A :=
  fun '(s, t) => let '(r, s') := c s in (r, (s', t)).
Definition st_snd {S T E A} (c : ST T E A) : ST (S * T) E A :=
  fun '(s, t) => let '(r, t') := c t in (r, (s, t')).

Definition is_panic {E A} (r : Res E A) : bool :=
  match r with Panic _ => true | _ => false end.
Definition is_ok {E A} (r : Res E A) : bool :=
  match r with Ok _ => true | _ => false end.
(** [Result::ok]. *)
Definition res_ok {E A} (r : Res E A) : option A :=
  match r with Ok a => Some a | _ => None end.
(** [Option::ok_or]. *)
Definition ok_or {E A} (o : option A) (e : E) : Res E A :=
  match o with Some a => Ok a | None => Err e end.

Lemma bind_Ok {E A B} (m : Res E A) (k : A -> Res E B) b :
  (m ≫= k) = Ok b -> exists a, m = Ok a /\ k a = Ok b.
Proof. destruct m; simpl; naive_solver. Qed.

Lemma bind_assoc_res {E A B D} (m : Res E A) (f : A -> Res E B) (g : B -> Res E D) :
  ((m ≫= f) ≫= g) = (m ≫= fun a => f a ≫= g).
Proof. by destruct m. Qed.

Lemma bind_no_panic {E A B} (m : Res E A) (k : A -> Res E B) :
  is_panic m = false ->
  (forall a, m = Ok a -> is_panic (k a) = false) ->
  is_panic (m ≫= k) = false.
Proof. destruct m; simpl; naive_solver. Qed.

(** Stepping through a computation: each is an equation of the monad. *)
Lemma st_bind_eq {S E A B} (m : ST S E A) (k : A -> ST S E B) s :
  (m ≫= k) s = match m s with
               | (Ok a, s') => k a s' | (Err e, s') => (Err e, s') | (Panic p, s') => (Panic p, s')
               end.
Proof. done. Qed.

Lemma st_bind_lift {S E A B} (r : Res E A) (k : A -> ST S E B) s :
  (st_lift r ≫= k) s = match r with Ok a => k a s | Err e => (Err e, s) | Panic p => (Panic p, s) end.
Proof. by destruct r. Qed.

Lemma st_bind_read {S E A B} (f : S -> Res E A) (k : A -> ST S E B) s :
  (st_read f ≫= k) s =
  match f s with Ok a => k a s | Err e => (Err e, s) | Panic p => (Panic p, s) end.
Proof. unfold st_read. rewrite st_bind_eq. by destruct (f s). Qed.

Lemma st_bind_gets {S E A B} (f : S -> A) (k : A -> ST S E B) s :
  (st_gets f ≫= k) s = k (f s) s.
Proof. done. Qed.

Lemma st_bind_modify {S E B} (f : S -> S) (k : unit -> ST S E B) s :
  (st_modify f ≫= k) s = k tt (f s).
Proof. done. Qed.

Lemma st_bind_Ok {S E A B} (m : ST S E A) (k : A -> ST S E B) s b s'' :
  (m ≫= k) s = (Ok b, s'') -> exists a s', m s = (Ok a, s') /\ k a s' = (Ok b, s'').
Proof.
  unfold mbind, ST_bind. destruct (m s) as [[a|e|p] s']; [eauto|done..].
Qed.

Lemma st_read_Ok {S E A} (f : S -> Res E A) s a s' :
  st_read f s = (Ok a, s') -> f s = Ok a /\ s' = s.
Proof. unfold st_read. intros [= ? ->]. done. Qed.

Lemma st_lift_Ok {S E A} (r : Res E A) (s : S) a s' :
  st_lift r s = (Ok a, s') -> r = Ok a /\ s' = s.
Proof. unfold st_lift. intros [= ? ->]. done. Qed.

Lemma st_gets_Ok {S E A} (f : S -> A) (s : S) a s' :
  st_gets (E:=E) f s = (Ok a, s') -> a = f s /\ s' = s.
Proof. unfold st_gets. by intros [= <- <-]. Qed.

Lemma st_modify_Ok {S E} (f : S -> S) (s : S) u s' :
  st_modify (E:=E) f s = (Ok u, s') -> s' = f s.
Proof. unfold st_modify. by intros [= _ <-]. Qed.

Lemma st_ret_Ok {S E A} (a : A) (s : S) b s' :
  (mret a : ST S E A) s = (Ok b, s') -> b = a /\ s' = s.
Proof. unfold mret, ST_ret. by intros [= <- <-]. Qed.

(** ** Machine integers: values in [Z], the width written at each operation *)

Abbreviation usize_bits := 64 (only parsing).

Definition fits (w z : Z) : Prop := 0 <= z < 2 ^ w.
#[global] Instance fits_dec w z : Decision (fits w z).
Proof. unfold fits. apply _. Defined.

(** Plain [+], [-], [*] under overflow checks. *)
Definition add {E} (w a b : Z) : Res E Z :=
  if a + b <? 2 ^ w then Ok (a + b) else Panic ArithOverflow.
Definition sub {E} (a b : Z) : Res E Z :=
  if b <=? a then Ok (a - b) else Panic ArithOverflow.
Definition mul {E} (w a b : Z) : Res E Z :=
  if a * b <? 2 ^ w then Ok (a * b) else Panic ArithOverflow.

(** The explicit overflow families of the standard library. *)
Definition checked_add (w a b : Z) : option Z :=
  if a + b <? 2 ^ w then Some (a + b) else None.
Definition checked_sub (a b : Z) : option Z :=
  if b <=? a then Some (a - b) else None.
Definition checked_mul (w a b : Z) : option Z :=
  if a * b <? 2 ^ w then Some (a * b) else None.
Definition saturating_add (w a b : Z) : Z := Z.min (a + b) (2 ^ w - 1).
Definition saturating_sub (a b : Z) : Z := Z.max (a - b) 0.
Definition wrapping_add (w a b : Z) : Z := (a + b) mod 2 ^ w.
Definition wrapping_sub (w a b : Z) : Z := (a - b) mod 2 ^ w.

(** [as uN]: truncation. *)
Definition trunc (w z : Z) : Z := z mod 2 ^ w.
(** [!x] at width [w]. *)
Definition bnot (w z : Z) : Z := 2 ^ w - 1 - z.
(** [x & mask != 0]. *)
Definition has (x mask : Z) : bool := negb (Z.land x mask =? 0).

(** [u16::is_power_of_two] and friends. *)
Definition is_power_of_two (z : Z) : bool := (0 <? z) && (Z.land z (z - 1) =? 0).

Lemma testbit_log2_top z l : 0 <= l -> 2 ^ l <= z < 2 ^ (l + 1) -> Z.testbit z l = true.
Proof.
  intros Hl [H1 H2]. rewrite Z.testbit_true by done.
  replace (z / 2 ^ l) with 1; [done|].
  apply Z.div_unique with (z - 2 ^ l); [|lia]. rewrite Z.pow_add_r in H2 by lia. lia.
Qed.

Lemma is_power_of_two_spec z : is_power_of_two z = true -> exists k, 0 <= k /\ z = 2 ^ k.
Proof.
  unfold is_power_of_two. intros [Hz Hl]%andb_true_iff.
  apply Z.ltb_lt in Hz. apply Z.eqb_eq in Hl.
  pose proof (Z.log2_spec z Hz) as Hlog. pose proof (Z.log2_nonneg z).
  exists (Z.log2 z). split; [done|]. destruct (Z.eq_dec z (2 ^ Z.log2 z)) as [|Hne]; [done|].
  exfalso. apply (f_equal (fun x => Z.testbit x (Z.log2 z))) in Hl.
  rewrite Z.land_spec, !testbit_log2_top, Z.bits_0 in Hl by lia. done.
Qed.

(** ** Bytes *)

Abbreviation bytes := (list Z).
Definition is_byte (b : Z) : Prop := 0 <= b < 256.

(** [to_le_bytes] of an [8 * n]-bit integer and its inverse. *)
Definition to_le_bytes (n : Z) (z : Z) : bytes := Z_to_little_endian n 8 z.
Definition from_le_bytes (bs : bytes) : Z := little_endian_to_Z 8 bs.

Lemma bytes_forallb (bs : bytes) :
  forallb (fun b => (0 <=? b) && (b <? 256)) bs = true -> Forall is_byte bs.
Proof.
  rewrite forallb_forall, Forall_forall. intros H b Hb. apply list_elem_of_In, H in Hb.
  apply andb_true_iff in Hb as [?%Z.leb_le ?%Z.ltb_lt]. done.
Qed.

Lemma from_to_le_bytes n z :
  0 <= n -> 0 <= z < 2 ^ (8 * n) -> from_le_bytes (to_le_bytes n z) = z.
Proof.
  intros Hn Hz. unfold from_le_bytes, to_le_bytes.
  rewrite little_endian_to_Z_to_little_endian by lia.
  rewrite (Z.mul_comm n 8). by apply Z.mod_small.
Qed.

Lemma length_to_le_bytes n z : 0 <= n -> Z.of_nat (length (to_le_bytes n z)) = n.
Proof. intros. unfold to_le_bytes. by rewrite length_Z_to_little_endian by lia. Qed.

Lemma to_le_bytes_byte n z : 0 <= n -> Forall is_byte (to_le_bytes n z).
Proof. intros. apply (Z_to_little_endian_bound n 8 z); lia. Qed.

Lemma from_le_bytes_bound bs :
  Forall is_byte bs -> 0 <= from_le_bytes bs < 2 ^ (8 * Z.of_nat (length bs)).
Proof.
  intros H. unfold from_le_bytes. rewrite (Z.mul_comm 8).
  apply little_endian_to_Z_bound; [lia|done].
Qed.

(** ** Slices: [&l\[off..off+n\]] panics outside the vector. *)

Definition slice {A} (l : list A) (off n : Z) : list A :=
  take (Z.to_nat n) (drop (Z.to_nat off) l).

Definition slice_ck {E A} (l : list A) (off n : Z) : Res E (list A) :=
  if (0 <=? off) && (0 <=? n) && (off + n <=? Z.of_nat (length l))
  then Ok (slice l off n) else Panic IndexOutOfBounds.

(** [vec!\[0u8; n\]]: it panics past [isize::MAX] bytes.  An allocator that has no
    memory to give aborts the process, and is not modelled. *)
Definition vec_zeroed {E} (n : Z) : Res E (list Z) :=
  if n <? 2 ^ 63 then Ok (replicate (Z.to_nat n) 0) else Panic CapacityOverflow.

(** [l\[off..off+len d\].copy_from_slice(d)]. *)
Definition splice {A} (l : list A) (off : Z) (d : list A) : list A :=
  take (Z.to_nat off) l ++ d ++ drop (Z.to_nat off + length d) l.

Definition splice_ck {E A} (l : list A) (off : Z) (d : list A) : Res E (list A) :=
  if (0 <=? off) && (off + Z.of_nat (length d) <=? Z.of_nat (length l))
  then Ok (splice l off d) else Panic IndexOutOfBounds.

(** ** Bits of a word *)

Lemma fits_testbit w z i : fits w z -> 0 <= w <= i -> Z.testbit z i = false.
Proof.
  intros [? ?] ?. destruct (decide (z = 0)) as [->|]; [apply Z.bits_0|].
  apply Z.bits_above_log2; [done|]. apply Z.log2_lt_pow2; [lia|].
  eapply Z.lt_le_trans; [done|]. apply Z.pow_le_mono_r; lia.
Qed.

Lemma fits_of_bits w z : 0 <= w -> 0 <= z -> (forall i, w <= i -> Z.testbit z i = false) -> fits w z.
Proof.
  intros ?? Hb. split; [done|]. destruct (decide (z = 0)) as [->|]; [by apply Z.pow_pos_nonneg|].
  apply Z.log2_lt_pow2; [lia|]. destruct (Z.lt_ge_cases (Z.log2 z) w); [done|].
  specialize (Hb (Z.log2 z) ltac:(done)). rewrite Z.bit_log2 in Hb by lia. done.
Qed.

Lemma fits_land w a b : fits w a -> 0 <= b -> fits w (Z.land a b).
Proof.
  intros Ha ?. assert (0 <= w).
  { destruct (Z.lt_ge_cases w 0) as [Hw|]; [|done]. destruct Ha. rewrite Z.pow_neg_r in * by done. lia. }
  apply fits_of_bits; [done|by apply Z.land_nonneg; right|].
  intros i ?. by rewrite Z.land_spec, (fits_testbit w a).
Qed.

Lemma fits_lor w a b : 0 <= w -> fits w a -> fits w b -> fits w (Z.lor a b).
Proof.
  intros ? Ha Hb. apply fits_of_bits; [done|apply Z.lor_nonneg; split; apply Ha || apply Hb|].
  intros i ?. rewrite Z.lor_spec, (fits_testbit w a), (fits_testbit w b) by (done || lia). done.
Qed.

Lemma fits_bnot w z : fits w z -> fits w (bnot w z).
Proof. unfold fits, bnot. lia. Qed.

Lemma testbit_bnot w z i : fits w z -> 0 <= i < w -> Z.testbit (bnot w z) i = negb (Z.testbit z i).
Proof.
  intros [? ?] ?. assert (bnot w z = Z.lnot z mod 2 ^ w) as ->.
  { unfold bnot. apply Z.mod_unique_pos with (q := -1); [lia|].
    pose proof (Z.add_lnot_diag z). lia. }
  rewrite Z.mod_pow2_bits_low by lia. apply Z.lnot_spec. lia.
Qed.

Lemma testbit_shift1 i j : 0 <= i -> Z.testbit (Z.shiftl 1 i) j = (i =? j).
Proof.
  intros. rewrite Z.shiftl_mul_pow2, Z.mul_1_l by done.
  destruct (Z.eqb_spec i j) as [->|]; [by apply Z.pow2_bits_true|by apply Z.pow2_bits_false].
Qed.

Lemma fits_shift1 w k : 0 <= k < w -> fits w (Z.shiftl 1 k).
Proof.
  intros Hk. unfold fits. rewrite Z.shiftl_mul_pow2, Z.mul_1_l by lia.
  split; [apply Z.pow_nonneg; lia|apply Z.pow_lt_mono_r; lia].
Qed.

Lemma has_bit x i : 0 <= i -> has x (Z.shiftl 1 i) = Z.testbit x i.
Proof.
  intros. unfold has. destruct (Z.testbit x i) eqn:E.
  - apply negb_true_iff, Z.eqb_neq. intros Hz.
    assert (Z.testbit (Z.land x (Z.shiftl 1 i)) i = true) as Ht
      by (by rewrite Z.land_spec, E, testbit_shift1, Z.eqb_refl).
    rewrite Hz, Z.bits_0 in Ht. done.
  - apply negb_false_iff, Z.eqb_eq, Z.bits_inj_iff'. intros j Hj.
    rewrite Z.land_spec, Z.bits_0, testbit_shift1 by done.
    destruct (Z.eqb_spec i j) as [->|]; [by rewrite E|apply andb_false_r].
Qed.

Lemma fits_eq w a b : fits w a -> fits w b -> 0 <= w ->
  (forall i, 0 <= i < w -> Z.testbit a i = Z.testbit b i) -> a = b.
Proof.
  intros Ha Hb ? He. apply Z.bits_inj_iff'. intros i ?. destruct (Z.lt_ge_cases i w).
  - by apply He.
  - by rewrite (fits_testbit w a), (fits_testbit w b).
Qed.

(** Two bytes as a number of 16 bits. *)
Lemma be16_eq a b : 0 <= a < 256 -> 0 <= b < 256 -> Z.lor (Z.shiftl a 8) b = 256 * a + b.
Proof.
  intros Ha Hb. pose proof (Z.add_lor_land (Z.shiftl a 8) b) as E. assert (Z.land (Z.shiftl a 8) b = 0) as E0.
  { apply Z.bits_inj'. intros n Hn. rewrite Z.land_spec, Z.bits_0. destruct (Z.ltb_spec n 8).
    - by rewrite Z.shiftl_spec_low.
    - rewrite (fits_testbit 8 b n); [apply andb_false_r|done|lia]. }
  rewrite E0, Z.shiftl_mul_pow2 in E by lia. rewrite Z.shiftl_mul_pow2 by lia. change (2 ^ 8) with 256 in *. lia.
Qed.

(** ** Bits of a word in order *)

(** [trailing_zeros] on words that are not zero: the least set bit. *)
Fixpoint trailing_zeros_from (fuel : nat) (i z : Z) : Z :=
  match fuel with
  | O => i
  | S fuel' => if Z.testbit z i then i else trailing_zeros_from fuel' (i + 1) z
  end.

(** [div_ceil]. *)
Definition div_ceil (a b : Z) : Z := (a + b - 1) / b.

Lemma div_ceil_spec a b : 0 < b -> a <= div_ceil a b * b < a + b.
Proof. intros. unfold div_ceil. pose proof (Z.div_mod (a + b - 1) b). pose proof (Z.mod_pos_bound (a + b - 1) b). lia. Qed.

Lemma trailing_zeros_from_spec fuel i z :
  0 <= i -> (forall j, 0 <= j < i -> Z.testbit z j = false) ->
  let r := trailing_zeros_from fuel i z in
  (forall j, 0 <= j < r -> Z.testbit z j = false) /\ i <= r <= i + Z.of_nat fuel /\
  (r < i + Z.of_nat fuel -> Z.testbit z r = true).
Proof.
  revert i. induction fuel as [|fuel IH]; intros i Hi Hz; simpl; [split_and!; try done; lia|].
  destruct (Z.testbit z i) eqn:E; [split_and!; try done; lia|].
  destruct (IH (i + 1)) as (? & ? & Ht); [lia| |].
  - intros j ?. destruct (decide (j = i)) as [->|]; [done|]. apply Hz. lia.
  - split_and!; try done; try lia. intros. apply Ht. lia.
Qed.

Lemma first_bit (w : nat) z :
  fits (Z.of_nat w) z -> z <> 0 ->
  0 <= trailing_zeros_from w 0 z < Z.of_nat w /\ Z.testbit z (trailing_zeros_from w 0 z) = true /\
  (forall j, 0 <= j < trailing_zeros_from w 0 z -> Z.testbit z j = false).
Proof.
  intros Hz Hn. destruct (trailing_zeros_from_spec w 0 z) as (Hlow & Hr & Ht); [lia|intros; lia|].
  set (t := trailing_zeros_from w 0 z) in *.
  assert (t < Z.of_nat w); [|split_and!; try done; [lia|apply Ht; lia]].
  destruct (Z.lt_ge_cases t (Z.of_nat w)); [done|]. exfalso. apply Hn.
  apply (fits_eq (Z.of_nat w)); [done|unfold fits; lia|lia|]. intros i ?. rewrite Z.bits_0. apply Hlow. lia.
Qed.

(** [x & (x - 1)]: the word without its least set bit. *)
Lemma clear_lowest_bit x t i :
  0 <= t -> Z.testbit x t = true -> (forall j, 0 <= j < t -> Z.testbit x j = false) -> 0 <= i ->
  Z.testbit (Z.land x (x - 1)) i = Z.testbit x i && negb (i =? t).
Proof.
  intros Ht Hx Hlow Hi. rewrite Z.land_spec.
  assert (x mod 2 ^ t = 0) as Hm.
  { apply Z.bits_inj'. intros j Hj. rewrite Z.bits_0. destruct (Z.lt_ge_cases j t).
    - rewrite Z.mod_pow2_bits_low by lia. apply Hlow. lia.
    - by apply Z.mod_pow2_bits_high. }
  apply Z.mod_divide in Hm as [q Hq]; [|lia]. rewrite <- Z.shiftl_mul_pow2 in Hq by done.
  assert (Z.odd q = true) as Hodd.
  { rewrite Hq, Z.shiftl_spec, Z.sub_diag, Z.bit0_odd in Hx by done. done. }
  destruct (Z.lt_trichotomy i t) as [Hlt|[->|Hgt]].
  - by rewrite Hlow by lia.
  - rewrite Z.eqb_refl, Hx. simpl.
    replace (x - 1) with ((q - 1) * 2 ^ t + (2 ^ t - 1)) by (rewrite Hq, Z.shiftl_mul_pow2 by done; ring).
    rewrite Z.testbit_odd, Z.shiftr_div_pow2, Z.div_add_l, (Z.div_small (2 ^ t - 1)), Z.add_0_r by lia.
    by rewrite Z.odd_sub, Hodd.
  - rewrite (proj2 (Z.eqb_neq i t)) by lia. simpl. rewrite andb_true_r.
    enough (Z.testbit (x - 1) i = Z.testbit x i) as -> by apply andb_diag.
    replace (x - 1) with ((q - 1) * 2 ^ t + (2 ^ t - 1)) by (rewrite Hq, Z.shiftl_mul_pow2 by done; ring).
    rewrite !Z.testbit_odd, !Z.shiftr_div_pow2 by lia. replace i with (t + (i - t)) by lia.
    rewrite Z.pow_add_r, <- !Z.div_div, Z.div_add_l, (Z.div_small (2 ^ t - 1)), Z.add_0_r by lia.
    rewrite Hq, Z.shiftl_mul_pow2, Z.div_mul by lia.
    replace (2 ^ (i - t)) with (2 * 2 ^ (i - t - 1)) by (rewrite <- Z.pow_succ_r by lia; f_equal; lia).
    rewrite <- !Z.div_div by lia. do 2 f_equal. rewrite (Z.div_mod q 2), Zmod_odd, Hodd by lia.
    replace (2 * (q / 2) + 1 - 1) with (q / 2 * 2) by ring. rewrite Z.div_mul by lia.
    rewrite Z.mul_comm, Z.div_add_l by lia. by rewrite Z.add_0_r.
Qed.

(** ** Automation *)

(** Turns boolean tests of the code into propositions, in the goal and the
    hypotheses, splitting the [if]s it meets. *)
Ltac bool_to_prop :=
  repeat match goal with
  | H : (_ && _)%bool = true |- _ => apply andb_true_iff in H; destruct H
  | H : (_ && _)%bool = false |- _ => apply andb_false_iff in H
  | H : (_ || _)%bool = true |- _ => apply orb_true_iff in H
  | H : (_ || _)%bool = false |- _ => apply orb_false_iff in H; destruct H
  | H : negb _ = true |- _ => apply negb_true_iff in H
  | H : negb _ = false |- _ => apply negb_false_iff in H
  | H : (_ <? _) = true |- _ => apply Z.ltb_lt in H
  | H : (_ <? _) = false |- _ => apply Z.ltb_ge in H
  | H : (_ <=? _) = true |- _ => apply Z.leb_le in H
  | H : (_ <=? _) = false |- _ => apply Z.leb_gt in H
  | H : (_ =? _) = true |- _ => apply Z.eqb_eq in H
  | H : (_ =? _) = false |- _ => apply Z.eqb_neq in H
  end.

(** Splits the innermost [if]/[match] of the goal and cleans up. *)
Ltac split_if :=
  match goal with
  | |- context [if ?b then _ else _] => destruct b eqn:?
  end; bool_to_prop.

(** Splits on every integer comparison of the goal. *)
Ltac zcases :=
  repeat match goal with
  | |- context [?a <? ?b] => destruct (Z.ltb_spec a b)
  | |- context [?a <=? ?b] => destruct (Z.leb_spec a b)
  | |- context [?a =? ?b] => destruct (Z.eqb_spec a b)
  end; simpl.

(** Inverts a successful chain of binds in a hypothesis. *)
Ltac inv_ok :=
  repeat match goal with
  | H : (_ ≫= _) = Ok _ |- _ => apply bind_Ok in H as (? & ? & H)
  | H : Ok _ = Ok _ |- _ => injection H as H
  | H : Err _ = Ok _ |- _ => discriminate H
  | H : Panic _ = Ok _ |- _ => discriminate H
  | H : mret _ = Ok _ |- _ => injection H as H
  end.

(** The same for the state monad. *)
Ltac inv_st :=
  repeat match goal with
  | H : (_ ≫= _) _ = (Ok _, _) |- _ => apply st_bind_Ok in H as (? & ? & ? & H)
  | H : st_read _ _ = (Ok _, _) |- _ => apply st_read_Ok in H as [? ?]
  | H : st_lift _ _ = (Ok _, _) |- _ => apply st_lift_Ok in H as [? ?]
  | H : st_gets _ _ = (Ok _, _) |- _ => apply st_gets_Ok in H as [? ?]
  | H : st_modify _ _ = (Ok _, _) |- _ => apply st_modify_Ok in H
  | H : mret _ _ = (Ok _, _) |- _ => apply st_ret_Ok in H as [? ?]
  end; subst.

Lemma add_ok {E} w a b : a + b < 2 ^ w -> add (E:=E) w a b = Ok (a + b).
Proof. intros. unfold add. by rewrite (proj2 (Z.ltb_lt _ _)). Qed.
Lemma add_inv {E} w a b c : add (E:=E) w a b = Ok c -> c = a + b /\ a + b < 2 ^ w.
Proof. unfold add. split_if; naive_solver. Qed.
Lemma sub_ok {E} a b : b <= a -> sub (E:=E) a b = Ok (a - b).
Proof. intros. unfold sub. by rewrite (proj2 (Z.leb_le _ _)). Qed.
Lemma mul_ok {E} w a b : a * b < 2 ^ w -> mul (E:=E) w a b = Ok (a * b).
Proof. intros. unfold mul. by rewrite (proj2 (Z.ltb_lt _ _)). Qed.

(** ** Facts on slices *)

Lemma slice_ck_ok {E A} (l : list A) off n :
  0 <= off -> 0 <= n -> off + n <= Z.of_nat (length l) -> slice_ck (E:=E) l off n = Ok (slice l off n).
Proof. intros. unfold slice_ck. by rewrite !(proj2 (Z.leb_le _ _)) by lia. Qed.

Lemma vec_zeroed_ok {E} n : n < 2 ^ 63 -> vec_zeroed (E:=E) n = Ok (replicate (Z.to_nat n) 0).
Proof. intros. unfold vec_zeroed. by rewrite (proj2 (Z.ltb_lt _ _)). Qed.

Lemma length_slice {A} (l : list A) off n :
  0 <= off -> 0 <= n -> off + n <= Z.of_nat (length l) ->
  Z.of_nat (length (slice l off n)) = n.
Proof. intros. unfold slice. rewrite length_take, length_drop. lia. Qed.

(** Bytes in the middle of a buffer, and the number they are. *)
Lemma slice_ck_mid {E} l (pre m post : bytes) off n :
  l = pre ++ m ++ post -> off = Z.of_nat (length pre) -> n = Z.of_nat (length m) -> slice_ck (E:=E) l off n = Ok m.
Proof.
  intros -> -> ->. rewrite slice_ck_ok by (rewrite ?length_app; lia). f_equal. unfold slice.
  by rewrite !Nat2Z.id, drop_app_length, take_app_length.
Qed.

Lemma slice_fits (bs : bytes) off n :
  Forall is_byte bs -> 0 <= off -> 0 <= n -> off + n <= Z.of_nat (length bs) ->
  fits (8 * n) (from_le_bytes (slice bs off n)).
Proof.
  intros Hb Ho Hn Hl. unfold fits. pose proof (from_le_bytes_bound (slice bs off n)) as Hr.
  rewrite length_slice in Hr by done. apply Hr. by apply Forall_take, Forall_drop.
Qed.

Lemma length_splice {A} (l d : list A) off :
  0 <= off -> off + Z.of_nat (length d) <= Z.of_nat (length l) ->
  length (splice l off d) = length l.
Proof.
  intros. unfold splice. rewrite !length_app, length_take, length_drop. lia.
Qed.

Lemma lookup_slice {A} (l : list A) off n i :
  slice l off n !! i =
  if bool_decide (Z.of_nat i < n) then l !! (Z.to_nat off + i)%nat else None.
Proof.
  unfold slice. case_bool_decide.
  - rewrite lookup_take_lt by lia. apply lookup_drop.
  - apply lookup_take_ge. lia.
Qed.

Lemma lookup_splice {A} (l d : list A) off i :
  0 <= off -> off + Z.of_nat (length d) <= Z.of_nat (length l) ->
  splice l off d !! i =
  if bool_decide (off <= Z.of_nat i < off + Z.of_nat (length d))
  then d !! (i - Z.to_nat off)%nat else l !! i.
Proof.
  intros Hoff Hlen. unfold splice. case_bool_decide as Hi.
  - rewrite lookup_app_r; rewrite length_take; [|lia].
    rewrite lookup_app_l by lia. f_equal. lia.
  - destruct (decide (Z.of_nat i < off)).
    + rewrite lookup_app_l by (rewrite length_take; lia).
      apply lookup_take_lt. lia.
    + rewrite lookup_app_r by (rewrite length_take; lia).
      rewrite lookup_app_r by (rewrite length_take; lia).
      rewrite length_take, lookup_drop. f_equal. lia.
Qed.

Lemma slice_app {A} (l : list A) off n m :
  0 <= off -> 0 <= n -> 0 <= m ->
  slice l off (n + m) = slice l off n ++ slice l (off + n) m.
Proof.
  intros. unfold slice. rewrite Z2Nat.inj_add by lia.
  rewrite <-take_take_drop, drop_drop. do 2 f_equal. f_equal. lia.
Qed.

Lemma slice_0 {A} (l : list A) off : slice l off 0 = [].
Proof. apply take_0. Qed.

Lemma slice_all {A} (l : list A) n :
  n = Z.of_nat (length l) -> slice l 0 n = l.
Proof. intros ->. unfold slice. rewrite Nat2Z.id. apply take_ge. done. Qed.

Lemma slice_splice_same {A} (l d : list A) off n :
  n = Z.of_nat (length d) ->
  0 <= off -> off + n <= Z.of_nat (length l) ->
  slice (splice l off d) off n = d.
Proof.
  intros -> ??. apply list_eq. intros i.
  rewrite lookup_slice. case_bool_decide.
  - rewrite lookup_splice, bool_decide_true by lia. f_equal. lia.
  - symmetry. apply lookup_ge_None. lia.
Qed.

Lemma slice_splice_disjoint {A} (l d : list A) off off' n :
  0 <= off -> off + Z.of_nat (length d) <= Z.of_nat (length l) ->
  0 <= off' -> off' + n <= off \/ off + Z.of_nat (length d) <= off' ->
  slice (splice l off d) off' n = slice l off' n.
Proof.
  intros. apply list_eq. intros i. rewrite !lookup_slice.
  case_bool_decide; [|done]. by rewrite lookup_splice, bool_decide_false by lia.
Qed.

(** Splicing a buffer in two adjacent pieces is splicing it at once. *)
Lemma splice_app {A} (l d e : list A) off :
  0 <= off -> off + Z.of_nat (length (d ++ e)) <= Z.of_nat (length l) ->
  splice (splice l off d) (off + Z.of_nat (length d)) e = splice l off (d ++ e).
Proof.
  rewrite length_app. intros. apply list_eq. intros i.
  rewrite !lookup_splice by (rewrite ?length_splice, ?length_app; lia).
  rewrite length_app.
  repeat case_bool_decide; try lia.
  - rewrite lookup_app_r by lia. f_equal. lia.
  - by rewrite lookup_app_l by lia.
  - done.
Qed.

Lemma splice_nil {A} (l : list A) off : splice l off [] = l.
Proof. unfold splice. simpl. rewrite Nat.add_0_r. apply take_drop. Qed.

(** ** Facts on [List.find], the shape of the code's first-match loops *)

Lemma find_app {A} (f : A -> bool) (l k : list A) :
  List.find f (l ++ k) =
  match List.find f l with Some x => Some x | None => List.find f k end.
Proof. induction l as [|x l IH]; simpl; [done|]. by destruct (f x). Qed.

Lemma find_lookup {A} (f : A -> bool) (l : list A) x :
  List.find f l = Some x -> exists i, l !! i = Some x /\ f x = true.
Proof.
  intros [Hin Hf]%List.find_some.
  apply list_elem_of_In, list_elem_of_lookup in Hin as [i Hi]. eauto.
Qed.

Lemma find_None_lookup {A} (f : A -> bool) (l : list A) i x :
  List.find f l = None -> l !! i = Some x -> f x = false.
Proof.
  intros Hn Hi. eapply List.find_none; [done|].
  by apply list_elem_of_In; eapply list_elem_of_lookup_2.
Qed.

Create HintDb hm.
Create Rewrite HintDb hm.
#[export] Hint Rewrite @length_fmap @length_replicate length_seqZ : hm.

(** ** Invariants of stateful code

    A computation keeps a predicate of its state and does not panic. *)

Definition keeps {S E A} (P : S -> Prop) (f : ST S E A) : Prop :=
  forall s, P s -> P (f s).2 /\ is_panic (f s).1 = false.

Lemma keeps_bind_val {S E A B} (P : S -> Prop) (Q : A -> Prop) (f : ST S E A) (k : A -> ST S E B) :
  keeps P f -> (forall s a s', P s -> f s = (Ok a, s') -> Q a) -> (forall a, Q a -> keeps P (k a)) -> keeps P (f ≫= k).
Proof.
  intros Hf Hq Hk s Hs. destruct (Hf s Hs) as [Hs' Hp]. rewrite st_bind_eq. destruct (f s) as [[a|e|p] s'] eqn:Ef; [|done..].
  apply Hk; [exact (Hq s a s' Hs Ef)|done].
Qed.

Lemma keeps_bind {S E A B} (P : S -> Prop) (f : ST S E A) (k : A -> ST S E B) :
  keeps P f -> (forall a, keeps P (k a)) -> keeps P (f ≫= k).
Proof. intros Hf Hk. apply (keeps_bind_val P (fun _ => True)); auto. Qed.

Lemma keeps_ret {S E A} (P : S -> Prop) (a : A) : keeps P (mret a : ST S E A).
Proof. by intros s Hs. Qed.

Lemma keeps_gets {S E A} (P : S -> Prop) (f : S -> A) : keeps P (st_gets (E:=E) f).
Proof. by intros s Hs. Qed.

Lemma keeps_lift {S E A} (P : S -> Prop) (r : Res E A) : is_panic r = false -> keeps P (st_lift r).
Proof. by intros Hr s Hs. Qed.

Lemma keeps_modify {S E} (P : S -> Prop) (f : S -> S) : (forall s, P s -> P (f s)) -> keeps P (st_modify (E:=E) f).
Proof. intros Hf s Hs. split; [by apply Hf|done]. Qed.

Create HintDb keeps discriminated.
#[export] Hint Resolve keeps_ret keeps_gets keeps_modify keeps_bind : keeps.
