(* ===== verification/BTree.v ===== *)
(** * Ordered maps

    [BTreeMap] keyed by machine integers, as the list of its entries in key
    order: iteration is the list, and the operations keep it sorted. *)

From Stdlib Require Export Sorting.Sorted.
From S2P Require Import Prelude.

Section BTree.
Context {V : Type}.

Fixpoint bt_insert (k : Z) (v : V) (l : list (Z * V)) : list (Z * V) :=
  match l with
  | [] => [(k, v)]
  | (k', v') :: l' =>
      if k <? k' then (k, v) :: l
      else if k =? k' then (k, v) :: l'
      else (k', v') :: bt_insert k v l'
  end.

Fixpoint bt_get (k : Z) (l : list (Z * V)) : option V :=
  match l with
  | [] => None
  | (k', v) :: l' => if k =? k' then Some v else bt_get k l'
  end.

Definition bt_remove (k : Z) (l : list (Z * V)) : list (Z * V) :=
  List.filter (fun kv => negb (kv.1 =? k)) l.

Definition key_lt (a b : Z * V) : Prop := a.1 < b.1.

Abbreviation bt_sorted := (StronglySorted key_lt).

Lemma bt_insert_elem k v l x :
  bt_sorted l -> x ∈ bt_insert k v l <-> x = (k, v) \/ (x ∈ l /\ x.1 <> k).
Proof.
  induction 1 as [|[k' v'] l Hs IH Hk]; simpl.
  { rewrite list_elem_of_singleton, elem_of_nil. tauto. }
  assert (forall y, y ∈ l -> k' < y.1) as Hlt by exact (proj1 (Forall_forall _ _) Hk).
  destruct (Z.ltb_spec k k') as [Hl|Hl]; [|destruct (Z.eqb_spec k k') as [->|Hne]].
  - rewrite !elem_of_cons. split; [|tauto]. intros [?|Hx]; [by left|right].
    split; [done|]. destruct Hx as [->|Hx]; [simpl; lia|]. specialize (Hlt x Hx). lia.
  - rewrite !elem_of_cons. split.
    + intros [?|Hx]; [by left|right]. split; [by right|]. specialize (Hlt x Hx). lia.
    + intros [?|[[->|?] Hx]]; [by left|done|by right].
  - rewrite !elem_of_cons, IH. split.
    + intros [->|[?|[? ?]]]; [right; split; [by left|simpl; lia]|by left|right; split; [by right|done]].
    + intros [?|[[?|?] ?]]; tauto.
Qed.

Lemma bt_insert_sorted k v l : bt_sorted l -> bt_sorted (bt_insert k v l).
Proof.
  induction 1 as [|[k' v'] l Hs IH Hk]; simpl; [repeat constructor|].
  pose proof (proj1 (Forall_forall _ _) Hk) as Hlt. unfold key_lt in Hlt. simpl in Hlt.
  destruct (Z.ltb_spec k k') as [Hl|Hl]; [|destruct (Z.eqb_spec k k') as [->|Hne]].
  - constructor; [by constructor|]. constructor; [done|]. apply Forall_forall. intros y Hy.
    specialize (Hlt y Hy). unfold key_lt. simpl. lia.
  - by constructor.
  - constructor; [done|]. apply Forall_forall. intros y [->|[Hy _]]%bt_insert_elem; [|by apply Hlt|done].
    unfold key_lt. simpl. lia.
Qed.

Lemma bt_remove_elem k l x : x ∈ bt_remove k l <-> x ∈ l /\ x.1 <> k.
Proof.
  unfold bt_remove. rewrite list_elem_of_In, filter_In, <- list_elem_of_In, negb_true_iff, Z.eqb_neq. done.
Qed.

Lemma bt_remove_sorted k l : bt_sorted l -> bt_sorted (bt_remove k l).
Proof.
  induction 1 as [|x l Hs IH Hk]; simpl; [constructor|]. destruct (negb _); [|done].
  constructor; [done|]. apply Forall_forall. intros y [Hy _]%bt_remove_elem.
  by apply (proj1 (Forall_forall _ _) Hk).
Qed.

Lemma bt_sorted_inj l x y : bt_sorted l -> x ∈ l -> y ∈ l -> x.1 = y.1 -> x = y.
Proof.
  induction 1 as [|z l Hs IH Hk]; [by intros ?%elem_of_nil|].
  pose proof (proj1 (Forall_forall _ _) Hk) as Hlt. unfold key_lt in Hlt.
  intros [->|Hx]%elem_of_cons [->|Hy]%elem_of_cons E; [done| | |by apply IH].
  - specialize (Hlt y Hy). lia.
  - specialize (Hlt x Hx). lia.
Qed.

Lemma bt_get_elem l k v : bt_sorted l -> bt_get k l = Some v <-> (k, v) ∈ l.
Proof.
  induction 1 as [|[k' v'] l Hs IH Hk]; simpl; [split; [done|by intros ?%elem_of_nil]|].
  pose proof (proj1 (Forall_forall _ _) Hk) as Hlt. unfold key_lt in Hlt. simpl in Hlt.
  rewrite elem_of_cons. destruct (Z.eqb_spec k k') as [->|Hne].
  - split; [intros [= ->]; by left|]. intros [[= ->]|Hin]; [done|]. specialize (Hlt _ Hin). simpl in Hlt. lia.
  - rewrite IH. split; [by right|]. by intros [[= ? ?]|?].
Qed.

Lemma bt_get_insert l k v k' :
  bt_sorted l -> bt_get k' (bt_insert k v l) = if k' =? k then Some v else bt_get k' l.
Proof.
  intros Hs. pose proof (bt_insert_sorted k v l Hs) as Hs'.
  destruct (Z.eqb_spec k' k) as [->|Hne].
  - apply (bt_get_elem _ _ _ Hs'), bt_insert_elem; [done|by left].
  - apply option_eq. intros w. rewrite (bt_get_elem _ _ _ Hs'), (bt_get_elem _ _ _ Hs), bt_insert_elem by done.
    simpl. split; [intros [[= -> ->]|[? _]]; done|by right].
Qed.

Lemma bt_insert_perm k v l :
  (forall x, x ∈ l -> x.1 <> k) -> bt_insert k v l ≡ₚ (k, v) :: l.
Proof.
  induction l as [|[k' v'] l IH]; intros Hf; simpl; [done|].
  assert (k' <> k) by exact (Hf (k', v') (list_elem_of_here _ _)).
  destruct (Z.ltb_spec k k'); [done|]. destruct (Z.eqb_spec k k'); [lia|].
  rewrite IH; [apply perm_swap|]. intros x Hx. apply Hf. by apply list_elem_of_further.
Qed.

Lemma bt_remove_perm k v l : bt_sorted l -> (k, v) ∈ l -> l ≡ₚ (k, v) :: bt_remove k l.
Proof.
  induction 1 as [|[k' v'] l Hs IH Hk]; [by intros ?%elem_of_nil|].
  pose proof (proj1 (Forall_forall _ _) Hk) as Hlt. unfold key_lt in Hlt. simpl in Hlt.
  intros [[= <- <-]|Hin]%elem_of_cons; simpl.
  - rewrite Z.eqb_refl. simpl. apply Permutation_cons; [done|].
    assert (forall y, y ∈ l -> y.1 <> k) as Hne by (intros y Hy; specialize (Hlt y Hy); lia).
    clear -Hne. induction l as [|y l IH]; [done|]. simpl.
    rewrite (proj2 (Z.eqb_neq _ _)) by (apply Hne, list_elem_of_here). simpl. apply Permutation_cons; [done|].
    apply IH. intros z Hz. apply Hne. by apply list_elem_of_further.
  - specialize (Hlt _ Hin). simpl in Hlt. rewrite (proj2 (Z.eqb_neq _ _)) by lia. simpl.
    rewrite perm_swap. by rewrite <- IH.
Qed.
End BTree.

Abbreviation bt_sorted := (StronglySorted key_lt).
