(* ===== verification/F64.v ===== *)
(** * Double precision numbers

    [f64] as the Standard Library's executable model of IEEE 754 arithmetic, with
    the conversions and comparisons the source uses. *)

From Stdlib Require Export SpecFloat.
From S2P Require Import Prelude.

Abbreviation f64 := spec_float.

(** [as f64], rounding to nearest even. *)
Definition f64_of (z : Z) : f64 := binary_normalize 53 1024 z 0 false.
Definition f64_mul : f64 -> f64 -> f64 := SFmul 53 1024.
Definition f64_div : f64 -> f64 -> f64 := SFdiv 53 1024.
Definition f64_sub : f64 -> f64 -> f64 := SFsub 53 1024.
Definition f64_lt (a b : f64) : bool := SFltb a b.
Definition f64_zero : f64 := S754_zero false.

(** [as u64]: towards zero, saturating, and zero for what is not a number. *)
Definition f64_to_u64 (x : f64) : Z :=
  match x with
  | S754_finite false m e => Z.min (2 ^ 64 - 1) (Z.shiftl (Zpos m) e)
  | S754_infinity false => 2 ^ 64 - 1
  | _ => 0
  end.

Example f64_quotient : f64_to_u64 (f64_div (f64_of 1000000007) (f64_of 1000)) = 1000000.
Proof. vm_compute. reflexivity. Qed.
