(* ===== verification/GuestRam.v ===== *)
(** * What devices rely on from guest memory

    Device models never see regions or host addresses: they read and write
    guest-physical ranges.  [GuestRam] is that interface and [GuestRamLaws] its
    contract; the virtqueue, the block device and the copy-on-write templates
    are verified against the contract, and [GuestMem] discharges it. *)

From S2P Require Import Prelude.

Definition disjoint_ranges (a n b m : Z) : Prop := a + n <= b \/ b + m <= a.

#[global] Instance disjoint_ranges_dec a n b m : Decision (disjoint_ranges a n b m).
Proof. unfold disjoint_ranges. apply _. Defined.

Lemma disjoint_ranges_sym a n b m : disjoint_ranges a n b m -> disjoint_ranges b m a n.
Proof. unfold disjoint_ranges. lia. Qed.

Class GuestRam (M : Type) := {
  ram_read : M -> Z -> Z -> Result bytes;
  ram_write : Z -> bytes -> ST M Error unit;
  ram_wf : M -> Prop
}.

(** The length of a Rust slice: at most [isize::MAX] bytes.  The address is any
    [u64] the guest chose. *)
Definition slice_len (n : Z) : Prop := 0 <= n < 2 ^ 63.

Class GuestRamLaws (M : Type) `{GuestRam M} := {
  ram_read_shape m a n bs :
    ram_wf m -> slice_len n -> ram_read m a n = Ok bs ->
    Z.of_nat (length bs) = n /\ Forall is_byte bs;
  ram_read_no_panic m a n :
    ram_wf m -> slice_len n -> is_panic (ram_read m a n) = false;
  ram_write_no_panic m a d :
    ram_wf m -> slice_len (Z.of_nat (length d)) ->
    is_panic (ram_write a d m).1 = false;
  ram_write_wf m a d r m' :
    ram_wf m -> Forall is_byte d -> ram_write a d m = (r, m') -> ram_wf m';
  ram_write_fail m a d e m' :
    ram_write a d m = (Err e, m') -> m' = m;
  ram_read_write m a d m' :
    ram_write a d m = (Ok tt, m') ->
    ram_read m' a (Z.of_nat (length d)) = Ok d;
  ram_read_frame m a d m' b n :
    ram_wf m -> slice_len (Z.of_nat (length d)) -> slice_len n ->
    disjoint_ranges a (Z.of_nat (length d)) b n ->
    ram_write a d m = (Ok tt, m') -> ram_read m' b n = ram_read m b n;
  ram_read_sub m a n bs off k :
    ram_wf m -> slice_len n -> 0 <= off -> 0 < k -> off + k <= n ->
    ram_read m a n = Ok bs -> ram_read m (a + off) k = Ok (slice bs off k)
}.

Lemma slice_len_intro n : 0 <= n -> n < 2 ^ 63 -> slice_len n.
Proof. by split. Qed.

#[export] Hint Resolve slice_len_intro : hm.
