(* ===== verification/GuestMem.v ===== *)
(** * Guest memory ([hv2-core/src/memory.rs])

    The regions of a guest's physical address space and the host bytes behind
    them.  [GuestMemory] in the source holds raw host pointers; here the bytes
    they point at are the field [host], a finite map from host addresses to
    bytes in which an absent address reads as zero, as a fresh anonymous
    mapping does.  The host allocator ([memmap2] and the NUMA calls of the
    platform) is a pair of parameters. *)

From S2P Require Import Prelude GuestRam.

(** ** The hole below 4 GiB *)

Definition RAM_HOLE_START : Z := 0xC0000000.
Definition HIGH_RAM_START : Z := 0x100000000.

Definition ram_ranges (size : Z) : list (Z * Z) :=
  if size <=? RAM_HOLE_START then [(0, size)]
  else [(0, RAM_HOLE_START); (HIGH_RAM_START, size - RAM_HOLE_START)].

(** The loop of [host_offset], [offset] being the bytes of the ranges passed. *)
Fixpoint host_offset_from (offset gpa : Z) (ranges : list (Z * Z)) : option Z :=
  match ranges with
  | [] => None
  | (start, len) :: rest =>
      if (start <=? gpa) && (gpa - start <? len)
      then Some (offset + (gpa - start))
      else host_offset_from (offset + len) gpa rest
  end.

Definition host_offset (size gpa : Z) : option Z :=
  host_offset_from 0 gpa (ram_ranges size).

(** ** State *)

Record MemoryRegion := mkRegion {
  guest_addr : Z;
  size : Z;
  host_addr : Z;
  readonly : bool
}.

Inductive Backing := Anon (ptr len : Z) | Numa (ptr len : Z).

Definition as_ptr (m : Backing) : Z :=
  match m with Anon p _ => p | Numa p _ => p end.

Record GuestMemory := mkGuestMemory {
  regions : list MemoryRegion;
  mappings : list Backing;
  total_size : Z;
  numa_node : option Z;
  host : gmap Z Z
}.

Definition set_host (m : GuestMemory) (h : gmap Z Z) : GuestMemory :=
  mkGuestMemory (regions m) (mappings m) (total_size m) (numa_node m) h.

Definition new_on_node (sz : Z) (node : option Z) (h : gmap Z Z) : GuestMemory :=
  mkGuestMemory [] [] sz node h.

(** ** Host bytes *)

Definition load (h : gmap Z Z) (a n : Z) : bytes :=
  (fun k => default 0 (h !! k)) <$> seqZ a n.

Fixpoint store (h : gmap Z Z) (a : Z) (bs : bytes) : gmap Z Z :=
  match bs with
  | [] => h
  | b :: bs' => store (<[a := b]> h) (a + 1) bs'
  end.

(** Fresh pages read as zero. *)
Definition zero_range (h : gmap Z Z) (a n : Z) : gmap Z Z :=
  filter (fun p => ~ (a <= p.1 < a + n)) h.

(** ** Translation *)

Definition region_end (r : MemoryRegion) : Result Z := add 64 (guest_addr r) (size r).

(** [guest_addr >= r.guest_addr && guest_addr < r.guest_addr + r.size]: the
    sum is only computed when the first test holds. *)
Definition region_contains (r : MemoryRegion) (gpa : Z) : Result bool :=
  if guest_addr r <=? gpa then
    e ← region_end r; mret (gpa <? e)
  else mret false.

Definition invalid_guest_address {A} (gpa : Z) : Result A :=
  Err (Memory "Invalid guest address: 0x{:x}" [gpa]).

Fixpoint translate_in (rs : list MemoryRegion) (gpa : Z) : Result Z :=
  match rs with
  | [] => invalid_guest_address gpa
  | r :: rest =>
      inside ← region_contains r gpa;
      if (inside : bool) then
        offset ← sub gpa (guest_addr r); add 64 (host_addr r) offset
      else translate_in rest gpa
  end.

Definition translate (m : GuestMemory) (gpa : Z) : Result Z :=
  translate_in (regions m) gpa.

(** The body of the loop of [translate_range] for the region [gpa] falls in. *)
Definition translate_hit (r : MemoryRegion) (gpa len : Z) : Result Z :=
  offset ← sub gpa (guest_addr r);
  match checked_add 64 offset len with
  | None => Err (Memory "Address range overflow: 0x{:x} + 0x{:x}" [gpa; len])
  | Some end_offset =>
      if size r <? end_offset then
        access_end ← add 64 gpa len;
        rend ← region_end r;
        overrun ← sub end_offset (size r);
        Err (Memory "Access 0x{:x}..0x{:x} exceeds region 0x{:x}..0x{:x} (overrun by {} bytes)"
               [gpa; access_end; guest_addr r; rend; overrun])
      else add 64 (host_addr r) offset
  end.

Fixpoint translate_range_in (rs : list MemoryRegion) (gpa len : Z) : Result Z :=
  match rs with
  | [] => invalid_guest_address gpa
  | r :: rest =>
      inside ← region_contains r gpa;
      if (inside : bool) then translate_hit r gpa len
      else translate_range_in rest gpa len
  end.

Definition translate_range (m : GuestMemory) (gpa len : Z) : Result Z :=
  if len =? 0 then translate m gpa else translate_range_in (regions m) gpa len.

(** ** Access *)

Definition write_bytes (gpa : Z) (data : bytes) : ST GuestMemory Error unit :=
  a ← st_read (fun m => translate_range m gpa (Z.of_nat (length data)));
  st_modify (fun m => set_host m (store (host m) a data)).

Definition read_bytes (m : GuestMemory) (gpa len : Z) : Result bytes :=
  a ← translate_range m gpa len; mret (load (host m) a len).

(** [read_bytes_into]: the buffer is the result, its length the argument. *)
Definition read_bytes_into (m : GuestMemory) (gpa buf_len : Z) : Result bytes :=
  a ← translate_range m gpa buf_len; mret (load (host m) a buf_len).

(** ** Allocation *)

(** What the host already has mapped for this guest. *)
Definition live_ranges (m : GuestMemory) : list (Z * Z) :=
  (fun r => (host_addr r, size r)) <$> regions m.

Section Allocation.
(** [MmapMut::map_anon] and [numa_backing::alloc], which pick an address
    given what is mapped. *)
Context (map_anon : list (Z * Z) -> Z -> option Z)
        (numa_alloc : list (Z * Z) -> Z -> Z -> option Z).

Definition MemoryMapping_new (live : list (Z * Z)) (sz : Z) : Result Backing :=
  match map_anon live sz with
  | Some p => Ok (Anon p sz)
  | None => Err (Memory "Failed to create memory mapping: {}" [])
  end.

Definition MemoryMapping_new_on_node (live : list (Z * Z)) (sz : Z)
    (node : option Z) : Result Backing :=
  match node with
  | Some n =>
      match numa_alloc live sz n with
      | Some p => Ok (Numa p sz)
      | None => MemoryMapping_new live sz
      end
  | None => MemoryMapping_new live sz
  end.

(** [regions.push(..)] and [mappings.push(..)], the pages being fresh. *)
Definition push_region (m : GuestMemory) (gpa sz : Z) (b : Backing) (ro : bool)
    : GuestMemory :=
  mkGuestMemory (regions m ++ [mkRegion gpa sz (as_ptr b) ro])
    (mappings m ++ [b]) (total_size m) (numa_node m)
    (zero_range (host m) (as_ptr b) sz).

Definition allocate_region (sz : Z) (ro : bool) : ST GuestMemory Error Z :=
  gpa ← st_read (fun m => match last (regions m) with
                          | Some r => region_end r
                          | None => Ok 0
                          end);
  mapping ← st_read (fun m => MemoryMapping_new_on_node (live_ranges m) sz (numa_node m));
  _ ← st_modify (fun m => push_region m gpa sz mapping ro);
  mret gpa.

Fixpoint allocate_ranges (ranges : list (Z * Z)) : ST GuestMemory Error unit :=
  match ranges with
  | [] => mret tt
  | (gpa, sz) :: rest =>
      mapping ← st_read (fun m =>
        MemoryMapping_new_on_node (live_ranges m) sz (numa_node m));
      _ ← st_modify (fun m => push_region m gpa sz mapping false);
      allocate_ranges rest
  end.

Definition allocate_ram : ST GuestMemory Error unit :=
  fun m => allocate_ranges (ram_ranges (total_size m)) m.
End Allocation.

(** ** Adopting the backend's pages *)

Definition layout_matches (rs : list MemoryRegion) (layout : list (Z * Z)) : bool :=
  (Nat.eqb (length rs) (length layout)) &&
  forallb (fun p => (guest_addr p.1 =? p.2.1) && (size p.1 =? p.2.2)) (zip rs layout).

Fixpoint rebase (base offset : Z) (rs : list MemoryRegion) : Result (list MemoryRegion) :=
  match rs with
  | [] => mret []
  | r :: rest =>
      a ← add 64 base offset;
      next ← add 64 offset (size r);
      rest' ← rebase base next rest;
      mret (mkRegion (guest_addr r) (size r) a (readonly r) :: rest')
  end.

Definition adopt_backend_pages (base : Z) : ST GuestMemory Error unit :=
  fun m =>
    if layout_matches (regions m) (ram_ranges (total_size m)) then
      match rebase base 0 (regions m) with
      | Ok rs => (Ok tt, mkGuestMemory rs [] (total_size m) (numa_node m) (host m))
      | Err e => (Err e, m)
      | Panic p => (Panic p, m)
      end
    else
      (Err (Memory "guest memory regions {:?} are not the RAM layout {layout:?} the backend maps"
              (flat_map (fun r => [guest_addr r; size r]) (regions m))), m).

(** ** Well-formed memories *)

Record region_wf (r : MemoryRegion) : Prop := {
  rw_guest : 0 <= guest_addr r;
  rw_size : 0 <= size r;
  rw_host : 0 <= host_addr r;
  rw_guest_end : guest_addr r + size r < 2 ^ 63;
  rw_host_end : host_addr r + size r < 2 ^ 64
}.

(** Regions are in range, ascending in the guest's space, disjoint in the
    host's, and the host keeps bytes. *)
Record mem_wf (m : GuestMemory) : Prop := {
  mw_regions : Forall region_wf (regions m);
  mw_sorted : forall i j r s, (i < j)%nat ->
    regions m !! i = Some r -> regions m !! j = Some s ->
    guest_addr r + size r <= guest_addr s;
  mw_host : forall i j r s, i <> j ->
    regions m !! i = Some r -> regions m !! j = Some s ->
    disjoint_ranges (host_addr r) (size r) (host_addr s) (size s);
  mw_bytes : map_Forall (fun _ b => is_byte b) (host m)
}.

(** ** Host bytes *)

Lemma length_load h a n : length (load h a n) = Z.to_nat n.
Proof. unfold load. by autorewrite with hm. Qed.

Lemma lookup_load h a n i :
  load h a n !! i =
  if bool_decide (Z.of_nat i < n) then Some (default 0 (h !! (a + Z.of_nat i))) else None.
Proof.
  unfold load. rewrite list_lookup_fmap. case_bool_decide.
  - by rewrite lookup_seqZ_lt.
  - by rewrite lookup_seqZ_ge by lia.
Qed.

Lemma lookup_store h a bs k :
  store h a bs !! k =
  if bool_decide (a <= k < a + Z.of_nat (length bs))
  then bs !! Z.to_nat (k - a) else h !! k.
Proof.
  revert h a. induction bs as [|b bs IH]; intros h a; simpl.
  - by rewrite bool_decide_false by lia.
  - rewrite IH. repeat case_bool_decide; try lia.
    + replace (Z.to_nat (k - a)) with (S (Z.to_nat (k - (a + 1)))) by lia. done.
    + assert (k = a) as -> by lia. by rewrite Z.sub_diag, lookup_insert_eq.
    + by rewrite lookup_insert_ne by lia.
Qed.

Lemma load_store_same h a bs n :
  n = Z.of_nat (length bs) -> load (store h a bs) a n = bs.
Proof.
  intros ->. apply list_eq. intros i. rewrite lookup_load. case_bool_decide.
  - rewrite lookup_store, bool_decide_true by lia.
    replace (Z.to_nat _) with i by lia.
    destruct (lookup_lt_is_Some_2 bs i ltac:(lia)) as [b Hb]. by rewrite Hb.
  - symmetry. apply lookup_ge_None. lia.
Qed.

Lemma load_store_disjoint h a bs b n :
  disjoint_ranges a (Z.of_nat (length bs)) b n ->
  load (store h a bs) b n = load h b n.
Proof.
  unfold disjoint_ranges. intros Hd. apply list_eq. intros i. rewrite !lookup_load.
  case_bool_decide; [|done]. by rewrite lookup_store, bool_decide_false by lia.
Qed.

Lemma store_bytes_ok h a bs :
  map_Forall (fun _ b => is_byte b) h -> Forall is_byte bs ->
  map_Forall (fun _ b => is_byte b) (store h a bs).
Proof.
  intros Hh Hbs k b. rewrite lookup_store. case_bool_decide.
  - intros Hl. by eapply Forall_lookup_1 in Hbs.
  - apply Hh.
Qed.

Lemma load_bytes_ok h a n :
  map_Forall (fun _ b => is_byte b) h -> Forall is_byte (load h a n).
Proof.
  intros Hh. apply Forall_fmap, Forall_forall. intros k _. simpl.
  destruct (h !! k) eqn:E; simpl; [by eapply Hh|unfold is_byte; lia].
Qed.

(** ** What translation computes *)

Definition holds (gpa : Z) (r : MemoryRegion) : bool :=
  (guest_addr r <=? gpa) && (gpa <? guest_addr r + size r).

Lemma region_contains_eq r gpa :
  region_wf r -> region_contains r gpa = Ok (holds gpa r).
Proof.
  intros []. unfold region_contains, region_end, holds.
  destruct (guest_addr r <=? gpa); [|done].
  by rewrite add_ok by lia.
Qed.

Lemma translate_in_eq rs gpa :
  Forall region_wf rs ->
  translate_in rs gpa =
  match List.find (holds gpa) rs with
  | Some r => Ok (host_addr r + (gpa - guest_addr r))
  | None => invalid_guest_address gpa
  end.
Proof.
  induction 1 as [|r rs Hr _ IH]; [done|]. simpl.
  rewrite region_contains_eq by done. simpl.
  destruct (holds gpa r) eqn:E; [|done].
  unfold holds in E. bool_to_prop. destruct Hr.
  rewrite sub_ok by lia. simpl. rewrite add_ok by lia. done.
Qed.

Definition overrun_error {A} (r : MemoryRegion) (gpa len : Z) : Result A :=
  Err (Memory "Access 0x{:x}..0x{:x} exceeds region 0x{:x}..0x{:x} (overrun by {} bytes)"
         [gpa; gpa + len; guest_addr r; guest_addr r + size r;
          gpa + len - (guest_addr r + size r)]).

Lemma translate_hit_eq r gpa len :
  region_wf r -> holds gpa r = true -> 0 < len -> len < 2 ^ 63 ->
  translate_hit r gpa len =
  if gpa + len <=? guest_addr r + size r
  then Ok (host_addr r + (gpa - guest_addr r))
  else overrun_error r gpa len.
Proof.
  unfold holds. intros [] ? ??. bool_to_prop. unfold translate_hit, overrun_error, region_end.
  rewrite sub_ok by lia. simpl. unfold checked_add.
  rewrite (proj2 (Z.ltb_lt _ _)) by lia.
  destruct (Z.ltb_spec (size r) (gpa - guest_addr r + len)).
  - rewrite (proj2 (Z.leb_gt _ _)) by lia. rewrite !add_ok by lia. simpl.
    rewrite sub_ok by lia. simpl.
    by replace (gpa + len - _) with (gpa - guest_addr r + len - size r) by lia.
  - rewrite (proj2 (Z.leb_le _ _)) by lia. rewrite add_ok by lia. done.
Qed.

(** The whole of [translate_range] on well-formed regions. *)
Lemma translate_range_eq m gpa len :
  Forall region_wf (regions m) -> 0 <= len -> len < 2 ^ 63 ->
  translate_range m gpa len =
  match List.find (holds gpa) (regions m) with
  | Some r =>
      if gpa + len <=? guest_addr r + size r
      then Ok (host_addr r + (gpa - guest_addr r))
      else overrun_error r gpa len
  | None => invalid_guest_address gpa
  end.
Proof.
  intros Hrs ??. unfold translate_range, translate.
  destruct (Z.eqb_spec len 0) as [->|].
  - rewrite translate_in_eq by done.
    destruct (List.find _ _) as [r|] eqn:E; [|done].
    apply List.find_some in E as [_ E]. unfold holds in E. bool_to_prop.
    rewrite (proj2 (Z.leb_le _ _)) by lia. done.
  - induction Hrs as [|r rs Hr _ IH]; [done|]. simpl.
    rewrite region_contains_eq by done. simpl.
    destruct (holds gpa r) eqn:E; [|done]. rewrite translate_hit_eq by (done || lia). done.
Qed.

(** The region a successful translation went through. *)
Lemma translate_range_Ok m gpa len a :
  Forall region_wf (regions m) -> 0 <= len -> len < 2 ^ 63 ->
  translate_range m gpa len = Ok a ->
  exists i r, regions m !! i = Some r /\
    guest_addr r <= gpa /\ gpa < guest_addr r + size r /\
    gpa + len <= guest_addr r + size r /\
    a = host_addr r + (gpa - guest_addr r).
Proof.
  intros Hrs ??. rewrite translate_range_eq by done.
  destruct (List.find _ _) as [r|] eqn:E; [|done].
  apply find_lookup in E as (i & Hi & E). unfold holds in E. bool_to_prop.
  split_if; [|done]. intros [= <-].
  exists i, r. naive_solver lia.
Qed.

Lemma translate_range_regions m m' gpa len :
  regions m = regions m' -> translate_range m gpa len = translate_range m' gpa len.
Proof. intros E. unfold translate_range, translate. by rewrite E. Qed.

(** ** Access *)

Lemma write_bytes_eq gpa d m :
  write_bytes gpa d m =
  match translate_range m gpa (Z.of_nat (length d)) with
  | Ok a => (Ok tt, set_host m (store (host m) a d))
  | Err e => (Err e, m)
  | Panic p => (Panic p, m)
  end.
Proof. unfold write_bytes, mbind, ST_bind, st_read. by destruct (translate_range _ _ _). Qed.

Lemma write_bytes_Ok gpa d m u m' :
  write_bytes gpa d m = (Ok u, m') ->
  exists a, translate_range m gpa (Z.of_nat (length d)) = Ok a /\
            m' = set_host m (store (host m) a d).
Proof. rewrite write_bytes_eq. destruct (translate_range _ _ _); naive_solver. Qed.

Lemma read_after_write gpa d m u m' :
  write_bytes gpa d m = (Ok u, m') ->
  read_bytes m' gpa (Z.of_nat (length d)) = Ok d.
Proof.
  intros (a & Ha & ->)%write_bytes_Ok. unfold read_bytes.
  rewrite (translate_range_regions _ m) by done. rewrite Ha. simpl.
  by rewrite load_store_same.
Qed.

Lemma set_host_wf m h :
  mem_wf m -> map_Forall (fun _ b => is_byte b) h -> mem_wf (set_host m h).
Proof. intros [] ?. by split. Qed.

Lemma write_bytes_wf gpa d m r m' :
  mem_wf m -> Forall is_byte d -> write_bytes gpa d m = (r, m') -> mem_wf m'.
Proof.
  intros Hm Hd. rewrite write_bytes_eq.
  destruct (translate_range _ _ _); intros [= <- <-]; [|done..].
  apply set_host_wf; [done|]. apply store_bytes_ok; [apply Hm|done].
Qed.

(** Two guest ranges that translate and do not meet have host ranges that do
    not meet: the heart of the isolation of guest accesses. *)
Lemma translate_disjoint m gpa n a gpa' n' a' :
  mem_wf m ->
  0 <= n -> n < 2 ^ 63 -> 0 <= n' -> n' < 2 ^ 63 ->
  translate_range m gpa n = Ok a -> translate_range m gpa' n' = Ok a' ->
  disjoint_ranges gpa n gpa' n' -> disjoint_ranges a n a' n'.
Proof.
  intros Hm ???? (i & r & Hi & ? & ? & ? & ->)%translate_range_Ok
    (j & s & Hj & ? & ? & ? & ->)%translate_range_Ok; [|done || apply Hm..].
  unfold disjoint_ranges. destruct (decide (i = j)) as [->|Hij].
  - simplify_eq. lia.
  - pose proof (mw_host m Hm _ _ _ _ Hij Hi Hj) as Hd.
    unfold disjoint_ranges in Hd. lia.
Qed.

Lemma read_frame m gpa d u m' gpa' n :
  mem_wf m -> Z.of_nat (length d) < 2 ^ 63 -> 0 <= n -> n < 2 ^ 63 ->
  disjoint_ranges gpa (Z.of_nat (length d)) gpa' n ->
  write_bytes gpa d m = (Ok u, m') ->
  read_bytes m' gpa' n = read_bytes m gpa' n.
Proof.
  intros Hm ??? Hd (a & Ha & ->)%write_bytes_Ok. unfold read_bytes.
  rewrite (translate_range_regions _ m) by done.
  destruct (translate_range m gpa' n) as [a'| |] eqn:Ha'; [|done..]. simpl. f_equal.
  apply load_store_disjoint. eapply translate_disjoint; eauto. lia.
Qed.

Lemma translate_no_panic m gpa len :
  mem_wf m -> 0 <= len -> len < 2 ^ 63 ->
  is_panic (translate_range m gpa len) = false.
Proof.
  intros Hm ??. rewrite translate_range_eq; [|apply Hm|done..].
  destruct (List.find _ _); [|done]. split_if; done.
Qed.

Lemma read_bytes_eq m gpa len :
  mem_wf m -> 0 <= len -> len < 2 ^ 63 ->
  read_bytes m gpa len =
  match List.find (holds gpa) (regions m) with
  | Some r =>
      if gpa + len <=? guest_addr r + size r
      then Ok (load (host m) (host_addr r + (gpa - guest_addr r)) len)
      else overrun_error r gpa len
  | None => invalid_guest_address gpa
  end.
Proof.
  intros Hm ??. unfold read_bytes. rewrite translate_range_eq; [|apply Hm|done..].
  destruct (List.find _ _); [|done]. by split_if.
Qed.

Lemma read_bytes_region m gpa len bs :
  mem_wf m -> 0 <= len -> len < 2 ^ 63 -> read_bytes m gpa len = Ok bs ->
  exists i r, regions m !! i = Some r /\ guest_addr r <= gpa /\
    gpa < guest_addr r + size r /\ gpa + len <= guest_addr r + size r.
Proof.
  intros Hm ?? H. unfold read_bytes in H. inv_ok.
  edestruct translate_range_Ok as (i & r & ? & ? & ? & ? & _); [apply Hm|..]; eauto 7.
Qed.

Lemma find_holds_same m x y r :
  mem_wf m -> List.find (holds x) (regions m) = Some r ->
  guest_addr r <= y -> y < guest_addr r + size r ->
  List.find (holds y) (regions m) = Some r.
Proof.
  intros Hm (i & Hi & _)%find_lookup ??.
  destruct (List.find (holds y) (regions m)) as [s|] eqn:E.
  - apply find_lookup in E as (j & Hj & E). unfold holds in E. bool_to_prop.
    destruct (Nat.lt_trichotomy i j) as [Hl|[->|Hl]]; [|congruence|].
    + pose proof (mw_sorted m Hm _ _ _ _ Hl Hi Hj). lia.
    + pose proof (mw_sorted m Hm _ _ _ _ Hl Hj Hi). lia.
  - eapply find_None_lookup in E; [|done]. unfold holds in E. bool_to_prop. lia.
Qed.

Lemma slice_load h a n off k :
  0 <= off -> 0 <= k -> off + k <= n -> slice (load h a n) off k = load h (a + off) k.
Proof.
  intros. apply list_eq. intros i. rewrite lookup_slice, !lookup_load.
  repeat case_bool_decide; try lia; [|done]. do 3 f_equal. lia.
Qed.

(** A read inside a readable range returns that part of it. *)
Lemma read_bytes_sub m gpa n bs off k :
  mem_wf m -> 0 <= n -> n < 2 ^ 63 -> 0 <= off -> 0 < k -> off + k <= n ->
  read_bytes m gpa n = Ok bs -> read_bytes m (gpa + off) k = Ok (slice bs off k).
Proof.
  intros Hm ?? ??? . rewrite !read_bytes_eq by (done || lia).
  destruct (List.find (holds gpa) _) as [r|] eqn:E; [|done]. split_if; [|done]. intros [= <-].
  assert (List.find (holds (gpa + off)) (regions m) = Some r) as ->.
  { pose proof E as [_ Hh]%List.find_some. unfold holds in Hh. bool_to_prop.
    eapply find_holds_same; [done|done|lia|lia]. }
  rewrite (proj2 (Z.leb_le _ _)) by lia. rewrite slice_load by lia. do 2 f_equal. lia.
Qed.

(** A range that can be read can be written. *)
Lemma write_readable m a d bs :
  read_bytes m a (Z.of_nat (length d)) = Ok bs -> exists m', write_bytes a d m = (Ok tt, m').
Proof.
  unfold read_bytes. rewrite write_bytes_eq. destruct (translate_range m a _); simpl; [eauto|done..].
Qed.

(** C1: a write of [d] never panics.  When it succeeds the memory stays well
    formed, a read of the same range returns [d], and every read of a range
    that does not meet it has the outcome, value or error, it had before.  When
    it fails it has changed nothing. *)
Theorem write_bytes_spec m gpa d :
  mem_wf m -> Forall is_byte d -> Z.of_nat (length d) < 2 ^ 63 ->
  match write_bytes gpa d m with
  | (Ok _, m') =>
      mem_wf m' /\ read_bytes m' gpa (Z.of_nat (length d)) = Ok d /\
      forall gpa' n, 0 <= n -> n < 2 ^ 63 ->
        disjoint_ranges gpa (Z.of_nat (length d)) gpa' n ->
        read_bytes m' gpa' n = read_bytes m gpa' n
  | (Err _, m') => m' = m
  | (Panic _, _) => False
  end.
Proof.
  intros Hm Hd Hg. destruct (write_bytes gpa d m) as [[u|e|p] m'] eqn:E.
  - split; [by eapply write_bytes_wf|]. split; [by eapply read_after_write|].
    intros. by eapply read_frame.
  - rewrite write_bytes_eq in E. by destruct (translate_range _ _ _); simplify_eq.
  - rewrite write_bytes_eq in E.
    pose proof (translate_no_panic m gpa (Z.of_nat (length d)) Hm ltac:(lia) Hg).
    by destruct (translate_range _ _ _); simplify_eq.
Qed.

(** the outcome of an access is decided by the regions alone and is never a
    panic: it succeeds exactly when the range lies inside the one region that
    holds its first address, and the buffer it returns has the length asked. *)
Theorem read_bytes_total m gpa len :
  mem_wf m -> 0 <= len -> len < 2 ^ 63 ->
  match read_bytes m gpa len with
  | Ok bs => Z.of_nat (length bs) = len /\ Forall is_byte bs /\
      exists i r, regions m !! i = Some r /\ guest_addr r <= gpa /\
        gpa < guest_addr r + size r /\ gpa + len <= guest_addr r + size r
  | Err _ => forall i r, regions m !! i = Some r -> guest_addr r <= gpa ->
        gpa < guest_addr r + size r -> guest_addr r + size r < gpa + len
  | Panic _ => False
  end.
Proof.
  intros Hm Hl Hg. pose proof (translate_range_Ok m gpa len) as Hok.
  rewrite read_bytes_eq by done. destruct (List.find _ _) as [r|] eqn:E.
  - pose proof (find_lookup _ _ _ E) as (i & Hi & Hh).
    unfold holds in Hh. bool_to_prop. split_if; simpl.
    + split; [rewrite length_load; lia|]. split; [apply load_bytes_ok, Hm|]. eauto 6.
    + intros j s Hj ??. destruct (lt_eq_lt_dec i j) as [[Hij| ->]|Hij].
      * pose proof (mw_sorted m Hm _ _ _ _ Hij Hi Hj). lia.
      * simplify_eq. lia.
      * pose proof (mw_sorted m Hm _ _ _ _ Hij Hj Hi). lia.
  - simpl. intros j s Hj ??. eapply find_None_lookup in E; [|done]. unfold holds in E.
    rewrite !(proj2 (Z.leb_le _ _)), (proj2 (Z.ltb_lt _ _)) in E by lia. done.
Qed.

(** ** Allocation *)

Lemma lookup_zero_range h a n k :
  zero_range h a n !! k = if bool_decide (a <= k < a + n) then None else h !! k.
Proof.
  unfold zero_range. case_bool_decide as Hk.
  - apply map_lookup_filter_None_2. right. intros x _ Hx. by apply Hx.
  - destruct (h !! k) eqn:E.
    + by apply map_lookup_filter_Some_2.
    + by apply map_lookup_filter_None_2; left.
Qed.

Lemma load_zero_range_disjoint h a n b m :
  disjoint_ranges a n b m -> load (zero_range h a n) b m = load h b m.
Proof.
  unfold disjoint_ranges. intros. apply list_eq. intros i. rewrite !lookup_load.
  case_bool_decide; [|done]. by rewrite lookup_zero_range, bool_decide_false by lia.
Qed.

Lemma load_zero_range_in h a n b m :
  a <= b -> b + m <= a + n -> load (zero_range h a n) b m = replicate (Z.to_nat m) 0.
Proof.
  intros. apply list_eq. intros i. rewrite lookup_load. case_bool_decide.
  - by rewrite lookup_zero_range, bool_decide_true, lookup_replicate_2 by lia.
  - symmetry. apply lookup_ge_None. rewrite length_replicate. lia.
Qed.

(** What the code relies on from the host's allocator: the pages it hands out
    are inside the address space and meet nothing already mapped. *)
Definition fresh_alloc (alloc : list (Z * Z) -> Z -> option Z) : Prop :=
  forall live sz p, 0 <= sz -> alloc live sz = Some p ->
    0 <= p /\ p + sz < 2 ^ 64 /\ Forall (fun q => disjoint_ranges p sz q.1 q.2) live.

Section AllocationFacts.
Context (map_anon : list (Z * Z) -> Z -> option Z)
        (numa_alloc : list (Z * Z) -> Z -> Z -> option Z).
Hypothesis map_anon_fresh : fresh_alloc map_anon.
Hypothesis numa_alloc_fresh : forall node, fresh_alloc (fun live sz => numa_alloc live sz node).

Lemma mapping_fresh live sz node b :
  0 <= sz ->
  MemoryMapping_new_on_node map_anon numa_alloc live sz node = Ok b ->
  0 <= as_ptr b /\ as_ptr b + sz < 2 ^ 64 /\
  Forall (fun q => disjoint_ranges (as_ptr b) sz q.1 q.2) live.
Proof.
  intros Hsz. unfold MemoryMapping_new_on_node, MemoryMapping_new.
  destruct node as [n|]; [destruct (numa_alloc _ _ _) eqn:En|];
    [|destruct (map_anon _ _) eqn:Ea..]; intros [= <-]; simpl; eauto.
  by eapply (numa_alloc_fresh n).
Qed.

Lemma push_region_wf m gpa sz b ro :
  mem_wf m -> 0 <= gpa -> 0 <= sz -> gpa + sz < 2 ^ 63 ->
  (forall i r, regions m !! i = Some r -> guest_addr r + size r <= gpa) ->
  0 <= as_ptr b -> as_ptr b + sz < 2 ^ 64 ->
  Forall (fun q => disjoint_ranges (as_ptr b) sz q.1 q.2) (live_ranges m) ->
  mem_wf (push_region m gpa sz b ro).
Proof.
  intros Hm ??? Habove ?? Hfresh.
  assert (forall i r, regions m !! i = Some r ->
    disjoint_ranges (as_ptr b) sz (host_addr r) (size r)) as Hf.
  { intros i r Hi. unfold live_ranges in Hfresh. rewrite Forall_fmap in Hfresh.
    by eapply Forall_lookup_1 in Hfresh. }
  split; simpl.
  - apply Forall_app. split; [apply Hm|]. repeat constructor; simpl; lia.
  - intros i j r s Hij Hr Hs.
    apply lookup_app_Some in Hr as [Hr|[Hi Hr]], Hs as [Hs|[Hj Hs]].
    + eapply (mw_sorted m Hm i j); eauto.
    + apply list_lookup_singleton_Some in Hs as [_ <-]. simpl. eauto.
    + apply lookup_lt_Some in Hs. lia.
    + apply list_lookup_singleton_Some in Hr as [? <-], Hs as [? <-]. lia.
  - intros i j r s Hij Hr Hs.
    apply lookup_app_Some in Hr as [Hr|[Hi Hr]], Hs as [Hs|[Hj Hs]].
    + eapply (mw_host m Hm i j); eauto.
    + apply list_lookup_singleton_Some in Hs as [_ <-]. simpl.
      specialize (Hf _ _ Hr). unfold disjoint_ranges in *. lia.
    + apply list_lookup_singleton_Some in Hr as [_ <-]. simpl. eauto.
    + apply list_lookup_singleton_Some in Hr as [? <-], Hs as [? <-]. lia.
  - intros k x. rewrite lookup_zero_range. case_bool_decide; [done|]. apply Hm.
Qed.

(** An access of the old regions does not see the new one. *)
Lemma push_region_read m gpa sz b ro gpa' n bs :
  mem_wf m -> mem_wf (push_region m gpa sz b ro) -> 0 <= n -> n < 2 ^ 63 ->
  read_bytes m gpa' n = Ok bs ->
  read_bytes (push_region m gpa sz b ro) gpa' n = Ok bs.
Proof.
  intros Hm Hp Hn Hg. rewrite !read_bytes_eq by done. simpl.
  rewrite find_app. destruct (List.find _ _) as [r|] eqn:E; [|done].
  split_if; [|done]. intros [= <-]. f_equal.
  apply find_lookup in E as (i & Hi & Hh).
  unfold holds in Hh. bool_to_prop.
  apply load_zero_range_disjoint. pose proof (lookup_lt_Some _ _ _ Hi).
  pose proof (mw_host _ Hp (length (regions m)) i) as Hd. simpl in Hd.
  specialize (Hd (mkRegion gpa sz (as_ptr b) ro) r ltac:(lia)).
  rewrite lookup_app_r, Nat.sub_diag, lookup_app_l in Hd by done.
  specialize (Hd eq_refl Hi). unfold disjoint_ranges in *. simpl in Hd. lia.
Qed.

Lemma allocate_region_inv sz ro m gpa m' :
  allocate_region map_anon numa_alloc sz ro m = (Ok gpa, m') ->
  exists b, m' = push_region m gpa sz b ro /\
    match last (regions m) with Some r => region_end r | None => Ok 0 end = Ok gpa /\
    MemoryMapping_new_on_node map_anon numa_alloc (live_ranges m) sz (numa_node m) = Ok b.
Proof.
  unfold allocate_region. intros H. inv_st. eauto.
Qed.

(** a region allocation keeps the memory well formed, places the region
    after every other one, and leaves what was readable readable with the same
    bytes. *)
Theorem allocate_region_spec sz ro m gpa m' :
  mem_wf m -> 0 <= sz ->
  allocate_region map_anon numa_alloc sz ro m = (Ok gpa, m') ->
  gpa + sz < 2 ^ 63 ->
  mem_wf m' /\
  (forall i r, regions m !! i = Some r -> guest_addr r + size r <= gpa) /\
  (forall a n, 0 <= n < 2 ^ 63 -> gpa <= a -> a < gpa + sz -> a + n <= gpa + sz ->
     read_bytes m' a n = Ok (replicate (Z.to_nat n) 0)) /\
  (forall a n bs, 0 <= n -> n < 2 ^ 63 ->
     read_bytes m a n = Ok bs -> read_bytes m' a n = Ok bs).
Proof.
  intros Hm Hsz (b & -> & Hgpa & Hb)%allocate_region_inv Hend.
  apply mapping_fresh in Hb as (? & ? & Hfresh); [|done].
  assert (0 <= gpa /\ forall i r, regions m !! i = Some r ->
    guest_addr r + size r <= gpa) as [? Habove].
  { destruct (last (regions m)) as [r|] eqn:El.
    - unfold region_end in Hgpa. apply add_inv in Hgpa as [-> _].
      rewrite last_lookup in El. pose proof (Forall_lookup_1 _ _ _ _ (mw_regions m Hm) El) as [].
      split; [lia|]. intros i s Hi. destruct (decide (i = pred (length (regions m)))) as [->|].
      + by simplify_eq.
      + pose proof (lookup_lt_Some _ _ _ Hi).
        pose proof (mw_sorted m Hm i (pred (length (regions m))) s r ltac:(lia) Hi El). lia.
    - injection Hgpa as <-. apply last_None in El. rewrite El. split; [lia|]. done. }
  assert (mem_wf (push_region m gpa sz b ro)) as Hp by by apply push_region_wf.
  split; [done|]. split; [done|]. split; [|eauto using push_region_read].
  intros a n [??] ???. rewrite read_bytes_eq by (done || lia). simpl. rewrite find_app.
  destruct (List.find _ (regions m)) as [r|] eqn:E.
  { apply find_lookup in E as (i & Hi & Hh).
    specialize (Habove _ _ Hi). unfold holds in Hh. bool_to_prop. lia. }
  simpl. unfold holds at 1. simpl.
  rewrite (proj2 (Z.leb_le gpa a)), (proj2 (Z.ltb_lt _ _)) by lia. simpl.
  rewrite (proj2 (Z.leb_le _ _)) by lia. by rewrite load_zero_range_in by lia.
Qed.
Lemma allocate_ranges_spec ranges m m' :
  mem_wf m ->
  (forall i p, ranges !! i = Some p -> 0 <= p.1 /\ 0 <= p.2 /\ p.1 + p.2 < 2 ^ 63) ->
  (forall i p r, ranges !! i = Some p -> r ∈ regions m -> guest_addr r + size r <= p.1) ->
  (forall i j p q, (i < j)%nat -> ranges !! i = Some p -> ranges !! j = Some q ->
     p.1 + p.2 <= q.1) ->
  allocate_ranges map_anon numa_alloc ranges m = (Ok tt, m') ->
  mem_wf m' /\ total_size m' = total_size m /\
  (fun r => (guest_addr r, size r)) <$> regions m' =
    ((fun r => (guest_addr r, size r)) <$> regions m) ++ ranges.
Proof.
  revert m. induction ranges as [|[gpa sz] ranges IH]; intros m Hm Hr Ha Hs H; simpl in H.
  { inv_st. by rewrite app_nil_r. }
  inv_st. rename select (MemoryMapping_new_on_node _ _ _ _ _ = _) into Hb.
  destruct (Hr 0%nat (gpa, sz) eq_refl) as (? & ? & ?). simpl in *.
  apply mapping_fresh in Hb as (? & ? & Hf); [|done].
  eapply IH in H as (Hwf & Ht & Hreg).
  - split; [done|]. split; [done|]. rewrite Hreg. simpl. by rewrite fmap_app, <-app_assoc.
  - apply push_region_wf; try done. intros i r Hi.
    eapply (Ha 0%nat (gpa, sz)); [done|]. by eapply list_elem_of_lookup_2.
  - intros i p Hp. by apply (Hr (S i)).
  - intros i p r Hp. simpl. rewrite elem_of_app, list_elem_of_singleton. intros [Hin| ->].
    + by eapply (Ha (S i)).
    + by eapply (Hs 0%nat (S i) (gpa, sz) p ltac:(lia)).
  - intros i j p q Hij Hp Hq. by apply (Hs (S i) (S j) p q ltac:(lia)).
Qed.

Lemma layout_matches_fmap rs :
  layout_matches rs ((fun r => (guest_addr r, size r)) <$> rs) = true.
Proof.
  unfold layout_matches. rewrite length_fmap, Nat.eqb_refl. simpl.
  induction rs as [|r rs IH]; [done|]. simpl. by rewrite !Z.eqb_refl.
Qed.

(** allocating a guest's RAM on a fresh memory keeps it well formed and
    lays the regions out exactly as [ram_ranges] says, so that the backend's
    pages can be adopted afterwards without a layout error. *)
Theorem allocate_ram_spec m m' :
  mem_wf m -> regions m = [] -> 0 <= total_size m < 2 ^ 62 ->
  allocate_ram map_anon numa_alloc m = (Ok tt, m') ->
  mem_wf m' /\
  (fun r => (guest_addr r, size r)) <$> regions m' = ram_ranges (total_size m) /\
  layout_matches (regions m') (ram_ranges (total_size m')) = true.
Proof.
  intros Hm Hnil Ht H. apply allocate_ranges_spec in H as (Hwf & Et & Hreg); [|done|..].
  - rewrite Hnil in Hreg. simpl in Hreg. split; [done|]. split; [done|].
    rewrite Et, <-Hreg. apply layout_matches_fmap.
  - intros i p. unfold ram_ranges, RAM_HOLE_START, HIGH_RAM_START.
    split_if; destruct i as [|[|i]]; simpl; try done; intros [= <-]; simpl; lia.
  - rewrite Hnil. intros ???? []%not_elem_of_nil.
  - intros i j p q Hij. unfold ram_ranges, RAM_HOLE_START, HIGH_RAM_START.
    split_if; destruct i as [|[|i]], j as [|[|j]]; simpl; try done; try lia;
      intros [= <-] [= <-]; simpl; lia.
Qed.
End AllocationFacts.

(** ** The RAM layout *)

Lemma host_offset_eq sz gpa :
  0 <= gpa ->
  host_offset sz gpa =
  if (gpa <? RAM_HOLE_START) && (gpa <? sz) then Some gpa
  else if (HIGH_RAM_START <=? gpa) && (gpa - HIGH_RAM_START <? sz - RAM_HOLE_START)
       then Some (gpa - (HIGH_RAM_START - RAM_HOLE_START))
       else None.
Proof.
  intros. unfold host_offset, ram_ranges.
  destruct (Z.leb_spec sz RAM_HOLE_START); simpl;
    unfold RAM_HOLE_START, HIGH_RAM_START in *;
    zcases; done || lia || (f_equal; lia).
Qed.

(** the layout is a bijection: every offset of the host buffer is the
    image of exactly one guest address, and no guest address of the hole below
    4 GiB is RAM. *)
Theorem host_offset_bijective sz :
  0 <= sz ->
  (forall off, 0 <= off < sz -> exists gpa, 0 <= gpa /\ host_offset sz gpa = Some off) /\
  (forall gpa off, 0 <= gpa -> host_offset sz gpa = Some off -> 0 <= off < sz) /\
  (forall gpa gpa' off, 0 <= gpa -> 0 <= gpa' ->
     host_offset sz gpa = Some off -> host_offset sz gpa' = Some off -> gpa = gpa') /\
  (forall gpa, RAM_HOLE_START <= gpa < HIGH_RAM_START -> host_offset sz gpa = None).
Proof.
  intros Hsz. split_and!.
  - intros off ?. exists (if off <? RAM_HOLE_START then off
                          else off + (HIGH_RAM_START - RAM_HOLE_START)).
    unfold HIGH_RAM_START, RAM_HOLE_START in *.
    split; [zcases; lia|]. rewrite host_offset_eq by (zcases; lia).
    unfold HIGH_RAM_START, RAM_HOLE_START. zcases; lia || (f_equal; lia).
  - intros gpa off ?. rewrite host_offset_eq by lia.
    unfold HIGH_RAM_START, RAM_HOLE_START. zcases; intros [= <-]; lia.
  - intros gpa gpa' off ??. rewrite !host_offset_eq by lia.
    unfold HIGH_RAM_START, RAM_HOLE_START. zcases; intros [= <-] [= ?]; lia.
  - intros gpa ?. unfold HIGH_RAM_START, RAM_HOLE_START in *. rewrite host_offset_eq by lia.
    unfold HIGH_RAM_START, RAM_HOLE_START. zcases; done || lia.
Qed.

Lemma layout_matches_eq rs layout :
  layout_matches rs layout = true ->
  (fun r => (guest_addr r, size r)) <$> rs = layout.
Proof.
  unfold layout_matches. revert layout.
  induction rs as [|r rs IH]; intros [|[g n] layout]; simpl; try done.
  intros H. bool_to_prop. subst. f_equal. apply IH. by apply andb_true_iff.
Qed.

Lemma adopt_regions base rs layout rs' :
  (fun r => (guest_addr r, size r)) <$> rs = layout ->
  rebase base 0 rs = Ok rs' ->
  (fun r => (guest_addr r, size r)) <$> rs' = layout /\
  (fun r => host_addr r) <$> rs' =
    (fix go off l := match l with [] => [] | (_, n) :: l' => (base + off) :: go (off + n) l' end)
      0 layout.
Proof.
  generalize 0 as off. revert rs' layout.
  induction rs as [|r rs IH]; csimpl; intros rs' layout off <- H; inv_ok; subst; [done|].
  match goal with H1 : add 64 base off = _, H2 : add 64 off _ = _ |- _ =>
    apply add_inv in H1 as [-> _], H2 as [-> _] end.
  edestruct IH as [E1 E2]; [reflexivity|done|].
  csimpl. by rewrite E1, E2.
Qed.

(** after [adopt_backend_pages] the device model and the backend agree:
    a guest address translates to the backend's buffer at the offset a raw
    memory image is laid out by, and an address that is not RAM does not
    translate. *)
Theorem adopt_translates base m m' gpa :
  0 <= base -> base + total_size m < 2 ^ 64 -> 0 <= total_size m < 2 ^ 62 -> 0 <= gpa ->
  adopt_backend_pages base m = (Ok tt, m') ->
  translate m' gpa =
  match host_offset (total_size m) gpa with
  | Some off => Ok (base + off)
  | None => invalid_guest_address gpa
  end.
Proof.
  intros ???? H. unfold adopt_backend_pages in H.
  destruct (layout_matches _ _) eqn:El; [|done].
  destruct (rebase _ _ _) as [rs| |] eqn:Er; [|done..]. injection H as <-.
  apply layout_matches_eq in El. eapply adopt_regions in Er as [Eg Eh]; [|done].
  unfold translate. simpl. unfold host_offset. unfold ram_ranges in *.
  destruct (total_size m <=? RAM_HOLE_START) eqn:Es; bool_to_prop;
    repeat (destruct rs as [|? rs]; try done); csimpl in Eg; csimpl in Eh; simplify_eq;
    (rewrite translate_in_eq by
       (repeat constructor; unfold RAM_HOLE_START, HIGH_RAM_START in *; lia));
    simpl; unfold holds, RAM_HOLE_START, HIGH_RAM_START in *;
    zcases; done || lia || (f_equal; lia).
Qed.

(** ** Guest memory implements the interface *)

#[export] Instance GuestMemory_ram : GuestRam GuestMemory := {
  ram_read := read_bytes;
  ram_write := write_bytes;
  ram_wf := mem_wf
}.

#[export] Instance GuestMemory_ram_laws : GuestRamLaws GuestMemory.
Proof.
  split; simpl; unfold slice_len.
  - intros m a n bs Hm [Hn Ha]. rewrite read_bytes_eq by done.
    destruct (List.find _ _) as [r|]; [|done]. split_if; [|done]. intros [= <-].
    split; [rewrite length_load; lia|apply load_bytes_ok, Hm].
  - intros m a n Hm [Hn Ha]. rewrite read_bytes_eq by done.
    destruct (List.find _ _); [|done]. by split_if.
  - intros m a d Hm [Hn Ha]. rewrite write_bytes_eq.
    pose proof (translate_no_panic m a (Z.of_nat (length d)) Hm Hn Ha).
    by destruct (translate_range _ _ _).
  - intros. by eapply write_bytes_wf.
  - intros m a d e m'. rewrite write_bytes_eq. by destruct (translate_range _ _ _); intros [= <-].
  - intros. by eapply read_after_write.
  - intros m a d m' b n Hm [??] [??] ??. by eapply read_frame.
  - intros m a n bs off k Hm [??] ????. apply read_bytes_sub with (n := n); done.
Qed.

(** ** A memory to compute with *)

(** A host allocator that hands out page-aligned ranges above everything
    mapped, and no NUMA placement. *)
Definition bump_alloc (live : list (Z * Z)) (sz : Z) : option Z :=
  let top := foldr (fun q acc => Z.max (q.1 + Z.max q.2 0) acc) 0x10000 live in
  let p := (top + 4095) / 4096 * 4096 in
  if p + sz <? 2 ^ 64 then Some p else None.

Definition no_numa (live : list (Z * Z)) (sz node : Z) : option Z := None.

Lemma bump_alloc_fresh : fresh_alloc bump_alloc.
Proof.
  intros live sz p Hsz. unfold bump_alloc.
  set (top := foldr _ _ live).
  assert (0x10000 <= top /\ Forall (fun q => q.1 + Z.max q.2 0 <= top) live) as [Ht Hf].
  { unfold top. clear. induction live as [|q live [IH1 IH2]]; simpl; [done|].
    split; [lia|]. constructor; [lia|].
    eapply Forall_impl; [done|]. simpl. lia. }
  split_if; [|done]. intros [= <-].
  assert (top <= (top + 4095) / 4096 * 4096)
    by (pose proof (Z.div_mod (top + 4095) 4096); pose proof (Z.mod_pos_bound (top + 4095) 4096); lia).
  split; [lia|]. split; [done|]. eapply Forall_impl; [done|].
  unfold disjoint_ranges. simpl. lia.
Qed.

Definition demo_mem : GuestMemory :=
  (allocate_region bump_alloc no_numa 0x10000 false (new_on_node 0x10000 None ∅)).2.

Lemma new_on_node_wf sz node : mem_wf (new_on_node sz node ∅).
Proof. by split. Qed.

Lemma demo_mem_wf : mem_wf demo_mem.
Proof.
  apply (push_region_wf (new_on_node 0x10000 None ∅) 0 0x10000 (Anon 0x10000 0x10000) false);
    by try apply new_on_node_wf.
Qed.

Definition demo_ram : GuestMemory :=
  (allocate_ram bump_alloc no_numa (new_on_node 0x140000000 None ∅)).2.

(** Writing four bytes to the demonstration memory. *)
Lemma write_bytes_spec_witness :
  exists m', write_bytes 0x4000 [1; 2; 3; 4] demo_mem = (Ok tt, m') /\
    read_bytes m' 0x4000 4 = Ok [1; 2; 3; 4] /\
    read_bytes m' 0x4004 4 = read_bytes demo_mem 0x4004 4.
Proof.
  pose proof (write_bytes_spec demo_mem 0x4000 [1; 2; 3; 4] demo_mem_wf
    ltac:(repeat constructor; lia) ltac:(simpl; lia)) as H.
  destruct (write_bytes 0x4000 [1; 2; 3; 4] demo_mem) as [[[]|e|p] m'] eqn:E.
  - exists m'. split; [done|]. destruct H as (_ & Hr & Hf). split; [exact Hr|].
    apply Hf; [lia|lia|left; simpl; lia].
  - exfalso. revert E. vm_compute. discriminate.
  - exfalso. revert E. vm_compute. discriminate.
Defined.

Lemma read_bytes_total_witness :
  exists bs, read_bytes demo_mem 0x1000 16 = Ok bs /\ Z.of_nat (length bs) = 16.
Proof.
  pose proof (read_bytes_total demo_mem 0x1000 16 demo_mem_wf ltac:(lia) ltac:(lia)) as H.
  destruct (read_bytes demo_mem 0x1000 16) as [bs|e|p] eqn:E.
  - exists bs. split; [done|apply H].
  - exfalso. revert E. vm_compute. discriminate.
  - destruct H.
Defined.

Lemma allocate_region_spec_witness :
  mem_wf demo_mem /\ read_bytes demo_mem 0x8000 2 = Ok [0; 0].
Proof.
  destruct (allocate_region_spec bump_alloc no_numa bump_alloc_fresh
    ltac:(intros ?????; discriminate) 0x10000 false (new_on_node 0x10000 None ∅) 0 demo_mem
    (new_on_node_wf _ _) ltac:(lia) ltac:(reflexivity) ltac:(lia)) as (Hwf & _ & Hz & _).
  split; [exact Hwf|]. apply (Hz 0x8000 2); lia.
Defined.

(** Five GiB: one range below the hole and one from 4 GiB. *)
Lemma allocate_ram_spec_witness :
  (fun r => (guest_addr r, size r)) <$> regions demo_ram =
    [(0, 0xC0000000); (0x100000000, 0x80000000)] /\ mem_wf demo_ram.
Proof.
  destruct (allocate_ram_spec bump_alloc no_numa bump_alloc_fresh
    ltac:(intros ?????; discriminate) (new_on_node 0x140000000 None ∅) demo_ram
    (new_on_node_wf _ _) ltac:(reflexivity) ltac:(simpl; lia) ltac:(vm_compute; reflexivity))
    as (Hwf & Hreg & _).
  split; [exact Hreg|exact Hwf].
Defined.

Lemma host_offset_bijective_witness :
  exists gpa, 0 <= gpa /\ host_offset 0x140000000 gpa = Some 0x130000000.
Proof.
  destruct (host_offset_bijective 0x140000000 ltac:(lia)) as [H _]. apply H. lia.
Defined.

Lemma adopt_translates_witness :
  exists m', adopt_backend_pages 0x7f0000000000 demo_ram = (Ok tt, m') /\
    translate m' 0x100000010 = Ok (0x7f0000000000 + 0xC0000010).
Proof.
  eexists. split; [vm_compute; reflexivity|].
  etransitivity; [apply (adopt_translates 0x7f0000000000 demo_ram)|].
  all: first [lia | vm_compute; reflexivity | vm_compute; split; congruence].
Defined.
