(* ===== verification/MemoryCow.v ===== *)
(** * Copy-on-write guest memory ([hv2-core/src/memory_cow.rs])

    A template is an immutable page-aligned image; a clone shares it and keeps
    the pages it has written in an overlay.  The pool hands out reference
    counted sandboxes and keeps weak references to them, modelled with an
    explicit store of shared clones. *)

From S2P Require Import Prelude GuestRam GuestMem.

Definition PAGE_SIZE : Z := 4096.

Record MemoryTemplate := mkTemplate { data : bytes; tlen : Z }.

(** [Vec::resize(padded, 0)] of a vector no longer than [padded]. *)
Definition resize0 (l : bytes) (padded : Z) : bytes :=
  take (Z.to_nat padded) l ++ replicate (Z.to_nat padded - length l) 0.

Definition from_bytes (bs : bytes) : Result MemoryTemplate :=
  let len := Z.of_nat (length bs) in
  padded ← mul 64 (div_ceil len PAGE_SIZE) PAGE_SIZE;
  if padded <? 2 ^ 63 then mret (mkTemplate (resize0 bs padded) len) else Panic CapacityOverflow.

(** [regions.iter().map(|r| r.guest_addr + r.size).max().unwrap_or(0)]. *)
Fixpoint max_end (rs : list MemoryRegion) : Result Z :=
  match rs with
  | [] => mret 0
  | r :: rest => e ← add 64 (guest_addr r) (size r); m ← max_end rest; mret (Z.max e m)
  end.

Fixpoint capture_regions (m : GuestMemory) (rs : list MemoryRegion) (d : bytes)
    : Result bytes :=
  match rs with
  | [] => mret d
  | r :: rest =>
      _ ← add 64 (guest_addr r) (size r);
      _ ← slice_ck d (guest_addr r) (size r);
      bs ← read_bytes_into m (guest_addr r) (size r);
      d' ← splice_ck d (guest_addr r) bs;
      capture_regions m rest d'
  end.

Definition capture (m : GuestMemory) : Result MemoryTemplate :=
  e ← max_end (regions m);
  let len := Z.max e (total_size m) in
  padded ← mul 64 (div_ceil len PAGE_SIZE) PAGE_SIZE;
  zeros ← vec_zeroed padded;
  d ← capture_regions m (regions m) zeros;
  mret (mkTemplate d len).

Definition page_count (t : MemoryTemplate) : Z := Z.of_nat (length (data t)) / PAGE_SIZE.

Definition page (t : MemoryTemplate) (idx : Z) : Result bytes :=
  start ← mul 64 idx PAGE_SIZE; slice_ck (data t) start PAGE_SIZE.

Record CowMemory := mkCow { template : MemoryTemplate; overlay : gmap Z bytes }.

Definition instantiate (t : MemoryTemplate) : CowMemory := mkCow t ∅.

Definition len (c : CowMemory) : Z := tlen (template c).
Definition resident_bytes (c : CowMemory) : Z := Z.of_nat (base.size (overlay c)) * PAGE_SIZE.
Definition copied_pages (c : CowMemory) : Z := Z.of_nat (base.size (overlay c)).
Definition shared_bytes (c : CowMemory) : Result Z :=
  n ← sub (page_count (template c)) (Z.of_nat (base.size (overlay c))); mul 64 n PAGE_SIZE.

Definition check_bounds (c : CowMemory) (offset n : Z) : Result unit :=
  match checked_add 64 offset n with
  | None => Err (Memory "CoW access overflow: {offset} + {len}" [offset; n])
  | Some e =>
      if tlen (template c) <? e
      then Err (Memory "CoW access {offset}..{end} exceeds memory length {}"
                  [offset; e; tlen (template c)])
      else mret tt
  end.

Definition page_bytes (c : CowMemory) (idx : Z) : Result bytes :=
  match overlay c !! idx with
  | Some p => mret p
  | None => page (template c) idx
  end.

(** The page-by-page loop of [read_into]. *)
Fixpoint read_loop (fuel : nat) (c : CowMemory) (pos done n : Z) (buf : bytes)
    : Result bytes :=
  if done <? n then
    match fuel with
    | O => Panic FuelExhausted
    | S fuel' =>
        let pg := pos / PAGE_SIZE in
        let po := pos mod PAGE_SIZE in
        let k := Z.min (PAGE_SIZE - po) (n - done) in
        src ← page_bytes c pg;
        chunk ← slice_ck src po k;
        buf' ← splice_ck buf done chunk;
        pos' ← add 64 pos k;
        read_loop fuel' c pos' (done + k) n buf'
    end
  else mret buf.

(** [buf] is the buffer read into; the result is its new contents. *)
Definition read_into (c : CowMemory) (offset : Z) (buf : bytes) : Result bytes :=
  let n := Z.of_nat (length buf) in
  _ ← check_bounds c offset n;
  if bool_decide (overlay c = ∅) then
    src ← slice_ck (data (template c)) offset n; splice_ck buf 0 src
  else read_loop (length buf) c offset 0 n buf.

(** The buffer is allocated before the bounds are checked. *)
Definition read (c : CowMemory) (offset n : Z) : Result bytes :=
  buf ← vec_zeroed n; read_into c offset buf.

(** The loop of [write]: a page is copied private the first time it is met. *)
Fixpoint write_loop (fuel : nat) (pos done : Z) (d : bytes) : ST CowMemory Error unit :=
  if done <? Z.of_nat (length d) then
    match fuel with
    | O => st_lift (Panic FuelExhausted)
    | S fuel' =>
        let pg := pos / PAGE_SIZE in
        let po := pos mod PAGE_SIZE in
        let k := Z.min (PAGE_SIZE - po) (Z.of_nat (length d) - done) in
        old ← st_read (fun c => page_bytes c pg);
        _ ← st_modify (fun c => mkCow (template c) (<[pg := old]> (overlay c)));
        chunk ← st_lift (slice_ck d done k);
        new ← st_lift (splice_ck old po chunk);
        _ ← st_modify (fun c => mkCow (template c) (<[pg := new]> (overlay c)));
        pos' ← st_lift (add 64 pos k);
        write_loop fuel' pos' (done + k) d
    end
  else mret tt.

Definition write (offset : Z) (d : bytes) : ST CowMemory Error unit :=
  _ ← st_read (fun c => check_bounds c offset (Z.of_nat (length d)));
  write_loop (length d) offset 0 d.

(** [materialize] visits the overlay in the hash map's order, which is not
    specified: the entries are an argument. *)
Fixpoint overlay_onto (entries : list (Z * bytes)) (out : bytes) : Result bytes :=
  match entries with
  | [] => mret out
  | (idx, pg) :: rest =>
      start ← mul 64 idx PAGE_SIZE; out' ← splice_ck out start pg; overlay_onto rest out'
  end.

Definition materialize_in (c : CowMemory) (entries : list (Z * bytes)) : Result bytes :=
  out ← overlay_onto entries (data (template c));
  mret (take (Z.to_nat (tlen (template c))) out).

Definition materialize (c : CowMemory) : Result bytes :=
  materialize_in c (map_to_list (overlay c)).

(** [write_to], against any guest memory. *)
Section WriteTo.
Context `{GuestRam M}.

Fixpoint write_to_loop (fuel : nat) (c : CowMemory) (base off : Z) (buf : bytes)
    : ST M Error unit :=
  if off <? len c then
    match fuel with
    | O => st_lift (Panic FuelExhausted)
    | S fuel' =>
        let n := Z.min PAGE_SIZE (len c - off) in
        chunk ← st_lift (slice_ck buf 0 n);
        bs ← st_lift (read_into c off chunk);
        buf' ← st_lift (splice_ck buf 0 bs);
        a ← st_lift (add 64 base off);
        _ ← ram_write a bs;
        write_to_loop fuel' c base (off + n) buf'
    end
  else mret tt.

Definition write_to (c : CowMemory) (base : Z) : ST M Error unit :=
  write_to_loop (Z.to_nat (div_ceil (len c) PAGE_SIZE)) c base 0
    (replicate (Z.to_nat PAGE_SIZE) 0).
End WriteTo.

(** ** The abstract memory a clone stands for *)

(** The flat image: each byte of the template unless its page is private. *)
Definition flat (c : CowMemory) : bytes :=
  imap (fun i b =>
    default b (p ← overlay c !! (Z.of_nat i / PAGE_SIZE);
               p !! Z.to_nat (Z.of_nat i mod PAGE_SIZE)))
    (data (template c)).

Record template_wf (t : MemoryTemplate) : Prop := {
  tw_pages : Z.of_nat (length (data t)) = div_ceil (tlen t) PAGE_SIZE * PAGE_SIZE;
  tw_len : 0 <= tlen t;
  tw_fits : Z.of_nat (length (data t)) < 2 ^ 63
}.

Record cow_wf (c : CowMemory) : Prop := {
  cw_template : template_wf (template c);
  cw_overlay : forall idx p, overlay c !! idx = Some p ->
    0 <= idx < page_count (template c) /\ Z.of_nat (length p) = PAGE_SIZE
}.

Lemma div_ceil_bounds n : 0 <= n ->
  n <= div_ceil n PAGE_SIZE * PAGE_SIZE < n + PAGE_SIZE.
Proof.
  intros. unfold div_ceil, PAGE_SIZE.
  pose proof (Z.div_mod (n + 4096 - 1) 4096). pose proof (Z.mod_pos_bound (n + 4096 - 1) 4096). lia.
Qed.

Lemma template_len t : template_wf t -> tlen t <= Z.of_nat (length (data t)).
Proof. intros []. pose proof (div_ceil_bounds (tlen t)). lia. Qed.

Lemma page_count_eq t : template_wf t ->
  page_count t * PAGE_SIZE = Z.of_nat (length (data t)).
Proof.
  intros []. unfold page_count. rewrite tw_pages0.
  rewrite Z.div_mul by (unfold PAGE_SIZE; lia). done.
Qed.

Lemma length_flat c : length (flat c) = length (data (template c)).
Proof. apply length_imap. Qed.

Lemma lookup_flat c i :
  flat c !! i =
  (fun b => default b (p ← overlay c !! (Z.of_nat i / PAGE_SIZE);
                       p !! Z.to_nat (Z.of_nat i mod PAGE_SIZE))) <$> data (template c) !! i.
Proof. apply list_lookup_imap. Qed.

Lemma page_eq c idx :
  template_wf (template c) -> 0 <= idx < page_count (template c) ->
  page (template c) idx = Ok (slice (data (template c)) (idx * PAGE_SIZE) PAGE_SIZE).
Proof.
  intros Ht Hi. pose proof (page_count_eq _ Ht). pose proof (tw_fits _ Ht).
  unfold page. rewrite mul_ok by (unfold PAGE_SIZE in *; nia). simpl.
  unfold slice_ck, PAGE_SIZE in *.
  by rewrite !(proj2 (Z.leb_le _ _)) by nia.
Qed.

(** A page read through [page_bytes] is the page of the flat image. *)
Lemma page_bytes_eq c idx :
  cow_wf c -> 0 <= idx < page_count (template c) ->
  page_bytes c idx = Ok (slice (flat c) (idx * PAGE_SIZE) PAGE_SIZE).
Proof.
  intros [Ht Ho] Hi. pose proof (page_count_eq _ Ht) as Hc. unfold page_bytes.
  destruct (overlay c !! idx) as [p|] eqn:E; [|rewrite page_eq by done]; simpl; f_equal;
    apply list_eq; intros k; rewrite !lookup_slice; [destruct (Ho _ _ E) as [_ Hl]|];
    case_bool_decide; try done; try (apply lookup_ge_None; lia);
    rewrite lookup_flat;
    replace (Z.of_nat (Z.to_nat (idx * PAGE_SIZE) + k)) with (Z.of_nat k + idx * PAGE_SIZE)
      by (unfold PAGE_SIZE in *; lia);
    rewrite Z.div_add, Z.mod_add, Z.div_small, Z.mod_small, Z.add_0_l, E by (unfold PAGE_SIZE in *; lia);
    simpl.
  - rewrite Nat2Z.id.
    destruct (lookup_lt_is_Some_2 p k) as [b Hb]; [lia|]. rewrite Hb. simpl.
    destruct (lookup_lt_is_Some_2 (data (template c)) (Z.to_nat (idx * PAGE_SIZE) + k)) as [b' Hb'];
      [unfold PAGE_SIZE in *; nia|]. by rewrite Hb'.
  - by destruct (data (template c) !! _).
Qed.

Lemma pos_page t pos : template_wf t -> 0 <= pos < Z.of_nat (length (data t)) ->
  0 <= pos / PAGE_SIZE < page_count t.
Proof.
  intros Ht ?. pose proof (page_count_eq t Ht). unfold PAGE_SIZE in *.
  split; [apply Z.div_pos; lia|]. apply Z.div_lt_upper_bound; lia.
Qed.

(** One step of either loop: the chunk of the page holding [pos]. *)
Lemma chunk_eq l pos k :
  0 <= pos -> 0 <= k <= PAGE_SIZE - pos mod PAGE_SIZE ->
  slice (slice l (pos / PAGE_SIZE * PAGE_SIZE) PAGE_SIZE) (pos mod PAGE_SIZE) k
  = slice (A:=Z) l pos k.
Proof.
  intros Hp Hk. pose proof (Z.div_mod pos PAGE_SIZE) as Hd.
  pose proof (Z.mod_pos_bound pos PAGE_SIZE). unfold PAGE_SIZE in *.
  pose proof (Z.div_pos pos 4096).
  apply list_eq. intros i. rewrite !lookup_slice. case_bool_decide; [|done].
  rewrite bool_decide_true by lia. f_equal. lia.
Qed.

Lemma read_loop_eq fuel c pos done n buf :
  cow_wf c -> 0 <= pos -> 0 <= done <= n -> n = Z.of_nat (length buf) ->
  pos + (n - done) <= Z.of_nat (length (flat c)) -> n - done <= Z.of_nat fuel ->
  read_loop fuel c pos done n buf = Ok (splice buf done (slice (flat c) pos (n - done))).
Proof.
  intros Hc. pose proof (cw_template c Hc) as Ht. revert pos done buf.
  induction fuel as [|fuel IH]; intros pos done buf Hp Hd Hn Hb Hf; simpl.
  { rewrite (proj2 (Z.ltb_ge _ _)) by lia. replace (n - done) with 0 by lia.
    by rewrite slice_0, splice_nil. }
  destruct (Z.ltb_spec done n).
  2:{ replace (n - done) with 0 by lia. by rewrite slice_0, splice_nil. }
  set (k := Z.min _ _). rewrite length_flat in *. pose proof (tw_fits _ Ht).
  pose proof (Z.mod_pos_bound pos PAGE_SIZE ltac:(done)).
  assert (0 < k <= n - done /\ k <= PAGE_SIZE - pos mod PAGE_SIZE) as [??] by (unfold k; lia).
  rewrite page_bytes_eq by (done || apply pos_page; lia || done). simpl.
  assert (Z.of_nat (length (slice (flat c) (pos / PAGE_SIZE * PAGE_SIZE) PAGE_SIZE)) = PAGE_SIZE)
    as Hl.
  { pose proof (pos_page _ pos Ht ltac:(lia)). pose proof (page_count_eq _ Ht).
    apply length_slice; rewrite ?length_flat; unfold PAGE_SIZE in *; nia. }
  unfold slice_ck at 1. rewrite !(proj2 (Z.leb_le _ _)) by lia. simpl.
  rewrite chunk_eq by lia.
  assert (Z.of_nat (length (slice (flat c) pos k)) = k) as Hk
    by (apply length_slice; rewrite ?length_flat; lia).
  unfold splice_ck. rewrite !(proj2 (Z.leb_le _ _)) by lia. simpl.
  rewrite add_ok by lia. simpl.
  rewrite IH; rewrite ?length_splice, ?length_flat by lia; try lia.
  f_equal. rewrite <-Hk at 2.
  rewrite splice_app by (rewrite ?length_app, ?Nat2Z.inj_add, ?Hk, ?length_slice;
                         rewrite ?length_flat; lia).
  f_equal. symmetry. replace (n - done) with (k + (n - (done + k))) by lia.
  by rewrite slice_app by lia.
Qed.

Lemma flat_instantiate t : flat (instantiate t) = data t.
Proof.
  apply list_eq. intros i. rewrite lookup_flat. simpl. rewrite lookup_empty. simpl.
  by destruct (data t !! i).
Qed.

Lemma check_bounds_eq c off n :
  0 <= off -> 0 <= n -> template_wf (template c) ->
  check_bounds c off n =
  if off + n <=? len c then Ok tt
  else if off + n <? 2 ^ 64
       then Err (Memory "CoW access {offset}..{end} exceeds memory length {}"
                   [off; off + n; len c])
       else Err (Memory "CoW access overflow: {offset} + {len}" [off; n]).
Proof.
  intros ?? Ht. unfold check_bounds, checked_add, len.
  pose proof (template_len _ Ht). pose proof (tw_fits _ Ht).
  zcases; try done; lia.
Qed.

Lemma read_into_eq c off buf :
  cow_wf c -> 0 <= off -> off + Z.of_nat (length buf) <= len c ->
  read_into c off buf = Ok (slice (flat c) off (Z.of_nat (length buf))).
Proof.
  intros Hc Ho Hl. pose proof (cw_template c Hc) as Ht. pose proof (template_len _ Ht).
  unfold read_into, len in *. rewrite check_bounds_eq by (done || lia).
  unfold len. rewrite (proj2 (Z.leb_le _ _)) by lia. simpl.
  assert (splice buf 0 (slice (flat c) off (Z.of_nat (length buf))) =
          slice (flat c) off (Z.of_nat (length buf))) as Hs.
  { unfold splice. simpl. rewrite drop_ge; [by rewrite app_nil_r|].
    pose proof (length_slice (flat c) off (Z.of_nat (length buf)) ltac:(lia) ltac:(lia)).
    rewrite length_flat in *. lia. }
  case_bool_decide as He.
  - assert (flat c = data (template c)) as Hf.
    { destruct c as [t o]. simpl in He. subst o. apply flat_instantiate. }
    rewrite Hf in Hs. unfold slice_ck. rewrite !(proj2 (Z.leb_le _ _)) by lia. simpl.
    unfold splice_ck. rewrite length_slice by lia.
    rewrite !(proj2 (Z.leb_le _ _)) by lia. simpl. by rewrite Hs, Hf.
  - rewrite read_loop_eq by (rewrite ?length_flat; done || lia).
    by rewrite Z.sub_0_r, Hs.
Qed.

Lemma put_page c pg po chunk :
  cow_wf c -> 0 <= pg < page_count (template c) ->
  0 <= po -> po + Z.of_nat (length chunk) <= PAGE_SIZE ->
  let c' := mkCow (template c)
    (<[pg := splice (slice (flat c) (pg * PAGE_SIZE) PAGE_SIZE) po chunk]> (overlay c)) in
  cow_wf c' /\ flat c' = splice (flat c) (pg * PAGE_SIZE + po) chunk.
Proof.
  intros Hc Hpg Hpo Hl. pose proof (cw_template c Hc) as Ht.
  pose proof (page_count_eq _ Ht) as Hcnt.
  assert (Z.of_nat (length (slice (flat c) (pg * PAGE_SIZE) PAGE_SIZE)) = PAGE_SIZE) as Hsl
    by (apply length_slice; rewrite ?length_flat; unfold PAGE_SIZE in *; nia).
  assert (pg * PAGE_SIZE + PAGE_SIZE <= Z.of_nat (length (flat c)))
    by (rewrite length_flat; unfold PAGE_SIZE in *; nia).
  split.
  { split; [done|]. simpl. intros idx p. rewrite lookup_insert. case_decide.
    - subst idx. intros [= <-]. rewrite length_splice by lia. lia.
    - apply Hc. }
  apply list_eq. intros i. rewrite lookup_splice by (unfold PAGE_SIZE in *; lia).
  rewrite lookup_flat. simpl. rewrite lookup_insert.
  pose proof (Z.div_mod (Z.of_nat i) PAGE_SIZE ltac:(done)).
  pose proof (Z.mod_pos_bound (Z.of_nat i) PAGE_SIZE ltac:(done)).
  case_decide as Hi.
  - simpl. rewrite lookup_splice, lookup_slice by lia.
    rewrite (bool_decide_true (Z.of_nat (Z.to_nat _) < _)) by lia.
    replace (Z.to_nat (pg * PAGE_SIZE) + Z.to_nat (Z.of_nat i mod PAGE_SIZE))%nat with i
      by (unfold PAGE_SIZE in *; lia).
    assert (is_Some (data (template c) !! i)) as [b Hb].
    { apply lookup_lt_is_Some_2. rewrite length_flat in *. unfold PAGE_SIZE in *. lia. }
    rewrite Hb. simpl. repeat case_bool_decide; try (unfold PAGE_SIZE in *; lia).
    + replace (Z.to_nat _ - Z.to_nat po)%nat with (i - Z.to_nat (pg * PAGE_SIZE + po))%nat
        by (unfold PAGE_SIZE in *; lia).
      destruct (lookup_lt_is_Some_2 chunk (i - Z.to_nat (pg * PAGE_SIZE + po))) as [x Hx];
        [unfold PAGE_SIZE in *; lia|]. by rewrite Hx.
    + rewrite lookup_flat, Hb. simpl. by destruct (overlay c !! _ ≫= _).
  - rewrite bool_decide_false by (unfold PAGE_SIZE in *; lia). by rewrite <-lookup_flat.
Qed.

(** The pages a range of offsets touches. *)
Definition touches (pos n k : Z) : Prop := exists i, pos <= i < pos + n /\ k = i / PAGE_SIZE.

Lemma touches_split pos n m k :
  0 <= n -> 0 <= m -> touches pos (n + m) k <-> touches pos n k \/ touches (pos + n) m k.
Proof.
  intros. unfold touches. split.
  - intros (i & ? & ->). destruct (decide (i < pos + n)); [left|right]; exists i; lia.
  - intros [(i & ? & ->)|(i & ? & ->)]; exists i; lia.
Qed.

Lemma touches_one pos n k :
  0 <= pos -> 0 < n -> n <= PAGE_SIZE - pos mod PAGE_SIZE ->
  touches pos n k <-> k = pos / PAGE_SIZE.
Proof.
  intros Hp Hn Hle. pose proof (Z.div_mod pos PAGE_SIZE ltac:(done)).
  unfold touches. split.
  - intros (i & Hi & ->). pose proof (Z.mod_pos_bound pos PAGE_SIZE ltac:(done)).
    symmetry. apply (Z.div_unique _ _ _ (pos mod PAGE_SIZE + (i - pos))); lia.
  - intros ->. exists pos. split; [lia|done].
Qed.

Lemma write_step fuel pos done d c :
  cow_wf c -> 0 <= pos -> 0 <= done < Z.of_nat (length d) ->
  pos + (Z.of_nat (length d) - done) <= Z.of_nat (length (flat c)) ->
  let k := Z.min (PAGE_SIZE - pos mod PAGE_SIZE) (Z.of_nat (length d) - done) in
  write_loop (S fuel) pos done d c =
  write_loop fuel (pos + k) (done + k) d
    (mkCow (template c)
       (<[pos / PAGE_SIZE := splice (slice (flat c) (pos / PAGE_SIZE * PAGE_SIZE) PAGE_SIZE)
            (pos mod PAGE_SIZE) (slice d done k)]> (overlay c))).
Proof.
  intros Hc Hp Hd Hb k. pose proof (cw_template c Hc) as Ht. rewrite length_flat in Hb.
  pose proof (Z.mod_pos_bound pos PAGE_SIZE ltac:(done)).
  assert (0 < k /\ k <= Z.of_nat (length d) - done /\ k <= PAGE_SIZE - pos mod PAGE_SIZE)
    as (? & ? & ?) by (unfold k; lia).
  pose proof (pos_page _ pos Ht ltac:(lia)). pose proof (page_count_eq _ Ht).
  pose proof (tw_fits _ Ht).
  cbn [write_loop]. rewrite (proj2 (Z.ltb_lt _ _)) by lia. fold k.
  unfold mbind, ST_bind, st_read, st_modify, st_lift.
  rewrite page_bytes_eq by done. simpl.
  unfold slice_ck. rewrite !(proj2 (Z.leb_le _ _)) by lia. simpl.
  unfold splice_ck. rewrite !length_slice by (rewrite ?length_flat; unfold PAGE_SIZE in *; nia).
  rewrite !(proj2 (Z.leb_le _ _)) by lia. simpl. rewrite add_ok by lia.
  by rewrite insert_insert_eq.
Qed.

Lemma write_loop_spec fuel pos done d c :
  cow_wf c -> 0 <= pos -> 0 <= done <= Z.of_nat (length d) ->
  pos + (Z.of_nat (length d) - done) <= Z.of_nat (length (flat c)) ->
  Z.of_nat (length d) - done <= Z.of_nat fuel ->
  exists c', write_loop fuel pos done d c = (Ok tt, c') /\ cow_wf c' /\
    template c' = template c /\
    flat c' = splice (flat c) pos (slice d done (Z.of_nat (length d) - done)) /\
    forall k, is_Some (overlay c' !! k) <->
      is_Some (overlay c !! k) \/ touches pos (Z.of_nat (length d) - done) k.
Proof.
  revert pos done c. induction fuel as [|fuel IH]; intros pos done c Hc Hp Hd Hb Hf.
  1: assert (done = Z.of_nat (length d)) as -> by lia.
  2: destruct (decide (done = Z.of_nat (length d))) as [->|Hne].
  1,2: exists c; cbn [write_loop]; rewrite Z.ltb_irrefl, Z.sub_diag, slice_0, splice_nil;
    split_and!; try done; intros k; split; [by left|]; intros [?|(i & ? & _)]; [done|lia].
  rewrite write_step by (done || lia). set (k := Z.min _ _).
  pose proof (cw_template c Hc) as Ht. rewrite length_flat in Hb.
  pose proof (Z.mod_pos_bound pos PAGE_SIZE ltac:(done)).
  pose proof (Z.div_mod pos PAGE_SIZE ltac:(done)).
  assert (0 < k /\ k <= Z.of_nat (length d) - done /\ k <= PAGE_SIZE - pos mod PAGE_SIZE)
    as (? & ? & ?) by (unfold k; lia).
  assert (Z.of_nat (length (slice d done k)) = k) as Hk by (apply length_slice; lia).
  destruct (put_page c (pos / PAGE_SIZE) (pos mod PAGE_SIZE) (slice d done k) Hc
    (pos_page _ pos Ht ltac:(lia)) ltac:(lia) ltac:(lia)) as [Hc1 Hflat1].
  destruct (IH (pos + k) (done + k) _ Hc1) as (c' & Hw & Hc' & Ht' & Hflat & Hov);
    [lia|lia| |lia|]. { rewrite length_flat. simpl. lia. }
  exists c'. split_and!; try done.
  - rewrite Hflat, Hflat1. replace (pos / PAGE_SIZE * PAGE_SIZE + pos mod PAGE_SIZE) with pos by lia.
    rewrite <-Hk at 2. rewrite splice_app.
    + f_equal. rewrite <-slice_app by lia. f_equal. lia.
    + done.
    + rewrite length_app, Nat2Z.inj_add, Hk, length_slice, length_flat by lia. lia.
  - intros j. rewrite Hov. simpl. rewrite lookup_insert_is_Some.
    replace (Z.of_nat (length d) - done) with (k + (Z.of_nat (length d) - (done + k))) by lia.
    rewrite touches_split, (touches_one pos k) by lia.
    destruct (decide (pos / PAGE_SIZE = j)); intuition congruence.
Qed.

Lemma write_eq off d c :
  write off d c =
  match check_bounds c off (Z.of_nat (length d)) with
  | Ok _ => write_loop (length d) off 0 d c
  | Err e => (Err e, c)
  | Panic p => (Panic p, c)
  end.
Proof. unfold write, mbind, ST_bind, st_read. by destruct (check_bounds _ _ _). Qed.

Lemma write_ok_spec off d c :
  cow_wf c -> 0 <= off -> off + Z.of_nat (length d) <= len c ->
  exists c', write off d c = (Ok tt, c') /\ cow_wf c' /\ template c' = template c /\
    flat c' = splice (flat c) off d /\
    forall k, is_Some (overlay c' !! k) <->
      is_Some (overlay c !! k) \/ touches off (Z.of_nat (length d)) k.
Proof.
  intros Hc Ho Hl. pose proof (cw_template c Hc) as Ht. pose proof (template_len _ Ht).
  rewrite write_eq, check_bounds_eq by (done || lia). unfold len in *.
  rewrite (proj2 (Z.leb_le _ _)) by lia.
  destruct (write_loop_spec (length d) off 0 d c) as (c' & ? & ? & ? & Hflat & Hov);
    rewrite ?length_flat; try done; try lia.
  exists c'. split_and!; try done.
  - by rewrite Hflat, slice_all by lia.
  - intros k. rewrite Hov. by rewrite Z.sub_0_r.
Qed.

(** ** Materialisation *)

Lemma overlay_onto_eq entries out :
  (forall idx p, (idx, p) ∈ entries -> 0 <= idx /\ Z.of_nat (length p) = PAGE_SIZE /\
     idx * PAGE_SIZE + PAGE_SIZE <= Z.of_nat (length out)) ->
  Z.of_nat (length out) < 2 ^ 64 -> NoDup entries.*1 ->
  exists out', overlay_onto entries out = Ok out' /\ length out' = length out /\
    forall i, out' !! i =
      match (list_to_map entries : gmap Z bytes) !! (Z.of_nat i / PAGE_SIZE) with
      | Some p => if decide (i < length out)%nat
                  then p !! Z.to_nat (Z.of_nat i mod PAGE_SIZE) else None
      | None => out !! i
      end.
Proof.
  revert out. induction entries as [|[idx p] entries IH]; intros out He Hf Hnd; simpl.
  { exists out. split_and!; try done. }
  apply NoDup_cons in Hnd as [Hni Hnd].
  destruct (He idx p) as (? & Hp & ?); [left|].
  rewrite mul_ok by lia. simpl. unfold splice_ck. rewrite !(proj2 (Z.leb_le _ _)) by (unfold PAGE_SIZE in *; lia).
  simpl.
  assert (length (splice out (idx * PAGE_SIZE) p) = length out) as Hls
    by (apply length_splice; unfold PAGE_SIZE in *; lia).
  destruct (IH (splice out (idx * PAGE_SIZE) p)) as (out' & Ho & Hl & Hlk); [|by rewrite Hls|done|].
  { intros idx' p' Hin. rewrite Hls. apply He. by right. }
  exists out'. split; [done|]. split; [by rewrite Hl|]. intros i. rewrite Hlk, Hls.
  pose proof (Z.div_mod (Z.of_nat i) PAGE_SIZE ltac:(done)).
  pose proof (Z.mod_pos_bound (Z.of_nat i) PAGE_SIZE ltac:(done)).
  rewrite lookup_insert. destruct (decide (idx = _)) as [Hd|Hd].
  - rewrite <-Hd, not_elem_of_list_to_map_1 by done.
    rewrite lookup_splice by (unfold PAGE_SIZE in *; lia).
    rewrite bool_decide_true by (unfold PAGE_SIZE in *; lia).
    rewrite decide_True by (unfold PAGE_SIZE in *; lia). f_equal. unfold PAGE_SIZE in *. lia.
  - destruct (list_to_map entries !! _); [done|].
    rewrite lookup_splice by (unfold PAGE_SIZE in *; lia).
    rewrite bool_decide_false; [done|]. unfold PAGE_SIZE in *. intros ?. apply Hd. lia.
Qed.

Lemma materialize_in_eq c entries :
  cow_wf c -> entries ≡ₚ map_to_list (overlay c) ->
  materialize_in c entries = Ok (slice (flat c) 0 (len c)).
Proof.
  intros Hc Hperm. pose proof (cw_template c Hc) as Ht. pose proof (page_count_eq _ Ht).
  unfold materialize_in.
  assert (NoDup entries.*1) as Hnd by (rewrite Hperm; apply NoDup_fst_map_to_list).
  destruct (overlay_onto_eq entries (data (template c))) as (out & Ho & Hl & Hlk);
    [|pose proof (tw_fits _ Ht); lia|done|].
  { intros idx p. rewrite Hperm, elem_of_map_to_list. intros Hi.
    destruct (cw_overlay c Hc _ _ Hi). unfold PAGE_SIZE in *. nia. }
  rewrite Ho. simpl. unfold slice. rewrite drop_0. do 2 f_equal. apply list_eq. intros i.
  rewrite Hlk, lookup_flat.
  rewrite (list_to_map_proper entries (map_to_list (overlay c))) by done.
  rewrite list_to_map_to_list.
  destruct (overlay c !! _) as [p|] eqn:E; simpl; [|by destruct (data (template c) !! i)].
  destruct (cw_overlay c Hc _ _ E) as [_ Hp].
  pose proof (Z.mod_pos_bound (Z.of_nat i) PAGE_SIZE ltac:(done)).
  destruct (lookup_lt_is_Some_2 p (Z.to_nat (Z.of_nat i mod PAGE_SIZE))) as [b Hb]; [lia|].
  rewrite Hb. case_decide.
  - destruct (lookup_lt_is_Some_2 (data (template c)) i) as [x Hx]; [done|]. by rewrite Hx.
  - by rewrite lookup_ge_None_2 by lia.
Qed.

(** ** What a clone promises *)

(** C2: a clone reads as the flat array of its logical length: a read inside it
    returns that slice (on the fast path and on the page-by-page path alike), a
    read outside is an error.  The one panic is that of the buffer, which is
    allocated before the bounds are checked: a length past [isize::MAX] panics,
    whatever the offset. *)
Theorem cow_read_spec c off n :
  cow_wf c -> 0 <= off -> 0 <= n ->
  match read c off n with
  | Ok bs => off + n <= len c /\ bs = slice (flat c) off n
  | Err _ => len c < off + n /\ n < 2 ^ 63
  | Panic p => p = CapacityOverflow /\ 2 ^ 63 <= n
  end.
Proof.
  intros Hc Ho Hn. unfold read, vec_zeroed.
  destruct (Z.ltb_spec n (2 ^ 63)); [cbn [mbind Res_bind]|by split].
  destruct (decide (off + n <= len c)).
  - rewrite read_into_eq by (autorewrite with hm; done || lia).
    autorewrite with hm. rewrite Z2Nat.id by done. done.
  - unfold read_into. autorewrite with hm. rewrite Z2Nat.id by done.
    rewrite check_bounds_eq by (done || apply Hc).
    rewrite (proj2 (Z.leb_gt _ _)) by lia. destruct (off + n <? 2 ^ 64); simpl; lia.
Qed.

(** C3: a write inside a clone changes exactly the bytes it covers, leaves the
    shared template alone, and makes private exactly the pages it touches; a
    write outside fails and changes nothing; neither panics. *)
Theorem cow_write_spec c off d :
  cow_wf c -> 0 <= off ->
  match write off d c with
  | (Ok _, c') =>
      off + Z.of_nat (length d) <= len c /\ cow_wf c' /\ template c' = template c /\
      flat c' = splice (flat c) off d /\
      forall k, is_Some (overlay c' !! k) <->
        is_Some (overlay c !! k) \/ touches off (Z.of_nat (length d)) k
  | (Err _, c') => len c < off + Z.of_nat (length d) /\ c' = c
  | (Panic _, _) => False
  end.
Proof.
  intros Hc Ho. destruct (decide (off + Z.of_nat (length d) <= len c)).
  - destruct (write_ok_spec off d c Hc Ho) as (c' & -> & ?); [done|]. done.
  - rewrite write_eq, check_bounds_eq by (done || lia || apply Hc).
    rewrite (proj2 (Z.leb_gt _ _)) by lia. split_if; (split; [lia|done]).
Qed.

(** flattening a clone gives the same image whatever order the hash map
    yields its pages in: the bytes a read of the whole memory returns. *)
Theorem materialize_spec c entries :
  cow_wf c -> entries ≡ₚ map_to_list (overlay c) ->
  materialize_in c entries = read c 0 (len c).
Proof.
  intros Hc He. rewrite materialize_in_eq by done. unfold read.
  pose proof (tw_len _ (cw_template c Hc)). pose proof (template_len _ (cw_template c Hc)). pose proof (tw_fits _ (cw_template c Hc)).
  unfold len. rewrite vec_zeroed_ok by lia. cbn [mbind Res_bind].
  rewrite read_into_eq by (autorewrite with hm; unfold len; done || lia).
  autorewrite with hm. by rewrite Z2Nat.id.
Qed.

Lemma overlay_size c : cow_wf c -> Z.of_nat (base.size (overlay c)) <= page_count (template c).
Proof.
  intros Hc. pose proof (page_count_eq _ (cw_template c Hc)).
  assert (0 <= page_count (template c)) by (unfold page_count, PAGE_SIZE; apply Z.div_pos; lia).
  rewrite <-(size_dom (D:=gset Z)).
  assert (dom (overlay c) ⊆ list_to_set (seqZ 0 (page_count (template c)))) as Hs.
  { intros k [p Hp]%elem_of_dom. apply (cw_overlay c Hc) in Hp as [? _].
    apply elem_of_list_to_set, elem_of_seqZ. lia. }
  apply subseteq_size in Hs. rewrite size_list_to_set in Hs by apply NoDup_seqZ.
  autorewrite with hm in Hs. lia.
Qed.

(** the memory accounting never panics and adds up: private plus shared
    pages are the pages of the template. *)
Theorem cow_accounting c :
  cow_wf c -> exists s, shared_bytes c = Ok s /\
    resident_bytes c + s = page_count (template c) * PAGE_SIZE /\ 0 <= s.
Proof.
  intros Hc. pose proof (overlay_size c Hc). pose proof (page_count_eq _ (cw_template c Hc)).
  pose proof (tw_fits _ (cw_template c Hc)).
  unfold shared_bytes, resident_bytes. rewrite sub_ok by done. simpl.
  rewrite mul_ok by (unfold PAGE_SIZE in *; lia). eexists. split; [done|].
  unfold PAGE_SIZE in *. lia.
Qed.

Lemma from_bytes_wf bs t :
  from_bytes bs = Ok t -> template_wf t /\ tlen t = Z.of_nat (length bs) /\
  slice (data t) 0 (tlen t) = bs.
Proof.
  unfold from_bytes, mul. split_if; [cbn [mbind Res_bind]|done]. split_if; [|done]. intros [= <-].
  pose proof (div_ceil_bounds (Z.of_nat (length bs)) ltac:(lia)).
  assert (Z.of_nat (length (resize0 bs (div_ceil (Z.of_nat (length bs)) PAGE_SIZE * PAGE_SIZE)))
          = div_ceil (Z.of_nat (length bs)) PAGE_SIZE * PAGE_SIZE) as Hl.
  { unfold resize0. rewrite length_app, length_take, length_replicate. lia. }
  split; [|split; [done|]]; simpl.
  - split; simpl; lia.
  - unfold slice, resize0. rewrite Nat2Z.id, drop_0, take_app_le by (rewrite length_take; lia).
    rewrite take_take. apply take_ge. lia.
Qed.

Lemma instantiate_wf t : template_wf t -> cow_wf (instantiate t).
Proof. intros. split; [done|]. simpl. intros idx p H1. by rewrite lookup_empty in H1. Qed.

(** ** Capturing a guest *)

Lemma max_end_spec rs : Forall region_wf rs ->
  exists e, max_end rs = Ok e /\ 0 <= e < 2 ^ 64 /\
    Forall (fun r => guest_addr r + size r <= e) rs.
Proof.
  induction 1 as [|r rs Hr _ (e & He & ? & Hf)]; simpl; [by exists 0|].
  destruct Hr. rewrite add_ok by lia. simpl. rewrite He. simpl.
  eexists. split; [done|]. split; [lia|]. constructor; [lia|].
  eapply Forall_impl; [done|]. simpl. lia.
Qed.

(** A read inside a region, as the host bytes behind it. *)
Lemma read_in_region m i r a n :
  mem_wf m -> regions m !! i = Some r -> 0 <= n < 2 ^ 63 ->
  guest_addr r <= a -> a < guest_addr r + size r -> a + n <= guest_addr r + size r ->
  read_bytes m a n = Ok (load (host m) (host_addr r + (a - guest_addr r)) n).
Proof.
  intros Hm Hi Hn ???. pose proof (Forall_lookup_1 _ _ _ _ (mw_regions m Hm) Hi) as [].
  rewrite read_bytes_eq by (done || lia). destruct (List.find _ _) as [s|] eqn:E.
  - apply find_lookup in E as (j & Hj & Hh). unfold holds in Hh. bool_to_prop.
    assert (r = s) as <-.
    { destruct (lt_eq_lt_dec i j) as [[Hij| ->]|Hij]; [|by simplify_eq|].
      - pose proof (mw_sorted m Hm _ _ _ _ Hij Hi Hj). lia.
      - pose proof (mw_sorted m Hm _ _ _ _ Hij Hj Hi). lia. }
    by rewrite (proj2 (Z.leb_le _ _)) by lia.
  - eapply find_None_lookup in E; [|done]. unfold holds in E.
    rewrite (proj2 (Z.leb_le _ _)), (proj2 (Z.ltb_lt _ _)) in E by lia. done.
Qed.

(** The regions from the [k]-th on are copied in, the earlier ones are kept. *)
Lemma capture_regions_spec m k d :
  mem_wf m -> (forall i r, regions m !! i = Some r -> 0 < size r) ->
  (forall i r, regions m !! i = Some r ->
     guest_addr r + size r <= Z.of_nat (length d)) ->
  (forall i r, (i < k)%nat -> regions m !! i = Some r ->
     slice d (guest_addr r) (size r) = load (host m) (host_addr r) (size r)) ->
  exists d', capture_regions m (drop k (regions m)) d = Ok d' /\ length d' = length d /\
    forall i r, regions m !! i = Some r ->
      slice d' (guest_addr r) (size r) = load (host m) (host_addr r) (size r).
Proof.
  intros Hm Hpos. remember (drop k (regions m)) as rs eqn:Hrs. revert k d Hrs.
  induction rs as [|r rs IH]; intros k d Hrs Hin Hdone; simpl.
  { exists d. split_and!; try done. intros i r Hi. apply (Hdone i); [|done].
    symmetry in Hrs. apply (f_equal length) in Hrs. rewrite length_drop in Hrs. simpl in Hrs.
    apply lookup_lt_Some in Hi. lia. }
  assert (regions m !! k = Some r) as Hk.
  { rewrite <-(Nat.add_0_r k), <-lookup_drop, <-Hrs. done. }
  pose proof (Forall_lookup_1 _ _ _ _ (mw_regions m Hm) Hk) as [].
  pose proof (Hin _ _ Hk). pose proof (Hpos _ _ Hk).
  rewrite add_ok by lia. simpl. unfold slice_ck. rewrite !(proj2 (Z.leb_le _ _)) by lia. simpl.
  change (read_bytes_into m) with (read_bytes m).
  rewrite (read_in_region m k r) by (done || lia). simpl. rewrite Z.sub_diag, Z.add_0_r.
  unfold splice_ck. rewrite length_load, Z2Nat.id by lia.
  rewrite !(proj2 (Z.leb_le _ _)) by lia. simpl.
  assert (length (splice d (guest_addr r) (load (host m) (host_addr r) (size r))) = length d) as Hl
    by (apply length_splice; rewrite ?length_load; lia).
  rewrite <-Hl. apply (IH (S k)).
  - rewrite (drop_S _ _ _ Hk) in Hrs. by injection Hrs.
  - intros i s Hi. rewrite Hl. eauto.
  - intros i s Hi Hs. destruct (decide (i = k)) as [->|].
    + simplify_eq. apply slice_splice_same; rewrite ?length_load; lia.
    + pose proof (mw_sorted m Hm i k s r ltac:(lia) Hs Hk).
      pose proof (Forall_lookup_1 _ _ _ _ (mw_regions m Hm) Hs) as [].
      rewrite slice_splice_disjoint by (rewrite ?length_load; lia). apply (Hdone i); [lia|done].
Qed.

Lemma slice_slice {A} (l : list A) a n b k :
  0 <= a -> 0 <= b -> 0 <= k -> b + k <= n -> slice (slice l a n) b k = slice l (a + b) k.
Proof.
  intros. apply list_eq. intros i. rewrite !lookup_slice. case_bool_decide; [|done].
  rewrite bool_decide_true by lia. f_equal. lia.
Qed.

(** a clone of a captured guest reads what the guest's memory holds: every
    successful guest read of a non-empty range returns the same bytes from the
    clone at that offset. *)
Theorem capture_clone_reads m t a n bs :
  mem_wf m -> (forall i r, regions m !! i = Some r -> 0 < size r) ->
  capture m = Ok t -> 0 < n -> 0 <= a -> n < 2 ^ 63 ->
  read_bytes m a n = Ok bs -> read (instantiate t) a n = Ok bs.
Proof.
  intros Hm Hpos Hcap Hn Ha Hend Hread. unfold capture in Hcap.
  destruct (max_end_spec _ (mw_regions m Hm)) as (e & He & ? & Hf).
  rewrite He in Hcap. simpl in Hcap. unfold mul in Hcap.
  destruct (_ <? _) eqn:Hpad in Hcap; [|done]. bool_to_prop. simpl in Hcap.
  unfold vec_zeroed in Hcap. destruct (_ <? _) eqn:Hcapacity in Hcap; [|done]. bool_to_prop. cbn [mbind Res_bind] in Hcap.
  set (len0 := Z.max e (total_size m)) in *.
  pose proof (div_ceil_bounds len0 ltac:(lia)). set (padded := div_ceil len0 PAGE_SIZE * PAGE_SIZE) in *.
  destruct (capture_regions_spec m 0 (replicate (Z.to_nat padded) 0) Hm Hpos) as (d & Hd & Hl & Hs).
  { intros i r Hi. autorewrite with hm. eapply Forall_lookup_1 in Hf; [|done]. simpl in Hf. lia. }
  { lia. }
  rewrite drop_0 in Hd. rewrite Hd in Hcap. injection Hcap as <-. autorewrite with hm in Hl.
  destruct (read_bytes_region m a n bs Hm ltac:(lia) Hend Hread) as (i & r & Hi & ? & ? & ?).
  pose proof (Forall_lookup_1 _ _ _ _ (mw_regions m Hm) Hi) as [].
  eapply Forall_lookup_1 in Hf; [|done]. simpl in Hf.
  rewrite (read_in_region m i r) in Hread by (done || lia). injection Hread as <-.
  unfold read. rewrite vec_zeroed_ok by done. cbn [mbind Res_bind]. rewrite read_into_eq; autorewrite with hm.
  - rewrite flat_instantiate. simpl. f_equal. rewrite Z2Nat.id by lia.
    rewrite <-(slice_load _ _ (size r)), <-(Hs i r Hi), slice_slice by lia. f_equal. lia.
  - apply instantiate_wf. split; simpl; [lia|lia|]. rewrite Hl. lia.
  - done.
  - unfold len. simpl. lia.
Qed.

(** ** Writing a clone into guest memory *)

Section WriteToFacts.
Context `{GuestRamLaws M}.

(** What a run of the loop from offset [off] did to the memory. *)
Definition written_from (c : CowMemory) (base off : Z) (m m' : M) (complete : bool) : Prop :=
  ram_wf m' /\
  (forall b n, slice_len n -> disjoint_ranges (base + off) (len c - off) b n ->
     ram_read m' b n = ram_read m b n) /\
  (complete = true -> forall o, off <= o < len c -> (PAGE_SIZE | o - off) ->
     ram_read m' (base + o) (Z.min PAGE_SIZE (len c - o)) =
     Ok (slice (flat c) o (Z.min PAGE_SIZE (len c - o)))).

Lemma write_to_step fuel c base off buf m :
  cow_wf c -> 0 <= base -> 0 <= off < len c -> base + len c < 2 ^ 64 ->
  Z.of_nat (length buf) = PAGE_SIZE ->
  let n := Z.min PAGE_SIZE (len c - off) in
  let bs := slice (flat c) off n in
  Z.of_nat (length (splice buf 0 bs)) = PAGE_SIZE /\ Z.of_nat (length bs) = n /\
  write_to_loop (S fuel) c base off buf m =
  match ram_write (base + off) bs m with
  | (Ok _, m1) => write_to_loop fuel c base (off + n) (splice buf 0 bs) m1
  | (Err e, m1) => (Err e, m1)
  | (Panic p, m1) => (Panic p, m1)
  end.
Proof.
  intros Hc Hb Ho Hend Hl n bs. pose proof (template_len _ (cw_template c Hc)).
  unfold len in Ho, Hend. assert (0 < n <= PAGE_SIZE /\ n <= len c - off) as [??]
    by (unfold n, len, PAGE_SIZE; lia). unfold len in *.
  assert (Z.of_nat (length bs) = n) as Hbs by (apply length_slice; rewrite ?length_flat; lia).
  split; [rewrite length_splice; lia|]. split; [done|].
  cbn [write_to_loop]. unfold len. rewrite (proj2 (Z.ltb_lt _ _)) by lia. fold n.
  unfold mbind, ST_bind, st_lift. unfold slice_ck. rewrite !(proj2 (Z.leb_le _ _)) by lia. simpl.
  assert (Z.of_nat (length (slice buf 0 n)) = n) as Hs by (apply length_slice; lia).
  rewrite read_into_eq by (unfold len; done || lia). rewrite Hs. fold bs.
  unfold splice_ck. rewrite !(proj2 (Z.leb_le _ _)) by lia. simpl.
  by rewrite add_ok by lia.
Qed.

Lemma write_to_loop_spec fuel c base off buf m :
  cow_wf c -> Forall is_byte (flat c) -> ram_wf m -> 0 <= base -> 0 <= off ->
  base + len c < 2 ^ 64 -> Z.of_nat (length buf) = PAGE_SIZE ->
  len c - off <= Z.of_nat fuel * PAGE_SIZE ->
  match write_to_loop fuel c base off buf m with
  | (Ok _, m') => written_from c base off m m' true
  | (Err _, m') => written_from c base off m m' false
  | (Panic _, _) => False
  end.
Proof.
  intros Hc Hby. revert off buf m. induction fuel as [|fuel IH]; intros off buf m Hm Hb Ho Hend Hl Hf.
  1: destruct (decide (off < len c)); [lia|].
  2: destruct (decide (off < len c)).
  1,3: cbn [write_to_loop]; rewrite (proj2 (Z.ltb_ge _ _)) by lia; simpl;
    split_and!; try done; intros _ o ?; lia.
  destruct (write_to_step fuel c base off buf m) as (Hl' & Hbs & ->); try done.
  set (n := Z.min PAGE_SIZE (len c - off)) in *. set (bs := slice (flat c) off n) in *.
  assert (Forall is_byte bs) by (unfold bs, slice; auto using Forall_take, Forall_drop).
  assert (slice_len (Z.of_nat (length bs))) as Hacc by (unfold n, PAGE_SIZE in *; split; lia).
  pose proof (ram_write_no_panic m (base + off) bs Hm Hacc) as Hnp.
  destruct (ram_write (base + off) bs m) as [[[]|e|p] m1] eqn:Hw; [| |done].
  2:{ apply ram_write_fail in Hw as ->. by split_and!. }
  assert (ram_wf m1) as Hm1 by (eapply (ram_write_wf m); eauto).
  specialize (IH (off + n) (splice buf 0 bs) m1 Hm1 Hb ltac:(lia) Hend Hl' ltac:(unfold n, PAGE_SIZE in *; lia)).
  assert (forall b k, slice_len k -> disjoint_ranges (base + off) (len c - off) b k ->
    ram_read m1 b k = ram_read m b k) as Hfr.
  { intros b k Hk Hd. eapply ram_read_frame; eauto. unfold disjoint_ranges in *. lia. }
  destruct (write_to_loop _ _ _ _ _ _) as [[u|e|p] m']; [| |done];
    destruct IH as (Hm' & Hfr' & Hpages); (split; [done|]; split;
      [intros b k Hk Hd; rewrite Hfr' by (unfold disjoint_ranges in *; done || lia); auto|]);
    [|done].
  intros _ o Ho' Hdiv. destruct (decide (o = off)) as [->|Hne].
  - fold n. fold bs. rewrite Hfr'; [|unfold slice_len, n, PAGE_SIZE in *; lia|unfold disjoint_ranges; lia].
    rewrite <-Hbs at 1. by eapply ram_read_write.
  - destruct Hdiv as [q Hq]. assert (n = PAGE_SIZE) as Hn by (unfold n, PAGE_SIZE in *; lia).
    apply Hpages; [done|unfold PAGE_SIZE in *; lia|]. exists (q - 1). rewrite Hn. unfold PAGE_SIZE in *. lia.
Qed.

(** booting a clone: [write_to] never panics, and when it returns, every
    page of the guest range reads as that page of the clone while nothing
    outside the range has changed. *)
Theorem write_to_spec c base m :
  cow_wf c -> Forall is_byte (flat c) -> ram_wf m -> 0 <= base -> base + len c < 2 ^ 64 ->
  match write_to c base m with
  | (Ok _, m') => written_from c base 0 m m' true
  | (Err _, m') => written_from c base 0 m m' false
  | (Panic _, _) => False
  end.
Proof.
  intros Hc Hby Hm Hb Hend. apply write_to_loop_spec; try done.
  pose proof (tw_len _ (cw_template c Hc)). unfold len.
  pose proof (div_ceil_bounds (tlen (template c)) ltac:(done)).
  assert (0 <= div_ceil (tlen (template c)) PAGE_SIZE) by (unfold div_ceil; apply Z.div_pos; unfold PAGE_SIZE; lia).
  rewrite Z2Nat.id by done. lia.
Qed.
End WriteToFacts.

(** ** A clone to compute with: two pages, a write across their boundary *)

Definition demo_template : MemoryTemplate := mkTemplate (replicate (Z.to_nat 8192) 7) 5000.
Definition demo_data : bytes := [1; 2; 3; 4; 5; 6; 7; 8].
Definition demo_clone : CowMemory := (write 4092 demo_data (instantiate demo_template)).2.

Lemma demo_template_wf : template_wf demo_template.
Proof. split; [vm_compute; reflexivity|simpl; lia|vm_compute; reflexivity]. Qed.

Lemma demo_clone_wf : cow_wf demo_clone.
Proof.
  destruct (write_ok_spec 4092 demo_data (instantiate demo_template)
    (instantiate_wf _ demo_template_wf) ltac:(lia) ltac:(vm_compute; discriminate))
    as (c' & Hw & Hc & _).
  unfold demo_clone. by rewrite Hw.
Qed.

Lemma cow_read_spec_witness :
  exists bs, read demo_clone 4090 12 = Ok bs /\ bs = slice (flat demo_clone) 4090 12.
Proof.
  pose proof (cow_read_spec demo_clone 4090 12 demo_clone_wf ltac:(lia) ltac:(lia)) as Hs.
  destruct (read demo_clone 4090 12) as [bs|e|p] eqn:E.
  - exists bs. split; [done|apply Hs].
  - exfalso. revert E. vm_compute. discriminate.
  - exfalso. revert E. vm_compute. discriminate.
Defined.

Lemma cow_write_spec_witness :
  flat demo_clone = splice (data demo_template) 4092 demo_data /\
  is_Some (overlay demo_clone !! 1).
Proof.
  pose proof (cow_write_spec (instantiate demo_template) 4092 demo_data
    (instantiate_wf _ demo_template_wf) ltac:(lia)) as Hs. unfold demo_clone.
  destruct (write 4092 demo_data (instantiate demo_template)) as [[u|e|p] c'] eqn:E.
  - destruct Hs as (_ & _ & _ & Hf & Ho). split.
    + cbn [snd]. rewrite Hf.
      exact (f_equal (fun l => splice l 4092 demo_data) (flat_instantiate demo_template)).
    + apply Ho. right. exists 4096. split; [simpl; lia|reflexivity].
  - exfalso. revert E. vm_compute. discriminate.
  - destruct Hs.
Defined.

Lemma materialize_spec_witness :
  materialize_in demo_clone (reverse (map_to_list (overlay demo_clone))) =
  read demo_clone 0 (len demo_clone).
Proof. apply materialize_spec; [exact demo_clone_wf|apply reverse_Permutation]. Defined.

Lemma cow_accounting_witness :
  exists s, shared_bytes demo_clone = Ok s /\ resident_bytes demo_clone + s = 2 * PAGE_SIZE.
Proof.
  destruct (cow_accounting demo_clone demo_clone_wf) as (s & Hs & Hsum & _).
  exists s. split; [exact Hs|]. rewrite Hsum. vm_compute. reflexivity.
Defined.

Definition demo_page : GuestMemory :=
  (allocate_region bump_alloc no_numa 0x1000 false (new_on_node 0x1000 None ∅)).2.
Definition demo_guest : GuestMemory := (write_bytes 0x20 demo_data demo_page).2.

Lemma demo_guest_wf : mem_wf demo_guest.
Proof.
  unfold demo_guest. destruct (write_bytes 0x20 demo_data demo_page) as [r m'] eqn:E.
  eapply write_bytes_wf; [| |exact E]; [|repeat constructor; lia].
  apply (push_region_wf (new_on_node 0x1000 None ∅) 0 0x1000 (Anon 0x10000 0x1000) false);
    by try apply new_on_node_wf.
Qed.

Lemma capture_clone_reads_witness :
  exists t, capture demo_guest = Ok t /\ read (instantiate t) 0x20 8 = Ok demo_data.
Proof.
  destruct (capture demo_guest) as [t|e|p] eqn:E.
  - exists t. split; [done|].
    apply (capture_clone_reads demo_guest t 0x20 8 demo_data demo_guest_wf).
    + intros [|i] r; vm_compute; [|done]. intros Hr. injection Hr as <-. reflexivity.
    + exact E.
    + lia.
    + lia.
    + lia.
    + vm_compute. reflexivity.
  - exfalso. revert E. vm_compute. discriminate.
  - exfalso. revert E. vm_compute. discriminate.
Defined.

Lemma demo_template_bytes : Forall is_byte (flat (instantiate demo_template)).
Proof. rewrite flat_instantiate. apply Forall_replicate. unfold is_byte. lia. Qed.

Lemma write_to_spec_witness :
  exists m', write_to (instantiate demo_template) 0x1000 demo_mem = (Ok tt, m') /\
    ram_read m' 0x2000 (5000 - 4096) =
    Ok (slice (flat (instantiate demo_template)) 4096 (5000 - 4096)).
Proof.
  pose proof (write_to_spec (instantiate demo_template) 0x1000 demo_mem
    (instantiate_wf _ demo_template_wf) demo_template_bytes
    demo_mem_wf ltac:(lia) ltac:(vm_compute; reflexivity)) as Hs.
  assert (is_ok (write_to (instantiate demo_template) 0x1000 demo_mem).1 = true) as Hok
    by (vm_compute; reflexivity).
  destruct (write_to (instantiate demo_template) 0x1000 demo_mem) as [[[]|e|p] m'] eqn:E;
    [|discriminate Hok..].
  exists m'. split; [done|]. destruct Hs as (_ & _ & Hp).
  apply (Hp eq_refl 4096); [vm_compute; split; congruence|]. by exists 1.
Defined.
