(* ===== verification/SandboxPool.v ===== *)
(** * The sandbox pool ([hv2-core/src/memory_cow.rs], [SandboxPool], [Sandbox])

    Sandboxes are reference counted clones of one template, and the pool keeps
    weak references to them.  The heap they live in is explicit: [cells] maps an
    allocation to its strong count and its clone, and a weak reference is an
    allocation that may no longer be there. *)

From S2P Require Import Prelude GuestRam GuestMem MemoryCow.

Record World := mkWorld {
  ptemplate : MemoryTemplate;
  live : list nat;
  cells : gmap nat (nat * CowMemory);
  next : nat
}.

Definition from_template (t : MemoryTemplate) : World := mkWorld t [] ∅ 0.

Definition spawn (w : World) : nat * World :=
  (next w, mkWorld (ptemplate w) (live w ++ [next w])
             (<[next w := (1%nat, instantiate (ptemplate w))]> (cells w)) (S (next w))).

(** [Sandbox: Clone]: another strong reference to the same clone. *)
Definition clone (id : nat) (w : World) : World :=
  mkWorld (ptemplate w) (live w)
    (alter (fun p => (S p.1, p.2)) id (cells w)) (next w).

(** Dropping a handle frees the clone with the last strong reference. *)
Definition drop_ref (p : nat * CowMemory) : option (nat * CowMemory) :=
  match p.1 with S (S k) => Some (S k, p.2) | _ => None end.

Definition drop (id : nat) (w : World) : World :=
  mkWorld (ptemplate w) (live w)
    (partial_alter (fun o => o ≫= drop_ref) id (cells w)) (next w).

(** [live.retain(|w| w.strong_count() > 0)]. *)
Definition retain_live (w : World) : World :=
  mkWorld (ptemplate w) (filter (fun id => is_Some (cells w !! id)) (live w))
    (cells w) (next w).

Definition live_count (w : World) : Z * World :=
  let w' := retain_live w in (Z.of_nat (length (live w')), w').

Definition baseline_bytes (w : World) : Z := tlen (ptemplate w).

(** [iter().filter_map(upgrade).map(resident_bytes).sum()]. *)
Fixpoint sum_resident (cs : gmap nat (nat * CowMemory)) (ids : list nat) : Result Z :=
  match ids with
  | [] => mret 0
  | id :: rest =>
      match cs !! id with
      | Some p => s ← sum_resident cs rest; add 64 (resident_bytes p.2) s
      | None => sum_resident cs rest
      end
  end.

Definition total_private_bytes (w : World) : Result Z * World :=
  let w' := retain_live w in (sum_resident (cells w') (live w'), w').

Definition total_bytes (w : World) : Result Z * World :=
  let '(r, w') := total_private_bytes w in
  (p ← r; add 64 (baseline_bytes w) p, w').

(** A method of [Sandbox] that mutates the clone behind the handle. *)
Definition sandbox_write (id : nat) (off : Z) (d : bytes) (w : World) : option (Result unit * World) :=
  p ← cells w !! id;
  let '(r, c) := write off d p.2 in
  Some (r, mkWorld (ptemplate w) (live w) (<[id := (p.1, c)]> (cells w)) (next w)).

Definition sandbox_read (id : nat) (off n : Z) (w : World) : option (Result bytes) :=
  p ← cells w !! id; Some (read p.2 off n).

Definition private_bytes (id : nat) (w : World) : option Z :=
  p ← cells w !! id; Some (resident_bytes p.2).

(** ** The pool as a transition system *)

Inductive pool_step : World -> World -> Prop :=
| step_spawn w : pool_step w (spawn w).2
| step_clone w id : is_Some (cells w !! id) -> pool_step w (clone id w)
| step_drop w id : is_Some (cells w !! id) -> pool_step w (drop id w)
| step_write w id off d r w' :
    0 <= off -> sandbox_write id off d w = Some (r, w') -> pool_step w w'
| step_count w : pool_step w (live_count w).2
| step_private w : pool_step w (total_private_bytes w).2.

(** [rtc]: the states any interleaving of handles can reach. *)
Definition reachable (t : MemoryTemplate) (w : World) : Prop :=
  rtc pool_step (from_template t) w.

Record pool_wf (w : World) : Prop := {
  pw_template : template_wf (ptemplate w);
  pw_nodup : NoDup (live w);
  pw_live : forall id, id ∈ live w -> (id < next w)%nat;
  pw_cells : forall id p, cells w !! id = Some p ->
    id ∈ live w /\ (0 < p.1)%nat /\ cow_wf p.2 /\ template p.2 = ptemplate w
}.

Lemma from_template_wf t : template_wf t -> pool_wf (from_template t).
Proof.
  intros. split; simpl; [done|constructor|by intros ? ?%not_elem_of_nil|].
  intros id p Hp. by rewrite lookup_empty in Hp.
Qed.

Lemma retain_live_wf w : pool_wf w -> pool_wf (retain_live w).
Proof.
  intros [Ht Hn Hl Hc]. split; simpl.
  - done.
  - by apply NoDup_filter.
  - intros id [_ ?]%list_elem_of_filter. eauto.
  - intros id p Hp. destruct (Hc id p Hp) as (? & ? & ? & ?). split_and!; try done.
    apply list_elem_of_filter. eauto.
Qed.

Lemma write_keeps_wf off d c r c' :
  cow_wf c -> 0 <= off -> write off d c = (r, c') -> cow_wf c' /\ template c' = template c.
Proof.
  intros Hc Ho. destruct (decide (off + Z.of_nat (length d) <= len c)).
  - destruct (write_ok_spec off d c Hc Ho) as (c1 & -> & ? & ? & _); [done|].
    by intros [= _ <-].
  - rewrite write_eq, check_bounds_eq by (done || lia || apply Hc).
    rewrite (proj2 (Z.leb_gt _ _)) by lia. by split_if; intros [= _ <-].
Qed.

Lemma step_wf w w' : pool_wf w -> pool_step w w' -> pool_wf w'.
Proof.
  intros Hw Hs. destruct Hw as [Ht Hn Hl Hc] eqn:E.
  destruct Hs as [w|w id Hid|w id Hid|w id off d r w' Ho Hwr|w|w]; try by apply retain_live_wf.
  - split; simpl.
    + done.
    + apply NoDup_app. split_and!; [done| |apply NoDup_singleton].
      intros id Hid ->%list_elem_of_singleton. apply Hl in Hid. lia.
    + intros id [Hid|Hid%list_elem_of_singleton]%elem_of_app; [apply Hl in Hid|]; lia.
    + intros id p. rewrite lookup_insert. case_decide; [subst|].
      * intros [= <-]. simpl. split_and!; [|lia|by apply instantiate_wf|done].
        apply elem_of_app. right. by apply list_elem_of_singleton.
      * intros (? & ? & ? & ?)%Hc. split_and!; try done. apply elem_of_app. by left.
  - split; simpl; try done. intros i p. rewrite lookup_alter. case_decide; [subst|apply Hc].
    destruct (cells w !! i) as [q|] eqn:Eq; [|done]. simpl. intros [= <-].
    destruct (Hc i q Eq) as (? & ? & ? & ?). split_and!; try done. simpl. lia.
  - split; simpl; try done. intros i p. rewrite lookup_partial_alter. case_decide; [subst|apply Hc].
    destruct (cells w !! i) as [[[|[|k]] q]|] eqn:Eq; simpl; try done. intros [= <-].
    destruct (Hc i _ Eq) as (? & ? & ? & ?). split_and!; try done. simpl. lia.
  - unfold sandbox_write in Hwr. destruct (cells w !! id) as [q|] eqn:Eq; [|done]. simpl in Hwr.
    destruct (write off d q.2) as [r' c'] eqn:Ew. injection Hwr as _ <-.
    destruct (Hc id q Eq) as (? & ? & Hcq & Htq).
    destruct (write_keeps_wf _ _ _ _ _ Hcq Ho Ew) as [? Ht'].
    split; simpl; try done. intros i p. rewrite lookup_insert. case_decide; [subst|apply Hc].
    intros [= <-]. simpl. split_and!; try done. by rewrite Ht'.
Qed.

Lemma reachable_wf t w : template_wf t -> reachable t w -> pool_wf w.
Proof.
  intros Ht. unfold reachable. generalize (from_template_wf t Ht).
  intros Hw Hr. revert Hw. induction Hr; eauto using step_wf.
Qed.

(** ** Accounting *)

Definition sum_of (l : list (nat * (nat * CowMemory))) : Z :=
  foldr (fun q acc => resident_bytes q.2.2 + acc) 0 l.

(** The private bytes of every sandbox that still has a handle. *)
Definition fleet_private (w : World) : Z := sum_of (map_to_list (cells w)).

Lemma resident_nonneg c : 0 <= resident_bytes c.
Proof. unfold resident_bytes, PAGE_SIZE. lia. Qed.

Lemma sum_of_nonneg l : 0 <= sum_of l.
Proof. induction l as [|q l IH]; simpl; [lia|]. pose proof (resident_nonneg q.2.2). lia. Qed.

Lemma sum_of_perm l k : l ≡ₚ k -> sum_of l = sum_of k.
Proof. induction 1; simpl; lia. Qed.

Lemma sum_resident_eq cs l :
  (forall q, q ∈ l -> cs !! q.1 = Some q.2) -> sum_of l < 2 ^ 64 ->
  sum_resident cs l.*1 = Ok (sum_of l).
Proof.
  induction l as [|[id p] l IH]; csimpl; intros Hl Hs; [done|].
  pose proof (Hl (id, p) ltac:(left)) as Hid. simpl in Hid. rewrite Hid. pose proof (resident_nonneg p.2).
  rewrite IH; [|intros q Hq; apply Hl; by right|lia]. simpl. by rewrite add_ok.
Qed.

Lemma retained_entries w :
  pool_wf w -> exists l, l ≡ₚ map_to_list (cells w) /\ l.*1 = live (retain_live w).
Proof.
  intros [_ Hn _ Hc]. simpl.
  set (f := fun id => (fun p => (id, p)) <$> cells w !! id).
  exists (omap f (live w)). split.
  - apply NoDup_Permutation.
    + apply NoDup_fmap_1 with (f := fst).
      assert ((omap f (live w)).*1 `sublist_of` live w) as Hs.
      { clear. induction (live w) as [|id l IH]; simpl; [done|].
        unfold f at 1. destruct (cells w !! id); simpl; [by apply sublist_skip|by apply sublist_cons]. }
      by eapply sublist_NoDup.
    + apply NoDup_map_to_list.
    + intros [id p]. rewrite elem_of_map_to_list, list_elem_of_omap. split.
      * intros (i & _ & Hi). unfold f in Hi. destruct (cells w !! i) eqn:E; [|done].
        simpl in Hi. by injection Hi as <- <-.
      * intros Hp. exists id. split; [by eapply Hc|]. unfold f. by rewrite Hp.
  - clear. induction (live w) as [|id l IH]; [done|]. simpl. rewrite filter_cons. unfold f at 1.
    destruct (cells w !! id) eqn:E; simpl; [by rewrite <-IH|done].
Qed.

(** whatever handles were spawned, cloned, written through and dropped,
    the pool's counters are exact: the live count is the number of sandboxes
    that still have a handle, the private total is the sum of their private
    pages, each counted once, and the fleet total adds the one baseline. *)
Theorem pool_accounting t w :
  template_wf t -> reachable t w -> tlen t + fleet_private w < 2 ^ 64 ->
  (live_count w).1 = Z.of_nat (base.size (cells w)) /\
  (total_private_bytes w).1 = Ok (fleet_private w) /\
  (total_bytes w).1 = Ok (tlen (ptemplate w) + fleet_private w) /\
  fleet_private w <= (live_count w).1 * (page_count (ptemplate w) * PAGE_SIZE).
Proof.
  intros Ht Hr Hlt. pose proof (reachable_wf _ _ Ht Hr) as Hw.
  assert (ptemplate w = t) as Hpt.
  { clear -Hr. unfold reachable in Hr. remember (from_template t) as w0 eqn:E.
    assert (ptemplate w0 = t) by by subst. clear E. induction Hr as [|? ? ? Hs _ IH]; [done|].
    apply IH. destruct Hs; try done. unfold sandbox_write in *.
    destruct (cells w !! id); [|done]. simpl in *. destruct (write _ _ _). by simplify_eq. }
  pose proof (tw_len t Ht). pose proof (sum_of_nonneg (map_to_list (cells w))).
  destruct (retained_entries w Hw) as (l & Hp & Hl).
  assert ((live_count w).1 = Z.of_nat (base.size (cells w))) as Hcount.
  { unfold live_count. cbn [fst]. rewrite <-Hl, length_fmap, Hp. by rewrite length_map_to_list. }
  assert ((total_private_bytes w).1 = Ok (fleet_private w)) as Hpriv.
  { unfold total_private_bytes. cbn [fst]. rewrite <-Hl, sum_resident_eq.
    - unfold fleet_private. by rewrite (sum_of_perm _ _ Hp).
    - intros [id p]. rewrite Hp, elem_of_map_to_list. done.
    - rewrite (sum_of_perm _ _ Hp). unfold fleet_private in *. lia. }
  split_and!; [done|done| |].
  - unfold total_bytes, baseline_bytes. destruct (total_private_bytes w) as [r w'].
    cbn [fst] in *. rewrite Hpriv, Hpt. simpl. by rewrite add_ok.
  - rewrite Hcount, <-length_map_to_list. unfold fleet_private.
    assert (forall q, q ∈ map_to_list (cells w) ->
      resident_bytes q.2.2 <= page_count (ptemplate w) * PAGE_SIZE) as Hb.
    { intros [id p] ?%elem_of_map_to_list. destruct (pw_cells w Hw id p) as (_ & _ & Hc & <-); [done|].
      pose proof (overlay_size p.2 Hc). unfold resident_bytes, PAGE_SIZE. simpl. lia. }
    revert Hb. generalize (map_to_list (cells w)) as k. clear.
    induction k as [|q k IH]; simpl; intros Hb; [lia|].
    pose proof (Hb q ltac:(left)). specialize (IH (fun x Hx => Hb x (list_elem_of_further _ _ _ Hx))). lia.
Qed.

(** an idle fleet costs one baseline: after any number of spawns and no
    write, the fleet's total is the length of the template. *)
Theorem idle_fleet_cost t n :
  template_wf t ->
  (total_bytes (Nat.iter n (fun w => (spawn w).2) (from_template t))).1 = Ok (tlen t).
Proof.
  intros Ht. set (w := Nat.iter n _ _).
  assert (ptemplate w = t /\ forall id p, cells w !! id = Some p -> overlay p.2 = ∅) as [Hpt Hov].
  { unfold w. induction n as [|n [IH1 IH2]]; simpl; [split; [done|]|].
    - intros id p Hp. by rewrite lookup_empty in Hp.
    - split; [done|]. intros id p. rewrite lookup_insert. case_decide; [by intros [= <-]|eauto]. }
  unfold total_bytes, total_private_bytes, baseline_bytes. cbn [fst].
  assert (forall ids, sum_resident (cells w) ids = Ok 0) as Hz.
  { induction ids as [|id ids IH]; simpl; [done|]. destruct (cells w !! id) as [p|] eqn:E; [|done].
    rewrite IH. simpl. unfold resident_bytes. by rewrite (Hov _ _ E), map_size_empty. }
  change (cells (retain_live w)) with (cells w). rewrite Hz. simpl. rewrite Hpt.
  pose proof (template_len t Ht). pose proof (tw_fits t Ht). rewrite add_ok; [f_equal|]; lia.
Qed.

(** Two sandboxes, one of them written through and its handle cloned. *)
Definition demo_pool : World :=
  let w := (spawn (spawn (from_template demo_template)).2).2 in
  clone 0 (default w (snd <$> sandbox_write 0 4092 demo_data w)).

Lemma demo_pool_reachable : reachable demo_template demo_pool.
Proof.
  unfold reachable, demo_pool.
  set (w := (spawn (spawn (from_template demo_template)).2).2).
  transitivity w.
  { eapply rtc_l; [apply step_spawn|]. eapply rtc_l; [apply step_spawn|]. reflexivity. }
  destruct (sandbox_write 0 4092 demo_data w) as [[r w']|] eqn:E; simpl.
  - eapply rtc_l; [eapply step_write; [|exact E]; lia|].
    apply rtc_once, step_clone. unfold sandbox_write in E.
    destruct (cells w !! 0%nat) as [p|]; [|done]. simpl in E.
    destruct (write _ _ _). injection E as _ <-. simpl. rewrite lookup_insert_eq. eauto.
  - apply rtc_once, step_clone. unfold w. simpl. eauto.
Qed.

Lemma pool_accounting_witness :
  (live_count demo_pool).1 = 2 /\ (total_bytes demo_pool).1 = Ok (5000 + 8192).
Proof.
  destruct (pool_accounting demo_template demo_pool demo_template_wf demo_pool_reachable
    ltac:(vm_compute; reflexivity)) as (Hl & _ & Ht & _).
  split; [rewrite Hl|rewrite Ht]; vm_compute; reflexivity.
Defined.

Lemma idle_fleet_cost_witness :
  (total_bytes (Nat.iter 100 (fun w => (spawn w).2) (from_template demo_template))).1 = Ok 5000.
Proof. apply (idle_fleet_cost demo_template 100 demo_template_wf). Defined.
