(* ===== verification/VirtQueue.v ===== *)
(** * Split virtqueues in guest memory ([hv2-core/src/devices/virtio_queue.rs])

    The queue holds the three addresses the driver published and the two
    indices the device owns; every ring entry is read from guest memory on
    demand, through the [GuestRam] interface.  Everything read is chosen by the
    guest. *)

From S2P Require Import Prelude GuestRam GuestMem.

Definition DESC_SIZE : Z := 16.
Definition MAX_QUEUE_SIZE : Z := 32768.
Definition MAX_CHAIN_LEN : Z := MAX_QUEUE_SIZE.
Definition MAX_CHAIN_BYTES : Z := 64 * 1024 * 1024.

Definition NEXT : Z := 1.
Definition WRITE : Z := 2.
Definition INDIRECT : Z := 4.

(** ** Descriptors *)

Record Descriptor := mkDesc { addr : Z; dlen : Z; flags : Z; dnext : Z }.

#[global] Instance Descriptor_eq_dec : EqDecision Descriptor.
Proof. solve_decision. Defined.

Definition from_bytes (bs : bytes) : Result Descriptor :=
  a ← slice_ck bs 0 8; l ← slice_ck bs 8 4; f ← slice_ck bs 12 2; n ← slice_ck bs 14 2;
  mret (mkDesc (from_le_bytes a) (from_le_bytes l) (from_le_bytes f) (from_le_bytes n)).

Definition is_write_only (d : Descriptor) : bool := has (flags d) WRITE.
Definition has_next (d : Descriptor) : bool := has (flags d) NEXT.

(** ** Chains *)

Record DescriptorChain := mkChain {
  head : Z;
  readable : list (Z * Z);
  writable : list (Z * Z)
}.

Definition total_len (l : list (Z * Z)) : Z := foldr (fun p acc => p.2 + acc) 0 l.
Definition readable_len (c : DescriptorChain) : Z := total_len (readable c).
Definition writable_len (c : DescriptorChain) : Z := total_len (writable c).

(** Add one buffer to the right half of a chain, enforcing the byte ceiling. *)
Definition push_buffer (c : DescriptorChain) (a l : Z) (write_only : bool) (total : Z)
    : Result (DescriptorChain * Z) :=
  if l =? 0 then mret (c, total)
  else
    let total := saturating_add 64 total l in
    if MAX_CHAIN_BYTES <? total
    then Err (Device "virtqueue chain describes more than {MAX_CHAIN_BYTES} bytes" [])
    else if write_only
    then mret (mkChain (head c) (readable c) (writable c ++ [(a, l)]), total)
    else mret (mkChain (head c) (readable c ++ [(a, l)]) (writable c), total).

(** ** Queues *)

Record GuestQueue := mkQueue {
  qsize : Z;
  max_size : Z;
  desc_addr : Z;
  avail_addr : Z;
  used_addr : Z;
  qready : bool;
  last_avail_idx : Z;
  next_used_idx : Z
}.

Definition new (max : Z) : GuestQueue :=
  mkQueue 0 (Z.min max MAX_QUEUE_SIZE) 0 0 0 false 0 0.

Definition ring_size (q : GuestQueue) : Z :=
  if qsize q =? 0 then max_size q else qsize q.

Definition set_size (n : Z) (q : GuestQueue) : GuestQueue :=
  if (0 <? n) && (n <=? max_size q) && is_power_of_two n
  then mkQueue n (max_size q) (desc_addr q) (avail_addr q) (used_addr q) (qready q)
         (last_avail_idx q) (next_used_idx q)
  else q.

Definition set_desc_addr (a : Z) (q : GuestQueue) : GuestQueue :=
  mkQueue (qsize q) (max_size q) a (avail_addr q) (used_addr q) (qready q)
    (last_avail_idx q) (next_used_idx q).
Definition set_avail_addr (a : Z) (q : GuestQueue) : GuestQueue :=
  mkQueue (qsize q) (max_size q) (desc_addr q) a (used_addr q) (qready q)
    (last_avail_idx q) (next_used_idx q).
Definition set_used_addr (a : Z) (q : GuestQueue) : GuestQueue :=
  mkQueue (qsize q) (max_size q) (desc_addr q) (avail_addr q) a (qready q)
    (last_avail_idx q) (next_used_idx q).
Definition set_ready (b : bool) (q : GuestQueue) : GuestQueue :=
  mkQueue (qsize q) (max_size q) (desc_addr q) (avail_addr q) (used_addr q) b
    (last_avail_idx q) (next_used_idx q).
Definition set_progress (la nu : Z) (q : GuestQueue) : GuestQueue :=
  mkQueue (qsize q) (max_size q) (desc_addr q) (avail_addr q) (used_addr q) (qready q) la nu.

Definition is_ready (q : GuestQueue) : bool :=
  qready q && (0 <? ring_size q) && negb (desc_addr q =? 0)
  && negb (avail_addr q =? 0) && negb (used_addr q =? 0).

Definition progress (q : GuestQueue) : Z * Z := (last_avail_idx q, next_used_idx q).

Definition reset (q : GuestQueue) : GuestQueue := new (max_size q).

Section Queue.
Context `{GuestRam M}.

(** Gather every device-readable buffer. *)
Fixpoint read_buffers (m : M) (bufs : list (Z * Z)) : Result bytes :=
  match bufs with
  | [] => mret []
  | (a, l) :: rest => bs ← ram_read m a l; more ← read_buffers m rest; mret (bs ++ more)
  end.

Definition read_all (c : DescriptorChain) (m : M) : Result bytes := read_buffers m (readable c).

(** Scatter [data] across the buffers, [written] bytes of it being done. *)
Fixpoint write_buffers (bufs : list (Z * Z)) (d : bytes) (written : Z) : ST M Error Z :=
  match bufs with
  | [] => mret written
  | (a, l) :: rest =>
      if Z.of_nat (length d) <=? written then mret written
      else
        let take := Z.min l (Z.of_nat (length d) - written) in
        chunk ← st_lift (slice_ck d written take);
        _ ← ram_write a chunk;
        write_buffers rest d (written + take)
  end.

Definition write_all (c : DescriptorChain) (d : bytes) : ST M Error Z :=
  write_buffers (writable c) d 0.

(** A little-endian [u16] of guest memory. *)
Definition read_u16 (m : M) (a : Z) : Result Z :=
  bs ← ram_read m a 2; mret (from_le_bytes bs).

Definition avail_idx (q : GuestQueue) (m : M) : Result Z :=
  a ← add 64 (avail_addr q) 2; read_u16 m a.

Definition has_available (q : GuestQueue) (m : M) : Result bool :=
  if negb (is_ready q) then mret false
  else i ← avail_idx q m; mret (negb (i =? last_avail_idx q)).

Definition read_desc (q : GuestQueue) (m : M) (idx : Z) : Result Descriptor :=
  if ring_size q <=? idx
  then Err (Device "virtqueue descriptor index {idx} is outside a table of {}"
              [idx; ring_size q])
  else
    a ← add 64 (desc_addr q) (idx * DESC_SIZE);
    bs ← ram_read m a DESC_SIZE;
    from_bytes bs.

(** The loop of [walk_indirect]; [left] is how many entries it may still
    visit. *)
Fixpoint indirect_loop (left : nat) (table : bytes) (count idx : Z)
    (c : DescriptorChain) (total : Z) : Result (DescriptorChain * Z) :=
  match left with
  | O => Err (Device "indirect descriptor chain does not terminate" [])
  | S left' =>
      if count <=? idx
      then Err (Device "indirect descriptor index {idx} is outside a table of {count}"
                  [idx; count])
      else
        tail ← slice_ck table (idx * DESC_SIZE)
                 (Z.of_nat (length table) - idx * DESC_SIZE);
        entry ← from_bytes tail;
        if has (flags entry) INDIRECT
        then Err (Device "an indirect descriptor may not itself be indirect" [])
        else
          '(c', total') ← push_buffer c (addr entry) (dlen entry) (is_write_only entry) total;
          if negb (has_next entry) then mret (c', total')
          else indirect_loop left' table count (dnext entry) c' total'
  end.

Definition walk_indirect (m : M) (d : Descriptor) (c : DescriptorChain) (total : Z)
    : Result (DescriptorChain * Z) :=
  if negb (dlen d mod DESC_SIZE =? 0)
  then Err (Device "indirect descriptor table length {} is not a multiple of {DESC_SIZE}"
              [dlen d])
  else
    let count := dlen d / DESC_SIZE in
    if (count =? 0) || (MAX_CHAIN_LEN <? count)
    then Err (Device "indirect descriptor table of {count} entries is out of range" [count])
    else
      table ← ram_read m (addr d) (dlen d);
      indirect_loop (Z.to_nat count) table count 0 c total.

(** One descriptor of a chain: a buffer, or a table of buffers. *)
Definition add_desc (m : M) (d : Descriptor) (c : DescriptorChain) (total : Z)
    : Result (DescriptorChain * Z) :=
  if has (flags d) INDIRECT then walk_indirect m d c total
  else push_buffer c (addr d) (dlen d) (is_write_only d) total.

(** The loop of [walk_chain]; [left] is how many descriptors it may still
    visit before the chain must be a cycle. *)
Fixpoint chain_loop (left : nat) (q : GuestQueue) (m : M) (idx : Z)
    (c : DescriptorChain) (total : Z) : Result DescriptorChain :=
  match left with
  | O => Err (Device "virtqueue descriptor chain does not terminate" [])
  | S left' =>
      d ← read_desc q m idx;
      '(c', total') ← add_desc m d c total;
      if negb (has_next d) then mret c'
      else chain_loop left' q m (dnext d) c' total'
  end.

Definition walk_chain (q : GuestQueue) (m : M) (h : Z) : Result DescriptorChain :=
  chain_loop (Z.to_nat (ring_size q)) q m h (mkChain h [] []) 0.

(** [pop]: the slot is consumed before the chain is validated. *)
Definition pop (m : M) : ST GuestQueue Error (option DescriptorChain) :=
  avail ← st_read (fun q => has_available q m);
  if negb avail then mret None
  else
    h ← st_read (fun q =>
      if ring_size q =? 0 then Panic DivByZero
      else
        let slot := last_avail_idx q mod ring_size q in
        base ← add 64 (avail_addr q) 4;
        entry ← add 64 base (slot * 2);
        read_u16 m entry);
    _ ← st_modify (fun q => set_progress (wrapping_add 16 (last_avail_idx q) 1)
                              (next_used_idx q) q);
    c ← st_read (fun q => walk_chain q m h);
    mret (Some c).

(** [add_used]: the entry first, the index that publishes it last. *)
Definition add_used (h l : Z) : ST (GuestQueue * M) Error unit :=
  fun '(q, m) =>
    if ring_size q =? 0
    then (Err (Device "cannot publish a used descriptor on a queue with no size" []), (q, m))
    else
      let slot := next_used_idx q mod ring_size q in
      match (b ← add 64 (used_addr q) 4; add 64 b (slot * 8)) with
      | Ok entry =>
          match ram_write entry (to_le_bytes 4 h ++ to_le_bytes 4 l) m with
          | (Ok _, m1) =>
              let q1 := set_progress (last_avail_idx q)
                          (wrapping_add 16 (next_used_idx q) 1) q in
              match add 64 (used_addr q) 2 with
              | Ok a =>
                  let '(r, m2) := ram_write a (to_le_bytes 2 (next_used_idx q1)) m1 in
                  (r, (q1, m2))
              | Err e => (Err e, (q1, m1))
              | Panic p => (Panic p, (q1, m1))
              end
          | (Err e, m1) => (Err e, (q, m1))
          | (Panic p, m1) => (Panic p, (q, m1))
          end
      | Err e => (Err e, (q, m))
      | Panic p => (Panic p, (q, m))
      end.
End Queue.

(** ** Well-formed queues *)

Record queue_wf (q : GuestQueue) : Prop := {
  qw_max : 0 <= max_size q <= MAX_QUEUE_SIZE;
  qw_size : qsize q = 0 \/ (0 < qsize q <= max_size q /\ is_power_of_two (qsize q) = true);
  qw_avail : 0 <= last_avail_idx q < 2 ^ 16;
  qw_used : 0 <= next_used_idx q < 2 ^ 16;
  qw_addrs : 0 <= desc_addr q < 2 ^ 64 /\ 0 <= avail_addr q < 2 ^ 64 /\ 0 <= used_addr q < 2 ^ 64
}.

(** The rings end inside the address space.  Nothing in the code checks it. *)
Record queue_room (q : GuestQueue) : Prop := {
  qr_desc : desc_addr q + ring_size q * DESC_SIZE < 2 ^ 64;
  qr_avail : avail_addr q + 4 + ring_size q * 2 < 2 ^ 64;
  qr_used : used_addr q + 4 + ring_size q * 8 < 2 ^ 64
}.

Lemma ring_size_range q : queue_wf q -> 0 <= ring_size q <= MAX_QUEUE_SIZE.
Proof.
  intros [? Hs ???]. unfold ring_size. destruct (Z.eqb_spec (qsize q) 0); lia.
Qed.

Lemma new_wf max : 0 <= max -> queue_wf (new max).
Proof. intros. split; simpl; unfold MAX_QUEUE_SIZE; try lia. Qed.

(** What the transport may do to a queue. *)
Inductive queue_op :=
| SetSize (n : Z) | SetDesc (a : Z) | SetAvail (a : Z) | SetUsed (a : Z)
| SetReady (b : bool) | SetProgress (la nu : Z) | Reset.

Definition apply_op (o : queue_op) (q : GuestQueue) : GuestQueue :=
  match o with
  | SetSize n => set_size n q
  | SetDesc a => set_desc_addr a q
  | SetAvail a => set_avail_addr a q
  | SetUsed a => set_used_addr a q
  | SetReady b => set_ready b q
  | SetProgress la nu => set_progress la nu q
  | Reset => reset q
  end.

(** The operands are machine integers of the widths the methods take. *)
Definition op_typed (o : queue_op) : Prop :=
  match o with
  | SetSize n => fits 16 n
  | SetDesc a | SetAvail a | SetUsed a => fits 64 a
  | SetProgress la nu => fits 16 la /\ fits 16 nu
  | _ => True
  end.

Lemma apply_op_wf o q : queue_wf q -> op_typed o -> queue_wf (apply_op o q).
Proof.
  intros [] Ho. destruct o; simpl in *; unfold fits in *; try (split; simpl; tauto).
  - unfold set_size. split_if; [|done]. split; simpl; try done. right. split; [lia|done].
  - apply new_wf. lia.
Qed.

(** ** Decoding *)

Lemma from_le_slice bs off n :
  Forall is_byte bs -> 0 <= off -> 0 <= n -> off + n <= Z.of_nat (length bs) ->
  0 <= from_le_bytes (slice bs off n) < 2 ^ (8 * n).
Proof.
  intros Hb ???. pose proof (from_le_bytes_bound (slice bs off n)) as Hr.
  rewrite length_slice in Hr by done. apply Hr. unfold slice.
  auto using Forall_take, Forall_drop.
Qed.

Lemma from_bytes_eq bs :
  16 <= Z.of_nat (length bs) ->
  from_bytes bs = Ok (mkDesc (from_le_bytes (slice bs 0 8)) (from_le_bytes (slice bs 8 4))
                        (from_le_bytes (slice bs 12 2)) (from_le_bytes (slice bs 14 2))).
Proof.
  intros. unfold from_bytes, slice_ck. by rewrite !(proj2 (Z.leb_le _ _)) by lia.
Qed.

Record desc_wf (d : Descriptor) : Prop := {
  dw_addr : 0 <= addr d < 2 ^ 64;
  dw_len : 0 <= dlen d < 2 ^ 32;
  dw_flags : 0 <= flags d < 2 ^ 16;
  dw_next : 0 <= dnext d < 2 ^ 16
}.

Lemma desc_from_bytes_wf bs :
  Forall is_byte bs -> 16 <= Z.of_nat (length bs) ->
  exists d, from_bytes bs = Ok d /\ desc_wf d.
Proof.
  intros Hb Hl. rewrite from_bytes_eq by done. eexists. split; [done|].
  split; simpl; apply from_le_slice; done || lia.
Qed.

(** A descriptor as a driver writes it, and that the device reads it back. *)
Definition desc_bytes (d : Descriptor) : bytes :=
  to_le_bytes 8 (addr d) ++ to_le_bytes 4 (dlen d) ++ to_le_bytes 2 (flags d)
    ++ to_le_bytes 2 (dnext d).

Lemma from_desc_bytes d : desc_wf d -> from_bytes (desc_bytes d) = Ok d.
Proof.
  intros []. pose proof (length_to_le_bytes 8 (addr d) ltac:(lia)).
  pose proof (length_to_le_bytes 4 (dlen d) ltac:(lia)).
  pose proof (length_to_le_bytes 2 (flags d) ltac:(lia)).
  pose proof (length_to_le_bytes 2 (dnext d) ltac:(lia)).
  rewrite from_bytes_eq by (unfold desc_bytes; rewrite !length_app; lia).
  unfold desc_bytes, slice.
  rewrite drop_0, take_app_length' by lia.
  rewrite drop_app_length' by lia. rewrite take_app_length' by lia.
  rewrite app_assoc, drop_app_length' by (rewrite length_app; lia). rewrite take_app_length' by lia.
  rewrite app_assoc, drop_app_length' by (rewrite !length_app; lia).
  rewrite take_ge by lia.
  rewrite !from_to_le_bytes by lia. by destruct d.
Qed.

(** ** What a chain means *)

(** The buffers a list of entries contributes, empty ones left out. *)
Definition rd (es : list Descriptor) : list (Z * Z) :=
  omap (fun e => if (dlen e =? 0) || is_write_only e then None else Some (addr e, dlen e)) es.
Definition wr (es : list Descriptor) : list (Z * Z) :=
  omap (fun e => if (dlen e =? 0) || negb (is_write_only e) then None
                 else Some (addr e, dlen e)) es.
Definition bytes_of (es : list Descriptor) : Z := foldr (fun e acc => dlen e + acc) 0 es.

Definition table_entry (table : bytes) (idx : Z) : Result Descriptor :=
  from_bytes (slice table (idx * DESC_SIZE) (Z.of_nat (length table) - idx * DESC_SIZE)).

(** Following an indirect table from entry [idx]. *)
Inductive table_chain (table : bytes) (count : Z) : Z -> list Descriptor -> Prop :=
| tc_last idx e :
    idx < count -> table_entry table idx = Ok e -> has (flags e) INDIRECT = false ->
    has_next e = false -> table_chain table count idx [e]
| tc_next idx e es :
    idx < count -> table_entry table idx = Ok e -> has (flags e) INDIRECT = false ->
    has_next e = true -> table_chain table count (dnext e) es ->
    table_chain table count idx (e :: es).

Definition extend (c : DescriptorChain) (es : list Descriptor) : DescriptorChain :=
  mkChain (head c) (readable c ++ rd es) (writable c ++ wr es).

Lemma extend_nil c : extend c [] = c.
Proof. unfold extend. simpl. rewrite !app_nil_r. by destruct c. Qed.

Lemma extend_app c es es' : extend (extend c es) es' = extend c (es ++ es').
Proof. unfold extend. simpl. unfold rd, wr. by rewrite !omap_app, !app_assoc. Qed.

Lemma bytes_of_app es es' : bytes_of (es ++ es') = bytes_of es + bytes_of es'.
Proof. induction es; simpl; lia. Qed.

Lemma bytes_of_nonneg es : Forall desc_wf es -> 0 <= bytes_of es.
Proof. induction 1 as [|e es []]; simpl; lia. Qed.

Definition ceiling_error {A} : Result A :=
  Err (Device "virtqueue chain describes more than {MAX_CHAIN_BYTES} bytes" []).

Lemma push_buffer_eq c e total :
  desc_wf e -> 0 <= total <= MAX_CHAIN_BYTES ->
  push_buffer c (addr e) (dlen e) (is_write_only e) total =
  if total + dlen e <=? MAX_CHAIN_BYTES then Ok (extend c [e], total + dlen e)
  else ceiling_error.
Proof.
  intros [] Ht. unfold push_buffer, saturating_add, extend, rd, wr, ceiling_error. simpl.
  unfold MAX_CHAIN_BYTES in *.
  destruct (Z.eqb_spec (dlen e) 0) as [E|E].
  - rewrite (proj2 (Z.leb_le _ _)) by lia. simpl. rewrite !app_nil_r, E, Z.add_0_r. by destruct c.
  - rewrite Z.min_l by lia. simpl.
    destruct (Z.ltb_spec (64 * 1024 * 1024) (total + dlen e));
      [rewrite (proj2 (Z.leb_gt _ _)) by lia|rewrite (proj2 (Z.leb_le _ _)) by lia]; [done|].
    by destruct (is_write_only e); simpl; rewrite app_nil_r.
Qed.

Lemma table_entry_wf table count idx :
  Forall is_byte table -> Z.of_nat (length table) = count * DESC_SIZE -> 0 <= idx < count ->
  exists e, table_entry table idx = Ok e /\ desc_wf e /\
    slice_ck (E:=Error) table (idx * DESC_SIZE) (Z.of_nat (length table) - idx * DESC_SIZE)
    = Ok (slice table (idx * DESC_SIZE) (Z.of_nat (length table) - idx * DESC_SIZE)).
Proof.
  intros Hb Hl Hi. unfold DESC_SIZE in *.
  destruct (desc_from_bytes_wf (slice table (idx * 16) (Z.of_nat (length table) - idx * 16)))
    as (e & He & Hwf).
  - unfold slice. auto using Forall_take, Forall_drop.
  - rewrite length_slice by lia. lia.
  - exists e. split; [done|]. split; [done|].
    unfold slice_ck. rewrite !(proj2 (Z.leb_le _ _)) by lia. done.
Qed.

Lemma table_chain_wf table count idx es :
  Forall is_byte table -> Z.of_nat (length table) = count * DESC_SIZE -> 0 <= idx ->
  table_chain table count idx es -> Forall desc_wf es.
Proof.
  intros Hb Hl Hi. induction 1 as [idx e Hc He _ _|idx e es Hc He _ _ _ IH];
    destruct (table_entry_wf table count idx Hb Hl ltac:(lia)) as (e' & He' & Hw & _);
    rewrite He in He'; injection He' as <-; constructor; try done.
  apply IH. apply Hw.
Qed.

Lemma table_chain_inv table count idx e es :
  table_entry table idx = Ok e -> table_chain table count idx es ->
  has (flags e) INDIRECT = false /\
  ((has_next e = false /\ es = [e]) \/
   (has_next e = true /\ exists es', es = e :: es' /\ table_chain table count (dnext e) es')).
Proof.
  intros He Ht. destruct Ht as [idx e' _ He' Hi Hn|idx e' es _ He' Hi Hn Ht];
    rewrite He in He'; injection He' as <-; (split; [done|]); [by left|right; eauto].
Qed.

Lemma table_chain_det table count idx es es' :
  table_chain table count idx es -> table_chain table count idx es' -> es = es'.
Proof.
  intros Hc. revert es'. induction Hc as [idx e _ He _ Hn|idx e es _ He _ Hn _ IH];
    intros es' [_ [[? ->]|(? & es2 & -> & Hc2)]]%(table_chain_inv _ _ _ _ _ He); try congruence.
  f_equal. by apply IH.
Qed.

(** The loop over an indirect table finds exactly the chain of the table. *)
Lemma indirect_loop_spec table count left idx c total :
  Forall is_byte table -> Z.of_nat (length table) = count * DESC_SIZE ->
  0 <= idx -> 0 <= total <= MAX_CHAIN_BYTES ->
  match indirect_loop left table count idx c total with
  | Ok (c', t') => exists es, table_chain table count idx es /\ (length es <= left)%nat /\
      Forall desc_wf es /\ c' = extend c es /\ t' = total + bytes_of es /\ t' <= MAX_CHAIN_BYTES
  | Err _ => forall es, table_chain table count idx es -> (length es <= left)%nat ->
      total + bytes_of es <= MAX_CHAIN_BYTES -> False
  | Panic _ => False
  end.
Proof.
  intros Hb Hl. revert idx c total. induction left as [|left IH]; intros idx c total Hi Ht; simpl.
  { intros es Hc ?. destruct Hc; simpl in *; lia. }
  destruct (Z.leb_spec count idx).
  { intros es Hc _ _. destruct Hc; lia. }
  destruct (table_entry_wf table count idx Hb Hl ltac:(lia)) as (e & He & Hw & Hck).
  rewrite Hck. simpl. unfold table_entry in He. rewrite He. simpl. fold (table_entry table idx) in He.
  destruct (has (flags e) INDIRECT) eqn:Hind.
  { intros es Hc _ _. by destruct (table_chain_inv _ _ _ _ _ He Hc); congruence. }
  rewrite push_buffer_eq by done. pose proof (dw_len e Hw).
  destruct (Z.leb_spec (total + dlen e) MAX_CHAIN_BYTES); simpl.
  2:{ intros es Hc _ Hs. pose proof (table_chain_wf _ _ _ _ Hb Hl Hi Hc) as Hws.
      destruct (table_chain_inv _ _ _ _ _ He Hc) as [_ [[_ ->]|(_ & es' & -> & _)]];
        simpl in Hs; [lia|]. inversion_clear Hws as [|?? _ Hws'].
      pose proof (bytes_of_nonneg _ Hws'). lia. }
  destruct (has_next e) eqn:Hn; simpl.
  - specialize (IH (dnext e) (extend c [e]) (total + dlen e) ltac:(apply Hw) ltac:(lia)).
    destruct (indirect_loop left table count (dnext e) _ _) as [[c' t']|er|p]; [| |done].
    + destruct IH as (es & Hc & ? & Hws & -> & -> & ?). exists (e :: es).
      split_and!; try (simpl; lia); [by eapply tc_next|by constructor|by rewrite extend_app].
    + intros es Hc Hlen Hs.
      destruct (table_chain_inv _ _ _ _ _ He Hc) as [_ [[? _]|(_ & es' & -> & Hc')]]; [congruence|].
      eapply IH; [done|simpl in *; lia|simpl in *; lia].
  - exists [e]. split_and!; try (simpl; lia); try done; [by eapply tc_last|by constructor].
Qed.

Section QueueFacts.
Context `{GuestRamLaws M}.

(** The buffers one descriptor of the ring stands for. *)
Definition desc_bufs (m : M) (d : Descriptor) (es : list Descriptor) : Prop :=
  if has (flags d) INDIRECT then
    let count := dlen d / DESC_SIZE in
    dlen d mod DESC_SIZE = 0 /\ 0 < count <= MAX_CHAIN_LEN /\
    exists table, ram_read m (addr d) (dlen d) = Ok table /\
      table_chain table count 0 es /\ (length es <= Z.to_nat count)%nat
  else es = [d].

(** Following the descriptor table of the queue from [idx]: the descriptors
    visited and the buffers they stand for. *)
Inductive ring_chain (q : GuestQueue) (m : M) : Z -> list Descriptor -> list Descriptor -> Prop :=
| rc_last idx d es :
    read_desc q m idx = Ok d -> desc_bufs m d es -> has_next d = false ->
    ring_chain q m idx [d] es
| rc_next idx d es ds es' :
    read_desc q m idx = Ok d -> desc_bufs m d es -> has_next d = true ->
    ring_chain q m (dnext d) ds es' -> ring_chain q m idx (d :: ds) (es ++ es').

Lemma read_desc_spec q m idx :
  queue_wf q -> queue_room q -> ram_wf m -> 0 <= idx ->
  match read_desc q m idx with Ok d => desc_wf d | Err _ => True | Panic _ => False end.
Proof.
  intros Hq Hr Hm Hi. unfold read_desc. destruct (Z.leb_spec (ring_size q) idx); [done|].
  pose proof (qr_desc q Hr). unfold DESC_SIZE in *. rewrite add_ok by lia. simpl.
  assert (slice_len 16) as Hs by (unfold slice_len; lia).
  pose proof (ram_read_no_panic m (desc_addr q + idx * 16) 16 Hm Hs) as Hnp.
  destruct (ram_read m _ 16) as [bs|e|p] eqn:E; [|done|done]. simpl.
  destruct (ram_read_shape _ _ _ _ Hm Hs E) as [Hl Hb].
  destruct (desc_from_bytes_wf bs Hb ltac:(lia)) as (d & -> & ?). done.
Qed.

(** Reading a descriptor's buffers, tables included. *)
Lemma add_desc_spec m d c total :
  ram_wf m -> desc_wf d -> 0 <= total <= MAX_CHAIN_BYTES ->
  match add_desc m d c total with
  | Ok (c', t') => exists es, desc_bufs m d es /\ Forall desc_wf es /\
      c' = extend c es /\ t' = total + bytes_of es /\ t' <= MAX_CHAIN_BYTES
  | Err _ => forall es, desc_bufs m d es -> total + bytes_of es <= MAX_CHAIN_BYTES -> False
  | Panic _ => False
  end.
Proof.
  intros Hm Hd Ht. unfold add_desc, desc_bufs. pose proof (dw_len d Hd).
  destruct (has (flags d) INDIRECT).
  2:{ rewrite push_buffer_eq by done. destruct (Z.leb_spec (total + dlen d) MAX_CHAIN_BYTES); simpl.
      - exists [d]. split_and!; try done; [by constructor|simpl; lia].
      - intros es -> Hs. simpl in Hs. lia. }
  unfold walk_indirect. destruct (Z.eqb_spec (dlen d mod DESC_SIZE) 0) as [Hmod|]; simpl.
  2:{ intros es (? & _). done. }
  set (count := dlen d / DESC_SIZE).
  assert (dlen d = count * DESC_SIZE /\ 0 <= count) as [Hcount ?].
  { unfold count, DESC_SIZE in *. pose proof (Z.div_mod (dlen d) 16). pose proof (Z.div_pos (dlen d) 16). lia. }
  destruct ((count =? 0) || (MAX_CHAIN_LEN <? count)) eqn:Eb.
  { intros es (_ & ? & _). apply orb_true_iff in Eb as [?|?]; bool_to_prop; lia. }
  bool_to_prop. assert (slice_len (dlen d)) as Hs by (unfold slice_len; lia).
  pose proof (ram_read_no_panic m (addr d) (dlen d) Hm Hs) as Hnp.
  destruct (ram_read m (addr d) (dlen d)) as [table|e|p] eqn:E; simpl; [| |done].
  2:{ intros es (_ & _ & table & ? & _). congruence. }
  destruct (ram_read_shape _ _ _ _ Hm Hs E) as [Hl Hb].
  pose proof (indirect_loop_spec table count (Z.to_nat count) 0 c total Hb ltac:(lia) ltac:(lia) Ht) as Hspec.
  destruct (indirect_loop _ _ _ _ _ _) as [[c' t']|e|p]; [| |done].
  - destruct Hspec as (es & ? & ? & ? & ? & ? & ?). exists es. split_and!; try done; [lia|].
    exists table. done.
  - intros es (_ & _ & table' & ? & Hc & Hle) Hsum. simplify_eq. by eapply Hspec.
Qed.

Lemma desc_bufs_wf m d es : ram_wf m -> desc_wf d -> desc_bufs m d es -> Forall desc_wf es.
Proof.
  intros Hm Hd. unfold desc_bufs. destruct (has _ _).
  - intros (Hmod & ? & table & Hr & Hc & _). pose proof (dw_len d Hd).
    assert (slice_len (dlen d)) as Hs by (unfold slice_len; lia).
    destruct (ram_read_shape _ _ _ _ Hm Hs Hr) as [Hl Hb].
    eapply table_chain_wf; [done| |reflexivity|done]. unfold DESC_SIZE in *.
    pose proof (Z.div_mod (dlen d) 16). lia.
  - intros ->. by constructor.
Qed.

Lemma desc_bufs_det m d es es' : desc_bufs m d es -> desc_bufs m d es' -> es = es'.
Proof.
  unfold desc_bufs. destruct (has _ _); [|congruence].
  intros (_ & _ & t & Ht & Hc & _) (_ & _ & t' & Ht' & Hc' & _).
  rewrite Ht in Ht'. injection Ht' as <-.
  by eapply table_chain_det.
Qed.

Lemma ring_chain_wf q m idx ds es :
  queue_wf q -> queue_room q -> ram_wf m -> 0 <= idx ->
  ring_chain q m idx ds es -> Forall desc_wf es.
Proof.
  intros Hq Hr Hm Hi. induction 1 as [idx d es Hd He _|idx d es ds es' Hd He _ _ IH];
    pose proof (read_desc_spec q m idx Hq Hr Hm Hi) as Hw; rewrite Hd in Hw.
  - by eapply desc_bufs_wf.
  - apply Forall_app. split; [by eapply desc_bufs_wf|]. apply IH, Hw.
Qed.

Lemma ring_chain_inv q m idx d ds es :
  read_desc q m idx = Ok d -> ring_chain q m idx ds es ->
  exists es1, desc_bufs m d es1 /\
  ((has_next d = false /\ ds = [d] /\ es = es1) \/
   (has_next d = true /\ exists ds' es', ds = d :: ds' /\ es = es1 ++ es' /\
      ring_chain q m (dnext d) ds' es')).
Proof.
  intros Hd Hc. destruct Hc as [idx d' es Hd' He Hn|idx d' es ds es' Hd' He Hn Hc];
    rewrite Hd in Hd'; injection Hd' as <-; exists es; (split; [done|]); [by left|right; eauto 6].
Qed.

Lemma chain_loop_spec left q m idx c total :
  queue_wf q -> queue_room q -> ram_wf m -> 0 <= idx -> 0 <= total <= MAX_CHAIN_BYTES ->
  match chain_loop left q m idx c total with
  | Ok c' => exists ds es, ring_chain q m idx ds es /\ (length ds <= left)%nat /\
      total + bytes_of es <= MAX_CHAIN_BYTES /\ c' = extend c es
  | Err _ => forall ds es, ring_chain q m idx ds es -> (length ds <= left)%nat ->
      total + bytes_of es <= MAX_CHAIN_BYTES -> False
  | Panic _ => False
  end.
Proof.
  intros Hq Hr Hm. revert idx c total. induction left as [|left IH]; intros idx c total Hi Ht; simpl.
  { intros ds es Hc ?. destruct Hc; simpl in *; lia. }
  pose proof (read_desc_spec q m idx Hq Hr Hm Hi) as Hw.
  destruct (read_desc q m idx) as [d|e|p] eqn:Hd; simpl; [| |done].
  2:{ intros ds es Hc _ _. destruct Hc; congruence. }
  pose proof (add_desc_spec m d c total Hm Hw Ht) as Ha.
  destruct (add_desc m d c total) as [[c1 t1]|e|p]; simpl; [| |done].
  2:{ intros ds es Hc _ Hs. pose proof (ring_chain_wf _ _ _ _ _ Hq Hr Hm Hi Hc) as Hws.
      destruct (ring_chain_inv _ _ _ _ _ _ Hd Hc) as (es1 & Hb & [(_ & _ & ->)|(_ & ds' & es' & _ & -> & _)]);
        [by eapply Ha|]. rewrite bytes_of_app in Hs. apply Forall_app in Hws as [_ Hws'].
      pose proof (bytes_of_nonneg _ Hws'). eapply Ha; [done|lia]. }
  destruct Ha as (es1 & Hb & Hw1 & -> & -> & ?). pose proof (bytes_of_nonneg _ Hw1).
  destruct (has_next d) eqn:Hn; simpl.
  - specialize (IH (dnext d) (extend c es1) (total + bytes_of es1) ltac:(apply Hw) ltac:(lia)).
    destruct (chain_loop left q m (dnext d) _ _) as [c'|e|p]; [| |done].
    + destruct IH as (ds & es & Hc & ? & ? & ->). exists (d :: ds), (es1 ++ es).
      split_and!; [by eapply rc_next|simpl; lia|rewrite bytes_of_app; lia|by rewrite extend_app].
    + intros ds es Hc Hl Hs.
      destruct (ring_chain_inv _ _ _ _ _ _ Hd Hc) as (es2 & Hb2 & [(? & _)|(_ & ds' & es' & -> & -> & Hc')]);
        [congruence|].
      assert (es2 = es1) as -> by (by eapply desc_bufs_det).
      eapply IH; [done|simpl in *; lia|rewrite bytes_of_app in Hs; lia].
  - exists [d], es1. split_and!; [by eapply rc_last|simpl; lia|done|done].
Qed.
End QueueFacts.

Section QueueTheorems.
Context `{GuestRamLaws M}.

Lemma chain_bytes es :
  Forall desc_wf es -> total_len (rd es) + total_len (wr es) = bytes_of es.
Proof.
  induction 1 as [|e es [] _ IH]; simpl; [done|].
  destruct (Z.eqb_spec (dlen e) 0), (is_write_only e); simpl in *; lia.
Qed.

(** Walking a chain: it never panics or runs on, whatever the guest wrote in
    its memory.  It returns the chain that starts at the head exactly when
    there is one, with its buffers split by direction and in order, and when
    it does, the chain visits no more descriptors than the ring has and
    describes at most [MAX_CHAIN_BYTES]; a cycle, an index outside the table, a
    nested or ill-sized table and an oversized chain are errors. *)
Theorem walk_chain_spec q m h :
  queue_wf q -> queue_room q -> ram_wf m -> 0 <= h ->
  match walk_chain q m h with
  | Ok c => exists ds es, ring_chain q m h ds es /\ Z.of_nat (length ds) <= ring_size q /\
      c = mkChain h (rd es) (wr es) /\
      readable_len c + writable_len c = bytes_of es /\ bytes_of es <= MAX_CHAIN_BYTES
  | Err _ => forall ds es, ring_chain q m h ds es ->
      Z.of_nat (length ds) <= ring_size q -> MAX_CHAIN_BYTES < bytes_of es
  | Panic _ => False
  end.
Proof.
  intros Hq Hr Hm Hh. pose proof (ring_size_range q Hq).
  pose proof (chain_loop_spec (Z.to_nat (ring_size q)) q m h (mkChain h [] []) 0 Hq Hr Hm Hh
    ltac:(unfold MAX_CHAIN_BYTES; lia)) as Hs.
  unfold walk_chain. destruct (chain_loop _ _ _ _ _ _) as [c|e|p]; [| |done].
  - destruct Hs as (ds & es & Hc & ? & ? & ->). exists ds, es.
    split_and!; [done|lia|done| |lia].
    apply chain_bytes. by eapply ring_chain_wf.
  - intros ds es Hc Hl. destruct (Z.lt_ge_cases MAX_CHAIN_BYTES (bytes_of es)); [done|].
    exfalso. eapply Hs; [done|lia|lia].
Qed.

(** The head published in the next slot of the available ring. *)
Definition slot_head (q : GuestQueue) (m : M) : Result Z :=
  read_u16 m (avail_addr q + 4 + last_avail_idx q mod ring_size q * 2).

Definition advance (q : GuestQueue) : GuestQueue :=
  set_progress (wrapping_add 16 (last_avail_idx q) 1) (next_used_idx q) q.

Lemma read_u16_spec m a :
  ram_wf m -> match read_u16 m a with Ok v => fits 16 v | Err _ => True | Panic _ => False end.
Proof.
  intros Hm. unfold read_u16. assert (slice_len 2) as Hs by (unfold slice_len; lia).
  pose proof (ram_read_no_panic m a 2 Hm Hs). destruct (ram_read m a 2) as [bs|e|p] eqn:E; [|done|done].
  simpl. destruct (ram_read_shape _ _ _ _ Hm Hs E) as [Hl Hb].
  pose proof (from_le_bytes_bound bs Hb) as Hf. rewrite Hl in Hf. exact Hf.
Qed.

Lemma is_ready_ring q : is_ready q = true -> 0 < ring_size q.
Proof. unfold is_ready. intros. bool_to_prop. done. Qed.

Lemma has_available_spec q m :
  queue_wf q -> queue_room q -> ram_wf m ->
  match has_available q m with
  | Ok true => 0 < ring_size q
  | Panic _ => False
  | _ => True
  end.
Proof.
  intros Hq Hr Hm. unfold has_available. destruct (is_ready q) eqn:E; simpl; [|done].
  pose proof (is_ready_ring q E). pose proof (qr_avail q Hr). unfold avail_idx.
  rewrite add_ok by lia. simpl. pose proof (read_u16_spec m (avail_addr q + 2) Hm).
  destruct (read_u16 m _); simpl; [|done|done]. by destruct (negb _).
Qed.

Lemma walk_chain_progress la nu q m h :
  walk_chain (set_progress la nu q) m h = walk_chain q m h.
Proof.
  unfold walk_chain. change (ring_size (set_progress la nu q)) with (ring_size q).
  generalize (mkChain h [] []), 0, (Z.to_nat (ring_size q)). intros c total left.
  revert h c total. induction left as [|left IH]; intros h c total; simpl; [done|].
  change (read_desc (set_progress la nu q) m h) with (read_desc q m h).
  destruct (read_desc q m h) as [d|e|p]; simpl; [|done..].
  destruct (add_desc m d c total) as [[c' t']|e|p]; simpl; [|done..].
  destruct (has_next d); simpl; [apply IH|done].
Qed.

Lemma pop_eq m q :
  queue_wf q -> queue_room q -> ram_wf m ->
  pop m q =
  match has_available q m with
  | Ok false => (Ok None, q)
  | Ok true =>
      match slot_head q m with
      | Ok h => match walk_chain q m h with
                | Ok c => (Ok (Some c), advance q)
                | Err e => (Err e, advance q)
                | Panic p => (Panic p, advance q)
                end
      | Err e => (Err e, q)
      | Panic p => (Panic p, q)
      end
  | Err e => (Err e, q)
  | Panic p => (Panic p, q)
  end.
Proof.
  intros Hq Hr Hm. pose proof (has_available_spec q m Hq Hr Hm) as Ha.
  unfold pop. unfold mbind, ST_bind, st_read, st_modify.
  destruct (has_available q m) as [[]|e|p]; simpl; try done.
  rewrite (proj2 (Z.eqb_neq _ _)) by lia. pose proof (qr_avail q Hr).
  pose proof (Z.mod_pos_bound (last_avail_idx q) (ring_size q) Ha).
  unfold slot_head. rewrite add_ok by lia. simpl. rewrite add_ok by lia. simpl.
  destruct (read_u16 m _); [|done..]. rewrite walk_chain_progress.
  by destruct (walk_chain q m a).
Qed.

(** C4: Taking a chain: nothing is taken while the driver has published nothing; a
    published slot is consumed exactly once, in order, and also when its chain
    is rejected, so that a bad chain is never re-read; only an unreadable ring
    leaves the queue where it was. *)
Theorem pop_spec m q :
  queue_wf q -> queue_room q -> ram_wf m ->
  match pop m q with
  | (Ok None, q') => q' = q /\ has_available q m = Ok false
  | (Ok (Some c), q') => q' = advance q /\ queue_wf q' /\ has_available q m = Ok true /\
      slot_head q m = Ok (head c) /\ walk_chain q m (head c) = Ok c
  | (Err e, q') =>
      (q' = q /\ ((exists e, has_available q m = Err e) \/ exists e, slot_head q m = Err e)) \/
      (q' = advance q /\ queue_wf q' /\ exists h, slot_head q m = Ok h /\ walk_chain q m h = Err e)
  | (Panic _, _) => False
  end.
Proof.
  intros Hq Hr Hm. rewrite pop_eq by done.
  assert (queue_wf (advance q)) as Hwf.
  { apply (apply_op_wf (SetProgress _ _)); [done|]. simpl. unfold wrapping_add, fits.
    split; [apply Z.mod_pos_bound; lia|apply Hq]. }
  pose proof (has_available_spec q m Hq Hr Hm) as Ha.
  destruct (has_available q m) as [[]|e|p]; [|done|left; eauto|done].
  pose proof (read_u16_spec m (avail_addr q + 4 + last_avail_idx q mod ring_size q * 2) Hm) as Hu.
  fold (slot_head q m) in Hu. destruct (slot_head q m) as [h|e|p]; [|left; eauto|done].
  pose proof (chain_loop_spec (Z.to_nat (ring_size q)) q m h (mkChain h [] []) 0 Hq Hr Hm
    ltac:(apply Hu) ltac:(unfold MAX_CHAIN_BYTES; lia)) as Hs.
  unfold walk_chain. destruct (chain_loop _ _ _ _ _ _) as [c|e|p] eqn:Ec; [| |done].
  - destruct Hs as (ds & es & _ & _ & _ & ->). done.
  - right. eauto 6.
Qed.

(** What publishing a used entry does to the queue. *)
Definition publish (q : GuestQueue) : GuestQueue :=
  set_progress (last_avail_idx q) (wrapping_add 16 (next_used_idx q) 1) q.

Definition used_entry (q : GuestQueue) : Z :=
  used_addr q + 4 + next_used_idx q mod ring_size q * 8.

Lemma wrapping_fits i : fits 16 (wrapping_add 16 i 1).
Proof. apply Z.mod_pos_bound. lia. Qed.

Lemma advance_wf q : queue_wf q -> queue_wf (advance q).
Proof.
  intros Hq. apply (apply_op_wf (SetProgress _ _)); [done|]. split; [apply wrapping_fits|apply Hq].
Qed.

Lemma publish_wf q : queue_wf q -> queue_wf (publish q).
Proof.
  intros Hq. apply (apply_op_wf (SetProgress _ _)); [done|]. split; [apply Hq|apply wrapping_fits].
Qed.

Lemma add_used_eq q m h l :
  queue_room q -> 0 < ring_size q ->
  add_used h l (q, m) =
  match ram_write (used_entry q) (to_le_bytes 4 h ++ to_le_bytes 4 l) m with
  | (Ok _, m1) =>
      let '(r, m2) := ram_write (used_addr q + 2)
                        (to_le_bytes 2 (next_used_idx (publish q))) m1 in (r, (publish q, m2))
  | (Err e, m1) => (Err e, (q, m1))
  | (Panic p, m1) => (Panic p, (q, m1))
  end.
Proof.
  intros Hr Hn. unfold add_used. rewrite (proj2 (Z.eqb_neq _ _)) by lia.
  pose proof (qr_used q Hr). pose proof (Z.mod_pos_bound (next_used_idx q) (ring_size q) Hn).
  rewrite add_ok by lia. simpl. rewrite add_ok by lia. fold (used_entry q).
  destruct (ram_write (used_entry q) _ m) as [[]m1]; try done. rewrite add_ok by lia. done.
Qed.

Lemma length_used_bytes h l :
  Z.of_nat (length (to_le_bytes 4 h ++ to_le_bytes 4 l)) = 8.
Proof. rewrite length_app, Nat2Z.inj_add, !length_to_le_bytes by lia. done. Qed.

(** C5: Publishing a used entry writes the entry into the slot that comes next and
    then the advanced index, and nothing else of guest memory: after success
    the driver reads back both, and every range apart from them is as it was.
    A failure on the entry leaves queue and memory untouched; the device
    never panics. *)
Theorem add_used_spec q m h l :
  queue_wf q -> queue_room q -> ram_wf m -> 0 < ring_size q ->
  match add_used h l (q, m) with
  | (Ok _, (q', m')) =>
      q' = publish q /\ queue_wf q' /\ ram_wf m' /\
      ram_read m' (used_entry q) 8 = Ok (to_le_bytes 4 h ++ to_le_bytes 4 l) /\
      read_u16 m' (used_addr q + 2) = Ok (wrapping_add 16 (next_used_idx q) 1) /\
      (forall b n, slice_len n -> disjoint_ranges (used_entry q) 8 b n ->
         disjoint_ranges (used_addr q + 2) 2 b n -> ram_read m' b n = ram_read m b n)
  | (Err _, (q', m')) =>
      (q' = q /\ m' = m) \/
      (q' = publish q /\ queue_wf q' /\ ram_wf m' /\
       forall b n, slice_len n -> disjoint_ranges (used_entry q) 8 b n ->
         ram_read m' b n = ram_read m b n)
  | (Panic _, _) => False
  end.
Proof.
  intros Hq Hr Hm Hn. rewrite add_used_eq by done.
  pose proof (length_used_bytes h l) as Hl1.
  set (d1 := to_le_bytes 4 h ++ to_le_bytes 4 l) in *.
  assert (Forall is_byte d1) as Hb1.
  { apply Forall_app. split; apply to_le_bytes_byte; lia. }
  pose proof (length_to_le_bytes 2 (next_used_idx (publish q)) ltac:(lia)) as Hl2.
  pose proof (to_le_bytes_byte 2 (next_used_idx (publish q)) ltac:(lia)) as Hb2.
  set (d2 := to_le_bytes 2 _) in *.
  assert (slice_len 8 /\ slice_len 2) as [Hs8 Hs2] by (split; split; lia).
  pose proof (Z.mod_pos_bound (next_used_idx q) (ring_size q) Hn).
  pose proof (ram_write_no_panic m (used_entry q) d1 Hm ltac:(by rewrite Hl1)) as Hp1.
  destruct (ram_write (used_entry q) d1 m) as [[[]|e|p] m1] eqn:E1; [| |done].
  2:{ left. split; [done|]. by eapply ram_write_fail. }
  pose proof (ram_write_wf _ _ _ _ _ Hm Hb1 E1) as Hm1.
  pose proof (ram_write_no_panic m1 (used_addr q + 2) d2 Hm1 ltac:(by rewrite Hl2)) as Hp2.
  assert (forall b n, slice_len n -> disjoint_ranges (used_entry q) 8 b n ->
         ram_read m1 b n = ram_read m b n) as Hf1.
  { intros b n Hb Hd. eapply ram_read_frame; [done| |done| |done]; by rewrite Hl1. }
  destruct (ram_write (used_addr q + 2) d2 m1) as [[[]|e|p] m2] eqn:E2; [| |done].
  2:{ right. rewrite (ram_write_fail _ _ _ _ _ E2). split_and!; auto using publish_wf. }
  pose proof (ram_read_write _ _ _ _ E2) as Hr2. rewrite Hl2 in Hr2.
  pose proof (ram_read_write _ _ _ _ E1) as Hr1. rewrite Hl1 in Hr1.
  assert (forall b n, slice_len n -> disjoint_ranges (used_addr q + 2) 2 b n ->
         ram_read m2 b n = ram_read m1 b n) as Hf2.
  { intros b n Hb Hd. eapply ram_read_frame; [done| |done| |done]; by rewrite Hl2. }
  split_and!; auto using publish_wf.
  - by eapply ram_write_wf.
  - rewrite Hf2; [done|done|]. left. unfold used_entry. lia.
  - unfold read_u16. rewrite Hr2. simpl. unfold d2. rewrite from_to_le_bytes; [done|lia|].
    apply wrapping_fits.
  - intros b n Hb Hd1 Hd2. by rewrite Hf2, Hf1.
Qed.

Lemma add_used_safe q m h l r q' m' :
  queue_room q -> ram_wf m -> 0 < ring_size q -> add_used h l (q, m) = (r, (q', m')) ->
  is_panic r = false /\ ram_wf m'.
Proof.
  intros Hr Hm Hn. rewrite add_used_eq by done.
  assert (Forall is_byte (to_le_bytes 4 h ++ to_le_bytes 4 l)) as Hb1
    by (apply Forall_app; split; apply to_le_bytes_byte; lia).
  pose proof (ram_write_no_panic m (used_entry q) _ Hm
    ltac:(rewrite (length_used_bytes h l); split; lia)) as Hp1.
  destruct (ram_write (used_entry q) _ m) as [r1 m1] eqn:E1.
  pose proof (ram_write_wf _ _ _ _ _ Hm Hb1 E1) as Hm1.
  destruct r1 as [[]|e|p]; [|by intros [= <- <- <-]|done].
  pose proof (ram_write_no_panic m1 (used_addr q + 2) (to_le_bytes 2 (next_used_idx (publish q))) Hm1
    ltac:(rewrite length_to_le_bytes by lia; split; lia)) as Hp2.
  destruct (ram_write (used_addr q + 2) _ m1) as [r2 m2] eqn:E2. intros [= <- <- <-].
  split; [done|]. eapply ram_write_wf; [done| |done]. apply to_le_bytes_byte. lia.
Qed.

Lemma pop_safe m q r q' :
  queue_wf q -> queue_room q -> ram_wf m -> pop m q = (r, q') ->
  is_panic r = false /\ queue_wf q' /\ queue_room q' /\
  (forall c, r = Ok (Some c) -> q' = advance q /\ has_available q m = Ok true).
Proof.
  intros Hq Hr Hm. rewrite pop_eq by done.
  pose proof (advance_wf q Hq) as Hq'. assert (queue_room (advance q)) as Hr' by (by destruct Hr).
  pose proof (has_available_spec q m Hq Hr Hm) as Ha.
  destruct (has_available q m) as [[]|e|p]; [| | |done].
  2, 3: intros [= <- <-]; by split_and!.
  pose proof (read_u16_spec m (avail_addr q + 4 + last_avail_idx q mod ring_size q * 2) Hm) as Hu.
  fold (slot_head q m) in Hu.
  destruct (slot_head q m) as [h|e|p]; [|intros [= <- <-]; by split_and!|done].
  pose proof (chain_loop_spec (Z.to_nat (ring_size q)) q m h (mkChain h [] []) 0 Hq Hr Hm
    ltac:(apply Hu) ltac:(unfold MAX_CHAIN_BYTES; lia)) as Hs.
  unfold walk_chain. destruct (chain_loop _ _ _ _ _ _) as [c|e|p]; [| |done];
    intros [= <- <-]; by split_and!.
Qed.

(** A published available ring the address space cannot hold takes the host
    down: the address of the index is computed without a check. *)
Theorem pop_address_overflow m q :
  is_ready q = true -> 2 ^ 64 - 2 <= avail_addr q -> pop m q = (Panic ArithOverflow, q).
Proof.
  intros Hr Ha. unfold pop. unfold mbind, ST_bind, st_read, has_available, avail_idx.
  rewrite Hr. simpl. unfold add. by rewrite (proj2 (Z.ltb_ge _ _)) by lia.
Qed.

(** ** Every queue a device can come to hold *)

Inductive queue_reach : GuestQueue -> Prop :=
| qr_new max : fits 16 max -> queue_reach (new max)
| qr_op o q : queue_reach q -> op_typed o -> queue_reach (apply_op o q)
| qr_pop (m : M) q r q' : queue_reach q -> pop m q = (r, q') -> queue_reach q'
| qr_add_used (m m' : M) h l q r q' :
    queue_reach q -> add_used h l (q, m) = (r, (q', m')) -> queue_reach q'.

Lemma pop_state m q : (pop m q).2 = q \/ (pop m q).2 = advance q.
Proof.
  unfold pop. unfold mbind, ST_bind, st_read, st_modify.
  destruct (has_available q m) as [[]|e|p]; simpl; auto.
  destruct (ring_size q =? 0); simpl; auto.
  destruct (add 64 (avail_addr q) 4) as [b| |]; simpl; auto.
  destruct (add 64 b _) as [a| |]; simpl; auto.
  destruct (read_u16 m a); simpl; auto. destruct (walk_chain _ _ _); auto.
Qed.

Lemma add_used_state m h l q : (add_used h l (q, m)).2.1 = q \/ (add_used h l (q, m)).2.1 = publish q.
Proof.
  unfold add_used. destruct (ring_size q =? 0); [by left|].
  destruct (b ← add 64 (used_addr q) 4; _) as [a| |]; try by left.
  destruct (ram_write a _ m) as [[]m1]; try by left.
  destruct (add 64 (used_addr q) 2) as [b| |]; try by right.
  destruct (ram_write b _ m1) as [? ?]. by right.
Qed.

(** C6: Whatever a driver writes into the queue registers and into its memory, and
    whatever the device does with it, the queue stays well formed: its size
    is a power of two no larger than the device's maximum, and its indices and
    addresses keep their widths. *)
Theorem queue_invariant q : queue_reach q -> queue_wf q.
Proof.
  induction 1 as [max []|o q _ IH Ho|m q r q' _ IH E|m m' h l q r q' _ IH E].
  - by apply new_wf.
  - by apply apply_op_wf.
  - pose proof (pop_state m q) as [Hs|Hs]; rewrite E in Hs; simpl in Hs; subst; auto using advance_wf.
  - pose proof (add_used_state m h l q) as [Hs|Hs]; rewrite E in Hs; simpl in Hs; subst;
      auto using publish_wf.
Qed.
End QueueTheorems.

(** A free-running 16-bit index and a power-of-two ring agree on the slot
    through the wrap of the index: the [k]-th chain taken from now is read from
    slot [last_avail_idx + k] modulo the ring. *)
Theorem avail_slots_cyclic q (k : nat) :
  queue_wf q -> qsize q <> 0 ->
  last_avail_idx (Nat.iter k advance q) mod ring_size (Nat.iter k advance q)
  = (last_avail_idx q + Z.of_nat k) mod ring_size q.
Proof.
  intros Hq Hs. destruct (qw_size q Hq) as [|[[Hpos Hle] [e [He Hp]]%is_power_of_two_spec]]; [done|].
  assert (ring_size q = 2 ^ e) as Hn.
  { unfold ring_size. by rewrite (proj2 (Z.eqb_neq _ _)) by done. }
  assert (e <= 16).
  { destruct (Z.le_gt_cases e 16); [done|]. pose proof (Z.pow_lt_mono_r 2 16 e).
    pose proof (qw_max q Hq). unfold MAX_QUEUE_SIZE in *. lia. }
  assert (forall j, ring_size (Nat.iter j advance q) = 2 ^ e) as Hr.
  { intros j. rewrite <- Hn. by induction j. }
  rewrite Hr, Hn. clear Hr. revert q Hq Hs Hpos Hle Hp Hn. induction k as [|k IH]; intros; [by rewrite Z.add_0_r|].
  change (Nat.iter (S k) advance q) with (advance (Nat.iter k advance q)).
  change (last_avail_idx (advance ?x)) with ((last_avail_idx x + 1) mod 2 ^ 16).
  assert (2 ^ 16 = 2 ^ e * 2 ^ (16 - e)) as Hdiv by (rewrite <- Z.pow_add_r by lia; f_equal; lia).
  rewrite Hdiv. assert (0 < 2 ^ e) by lia. assert (0 < 2 ^ (16 - e)) by (apply Z.pow_pos_nonneg; lia).
  rewrite Z.rem_mul_r by lia. rewrite (Z.mul_comm (2 ^ e)), Z_mod_plus_full, Zmod_mod.
  rewrite <- Zplus_mod_idemp_l, (IH q), Zplus_mod_idemp_l by done. f_equal. lia.
Qed.

(** ** Scatter and gather *)

Definition bufs_apart (b n : Z) (bufs : list (Z * Z)) : Prop :=
  Forall (fun p => disjoint_ranges p.1 p.2 b n) bufs.

Fixpoint pairwise_apart (bufs : list (Z * Z)) : Prop :=
  match bufs with
  | [] => True
  | (a, l) :: rest => bufs_apart a l rest /\ pairwise_apart rest
  end.

Definition bufs_typed (bufs : list (Z * Z)) : Prop :=
  Forall (fun p => fits 64 p.1 /\ fits 32 p.2) bufs.

(** The first [n] bytes of a list of buffers. *)
Fixpoint clip (n : Z) (bufs : list (Z * Z)) : list (Z * Z) :=
  match bufs with
  | [] => []
  | (a, l) :: rest => if n <=? 0 then [] else (a, Z.min l n) :: clip (n - l) rest
  end.

Lemma total_len_cons a l bufs : total_len ((a, l) :: bufs) = l + total_len bufs.
Proof. done. Qed.

Lemma total_len_nonneg bufs : bufs_typed bufs -> 0 <= total_len bufs.
Proof. unfold bufs_typed, fits. induction 1; simpl; lia. Qed.

Lemma clip_nil n bufs : n <= 0 -> clip n bufs = [].
Proof. intros. destruct bufs as [|[a l] bufs]; simpl; [done|]. by rewrite (proj2 (Z.leb_le _ _)) by lia. Qed.

Lemma clip_typed n bufs : bufs_typed bufs -> bufs_typed (clip n bufs).
Proof.
  intros Hb. revert n. induction Hb as [|[a l] bufs [Ha Hl] _ IH]; intros n; simpl; [by apply Forall_nil|].
  destruct (Z.leb_spec n 0); [by apply Forall_nil|]. apply Forall_cons. split; [|apply IH].
  unfold fits in *. simpl in *. lia.
Qed.

Section ScatterGather.
Context `{GuestRamLaws M}.

(** Gathering never panics and returns as many bytes as the buffers hold. *)
Lemma read_buffers_shape m bufs :
  ram_wf m -> bufs_typed bufs ->
  match read_buffers m bufs with
  | Ok bs => Z.of_nat (length bs) = total_len bufs /\ Forall is_byte bs
  | Err _ => True
  | Panic _ => False
  end.
Proof.
  intros Hm. induction 1 as [|[a l] bufs [_ Hl] _ IH]; simpl in *; [done|].
  assert (slice_len l) as Hs by (unfold fits in Hl; split; lia).
  pose proof (ram_read_no_panic m a l Hm Hs).
  destruct (ram_read m a l) as [bs|e|p] eqn:E; simpl; [|done..].
  destruct (ram_read_shape _ _ _ _ Hm Hs E) as [Hlen Hb].
  destruct (read_buffers m bufs) as [more|e|p]; simpl; [|done..].
  destruct IH as [IH1 IH2]. split; [|by apply Forall_app].
  rewrite length_app. unfold total_len in *. lia.
Qed.

Lemma read_buffers_ext m m' bufs :
  Forall (fun p => ram_read m' p.1 p.2 = ram_read m p.1 p.2) bufs ->
  read_buffers m' bufs = read_buffers m bufs.
Proof. induction 1 as [|[a l] bufs E _ IH]; simpl in *; [done|]. by rewrite E, IH. Qed.

Lemma take_chunk (d : bytes) written l :
  0 <= written < Z.of_nat (length d) -> 0 <= l ->
  slice_ck (E:=Error) d written (Z.min l (Z.of_nat (length d) - written))
  = Ok (slice d written (Z.min l (Z.of_nat (length d) - written))).
Proof. intros. unfold slice_ck. by rewrite !(proj2 (Z.leb_le _ _)) by lia. Qed.

(** Scattering never panics, keeps memory well formed and touches the buffers
    alone; what it reports is what fits. *)
Lemma write_buffers_frame bufs d written m :
  ram_wf m -> Forall is_byte d -> slice_len (Z.of_nat (length d)) -> bufs_typed bufs ->
  0 <= written <= Z.of_nat (length d) ->
  match write_buffers bufs d written m with
  | (r, m') => ram_wf m' /\ is_panic r = false /\
      (forall b n, slice_len n -> bufs_apart b n bufs -> ram_read m' b n = ram_read m b n) /\
      (forall n, r = Ok n -> n = Z.min (Z.of_nat (length d)) (written + total_len bufs))
  end.
Proof.
  intros Hm Hd Hs Hb. revert written m Hm.
  induction Hb as [|[a l] bufs [_ [Hl1 Hl2]] Hb IH]; intros written m Hm Hw; simpl in *.
  { split_and!; try done. intros n [= <-]. lia. }
  pose proof (total_len_nonneg bufs Hb).
  destruct (Z.leb_spec (Z.of_nat (length d)) written).
  { split_and!; try done. intros n [= <-]. lia. }
  unfold mbind at 1, ST_bind, st_lift. rewrite take_chunk by lia.
  set (k := Z.min l _). unfold mbind, ST_bind. unfold slice_len in Hs.
  assert (Z.of_nat (length (slice d written k)) = k) as Hk by (apply length_slice; lia).
  assert (Forall is_byte (slice d written k)) as Hbs
    by (unfold slice; auto using Forall_take, Forall_drop).
  pose proof (ram_write_no_panic m a (slice d written k) Hm ltac:(split; lia)) as Hp.
  destruct (ram_write a (slice d written k) m) as [[[]|e|p] m1] eqn:E; [| |done].
  2:{ rewrite (ram_write_fail _ _ _ _ _ E). split_and!; try done. }
  pose proof (ram_write_wf _ _ _ _ _ Hm Hbs E) as Hm1.
  specialize (IH (written + k) m1 Hm1 ltac:(lia)).
  destruct (write_buffers bufs d (written + k) m1) as [r m2]. destruct IH as (? & ? & Hf & Hn).
  split_and!; try done.
  - intros b n Hsl [Hab Hrest]%Forall_cons. rewrite (Hf b n Hsl Hrest).
    eapply ram_read_frame; [done|by rewrite Hk; split; lia|done| |done]. rewrite Hk.
    unfold disjoint_ranges in *. simpl in *. lia.
  - intros n Hr. rewrite (Hn n Hr). lia.
Qed.

Lemma write_buffers_read bufs d written m n m' :
  ram_wf m -> Forall is_byte d -> slice_len (Z.of_nat (length d)) -> bufs_typed bufs ->
  pairwise_apart bufs -> 0 <= written <= Z.of_nat (length d) ->
  write_buffers bufs d written m = (Ok n, m') ->
  read_buffers m' (clip (n - written) bufs) = Ok (slice d written (n - written)).
Proof.
  intros Hm Hd Hs Hb. revert written m Hm.
  induction Hb as [|[a l] bufs [_ [Hl1 Hl2]] Hb IH]; intros written m Hm Ha Hw; simpl in *.
  { intros [= <- <-]. by rewrite Z.sub_diag, slice_0. }
  destruct Ha as [Ha1 Ha2]. pose proof (total_len_nonneg bufs Hb).
  destruct (Z.leb_spec (Z.of_nat (length d)) written).
  { intros [= <- <-]. rewrite Z.sub_diag. simpl. by rewrite slice_0. }
  unfold mbind at 1, ST_bind, st_lift. rewrite take_chunk by lia.
  set (k := Z.min l _). unfold mbind, ST_bind. unfold slice_len in Hs.
  assert (Z.of_nat (length (slice d written k)) = k) as Hk by (apply length_slice; lia).
  assert (Forall is_byte (slice d written k)) as Hbs
    by (unfold slice; auto using Forall_take, Forall_drop).
  destruct (ram_write a (slice d written k) m) as [[[]|e|p] m1] eqn:E; [|done..].
  pose proof (ram_write_wf _ _ _ _ _ Hm Hbs E) as Hm1. intros Hrest.
  pose proof (write_buffers_frame bufs d (written + k) m1 Hm1 Hd Hs Hb ltac:(lia)) as Hf.
  rewrite Hrest in Hf. destruct Hf as (_ & _ & Hf & Hn). specialize (Hn n eq_refl).
  destruct (Z.leb_spec (n - written) 0) as [Hz|Hz]; simpl.
  { assert (n - written = 0) as -> by lia. by rewrite slice_0. }
  assert (Z.min l (n - written) = k) as -> by lia.
  pose proof (ram_read_write _ _ _ _ E) as Hr. rewrite Hk in Hr.
  assert (ram_read m' a k = Ok (slice d written k)) as ->.
  { rewrite Hf; [done|split; lia|]. eapply Forall_impl; [exact Ha1|].
    unfold disjoint_ranges. intros. lia. }
  specialize (IH (written + k) m1 Hm1 Ha2 ltac:(lia) Hrest). simpl.
  assert (read_buffers m' (clip (n - written - l) bufs)
          = Ok (slice d (written + k) (n - written - k))) as ->.
  { destruct (Z.le_gt_cases l (Z.of_nat (length d) - written)).
    - replace (n - written - l) with (n - (written + k)) by lia.
      replace (n - written - k) with (n - (written + k)) by lia. done.
    - replace (n - written - k) with 0 by lia. rewrite slice_0.
      destruct bufs as [|[a' l'] bufs']; simpl; [done|]. by rewrite (proj2 (Z.leb_le _ _)) by lia. }
  simpl. f_equal. rewrite <- slice_app by lia. f_equal. lia.
Qed.

(** Scattering data over a chain's writable buffers reports the bytes that
    fit, and a driver that gathers that many bytes from the same buffers gets
    exactly the front of the data; memory outside the buffers is as it was. *)
Theorem write_all_roundtrip c d m :
  ram_wf m -> Forall is_byte d -> slice_len (Z.of_nat (length d)) ->
  bufs_typed (writable c) -> pairwise_apart (writable c) ->
  match write_all c d m with
  | (Ok n, m') => ram_wf m' /\ n = Z.min (Z.of_nat (length d)) (writable_len c) /\
      read_buffers m' (clip n (writable c)) = Ok (slice d 0 n) /\
      (forall b k, slice_len k -> bufs_apart b k (writable c) ->
         ram_read m' b k = ram_read m b k)
  | (Err _, m') => ram_wf m' /\ (forall b k, slice_len k -> bufs_apart b k (writable c) ->
         ram_read m' b k = ram_read m b k)
  | (Panic _, _) => False
  end.
Proof.
  intros Hm Hd Hs Hb Ha. unfold write_all.
  pose proof (write_buffers_frame (writable c) d 0 m Hm Hd Hs Hb ltac:(lia)) as Hf.
  destruct (write_buffers _ d 0 m) as [[n|e|p] m'] eqn:E; [| |by destruct Hf as (_ & ? & _)].
  - destruct Hf as (? & _ & ? & Hn). split_and!; try done; [by apply Hn|].
    pose proof (write_buffers_read _ d 0 m n m' Hm Hd Hs Hb Ha ltac:(lia) E) as Hr.
    by rewrite Z.sub_0_r in Hr.
  - by destruct Hf as (? & _ & ? & _).
Qed.
End ScatterGather.

(** ** A driver's ring, as a concrete input *)

(** One request published in a ring of four: a 16-byte header the device
    reads, 512 bytes and a status byte it writes. *)
Definition demo_descs : list Descriptor :=
  [mkDesc 0x4000 16 NEXT 1; mkDesc 0x5000 512 (NEXT + WRITE) 2; mkDesc 0x6000 1 WRITE 0].

Definition driver_write (a : Z) (d : bytes) (m : GuestMemory) : GuestMemory :=
  (ram_write a d m).2.

Definition demo_ring_mem : GuestMemory :=
  driver_write 0x4000 (to_le_bytes 4 0 ++ to_le_bytes 4 0 ++ to_le_bytes 8 1)
    (driver_write 0x2000 (to_le_bytes 2 0 ++ to_le_bytes 2 1 ++ to_le_bytes 2 0)
       (driver_write 0x1000 (concat (map desc_bytes demo_descs)) demo_mem)).

Definition demo_queue : GuestQueue := mkQueue 4 256 0x1000 0x2000 0x3000 true 0 0.

Definition demo_chain : DescriptorChain :=
  mkChain 0 [(0x4000, 16)] [(0x5000, 512); (0x6000, 1)].

Lemma driver_write_wf a d m : ram_wf m -> Forall is_byte d -> ram_wf (driver_write a d m).
Proof.
  intros Hm Hd. unfold driver_write. destruct (ram_write a d m) as [r m'] eqn:E.
  by eapply ram_write_wf.
Qed.

Lemma demo_ring_mem_wf : ram_wf demo_ring_mem.
Proof.
  repeat apply driver_write_wf; [exact demo_mem_wf|..];
    apply bytes_forallb; vm_compute; reflexivity.
Qed.

Lemma demo_queue_wf : queue_wf demo_queue.
Proof. split; simpl; unfold MAX_QUEUE_SIZE; try lia. right. split; [lia|done]. Qed.

Lemma demo_queue_room : queue_room demo_queue.
Proof. split; vm_compute; reflexivity. Qed.

(** The request above, walked. *)
Lemma walk_chain_spec_witness :
  exists ds es, ring_chain demo_queue demo_ring_mem 0 ds es /\
    Z.of_nat (length ds) <= 4 /\ demo_chain = mkChain 0 (rd es) (wr es).
Proof.
  pose proof (walk_chain_spec demo_queue demo_ring_mem 0 demo_queue_wf demo_queue_room
    demo_ring_mem_wf ltac:(lia)) as H.
  assert (walk_chain demo_queue demo_ring_mem 0 = Ok demo_chain) as E by (vm_compute; reflexivity).
  rewrite E in H. destruct H as (ds & es & Hc & Hl & He & _).
  exists ds, es. exact (conj Hc (conj Hl He)).
Defined.

(** The request above, taken. *)
Lemma pop_spec_witness :
  exists q', pop demo_ring_mem demo_queue = (Ok (Some demo_chain), q') /\
    q' = advance demo_queue /\ queue_wf q'.
Proof.
  pose proof (pop_spec demo_ring_mem demo_queue demo_queue_wf demo_queue_room demo_ring_mem_wf) as H.
  assert (pop demo_ring_mem demo_queue = (Ok (Some demo_chain), advance demo_queue)) as E
    by (vm_compute; reflexivity).
  rewrite E in H. destruct H as (Hq & Hw & _).
  eexists. exact (conj E (conj Hq Hw)).
Defined.

(** The request above, answered. *)
Lemma add_used_spec_witness :
  exists m', add_used 0 513 (demo_queue, demo_ring_mem) = (Ok tt, (publish demo_queue, m')) /\
    read_u16 m' 0x3002 = Ok 1.
Proof.
  pose proof (add_used_spec demo_queue demo_ring_mem 0 513 demo_queue_wf demo_queue_room
    demo_ring_mem_wf ltac:(vm_compute; reflexivity)) as H.
  assert (is_ok (add_used 0 513 (demo_queue, demo_ring_mem)).1 = true) as E by (vm_compute; reflexivity).
  destruct (add_used 0 513 _) as [[[]|e|p] [q' m']]; [|discriminate E..].
  destruct H as (-> & _ & _ & _ & Hu & _). exists m'. split; [reflexivity|exact Hu].
Defined.

Lemma pop_address_overflow_witness :
  let q := set_avail_addr (2 ^ 64 - 2) demo_queue in
  queue_wf q /\ pop demo_ring_mem q = (Panic ArithOverflow, q).
Proof.
  split; [apply (apply_op_wf (SetAvail _) _ demo_queue_wf); vm_compute; by split|].
  apply pop_address_overflow; vm_compute; done.
Defined.

(** A queue registers brought up, used and reset. *)
Lemma queue_invariant_witness :
  queue_wf (reset (pop demo_ring_mem (set_size 4 (new 256))).2).
Proof.
  apply (queue_invariant (M:=GuestMemory)). apply (qr_op Reset); [|done].
  eapply (qr_pop demo_ring_mem); [|apply surjective_pairing].
  apply (qr_op (SetSize 4)); [|vm_compute; by split]. apply qr_new. vm_compute. by split.
Defined.

(** Across the wrap of the index. *)
Lemma avail_slots_cyclic_witness :
  let q := set_progress 65534 0 demo_queue in
  last_avail_idx (Nat.iter 3 advance q) mod 4 = (65534 + 3) mod 4.
Proof.
  apply (avail_slots_cyclic (set_progress 65534 0 demo_queue) 3).
  - apply (apply_op_wf (SetProgress 65534 0) _ demo_queue_wf). vm_compute. by split.
  - done.
Defined.

Lemma demo_chain_typed : bufs_typed (writable demo_chain).
Proof. unfold bufs_typed, fits. repeat (apply Forall_cons; split; [simpl; lia|]). by apply Forall_nil. Qed.

Lemma demo_chain_apart : pairwise_apart (writable demo_chain).
Proof.
  simpl. unfold bufs_apart, disjoint_ranges.
  split; [apply Forall_cons; split; [simpl; lia|]|split; [|done]]; by apply Forall_nil.
Qed.

Lemma write_all_roundtrip_witness :
  exists m', write_all demo_chain [1; 2; 3] demo_ring_mem = (Ok 3, m') /\
    read_buffers m' [(0x5000, 3)] = Ok [1; 2; 3].
Proof.
  pose proof (write_all_roundtrip demo_chain [1; 2; 3] demo_ring_mem demo_ring_mem_wf
    ltac:(repeat constructor; lia) ltac:(by vm_compute)
    demo_chain_typed demo_chain_apart) as H.
  assert (res_ok (write_all demo_chain [1; 2; 3] demo_ring_mem).1 = Some 3) as E
    by (vm_compute; reflexivity).
  destruct (write_all _ _ _) as [[n|e|p] m']; [|discriminate E..]. injection E as ->.
  destruct H as (_ & _ & Hr & _). exists m'. split; [reflexivity|exact Hr].
Defined.
