(* ===== verification/Pic.v ===== *)
(** * The 8259 interrupt controller ([hv2-core/src/interrupt.rs])

    Two cascaded chips.  The source keeps each behind its own lock and never
    holds one across a call; a method is one step on the pair here.  Registers
    are bytes, kept at their width. *)

From S2P Require Import Prelude.

#[local] Arguments Z.testbit _ _ : simpl never.
#[local] Arguments Z.lor _ _ : simpl never.
#[local] Arguments Z.land _ _ : simpl never.

Definition ICW1_INIT : Z := 0x10.
Definition ICW4_AUTO : Z := 0x02.
Definition OCW2_EOI : Z := 0x20.
Definition OCW2_SPECIFIC : Z := 0x40.
Definition MAX_LOST_TICKS : Z := 50.

Inductive InitState := Ready | ExpectingIcw2 | ExpectingIcw3 | ExpectingIcw4.

#[global] Instance InitState_eq_dec : EqDecision InitState.
Proof. solve_decision. Defined.

(** ** One chip *)

Record PicChip := mkChip {
  irr : Z;
  isr : Z;
  imr : Z;
  base_vector : Z;
  auto_eoi : bool;
  init_state : InitState;
  read_isr : bool;
  lost_ticks : Z
}.

Definition chip_new (base : Z) : PicChip := mkChip 0 0 0xFF base false Ready false 0.

Definition set_irr (v : Z) (c : PicChip) : PicChip :=
  mkChip v (isr c) (imr c) (base_vector c) (auto_eoi c) (init_state c) (read_isr c) (lost_ticks c).
Definition set_isr (v : Z) (c : PicChip) : PicChip :=
  mkChip (irr c) v (imr c) (base_vector c) (auto_eoi c) (init_state c) (read_isr c) (lost_ticks c).
Definition set_imr (v : Z) (c : PicChip) : PicChip :=
  mkChip (irr c) (isr c) v (base_vector c) (auto_eoi c) (init_state c) (read_isr c) (lost_ticks c).
Definition set_lost_ticks (v : Z) (c : PicChip) : PicChip :=
  mkChip (irr c) (isr c) (imr c) (base_vector c) (auto_eoi c) (init_state c) (read_isr c) v.
Definition set_read_isr (b : bool) (c : PicChip) : PicChip :=
  mkChip (irr c) (isr c) (imr c) (base_vector c) (auto_eoi c) (init_state c) b (lost_ticks c).

(** [1 << irq] on a byte, and the complement of it. *)
Definition bit (i : Z) : Z := Z.shiftl 1 i.

(** [u8::trailing_zeros], for a byte that is not zero. *)
Definition trailing_zeros (z : Z) : Z := trailing_zeros_from 8 0 z.

Definition raise_timer_irq (c : PicChip) : Result PicChip :=
  if has (irr c) 1 then
    if has (imr c) 1 then mret c
    else n ← add 8 (lost_ticks c) 1; mret (set_lost_ticks (Z.min n MAX_LOST_TICKS) c)
  else mret (set_irr (Z.lor (irr c) 1) c).

Definition chip_raise_irq (i : Z) (c : PicChip) : PicChip :=
  if i <? 8 then set_irr (Z.lor (irr c) (bit i)) c else c.

Definition chip_lower_irq (i : Z) (c : PicChip) : PicChip :=
  if i <? 8 then set_irr (Z.land (irr c) (bnot 8 (bit i))) c else c.

Definition get_pending (c : PicChip) : option Z :=
  let pending := Z.land (Z.land (irr c) (bnot 8 (imr c))) (bnot 8 (isr c)) in
  if pending =? 0 then None else Some (trailing_zeros pending).

Definition acknowledge (i : Z) (c : PicChip) : PicChip :=
  if i <? 8 then
    let c := set_irr (Z.land (irr c) (bnot 8 (bit i))) c in
    let c := if negb (auto_eoi c) then set_isr (Z.lor (isr c) (bit i)) c else c in
    if (i =? 0) && (0 <? lost_ticks c)
    then set_irr (Z.lor (irr c) 1) (set_lost_ticks (lost_ticks c - 1) c)
    else c
  else c.

Definition eoi (i : option Z) (c : PicChip) : PicChip :=
  match i with
  | Some i => if i <? 8 then set_isr (Z.land (isr c) (bnot 8 (bit i))) c else c
  | None =>
      if negb (isr c =? 0)
      then set_isr (Z.land (isr c) (bnot 8 (bit (trailing_zeros (isr c))))) c
      else c
  end.

Definition read_status (c : PicChip) : Z := if read_isr c then isr c else irr c.

(** ** The pair *)

(** [raised] is the wake-up signal, of which at most one is stored; the
    observer is a callback of the machine, [observed] the lines it was told. *)
Record Pic8259 := mkPic {
  master : PicChip;
  slave : PicChip;
  raised : bool;
  observer : bool;
  observed : list Z
}.

Definition pic_new : Pic8259 := mkPic (chip_new 0x20) (chip_new 0x28) false false [].

Definition set_master (c : PicChip) (p : Pic8259) : Pic8259 :=
  mkPic c (slave p) (raised p) (observer p) (observed p).
Definition set_slave (c : PicChip) (p : Pic8259) : Pic8259 :=
  mkPic (master p) c (raised p) (observer p) (observed p).
Definition set_line_observer (p : Pic8259) : Pic8259 :=
  mkPic (master p) (slave p) (raised p) true (observed p).
Definition notify_one (p : Pic8259) : Pic8259 :=
  mkPic (master p) (slave p) true (observer p) (observed p).
Definition observe (i : Z) (p : Pic8259) : Pic8259 :=
  if observer p then mkPic (master p) (slave p) (raised p) true (observed p ++ [i]) else p.

Definition raise_irq_line (i : Z) : ST Pic8259 Error unit :=
  if i <? 8 then
    if i =? 0 then
      c ← st_read (fun p => raise_timer_irq (master p));
      st_modify (set_master c)
    else st_modify (fun p => set_master (chip_raise_irq i (master p)) p)
  else if i <? 16 then
    _ ← st_modify (fun p => set_slave (chip_raise_irq (i - 8) (slave p)) p);
    st_modify (fun p => set_master (chip_raise_irq 2 (master p)) p)
  else st_lift (Err (Device "Invalid IRQ number: {}" [i])).

Definition raise_irq (i : Z) : ST Pic8259 Error unit :=
  _ ← raise_irq_line i;
  _ ← st_modify notify_one;
  st_modify (observe i).

Definition lower_irq (i : Z) : ST Pic8259 Error unit :=
  if i <? 8 then st_modify (fun p => set_master (chip_lower_irq i (master p)) p)
  else if i <? 16 then
    _ ← st_modify (fun p => set_slave (chip_lower_irq (i - 8) (slave p)) p);
    pending ← st_gets (fun p : Pic8259 => get_pending (slave p));
    match pending with
    | None => st_modify (fun p => set_master (chip_lower_irq 2 (master p)) p)
    | Some _ => mret tt
    end
  else st_lift (Err (Device "Invalid IRQ number: {}" [i])).

Definition set_master_mask (m : Z) (p : Pic8259) : Pic8259 := set_master (set_imr m (master p)) p.
Definition set_slave_mask (m : Z) (p : Pic8259) : Pic8259 := set_slave (set_imr m (slave p)) p.

(** [vector >= base && vector < base + 8]: the sum is a byte, and is computed
    only when the first test holds. *)
Definition owns (c : PicChip) (vector : Z) : Result bool :=
  if base_vector c <=? vector
  then e ← add 8 (base_vector c) 8; mret (vector <? e)
  else mret false.

Definition send_eoi (vector : Z) : ST Pic8259 Error unit :=
  st_read (fun p => owns (master p) vector) ≫= fun on_master : bool =>
  if on_master then
    st_modify (fun p => set_master (eoi (Some (vector - base_vector (master p))) (master p)) p)
  else
    st_read (fun p => owns (slave p) vector) ≫= fun on_slave : bool =>
    if on_slave then
      _ ← st_modify (fun p => set_slave (eoi (Some (vector - base_vector (slave p))) (slave p)) p);
      st_modify (fun p => set_master (eoi (Some 2) (master p)) p)
    else st_lift (Err (Device "Invalid interrupt vector for EOI: {:#x}" [vector])).

Definition get_pending_interrupt (p : Pic8259) : Result (option Z) :=
  match get_pending (master p) with
  | Some i =>
      if i =? 2 then
        match get_pending (slave p) with
        | Some j => v ← add 8 (base_vector (slave p)) j; mret (Some v)
        | None => mret None
        end
      else v ← add 8 (base_vector (master p)) i; mret (Some v)
  | None => mret None
  end.

Definition acknowledge_interrupt (vector : Z) : ST Pic8259 Error unit :=
  st_read (fun p => owns (master p) vector) ≫= fun on_master : bool =>
  if on_master then
    st_modify (fun p => set_master (acknowledge (vector - base_vector (master p)) (master p)) p)
  else
    st_read (fun p => owns (slave p) vector) ≫= fun on_slave : bool =>
    if on_slave then
      _ ← st_modify (fun p =>
            set_slave (acknowledge (vector - base_vector (slave p)) (slave p)) p);
      st_modify (fun p => set_master (acknowledge 2 (master p)) p)
    else st_lift (Err (Device "Invalid interrupt vector: {:#x}" [vector])).

(** ** Ports *)

(** ICW1: what both command ports do with it. *)
Definition icw1 (c : PicChip) : PicChip :=
  mkChip 0 0 0xFF (base_vector c) false ExpectingIcw2 (read_isr c) (lost_ticks c).

(** OCW2 with the EOI bit. *)
Definition ocw2_eoi (v : Z) (c : PicChip) : PicChip :=
  if has v OCW2_SPECIFIC then eoi (Some (Z.land v 0x07)) c else eoi None c.

(** OCW3. *)
Definition ocw3 (v : Z) (c : PicChip) : PicChip :=
  if has v 0x02 then set_read_isr (has v 0x01) c else c.

Definition write_master_command (v : Z) (p : Pic8259) : Pic8259 :=
  if has v ICW1_INIT then set_master (icw1 (master p)) p
  else if has v OCW2_EOI then set_master (ocw2_eoi v (master p)) p
  else if has v 0x08 then set_master (ocw3 v (master p)) p
  else p.

Definition write_data (v : Z) (c : PicChip) : PicChip :=
  match init_state c with
  | ExpectingIcw2 => mkChip (irr c) (isr c) (imr c) (Z.land v 0xF8) (auto_eoi c) ExpectingIcw3
                       (read_isr c) (lost_ticks c)
  | ExpectingIcw3 => mkChip (irr c) (isr c) (imr c) (base_vector c) (auto_eoi c) ExpectingIcw4
                       (read_isr c) (lost_ticks c)
  | ExpectingIcw4 => mkChip (irr c) (isr c) (imr c) (base_vector c) (has v ICW4_AUTO) Ready
                       (read_isr c) (lost_ticks c)
  | Ready => set_imr v c
  end.

Definition write_master_data (v : Z) (p : Pic8259) : Pic8259 :=
  set_master (write_data v (master p)) p.

Definition write_slave_command (v : Z) (p : Pic8259) : Pic8259 :=
  if has v ICW1_INIT then set_slave (icw1 (slave p)) p
  else if has v OCW2_EOI then
    let p := set_slave (ocw2_eoi v (slave p)) p in
    set_master (eoi (Some 2) (master p)) p
  else if has v 0x08 then set_slave (ocw3 v (slave p)) p
  else p.

Definition write_slave_data (v : Z) (p : Pic8259) : Pic8259 :=
  set_slave (write_data v (slave p)) p.

Definition read_master_command (p : Pic8259) : Z := read_status (master p).
Definition read_master_data (p : Pic8259) : Z := imr (master p).
Definition read_slave_command (p : Pic8259) : Z := read_status (slave p).
Definition read_slave_data (p : Pic8259) : Z := imr (slave p).

Definition handles_port (port : Z) : bool :=
  (port =? 0x20) || (port =? 0x21) || (port =? 0xA0) || (port =? 0xA1).

Definition read_port_sync (port : Z) (p : Pic8259) : Z :=
  if port =? 0x20 then read_master_command p
  else if port =? 0x21 then read_master_data p
  else if port =? 0xA0 then read_slave_command p
  else if port =? 0xA1 then read_slave_data p
  else 0xFF.

Definition write_port_sync (port v : Z) (p : Pic8259) : Pic8259 :=
  if port =? 0x20 then write_master_command v p
  else if port =? 0x21 then write_master_data v p
  else if port =? 0xA0 then write_slave_command v p
  else if port =? 0xA1 then write_slave_data v p
  else p.

Definition read_port (port : Z) (p : Pic8259) : Result Z :=
  if port =? 0x20 then mret (read_master_command p)
  else if port =? 0x21 then mret (read_master_data p)
  else if port =? 0xA0 then mret (read_slave_command p)
  else if port =? 0xA1 then mret (read_slave_data p)
  else Err (Device "Invalid PIC port: {:#x}" [port]).

Definition write_port (port v : Z) : ST Pic8259 Error unit :=
  if port =? 0x20 then st_modify (write_master_command v)
  else if port =? 0x21 then st_modify (write_master_data v)
  else if port =? 0xA0 then st_modify (write_slave_command v)
  else if port =? 0xA1 then st_modify (write_slave_data v)
  else st_lift (Err (Device "Invalid PIC port: {:#x}" [port])).

(** The handler of [create_io_handler]: [data] is the exit's 32-bit value. *)
Definition io_handler (port : Z) (is_write : bool) (data : Z) : ST Pic8259 Error Z :=
  if is_write then _ ← write_port port (Z.land data 0xFF); mret data
  else st_read (fun p => read_port port p).

(** [Device::read] and [Device::write]. *)
Definition device_read (offset : Z) (len : Z) (p : Pic8259) : Result Z :=
  v ← match read_port offset p with
      | Ok v => Ok v
      | _ => Err (Device "Invalid PIC register offset: {:#x}" [offset])
      end;
  if len =? 0 then Panic IndexOutOfBounds else mret v.

Definition device_write (offset : Z) (data : bytes) : ST Pic8259 Error unit :=
  match data with
  | [] => st_lift (Panic IndexOutOfBounds)
  | v :: _ =>
      if handles_port offset then write_port offset v
      else st_lift (Err (Device "Invalid PIC register offset: {:#x}" [offset]))
  end.

Definition device_reset (p : Pic8259) : Pic8259 :=
  set_slave (chip_new 0x28) (set_master (chip_new 0x20) p).

(** ** Snapshots *)

Definition STATE_VERSION : Z := 1.
Definition CHIP_STATE_LEN : Z := 7.

Definition encode_init (s : InitState) : Z :=
  match s with Ready => 0 | ExpectingIcw2 => 1 | ExpectingIcw3 => 2 | ExpectingIcw4 => 3 end.

Definition encode_chip (c : PicChip) : bytes :=
  [irr c; isr c; imr c; base_vector c; Z.b2z (auto_eoi c); encode_init (init_state c);
   Z.b2z (read_isr c)].

Definition export_state (p : Pic8259) : bytes :=
  [STATE_VERSION] ++ encode_chip (master p) ++ encode_chip (slave p).

Definition decode_init (b : Z) : Result InitState :=
  if b =? 0 then mret Ready
  else if b =? 1 then mret ExpectingIcw2
  else if b =? 2 then mret ExpectingIcw3
  else if b =? 3 then mret ExpectingIcw4
  else Err (Device "PIC init state {other} is unknown" [b]).

Definition decode_chip (raw : bytes) : Result PicChip :=
  match raw with
  | [b0; b1; b2; b3; b4; b5; b6] =>
      s ← decode_init b5;
      mret (mkChip b0 b1 b2 b3 (negb (b4 =? 0)) s (negb (b6 =? 0)) 0)
  | _ => Panic IndexOutOfBounds
  end.

Definition import_state (bs : bytes) : ST Pic8259 Error unit :=
  if negb (Z.of_nat (length bs) =? 1 + 2 * CHIP_STATE_LEN)
     || negb (default 0 (bs !! 0%nat) =? STATE_VERSION)
  then st_lift (Err (Device
         "PIC state is {} bytes, version {:?}; this reads {} bytes, version {}"
         (Z.of_nat (length bs) :: option_list (bs !! 0%nat)
            ++ [1 + 2 * CHIP_STATE_LEN; STATE_VERSION])))
  else
    m ← st_lift (decode_chip (slice bs 1 CHIP_STATE_LEN));
    s ← st_lift (decode_chip (slice bs (1 + CHIP_STATE_LEN) CHIP_STATE_LEN));
    _ ← st_modify (set_master m);
    _ ← st_modify (set_slave s);
    st_modify notify_one.

(** ** Well-formed chips *)

Record chip_wf (c : PicChip) : Prop := {
  cw_irr : fits 8 (irr c);
  cw_isr : fits 8 (isr c);
  cw_imr : fits 8 (imr c);
  cw_base : fits 8 (base_vector c);
  cw_ticks : 0 <= lost_ticks c <= MAX_LOST_TICKS
}.

Definition pic_wf (p : Pic8259) : Prop := chip_wf (master p) /\ chip_wf (slave p).

Lemma bit_fits i : 0 <= i < 8 -> fits 8 (bit i).
Proof.
  intros. unfold bit, fits. rewrite Z.shiftl_mul_pow2, Z.mul_1_l by lia.
  split; [apply Z.pow_nonneg; lia|apply Z.pow_lt_mono_r; lia].
Qed.

Lemma byte_set z i : fits 8 z -> 0 <= i < 8 -> fits 8 (Z.lor z (bit i)).
Proof. intros. apply fits_lor; [lia|done|by apply bit_fits]. Qed.

Lemma byte_clear z i : fits 8 z -> 0 <= i < 8 -> fits 8 (Z.land z (bnot 8 (bit i))).
Proof. intros. apply fits_land; [done|]. by apply fits_bnot, bit_fits. Qed.

Lemma testbit_set z i j : 0 <= i -> Z.testbit (Z.lor z (bit i)) j = Z.testbit z j || (i =? j).
Proof. intros. unfold bit. by rewrite Z.lor_spec, testbit_shift1. Qed.

Lemma testbit_clear z i j :
  0 <= i < 8 -> 0 <= j < 8 ->
  Z.testbit (Z.land z (bnot 8 (bit i))) j = Z.testbit z j && negb (i =? j).
Proof.
  intros. rewrite Z.land_spec, testbit_bnot by (done || by apply bit_fits).
  unfold bit. by rewrite testbit_shift1 by lia.
Qed.

Lemma trailing_zeros_spec z :
  fits 8 z -> z <> 0 ->
  0 <= trailing_zeros z < 8 /\ Z.testbit z (trailing_zeros z) = true /\
  (forall j, 0 <= j < trailing_zeros z -> Z.testbit z j = false).
Proof.
  exact (first_bit 8 z).
Qed.

(** ** Priority *)

(** Line [i] of a chip asks for service and may have it. *)
Definition asking (c : PicChip) (i : Z) : bool :=
  Z.testbit (irr c) i && negb (Z.testbit (imr c) i) && negb (Z.testbit (isr c) i).

(** The line a chip would deliver. *)
Definition best (c : PicChip) (i : Z) : Prop :=
  0 <= i < 8 /\ asking c i = true /\ forall j, 0 <= j < i -> asking c j = false.

Definition quiet (c : PicChip) : Prop := forall i, 0 <= i < 8 -> asking c i = false.

Lemma best_unique c i j : best c i -> best c j -> i = j.
Proof.
  intros (? & Hi & Hi') (? & Hj & Hj'). destruct (Z.lt_trichotomy i j) as [Hl|[?|Hl]]; [|done|].
  - rewrite Hj' in Hi by lia. done.
  - rewrite Hi' in Hj by lia. done.
Qed.

Lemma get_pending_spec c :
  chip_wf c -> match get_pending c with Some i => best c i | None => quiet c end.
Proof.
  intros []. unfold get_pending. set (z := Z.land _ _).
  assert (fits 8 z) as Hz.
  { apply fits_land; [apply fits_land; [done|]|]; by apply fits_bnot. }
  assert (forall i, 0 <= i < 8 -> Z.testbit z i = asking c i) as Hb.
  { intros i ?. unfold z, asking. rewrite !Z.land_spec, !testbit_bnot by done. done. }
  destruct (Z.eqb_spec z 0) as [E|E].
  - intros i ?. rewrite <- Hb, E by done. apply Z.bits_0.
  - destruct (trailing_zeros_spec z Hz E) as (Hr & Ht & Hlow). split; [done|].
    split; [by rewrite <- Hb|]. intros j ?. rewrite <- Hb by lia. by apply Hlow.
Qed.

Lemma get_pending_best c i : chip_wf c -> best c i -> get_pending c = Some i.
Proof.
  intros Hc Hi. pose proof (get_pending_spec c Hc) as Hp. destruct (get_pending c) as [j|].
  - f_equal. by eapply best_unique.
  - destruct Hi as (? & Ha & _). rewrite Hp in Ha by done. done.
Qed.

Lemma get_pending_quiet c : chip_wf c -> quiet c -> get_pending c = None.
Proof.
  intros Hc Hq. pose proof (get_pending_spec c Hc) as Hp. destruct (get_pending c) as [j|]; [|done].
  destruct Hp as (? & Ha & _). rewrite Hq in Ha by done. done.
Qed.

(** ** The invariant *)

(** Everything a guest, a device or a snapshot can do to the controller. *)
Inductive pic_op :=
| Raise (i : Z) | Lower (i : Z) | MasterMask (v : Z) | SlaveMask (v : Z)
| Eoi (v : Z) | Ack (v : Z) | PortWrite (port v : Z) | Import (bs : bytes) | DeviceReset.

Definition run_op (o : pic_op) : ST Pic8259 Error unit :=
  match o with
  | Raise i => raise_irq i
  | Lower i => lower_irq i
  | MasterMask v => st_modify (set_master_mask v)
  | SlaveMask v => st_modify (set_slave_mask v)
  | Eoi v => send_eoi v
  | Ack v => acknowledge_interrupt v
  | PortWrite port v => write_port port v
  | Import bs => import_state bs
  | DeviceReset => st_modify device_reset
  end.

(** The operands are bytes, as the signatures have them. *)
Definition op_typed (o : pic_op) : Prop :=
  match o with
  | Raise v | Lower v | MasterMask v | SlaveMask v | Eoi v | Ack v => fits 8 v
  | PortWrite port v => fits 16 port /\ fits 8 v
  | Import bs => Forall is_byte bs
  | DeviceReset => True
  end.

Lemma chip_new_wf b : fits 8 b -> chip_wf (chip_new b).
Proof. intros. by split. Qed.

Lemma set_irr_wf v c : chip_wf c -> fits 8 v -> chip_wf (set_irr v c).
Proof. intros [] ?. by split. Qed.
Lemma set_isr_wf v c : chip_wf c -> fits 8 v -> chip_wf (set_isr v c).
Proof. intros [] ?. by split. Qed.
Lemma set_imr_wf v c : chip_wf c -> fits 8 v -> chip_wf (set_imr v c).
Proof. intros [] ?. by split. Qed.

Lemma chip_raise_wf i c : chip_wf c -> 0 <= i -> chip_wf (chip_raise_irq i c).
Proof.
  intros Hc ?. unfold chip_raise_irq. destruct (Z.ltb_spec i 8); [|done].
  apply set_irr_wf; [done|]. apply byte_set; [apply Hc|lia].
Qed.

Lemma chip_lower_wf i c : chip_wf c -> 0 <= i -> chip_wf (chip_lower_irq i c).
Proof.
  intros Hc ?. unfold chip_lower_irq. destruct (Z.ltb_spec i 8); [|done].
  apply set_irr_wf; [done|]. apply byte_clear; [apply Hc|lia].
Qed.

Lemma raise_timer_wf c :
  chip_wf c -> exists c', raise_timer_irq c = Ok c' /\ chip_wf c'.
Proof.
  intros [? ? ? ? Ht]. unfold raise_timer_irq, MAX_LOST_TICKS in *. destruct (has (irr c) 1).
  - destruct (has (imr c) 1); [by eexists|].
    rewrite add_ok by lia. simpl. eexists. split; [done|]. split; simpl; try done.
    unfold MAX_LOST_TICKS. lia.
  - eexists. split; [done|]. split; simpl; try done. by apply (byte_set _ 0).
Qed.

Lemma acknowledge_wf i c : chip_wf c -> 0 <= i -> chip_wf (acknowledge i c).
Proof.
  intros Hc Hi. unfold acknowledge. destruct (Z.ltb_spec i 8); [|done].
  set (c1 := set_irr _ c). assert (chip_wf c1) as H1 by (apply set_irr_wf, byte_clear; done || apply Hc || lia).
  set (c2 := if negb (auto_eoi c1) then _ else c1).
  assert (chip_wf c2) as H2.
  { unfold c2. destruct (negb _); [|done]. apply set_isr_wf; [done|]. apply byte_set; [apply H1|lia]. }
  destruct ((i =? 0) && (0 <? lost_ticks c2)) eqn:E; [|done]. bool_to_prop.
  destruct H2. split; simpl; try done; [by apply (byte_set _ 0)|lia].
Qed.

Lemma eoi_wf i c : chip_wf c -> (forall j, i = Some j -> 0 <= j) -> chip_wf (eoi i c).
Proof.
  intros Hc Hi. destruct i as [i|]; simpl.
  - destruct (Z.ltb_spec i 8); [|done]. apply set_isr_wf; [done|]. apply byte_clear; [apply Hc|].
    pose proof (Hi i eq_refl). lia.
  - destruct (Z.eqb_spec (isr c) 0); simpl; [done|]. apply set_isr_wf; [done|].
    apply byte_clear; [apply Hc|]. by apply trailing_zeros_spec; [apply Hc|].
Qed.

Lemma icw1_wf c : chip_wf c -> chip_wf (icw1 c).
Proof. intros []. by split. Qed.

Lemma ocw2_wf v c : chip_wf c -> 0 <= v -> chip_wf (ocw2_eoi v c).
Proof.
  intros Hc ?. unfold ocw2_eoi. destruct (has _ _); apply eoi_wf; try done.
  intros j [= <-]. apply Z.land_nonneg. by left.
Qed.

Lemma ocw3_wf v c : chip_wf c -> chip_wf (ocw3 v c).
Proof. intros []. unfold ocw3. by destruct (has v 2). Qed.

Lemma write_data_wf v c : chip_wf c -> fits 8 v -> chip_wf (write_data v c).
Proof.
  intros [] Hv. unfold write_data. destruct (init_state c); split; simpl; try done.
  by apply fits_land.
Qed.

Create HintDb pic.
#[export] Hint Resolve chip_new_wf set_irr_wf set_isr_wf set_imr_wf chip_raise_wf chip_lower_wf
  acknowledge_wf icw1_wf ocw2_wf ocw3_wf write_data_wf : pic.

Lemma decode_init_total b : is_panic (decode_init b) = false.
Proof. unfold decode_init. repeat (destruct (_ =? _); [done|]). done. Qed.

Lemma decode_chip_spec raw :
  length raw = 7%nat -> Forall is_byte raw ->
  match decode_chip raw with Ok c => chip_wf c | Err _ => True | Panic _ => False end.
Proof.
  intros Hl Hb. do 7 (destruct raw as [|? raw]; [done|]). destruct raw; [|done]. simpl.
  do 6 (apply Forall_cons in Hb as [? Hb]). pose proof (decode_init_total z4).
  destruct (decode_init z4); simpl; [|done..]. by split.
Qed.

Lemma owns_spec c v :
  chip_wf c ->
  match owns c v with
  | Ok b => b = (base_vector c <=? v) && (v <? base_vector c + 8)
  | Err _ => False
  | Panic _ => 248 <= base_vector c
  end.
Proof.
  intros [? ? ? [? ?] ?]. unfold owns. destruct (Z.leb_spec (base_vector c) v); [|done].
  unfold add. destruct (Z.ltb_spec (base_vector c + 8) (2 ^ 8)); simpl; [done|lia].
Qed.

Definition vectors_fit (p : Pic8259) : Prop :=
  base_vector (master p) < 248 /\ base_vector (slave p) < 248.

(** One step of the controller: it stays well formed, and it cannot panic
    while both vector bases leave room for eight vectors. *)
Definition step_ok (m : ST Pic8259 Error unit) : Prop :=
  forall p r p', pic_wf p -> m p = (r, p') ->
    pic_wf p' /\ (vectors_fit p -> is_panic r = false).

Lemma modify_ok f : (forall p, pic_wf p -> pic_wf (f p)) -> step_ok (st_modify f).
Proof. intros Hf p r p' Hp [= <- <-]. auto. Qed.

Lemma set_master_ok f :
  (forall c, chip_wf c -> chip_wf (f c)) -> step_ok (st_modify (fun p => set_master (f (master p)) p)).
Proof. intros Hf. apply modify_ok. intros p []. split; simpl; auto. Qed.

Lemma set_slave_ok f :
  (forall c, chip_wf c -> chip_wf (f c)) -> step_ok (st_modify (fun p => set_slave (f (slave p)) p)).
Proof. intros Hf. apply modify_ok. intros p []. split; simpl; auto. Qed.

Lemma lift_err_ok e : step_ok (st_lift (Err e)).
Proof. by intros p r p' Hp [= <- <-]. Qed.

(** Both chips through a change of their own. *)
Lemma both_ok f g :
  (forall c, chip_wf c -> chip_wf (f c)) -> (forall c, chip_wf c -> chip_wf (g c)) ->
  step_ok (_ ← st_modify (fun p => set_slave (f (slave p)) p);
           st_modify (fun p => set_master (g (master p)) p)).
Proof.
  intros Hf Hg p r p' [] E. rewrite st_bind_modify in E. injection E as <- <-.
  split; [split; simpl; auto|done].
Qed.

Lemma bind_ok (m k : ST Pic8259 Error unit) :
  step_ok m -> step_ok k ->
  (forall p p', m p = (Ok tt, p') -> base_vector (master p') = base_vector (master p) /\
     base_vector (slave p') = base_vector (slave p)) ->
  step_ok (_ ← m; k).
Proof.
  intros Hm Hk Hb p r p' Hp E. rewrite st_bind_eq in E.
  destruct (m p) as [r1 p1] eqn:E1. destruct (Hm p r1 p1 Hp E1) as [Hp1 Hn1].
  destruct r1 as [[]|e|x]; [|injection E as <- <-; auto..].
  destruct (Hk p1 r p' Hp1 E) as [? Hn]. split; [done|]. intros [].
  destruct (Hb p p1 E1) as [E2 E3]. apply Hn. unfold vectors_fit. by rewrite E2, E3.
Qed.

Lemma raise_irq_line_ok i : 0 <= i -> step_ok (raise_irq_line i).
Proof.
  intros Hi. unfold raise_irq_line. destruct (Z.ltb_spec i 8).
  - destruct (i =? 0); [|apply set_master_ok; auto with pic].
    intros p r p' [Hm Hs] E. destruct (raise_timer_wf _ Hm) as (c' & Hc & ?).
    rewrite st_bind_read, Hc in E. injection E as <- <-. by split; [split|].
  - destruct (Z.ltb_spec i 16); [|apply lift_err_ok].
    apply both_ok; intros; apply chip_raise_wf; try done; lia.
Qed.

Lemma notify_ok i : step_ok (_ ← st_modify notify_one; st_modify (observe i)).
Proof.
  intros p r p' [] E. rewrite st_bind_modify in E. injection E as <- <-. unfold observe. simpl.
  destruct (observer p); (split; [by split|done]).
Qed.

Lemma raise_irq_ok i : 0 <= i -> step_ok (raise_irq i).
Proof.
  intros Hi. apply bind_ok; [by apply raise_irq_line_ok|apply notify_ok|].
  intros p p'. unfold raise_irq_line, chip_raise_irq. destruct (Z.ltb_spec i 8).
  - destruct (i =? 0); [|by intros [= <-]]. rewrite st_bind_read. unfold raise_timer_irq.
    destruct (has (irr (master p)) 1), (has (imr (master p)) 1); try (by intros [= <-]).
    destruct (add _ _ _); simpl; by intros [= <-].
  - destruct (Z.ltb_spec i 16); [|done]. rewrite st_bind_modify. intros [= <-]. simpl.
    by destruct (i - 8 <? 8).
Qed.

(** Raising an existing line always succeeds. *)
Lemma raise_irq_total i p :
  0 <= i < 16 -> pic_wf p -> exists p', raise_irq i p = (Ok tt, p') /\ pic_wf p'.
Proof.
  intros Hi Hp. destruct (raise_irq i p) as [r p'] eqn:E.
  destruct (raise_irq_ok i ltac:(lia) p r p' Hp E) as [Hp' _]. exists p'. split; [|done]. f_equal.
  revert E. unfold raise_irq, raise_irq_line. rewrite st_bind_eq. destruct (Z.ltb_spec i 8).
  - destruct (i =? 0); [|by intros [= <- _]].
    destruct (raise_timer_wf (master p) (proj1 Hp)) as (c & Ec & _). rewrite st_bind_read, Ec.
    by intros [= <- _].
  - destruct (Z.ltb_spec i 16); [|lia]. rewrite st_bind_modify. by intros [= <- _].
Qed.

Lemma lower_irq_ok i : 0 <= i -> step_ok (lower_irq i).
Proof.
  intros Hi. unfold lower_irq. destruct (Z.ltb_spec i 8).
  - apply set_master_ok. auto with pic.
  - destruct (Z.ltb_spec i 16); [|apply lift_err_ok].
    intros p r p' [Hm Hs] E. rewrite st_bind_modify, st_bind_gets in E.
    assert (chip_wf (chip_lower_irq (i - 8) (slave p))) by (apply chip_lower_wf; [done|lia]).
    destruct (get_pending _); injection E as <- <-; split; try done; split; simpl; auto with pic.
    apply chip_lower_wf; [done|lia].
Qed.

(** The two routes an operation on a vector takes. *)
Lemma by_vector_ok v f g k e :
  (forall b c, fits 8 b -> b <= v -> chip_wf c -> chip_wf (f (v - b) c)) ->
  (forall b c, fits 8 b -> b <= v -> chip_wf c -> chip_wf (g (v - b) c)) ->
  (forall c, chip_wf c -> chip_wf (k c)) ->
  step_ok (st_read (fun p => owns (master p) v) ≫= fun on_master : bool =>
    if on_master then
      st_modify (fun p => set_master (f (v - base_vector (master p)) (master p)) p)
    else
      st_read (fun p => owns (slave p) v) ≫= fun on_slave : bool =>
      if on_slave then
        _ ← st_modify (fun p => set_slave (g (v - base_vector (slave p)) (slave p)) p);
        st_modify (fun p => set_master (k (master p)) p)
      else st_lift (Err e)).
Proof.
  intros Hf Hg Hk p r p' [Hm Hs] E. rewrite st_bind_read in E.
  pose proof (owns_spec (master p) v Hm) as Ho. destruct (owns (master p) v) as [b|?|x]; [|done|].
  2:{ injection E as <- <-. split; [done|]. intros [? ?]. lia. }
  destruct b.
  { symmetry in Ho. bool_to_prop. injection E as <- <-. split; [|done]. split; simpl; [|done].
    apply Hf; [apply Hm|done|done]. }
  rewrite st_bind_read in E. pose proof (owns_spec (slave p) v Hs) as Ho2.
  destruct (owns (slave p) v) as [b|?|x]; [|done|].
  2:{ injection E as <- <-. split; [done|]. intros [? ?]. lia. }
  destruct b; [|by injection E as <- <-].
  symmetry in Ho2. bool_to_prop. rewrite st_bind_modify in E. injection E as <- <-.
  split; [|done]. split; simpl; [by apply Hk|]. apply Hg; [apply Hs|done|done].
Qed.

Lemma send_eoi_ok v : step_ok (send_eoi v).
Proof.
  apply (by_vector_ok v (fun i => eoi (Some i)) (fun i => eoi (Some i)) (eoi (Some 2))).
  3: intros; apply eoi_wf; [done|intros j [= <-]; lia].
  all: intros b c ? ? ?; apply eoi_wf; [done|intros j [= <-]; lia].
Qed.

Lemma acknowledge_interrupt_ok v : step_ok (acknowledge_interrupt v).
Proof.
  apply (by_vector_ok v acknowledge acknowledge (acknowledge 2)).
  3: intros; apply acknowledge_wf; [done|lia].
  all: intros b c ? ? ?; apply acknowledge_wf; [done|lia].
Qed.

Lemma write_port_ok port v : fits 8 v -> step_ok (write_port port v).
Proof.
  intros Hv. assert (0 <= v) by (unfold fits in Hv; lia). unfold write_port.
  repeat (destruct (_ =? _); [apply modify_ok; intros p [Hm Hs]|]); [..|apply lift_err_ok].
  - unfold write_master_command.
    repeat (destruct (has _ _); [split; simpl; auto with pic|]). done.
  - split; simpl; auto with pic.
  - unfold write_slave_command. destruct (has v ICW1_INIT); [split; simpl; auto with pic|].
    destruct (has v OCW2_EOI).
    { split; [apply (eoi_wf (Some 2)); [done|intros j [= <-]; lia]|simpl; auto with pic]. }
    destruct (has v 8); split; simpl; auto with pic.
  - split; simpl; auto with pic.
Qed.

Lemma import_state_ok bs : Forall is_byte bs -> step_ok (import_state bs).
Proof.
  intros Hb. unfold import_state. destruct (_ || _) eqn:Eg; [apply lift_err_ok|].
  apply orb_false_iff in Eg as [El _]. apply negb_false_iff, Z.eqb_eq in El. unfold CHIP_STATE_LEN in *.
  intros p r p' Hp E. rewrite st_bind_lift in E.
  assert (forall off, 0 <= off -> off + 7 <= 15 ->
    length (slice bs off 7) = 7%nat /\ Forall is_byte (slice bs off 7)) as Hs.
  { intros off ? ?. split; [apply Nat2Z.inj; rewrite length_slice by lia; done|].
    unfold slice. auto using Forall_take, Forall_drop. }
  destruct (Hs 1) as [H1 H2]; [lia..|]. destruct (Hs (1 + 7)) as [H3 H4]; [lia..|].
  pose proof (decode_chip_spec _ H1 H2) as Hm. pose proof (decode_chip_spec _ H3 H4) as Hsl.
  destruct (decode_chip (slice bs 1 7)) as [m|?|?]; [|by injection E as <- <-|done].
  rewrite st_bind_lift in E.
  destruct (decode_chip (slice bs (1 + 7) 7)) as [s|?|?]; [|by injection E as <- <-|done].
  rewrite !st_bind_modify in E. injection E as <- <-. by split.
Qed.

(** Whatever the guest, the devices and a snapshot do to the controller, its
    registers stay bytes and its tick count in range; and no operation panics
    as long as both vector bases are below 0xF8. *)
Theorem pic_invariant o p r p' :
  pic_wf p -> op_typed o -> run_op o p = (r, p') ->
  pic_wf p' /\ (vectors_fit p -> is_panic r = false).
Proof.
  intros Hp Ho E. assert (step_ok (run_op o)) as Hok; [|by apply (Hok p r p')].
  destruct o; simpl in *.
  - apply raise_irq_ok, Ho.
  - apply lower_irq_ok, Ho.
  - by apply (set_master_ok (set_imr v)); auto with pic.
  - by apply (set_slave_ok (set_imr v)); auto with pic.
  - apply send_eoi_ok.
  - apply acknowledge_interrupt_ok.
  - apply write_port_ok, Ho.
  - by apply import_state_ok.
  - apply modify_ok. intros q _. split; by apply chip_new_wf.
Qed.

(** ** Delivery *)

(** The vector the pair would deliver, as a specification: the master's best
    line, or through the cascade line the slave's. *)
Inductive delivers (p : Pic8259) : Z -> Prop :=
| del_master i : i <> 2 -> best (master p) i -> delivers p (base_vector (master p) + i)
| del_slave j : best (master p) 2 -> best (slave p) j -> delivers p (base_vector (slave p) + j).

Lemma get_pending_interrupt_spec p :
  pic_wf p -> vectors_fit p ->
  match get_pending_interrupt p with
  | Ok (Some v) => delivers p v
  | Ok None => quiet (master p) \/ (best (master p) 2 /\ quiet (slave p))
  | _ => False
  end.
Proof.
  intros [Hm Hs] [? ?]. unfold get_pending_interrupt.
  pose proof (get_pending_spec _ Hm) as Hpm. pose proof (get_pending_spec _ Hs) as Hps.
  destruct (get_pending (master p)) as [i|]; [|by left].
  assert (0 <= i < 8) by apply Hpm. destruct (Z.eqb_spec i 2) as [->|].
  - destruct (get_pending (slave p)) as [j|]; [|by right].
    assert (0 <= j < 8) by apply Hps. rewrite add_ok by lia. by apply del_slave.
  - rewrite add_ok by lia. by apply del_master.
Qed.

(** The vectors of the two chips do not overlap, and an EOI is required. *)
Record programmed (p : Pic8259) : Prop := {
  pr_fit : vectors_fit p;
  pr_apart : base_vector (master p) + 8 <= base_vector (slave p) \/
             base_vector (slave p) + 8 <= base_vector (master p);
  pr_eoi : auto_eoi (master p) = false /\ auto_eoi (slave p) = false
}.

Lemma owns_eq c v :
  chip_wf c -> base_vector c < 248 ->
  owns c v = Ok ((base_vector c <=? v) && (v <? base_vector c + 8)).
Proof.
  intros Hc ?. pose proof (owns_spec c v Hc) as Ho. destruct (owns c v); [by subst|done|lia].
Qed.

(** Which chip a vector belongs to. *)
Lemma vector_route p i :
  pic_wf p -> programmed p -> 0 <= i < 8 ->
  owns (master p) (base_vector (master p) + i) = Ok true /\
  owns (master p) (base_vector (slave p) + i) = Ok false /\
  owns (slave p) (base_vector (slave p) + i) = Ok true.
Proof.
  intros [Hm Hs] [[? ?] ? _] ?. rewrite !owns_eq by done.
  assert (forall b, ((b <=? b + i) && (b + i <? b + 8)) = true) as Hb.
  { intros b. apply andb_true_iff. split; [apply Z.leb_le|apply Z.ltb_lt]; lia. }
  rewrite !Hb. split_and!; try done. f_equal. apply andb_false_iff.
  destruct (Z.leb_spec (base_vector (master p)) (base_vector (slave p) + i)); [right|by left].
  apply Z.ltb_ge. lia.
Qed.

(** Acknowledging an asking line puts it in service, and an EOI takes it out
    again: the in-service register is back where it was. *)
Lemma acknowledge_isr i c :
  0 <= i < 8 -> auto_eoi c = false -> isr (acknowledge i c) = Z.lor (isr c) (bit i).
Proof.
  intros Hi Ha. unfold acknowledge. destruct (Z.ltb_spec i 8); [|lia]. simpl. rewrite Ha. simpl.
  by destruct (_ && _).
Qed.

Lemma acknowledge_eoi_isr i c :
  chip_wf c -> 0 <= i < 8 -> auto_eoi c = false -> Z.testbit (isr c) i = false ->
  isr (eoi (Some i) (acknowledge i c)) = isr c.
Proof.
  intros Hc Hi Ha Hb. simpl. destruct (Z.ltb_spec i 8); [|lia]. simpl. rewrite acknowledge_isr by done.
  apply (fits_eq 8); [|apply Hc|lia|].
  - apply byte_clear; [|done]. apply byte_set; [apply Hc|done].
  - intros j Hj. rewrite testbit_clear, testbit_set by (done || lia).
    destruct (Z.eqb_spec i j) as [<-|]; [by rewrite Hb|]. by rewrite orb_false_r, andb_true_r.
Qed.

(** A line in service does not ask. *)
Lemma acknowledged_not_best i c :
  0 <= i < 8 -> auto_eoi c = false -> ~ best (acknowledge i c) i.
Proof.
  intros Hi Ha (_ & Hask & _). unfold asking in Hask. rewrite acknowledge_isr in Hask by done.
  rewrite testbit_set, Z.eqb_refl, orb_true_r, andb_false_r in Hask by lia. done.
Qed.

Lemma acknowledge_base i c : base_vector (acknowledge i c) = base_vector c.
Proof. unfold acknowledge. destruct (i <? 8); [|done]. simpl. by destruct (auto_eoi c), (_ && _). Qed.

Lemma eoi_base i c : base_vector (eoi i c) = base_vector c.
Proof. unfold eoi. destruct i; [by destruct (_ <? _)|by destruct (negb _)]. Qed.

Lemma asking_not_in_service c i : asking c i = true -> Z.testbit (isr c) i = false.
Proof. unfold asking. intros [_ H]%andb_true_iff. by apply negb_true_iff. Qed.

(** A chip's half of an interrupt cycle on vector [v]. *)
Definition ack_pic (v : Z) (p : Pic8259) : Pic8259 := (acknowledge_interrupt v p).2.

Lemma ack_master p i :
  pic_wf p -> programmed p -> 0 <= i < 8 ->
  acknowledge_interrupt (base_vector (master p) + i) p
  = (Ok tt, set_master (acknowledge i (master p)) p).
Proof.
  intros Hp Hr Hi. destruct (vector_route p i Hp Hr Hi) as (E & _ & _).
  unfold acknowledge_interrupt. rewrite st_bind_read, E. unfold st_modify.
  by replace (base_vector (master p) + i - base_vector (master p)) with i by lia.
Qed.

Lemma ack_slave p j :
  pic_wf p -> programmed p -> 0 <= j < 8 ->
  acknowledge_interrupt (base_vector (slave p) + j) p
  = (Ok tt, set_master (acknowledge 2 (master p)) (set_slave (acknowledge j (slave p)) p)).
Proof.
  intros Hp Hr Hi. destruct (vector_route p j Hp Hr Hi) as (_ & E1 & E2).
  unfold acknowledge_interrupt. rewrite st_bind_read, E1, st_bind_read, E2, st_bind_modify.
  unfold st_modify. simpl. by replace (base_vector (slave p) + j - base_vector (slave p)) with j by lia.
Qed.

Lemma eoi_master p i :
  pic_wf p -> programmed p -> 0 <= i < 8 ->
  send_eoi (base_vector (master p) + i) p = (Ok tt, set_master (eoi (Some i) (master p)) p).
Proof.
  intros Hp Hr Hi. destruct (vector_route p i Hp Hr Hi) as (E & _ & _).
  unfold send_eoi. rewrite st_bind_read, E. unfold st_modify.
  by replace (base_vector (master p) + i - base_vector (master p)) with i by lia.
Qed.

Lemma eoi_slave p j :
  pic_wf p -> programmed p -> 0 <= j < 8 ->
  send_eoi (base_vector (slave p) + j) p
  = (Ok tt, set_master (eoi (Some 2) (master p)) (set_slave (eoi (Some j) (slave p)) p)).
Proof.
  intros Hp Hr Hi. destruct (vector_route p j Hp Hr Hi) as (_ & E1 & E2).
  unfold send_eoi. rewrite st_bind_read, E1, st_bind_read, E2, st_bind_modify.
  unfold st_modify. simpl. by replace (base_vector (slave p) + j - base_vector (slave p)) with j by lia.
Qed.

Lemma acknowledge_auto i c : auto_eoi (acknowledge i c) = auto_eoi c.
Proof. unfold acknowledge. destruct (i <? 8); [|done]. simpl. by destruct (auto_eoi c) eqn:E; destruct (_ && _). Qed.

Lemma programmed_ack p i j :
  programmed p ->
  programmed (set_master (acknowledge i (master p)) p) /\
  programmed (set_master (acknowledge i (master p)) (set_slave (acknowledge j (slave p)) p)).
Proof.
  intros [[? ?] ? [? ?]].
  split; split; unfold vectors_fit; simpl; rewrite ?acknowledge_base, ?acknowledge_auto; done.
Qed.

(** C10: The cycle of one interrupt, on chips whose vectors fit in a byte and do not
    overlap, without automatic EOI.  The vector the controller reports is that of
    the line with the highest priority among those requested, unmasked and not
    in service; acknowledging it succeeds and stops it being reported; its EOI
    succeeds and puts the in-service registers back where they were. *)
Theorem interrupt_cycle p v :
  pic_wf p -> programmed p -> get_pending_interrupt p = Ok (Some v) ->
  delivers p v /\
  exists p1 p2, acknowledge_interrupt v p = (Ok tt, p1) /\ ~ delivers p1 v /\
    send_eoi v p1 = (Ok tt, p2) /\
    isr (master p2) = isr (master p) /\ isr (slave p2) = isr (slave p).
Proof.
  intros Hp Hr E. pose proof (get_pending_interrupt_spec p Hp (pr_fit p Hr)) as Hd.
  rewrite E in Hd. split; [done|]. pose proof Hp as [Hm Hs]. pose proof (pr_eoi p Hr) as [Ha1 Ha2].
  destruct Hd as [i Hi Hb|j Hb2 Hb].
  - pose proof (proj1 Hb) as Hi8. destruct (programmed_ack p i 0 Hr) as [Hr1 _].
    assert (pic_wf (set_master (acknowledge i (master p)) p)) as Hp1
      by (split; simpl; [apply acknowledge_wf; done || lia|done]).
    pose proof (eoi_master _ i Hp1 Hr1 Hi8) as He.
    cbn [master slave set_master] in He. rewrite acknowledge_base in He.
    eexists _, _. split; [by apply ack_master|]. split; [|split; [exact He|]].
    + intros Hdel. inversion Hdel as [k _ Hk Ek|k _ Hk Ek]; simpl in Ek; rewrite ?acknowledge_base in Ek.
      * assert (k = i) as -> by lia. by apply (acknowledged_not_best i (master p)).
      * destruct (pr_apart p Hr), Hk as (? & _); lia.
    + split; [|done]. apply acknowledge_eoi_isr; try done. apply asking_not_in_service, Hb.
  - pose proof (proj1 Hb) as Hj8. destruct (programmed_ack p 2 j Hr) as [_ Hr1].
    set (p1 := set_master _ (set_slave _ p)) in Hr1.
    assert (pic_wf p1) as Hp1 by (split; simpl; apply acknowledge_wf; done || lia).
    pose proof (eoi_slave p1 j Hp1 Hr1 Hj8) as He.
    cbn [p1 master slave set_master set_slave] in He. rewrite acknowledge_base in He.
    exists p1. eexists. split; [by apply ack_slave|]. split; [|split; [exact He|]].
    + intros Hdel. inversion Hdel as [k Hk2 Hk Ek|k Hk2 Hk Ek]; simpl in Ek; rewrite ?acknowledge_base in Ek.
      * destruct (pr_apart p Hr), Hk as (? & _); lia.
      * by apply (acknowledged_not_best 2 (master p)) in Hk2.
    + split; [apply (acknowledge_eoi_isr 2)|apply (acknowledge_eoi_isr j)]; try done;
        apply asking_not_in_service; [apply Hb2|apply Hb].
Qed.

(** ** Timer ticks *)

(** Ticks the guest is still to receive on line 0. *)
Definition ticks (c : PicChip) : Z := Z.b2z (Z.testbit (irr c) 0) + lost_ticks c.

(** A tick of the interval timer, or the delivery of one to the guest. *)
Inductive timer_event := Tick | Deliver.

Definition timer_step (e : timer_event) (c : PicChip) : Result PicChip :=
  match e with
  | Tick => raise_timer_irq c
  | Deliver => mret (if Z.testbit (irr c) 0 then acknowledge 0 c else c)
  end.

Fixpoint timer_run (es : list timer_event) (c : PicChip) : Result PicChip :=
  match es with [] => mret c | e :: es' => c' ← timer_step e c; timer_run es' c' end.

(** What the line promises: a counter that saturates. *)
Definition count_step (n : Z) (e : timer_event) : Z :=
  match e with Tick => Z.min (n + 1) (MAX_LOST_TICKS + 1) | Deliver => Z.max (n - 1) 0 end.

(** The line is unmasked, and a waiting tick has the request bit up. *)
Record timer_open (c : PicChip) : Prop := {
  to_wf : chip_wf c;
  to_mask : Z.testbit (imr c) 0 = false;
  to_up : lost_ticks c = 0 \/ Z.testbit (irr c) 0 = true
}.

Lemma timer_tick c :
  timer_open c -> exists c', raise_timer_irq c = Ok c' /\ timer_open c' /\
    ticks c' = count_step (ticks c) Tick.
Proof.
  intros [Hc Hm Hu]. pose proof (cw_ticks c Hc) as Ht. unfold raise_timer_irq.
  change (has (irr c) 1) with (has (irr c) (Z.shiftl 1 0)).
  change (has (imr c) 1) with (has (imr c) (Z.shiftl 1 0)). rewrite !has_bit, Hm by lia.
  destruct (raise_timer_wf c Hc) as (c' & Ec & Hc'). unfold raise_timer_irq in Ec.
  change (has (irr c) 1) with (has (irr c) (Z.shiftl 1 0)) in Ec.
  change (has (imr c) 1) with (has (imr c) (Z.shiftl 1 0)) in Ec. rewrite !has_bit, Hm in Ec by lia.
  exists c'. split; [done|]. unfold ticks, count_step, MAX_LOST_TICKS in *.
  destruct (Z.testbit (irr c) 0) eqn:Ei.
  - rewrite add_ok in Ec by lia. injection Ec as <-. unfold MAX_LOST_TICKS in *.
    cbn [irr lost_ticks set_lost_ticks] in *. rewrite Ei.
    split; [split; [done|done|by right]|]. unfold Z.b2z. lia.
  - injection Ec as <-. cbn [irr lost_ticks set_irr] in *.
    assert (Z.testbit (Z.lor (irr c) 1) 0 = true) as Eb.
    { change 1 with (bit 0). by rewrite testbit_set, Z.eqb_refl, orb_true_r by lia. }
    rewrite Eb. destruct Hu as [Hu|]; [|congruence].
    split; [split; [done|done|by right]|]. unfold Z.b2z. lia.
Qed.

Lemma timer_deliver c :
  timer_open c -> exists c', timer_step Deliver c = Ok c' /\ timer_open c' /\
    ticks c' = count_step (ticks c) Deliver.
Proof.
  intros [Hc Hm Hu]. pose proof (cw_ticks c Hc) as Ht. unfold timer_step. eexists. split; [done|].
  unfold ticks at 2, count_step. destruct (Z.testbit (irr c) 0) eqn:Ei.
  2:{ destruct Hu as [Hu|]; [|congruence]. split; [by split; [..|left]|].
      unfold ticks. rewrite Ei, Hu. done. }
  pose proof (acknowledge_wf 0 c Hc ltac:(lia)) as Hc'.
  assert (imr (acknowledge 0 c) = imr c) as Him.
  { unfold acknowledge. simpl. by destruct (auto_eoi c); destruct (0 <? _). }
  assert (forall b, Z.testbit (Z.land (irr c) (bnot 8 (bit 0))) 0 = b -> b = false) as Hclr.
  { intros b <-. rewrite testbit_clear by lia. by rewrite andb_false_r. }
  assert ((lost_ticks (acknowledge 0 c) = Z.max (lost_ticks c - 1) 0) /\
          Z.testbit (irr (acknowledge 0 c)) 0 = (0 <? lost_ticks c)) as [Hl Hb].
  { unfold acknowledge. simpl.
    destruct (auto_eoi c); simpl; destruct (Z.ltb_spec 0 (lost_ticks c)); simpl;
      (split; [lia|]); try (by eapply Hclr);
      change 1 with (bit 0); by rewrite testbit_set, Z.eqb_refl, orb_true_r by lia. }
  split.
  - split; [done|by rewrite Him|]. rewrite Hl, Hb.
    destruct (Z.ltb_spec 0 (lost_ticks c)); [by right|left; lia].
  - unfold ticks. rewrite Hl, Hb. simpl. destruct (Z.ltb_spec 0 (lost_ticks c)); simpl; lia.
Qed.

(** The timer line keeps count: through any sequence of ticks and deliveries
    the ticks still owed to the guest are those of a counter that saturates at
    fifty-one, and a delivery is possible exactly while the counter is not
    zero.  No tick below the limit is lost and none is invented. *)
Theorem timer_refines_counter es c :
  timer_open c ->
  exists c', timer_run es c = Ok c' /\ timer_open c' /\
    ticks c' = fold_left count_step es (ticks c) /\
    (Z.testbit (irr c') 0 = true <-> 0 < ticks c').
Proof.
  revert c. induction es as [|e es IH]; intros c Hc; simpl.
  - exists c. split_and!; try done. destruct Hc as [Hc _ Hu]. pose proof (cw_ticks c Hc).
    unfold ticks. destruct (Z.testbit (irr c) 0); simpl; [split; [lia|done]|].
    destruct Hu as [Hu|]; [|congruence]. split; [done|lia].
  - destruct e.
    + destruct (timer_tick c Hc) as (c1 & E & Hc1 & Ht). simpl. rewrite E. simpl.
      destruct (IH c1 Hc1) as (c' & ? & ? & Hf & ?). rewrite Ht in Hf. eauto 6.
    + destruct (timer_deliver c Hc) as (c1 & E & Hc1 & Ht). rewrite E. simpl.
      destruct (IH c1 Hc1) as (c' & ? & ? & Hf & ?). rewrite Ht in Hf. eauto 6.
Qed.

(** ** Snapshots *)

Definition forget_ticks (c : PicChip) : PicChip := set_lost_ticks 0 c.

Lemma decode_encode_chip c : decode_chip (encode_chip c) = Ok (forget_ticks c).
Proof.
  unfold encode_chip, decode_chip, decode_init, forget_ticks, set_lost_ticks, encode_init.
  by destruct (init_state c), (auto_eoi c), (read_isr c).
Qed.

(** Restoring a snapshot gives back every register of both chips, whatever
    the controller held before; what is not saved are the coalesced ticks.  A
    snapshot that is refused changes nothing. *)
Theorem export_import p q :
  (exists q', import_state (export_state p) q = (Ok tt, q') /\
     master q' = forget_ticks (master p) /\ slave q' = forget_ticks (slave p) /\
     raised q' = true) /\
  forall bs e q', import_state bs q = (Err e, q') -> q' = q.
Proof.
  split.
  - unfold import_state, export_state. change (negb _ || negb _) with false. cbv iota.
    assert (forall (x y : bytes), length x = 7%nat -> length y = 7%nat ->
      slice ([STATE_VERSION] ++ x ++ y) 1 7 = x /\ slice ([STATE_VERSION] ++ x ++ y) (1 + 7) 7 = y) as Hs.
    { intros x y Hx Hy. unfold slice. split.
      - rewrite drop_app_length' by done. by rewrite take_app_length' by (rewrite Hx; done).
      - rewrite app_assoc, drop_app_length' by (rewrite length_app, Hx; done).
        apply take_ge. by rewrite Hy. }
    destruct (Hs (encode_chip (master p)) (encode_chip (slave p)) eq_refl eq_refl) as [E1 E2].
    unfold CHIP_STATE_LEN. rewrite st_bind_lift, E1, decode_encode_chip.
    rewrite st_bind_lift, E2, decode_encode_chip. rewrite !st_bind_modify.
    eexists. split; [done|]. done.
  - intros bs e q'. unfold import_state. destruct (_ || _); [by intros [= _ <-]|].
    rewrite st_bind_lift. destruct (decode_chip _); [|by intros [= _ <-]|done].
    rewrite st_bind_lift. destruct (decode_chip _); [|by intros [= _ <-]|done].
    rewrite !st_bind_modify. done.
Qed.

(** ** Where the controller fails its guest *)

(** A guest that programs the highest vector base brings the host down: the
    end of the chip's vectors is computed in a byte. *)
Theorem vector_base_overflow p v :
  248 <= base_vector (master p) <= v ->
  acknowledge_interrupt v p = (Panic ArithOverflow, p) /\ send_eoi v p = (Panic ArithOverflow, p).
Proof.
  intros. assert (owns (master p) v = Panic ArithOverflow) as E.
  { unfold owns, add. rewrite (proj2 (Z.leb_le _ _)) by lia. by rewrite (proj2 (Z.ltb_ge _ _)) by lia. }
  unfold acknowledge_interrupt, send_eoi. by rewrite !st_bind_read, E.
Qed.

Lemma acknowledge_irr_clear i c j :
  0 < i < 8 -> 0 <= j < 8 ->
  Z.testbit (irr (acknowledge i c)) j = Z.testbit (irr c) j && negb (i =? j).
Proof.
  intros Hi Hj. unfold acknowledge. destruct (Z.ltb_spec i 8); [|lia].
  rewrite (proj2 (Z.eqb_neq i 0)) by lia. simpl. rewrite <- testbit_clear by lia.
  by destruct (auto_eoi c).
Qed.

Lemma eoi_irr i c : irr (eoi i c) = irr c.
Proof. unfold eoi. destruct i; [by destruct (_ <? _)|by destruct (negb _)]. Qed.

(** A second slave line is forgotten: while the master is asked by the cascade
    alone, serving one slave line (acknowledge and EOI) clears the cascade
    request, so that another slave line that is still asking is not reported
    any more. *)
Theorem cascade_request_lost p i j :
  pic_wf p -> programmed p -> get_pending_interrupt p = Ok (Some (base_vector (slave p) + i)) ->
  0 <= i < 8 -> 0 < j < 8 -> i <> j -> asking (slave p) j = true ->
  (forall k, 0 <= k < 8 -> k <> 2 -> Z.testbit (irr (master p)) k = false) ->
  exists p1 p2, acknowledge_interrupt (base_vector (slave p) + i) p = (Ok tt, p1) /\
    send_eoi (base_vector (slave p) + i) p1 = (Ok tt, p2) /\
    asking (slave p2) j = true /\ get_pending_interrupt p2 = Ok None.
Proof.
  intros Hp Hr _ Hi Hj Hij Hask Hquiet. pose proof Hp as [Hm Hs].
  destruct (programmed_ack p 2 i Hr) as [_ Hr1].
  set (p1 := set_master _ (set_slave _ p)) in Hr1.
  assert (pic_wf p1) as Hp1 by (split; simpl; apply acknowledge_wf; done || lia).
  pose proof (eoi_slave p1 i Hp1 Hr1 Hi) as He.
  cbn [p1 master slave set_master set_slave] in He. rewrite acknowledge_base in He.
  exists p1. eexists. split; [by apply ack_slave|]. split; [exact He|].
  pose proof (pr_eoi p Hr) as [Ha1 Ha2]. cbn [master slave set_master set_slave p1].
  split.
  - unfold asking in *. apply andb_true_iff in Hask as [[H1 H2]%andb_true_iff H3].
    assert (Z.testbit (isr (slave p)) j = false) as Hj0 by (by apply negb_true_iff).
    assert (imr (eoi (Some i) (acknowledge i (slave p))) = imr (slave p)) as ->.
    { unfold eoi, acknowledge. destruct (i <? 8); [|done]. simpl.
      by destruct (auto_eoi (slave p)), (_ && _). }
    rewrite eoi_irr, H2. rewrite andb_true_r.
    assert (isr (eoi (Some i) (acknowledge i (slave p))) =
            Z.land (Z.lor (isr (slave p)) (bit i)) (bnot 8 (bit i))) as ->.
    { simpl. destruct (Z.ltb_spec i 8); [|lia]. simpl. by rewrite acknowledge_isr. }
    rewrite testbit_clear, testbit_set, Hj0 by lia.
    rewrite (proj2 (Z.eqb_neq i j)) by done. simpl. rewrite andb_true_r.
    destruct (decide (i = 0)) as [->|].
    + unfold acknowledge. simpl. rewrite Ha2. simpl. destruct (0 <? lost_ticks (slave p)); simpl.
      * change 1 with (bit 0). rewrite testbit_set, testbit_clear, H1 by lia.
        by rewrite (proj2 (Z.eqb_neq 0 j)).
      * rewrite testbit_clear, H1 by lia. by rewrite (proj2 (Z.eqb_neq 0 j)).
    + rewrite acknowledge_irr_clear, H1 by lia. by rewrite (proj2 (Z.eqb_neq i j)).
  - unfold get_pending_interrupt. cbn [master set_master].
    rewrite get_pending_quiet; [done|apply eoi_wf; [apply acknowledge_wf; done || lia|intros ? [= <-]; lia]|].
    intros k Hk. unfold asking. rewrite eoi_irr, acknowledge_irr_clear by lia.
    destruct (decide (k = 2)) as [->|]; [by rewrite andb_false_r|]. by rewrite Hquiet.
Qed.

(** ** Witnesses *)

(** The controller as a guest programs it: bases 0x20 and 0x28, all lines
    open, and lines 9 and 10 of the pair raised. *)
Definition demo_port_writes : list (Z * Z) :=
  [(0x20, 0x11); (0x21, 0x20); (0x21, 0x04); (0x21, 0x01); (0xA0, 0x11); (0xA1, 0x28);
   (0xA1, 0x02); (0xA1, 0x01); (0x21, 0); (0xA1, 0)].
Definition demo_pic : Pic8259 :=
  fold_left (fun p w => write_port_sync w.1 w.2 p) demo_port_writes pic_new.
Definition demo_pic2 : Pic8259 := ((_ ← raise_irq 9; raise_irq 10) demo_pic).2.

Lemma chip_wf_dec c :
  (0 <=? irr c) && (irr c <? 256) && (0 <=? isr c) && (isr c <? 256) && (0 <=? imr c)
  && (imr c <? 256) && (0 <=? base_vector c) && (base_vector c <? 256)
  && (0 <=? lost_ticks c) && (lost_ticks c <=? 50) = true -> chip_wf c.
Proof. intros. bool_to_prop. split; unfold fits, MAX_LOST_TICKS; lia. Qed.

Lemma demo_pic2_wf : pic_wf demo_pic2.
Proof. split; apply chip_wf_dec; vm_compute; reflexivity. Qed.

Lemma demo_pic2_programmed : programmed demo_pic2.
Proof. split; [by vm_compute|left; vm_compute; discriminate|by vm_compute]. Qed.

Lemma pic_invariant_witness : pic_wf (run_op (PortWrite 0x20 0x20) demo_pic2).2.
Proof.
  apply (pic_invariant (PortWrite 0x20 0x20) demo_pic2 (run_op (PortWrite 0x20 0x20) demo_pic2).1).
  - exact demo_pic2_wf.
  - vm_compute. repeat split; discriminate || reflexivity.
  - apply surjective_pairing.
Defined.

Lemma interrupt_cycle_witness :
  delivers demo_pic2 0x29 /\ exists p1, acknowledge_interrupt 0x29 demo_pic2 = (Ok tt, p1) /\
    ~ delivers p1 0x29.
Proof.
  destruct (interrupt_cycle demo_pic2 0x29 demo_pic2_wf demo_pic2_programmed
    ltac:(vm_compute; reflexivity)) as (Hd & p1 & p2 & Ha & Hn & _).
  split; [exact Hd|]. exists p1. exact (conj Ha Hn).
Defined.

Lemma demo_timer_open : timer_open (master demo_pic).
Proof. split; [apply chip_wf_dec; vm_compute; reflexivity|vm_compute; reflexivity|by left]. Qed.

(** Three ticks, two deliveries: one is owed. *)
Lemma timer_refines_counter_witness :
  exists c', timer_run [Tick; Tick; Tick; Deliver; Deliver] (master demo_pic) = Ok c' /\ ticks c' = 1.
Proof.
  destruct (timer_refines_counter [Tick; Tick; Tick; Deliver; Deliver] (master demo_pic)
    demo_timer_open) as (c' & E & _ & Ht & _).
  exists c'. split; [exact E|exact Ht].
Defined.

(** The guest's own port writes lead there: ICW2 of 0xF8, one line unmasked,
    one key press. *)
Definition high_pic : Pic8259 :=
  (raise_irq 1 (fold_left (fun p w => write_port_sync w.1 w.2 p)
     [(0x20, 0x11); (0x21, 0xF8); (0x21, 0x04); (0x21, 0x01); (0x21, 0)] pic_new)).2.

Lemma vector_base_overflow_witness :
  get_pending_interrupt high_pic = Ok (Some 0xF9) /\
  acknowledge_interrupt 0xF9 high_pic = (Panic ArithOverflow, high_pic).
Proof.
  split; [vm_compute; reflexivity|].
  apply (vector_base_overflow high_pic 0xF9). vm_compute. split; discriminate.
Defined.

Lemma demo_pic2_cascade_only k :
  0 <= k < 8 -> k <> 2 -> Z.testbit (irr (master demo_pic2)) k = false.
Proof. intros. change (irr (master demo_pic2)) with (bit 2). unfold bit. rewrite testbit_shift1 by lia. by apply Z.eqb_neq. Qed.

Lemma cascade_request_lost_witness :
  exists p1 p2, acknowledge_interrupt 0x29 demo_pic2 = (Ok tt, p1) /\
    send_eoi 0x29 p1 = (Ok tt, p2) /\
    asking (slave p2) 2 = true /\ get_pending_interrupt p2 = Ok None.
Proof.
  apply (cascade_request_lost demo_pic2 1 2).
  - exact demo_pic2_wf.
  - exact demo_pic2_programmed.
  - vm_compute. reflexivity.
  - lia.
  - lia.
  - lia.
  - vm_compute. reflexivity.
  - exact demo_pic2_cascade_only.
Defined.
