(* ===== verification/Pit.v ===== *)
(** * The interval timer ([hv2-core/src/devices/timer.rs])

    Three counters, the registers that program them, the task that steps counter 0
    and raises its interrupt in the [Pic], and the system control port that gates
    counter 2.  A moment is a number of nanoseconds; a register access reads the
    clock once. *)

From S2P Require Import Prelude Pic.

Inductive PitMode :=
| InterruptOnTerminalCount | HardwareRetriggerableOneShot | RateGenerator
| SquareWaveGenerator | SoftwareTriggeredStrobe | HardwareTriggeredStrobe.

#[global] Instance PitMode_eq_dec : EqDecision PitMode.
Proof. solve_decision. Defined.

Definition mode_value (m : PitMode) : Z :=
  match m with
  | InterruptOnTerminalCount => 0 | HardwareRetriggerableOneShot => 1 | RateGenerator => 2
  | SquareWaveGenerator => 3 | SoftwareTriggeredStrobe => 4 | HardwareTriggeredStrobe => 5
  end.

Definition from_u8 (value : Z) : PitMode :=
  match Z.land value 7 with
  | 0 => InterruptOnTerminalCount
  | 1 => HardwareRetriggerableOneShot
  | 2 | 6 => RateGenerator
  | 3 | 7 => SquareWaveGenerator
  | 4 => SoftwareTriggeredStrobe
  | 5 => HardwareTriggeredStrobe
  | _ => RateGenerator
  end.

Definition PIT_HZ : Z := 1193182.

(** In nanoseconds. *)
Definition pit_duration (ticks : Z) : Result Z :=
  m ← mul 64 ticks 1000000000; mret (m / PIT_HZ).

(** ** A channel *)

Record PitChannel := mkChannel {
  reload_value : Z;
  count : Z;
  mode : PitMode;
  bcd_mode : bool;
  rw_mode : Z;
  latch : option Z;
  write_latch : option Z;
  last_update : Z;
  gate : bool;
  output : bool;
  active : bool
}.

Definition channel_new (now : Z) : PitChannel :=
  mkChannel 0 0 RateGenerator false 3 None None now true false true.

Definition set_counter (n : Z) (out : bool) (c : PitChannel) : PitChannel :=
  mkChannel (reload_value c) n (mode c) (bcd_mode c) (rw_mode c) (latch c) (write_latch c) (last_update c) (gate c) out (active c).
Definition set_latch (l : option Z) (c : PitChannel) : PitChannel :=
  mkChannel (reload_value c) (count c) (mode c) (bcd_mode c) (rw_mode c) l (write_latch c) (last_update c) (gate c) (output c) (active c).
Definition set_write_latch (l : option Z) (c : PitChannel) : PitChannel :=
  mkChannel (reload_value c) (count c) (mode c) (bcd_mode c) (rw_mode c) (latch c) l (last_update c) (gate c) (output c) (active c).
Definition set_last_update (t : Z) (c : PitChannel) : PitChannel :=
  mkChannel (reload_value c) (count c) (mode c) (bcd_mode c) (rw_mode c) (latch c) (write_latch c) t (gate c) (output c) (active c).
Definition set_gate (g : bool) (c : PitChannel) : PitChannel :=
  mkChannel (reload_value c) (count c) (mode c) (bcd_mode c) (rw_mode c) (latch c) (write_latch c) (last_update c) g (output c) (active c).

(** A new reload value: counting starts from it. *)
Definition load (v now : Z) (c : PitChannel) : PitChannel :=
  mkChannel v v (mode c) (bcd_mode c) (rw_mode c) (latch c) (write_latch c) now (gate c) false true.
(** A control word. *)
Definition set_control (rw : Z) (m : PitMode) (bcd : bool) (c : PitChannel) : PitChannel :=
  mkChannel (reload_value c) (count c) m bcd rw (latch c) None (last_update c) (gate c) (output c) (active c).

(** The arm of modes 0, 1, 4 and 5. *)
Definition one_shot (ticks : Z) : ST PitChannel Error bool :=
  out ← st_gets output;
  if out : bool then mret false
  else
    n ← st_gets count;
    if n <=? ticks then _ ← st_modify (set_counter 0 true); mret true
    else
      n' ← st_lift (sub n (trunc 16 ticks));
      _ ← st_modify (set_counter n' false);
      mret false.

Definition advance_ticks (ticks : Z) : ST PitChannel Error bool :=
  c ← st_gets id;
  if negb (gate c) || negb (active c) then mret false
  else if ticks =? 0 then mret false
  else
    match mode c with
    | InterruptOnTerminalCount | HardwareRetriggerableOneShot | SoftwareTriggeredStrobe | HardwareTriggeredStrobe =>
        one_shot ticks
    | RateGenerator =>
        if count c <=? ticks then _ ← st_modify (set_counter (reload_value c) (output c)); mret true
        else
          n ← st_lift (sub (count c) (trunc 16 ticks));
          _ ← st_modify (set_counter n (output c));
          mret false
    | SquareWaveGenerator =>
        if count c <=? ticks then
          _ ← st_modify (set_counter (reload_value c) (negb (output c)));
          mret (negb (negb (output c)))
        else
          n ← st_lift (sub (count c) (trunc 16 ticks));
          _ ← st_modify (set_counter n (output c));
          mret false
    end.

(** [as_micros() as u64]. *)
Definition micros (elapsed : Z) : Z := trunc 64 (elapsed / 1000).

Definition advance_by (elapsed : Z) : ST PitChannel Error bool :=
  c ← st_gets id;
  if negb (gate c) || negb (active c) then mret false
  else
    m ← st_lift (mul 64 (micros elapsed) PIT_HZ);
    advance_ticks (m / 1000000).

(** [duration_since] is zero for a moment in the past. *)
Definition update_count (now : Z) : ST PitChannel Error bool :=
  elapsed ← st_gets (fun c => saturating_sub now (last_update c));
  _ ← st_modify (set_last_update now);
  advance_by elapsed.

Definition period_ticks (c : PitChannel) : Z :=
  let reload := if reload_value c =? 0 then 65536 else reload_value c in
  Z.min (Z.max reload (PIT_HZ / 1000)) 65536.

Definition read_count (now : Z) : ST PitChannel Error Z :=
  _ ← update_count now;
  st_gets (fun c => default (count c) (latch c)).

(** ** The device *)

(** [pic] is the controller the device raises its interrupt in; [reprogrammed] the
    permit of the [Notify]. *)
Record TimerDevice := mkTimer {
  channels : list PitChannel;
  interrupt_enabled : bool;
  total_ticks : Z;
  pic : option Pic8259;
  timer_running : bool;
  reprogrammed : bool
}.

Definition timer_new (now : Z) : TimerDevice := mkTimer (replicate 3 (channel_new now)) false 0 None false false.

Definition set_channels (l : list PitChannel) (t : TimerDevice) : TimerDevice :=
  mkTimer l (interrupt_enabled t) (total_ticks t) (pic t) (timer_running t) (reprogrammed t).
Definition count_tick (t : TimerDevice) : TimerDevice :=
  mkTimer (channels t) (interrupt_enabled t) (wrapping_add 64 (total_ticks t) 1) (pic t) (timer_running t) (reprogrammed t).
Definition set_pic_state (p : option Pic8259) (t : TimerDevice) : TimerDevice :=
  mkTimer (channels t) (interrupt_enabled t) (total_ticks t) p (timer_running t) (reprogrammed t).
Definition set_permit (b : bool) (t : TimerDevice) : TimerDevice :=
  mkTimer (channels t) (interrupt_enabled t) (total_ticks t) (pic t) (timer_running t) b.
Definition set_interrupt_enabled (b : bool) (t : TimerDevice) : TimerDevice :=
  mkTimer (channels t) b (total_ticks t) (pic t) (timer_running t) (reprogrammed t).

(** [set_pic] starts the task; a device is given one controller. *)
Definition set_pic (p : Pic8259) (t : TimerDevice) : TimerDevice :=
  mkTimer (channels t) (interrupt_enabled t) (total_ticks t) (Some p) true (reprogrammed t).
Definition stop_timer_task (t : TimerDevice) : TimerDevice :=
  mkTimer (channels t) (interrupt_enabled t) (total_ticks t) (pic t) false (reprogrammed t).

(** A method of one channel; an index out of range panics. *)
Definition with_channel {A} (i : Z) (f : ST PitChannel Error A) : ST TimerDevice Error A := fun t =>
  match channels t !! Z.to_nat i with
  | None => (Panic IndexOutOfBounds, t)
  | Some c => let '(r, c') := f c in (r, set_channels (<[Z.to_nat i := c']> (channels t)) t)
  end.

(** [pic.raise_irq(0)], if there is a controller. *)
Definition raise_irq0 : ST TimerDevice Error unit := fun t =>
  match pic t with
  | None => (Ok tt, t)
  | Some p => let '(r, p') := raise_irq 0 p in (r, set_pic_state (Some p') t)
  end.
(** [let _ = ...]. *)
Definition ignore_err {S A} (f : ST S Error A) : ST S Error unit := fun s =>
  match f s with (Panic p, s') => (Panic p, s') | (_, s') => (Ok tt, s') end.

Definition tick (now : Z) : ST TimerDevice Error unit :=
  fired ← with_channel 0 (update_count now);
  if fired : bool then
    _ ← st_modify count_tick;
    en ← st_gets interrupt_enabled;
    if en : bool then raise_irq0 else mret tt
  else mret tt.

(** *** The task

    Its state is the device and the deadline it sleeps to. *)

(** What it does to the device when the deadline has passed. *)
Definition task_step : ST TimerDevice Error Z :=
  step ← with_channel 0 (st_gets period_ticks);
  fired ← with_channel 0 (advance_ticks step);
  _ ← (if fired : bool then _ ← st_modify count_tick; ignore_err raise_irq0 else mret tt);
  mret step.

(** The deadline has passed. *)
Definition task_due : ST (TimerDevice * Z) Error unit :=
  step ← st_fst task_step;
  d ← st_lift (pit_duration step);
  st_snd (st_modify (fun next => next + d)).

(** A register was written; the permit is taken. *)
Definition task_notified (now : Z) : ST (TimerDevice * Z) Error unit :=
  step ← st_fst (_ ← st_modify (set_permit false); with_channel 0 (st_gets period_ticks));
  d ← st_lift (pit_duration step);
  st_snd (st_modify (fun _ => now + d)).

(** *** Registers *)

Definition read_byte_of (now : Z) : ST PitChannel Error Z :=
  n ← read_count now;
  rw ← st_gets rw_mode;
  match rw with
  | 1 => mret (trunc 8 n)
  | 2 => mret (trunc 8 (Z.shiftr n 8))
  | 3 =>
      w ← st_gets write_latch;
      match w with
      | Some _ => _ ← st_modify (set_write_latch None); mret (trunc 8 (Z.shiftr n 8))
      | None => _ ← st_modify (set_write_latch (Some (trunc 8 (Z.shiftr n 8)))); mret (trunc 8 n)
      end
  | _ => mret 0
  end.

Definition read_register (now offset : Z) : ST TimerDevice Error Z :=
  if offset <=? 2 then with_channel offset (read_byte_of now) else mret 0.

Definition write_data (now byte : Z) (c : PitChannel) : PitChannel :=
  match rw_mode c with
  | 1 => load byte now c
  | 2 => load (trunc 16 (Z.shiftl byte 8)) now c
  | 3 =>
      match write_latch c with
      | Some lsb => set_write_latch None (load (Z.lor lsb (trunc 16 (Z.shiftl byte 8))) now c)
      | None => set_write_latch (Some byte) c
      end
  | _ => c
  end.

Definition latch_count (now : Z) : ST PitChannel Error unit :=
  _ ← update_count now;
  st_modify (fun c => set_latch (Some (count c)) c).

Definition status_byte (c : PitChannel) : Z :=
  Z.lor (Z.lor (trunc 8 (Z.shiftl (rw_mode c) 4)) (Z.shiftl (Z.land (mode_value (mode c)) 7) 1)) (Z.b2z (bcd_mode c)).

(** Read-back of one selected channel. *)
Definition read_back_channel (now : Z) (lc ls : bool) : ST PitChannel Error unit :=
  l ← st_gets latch;
  _ ← (if lc && bool_decide (l = None) then latch_count now else mret tt);
  l' ← st_gets latch;
  if ls && bool_decide (l' = None) then st_modify (fun c => set_latch (Some (status_byte c)) c) else mret tt.

Fixpoint read_back (now byte : Z) (chs : list Z) : ST TimerDevice Error unit :=
  match chs with
  | [] => mret tt
  | ch :: chs' =>
      _ ← (if Z.land (Z.shiftr byte (ch + 1)) 1 =? 0 then mret tt
           else with_channel ch (read_back_channel now (Z.land byte 0x20 =? 0) (Z.land byte 0x10 =? 0)));
      read_back now byte chs'
  end.

Definition write_control (now byte : Z) : ST TimerDevice Error unit :=
  let channel_select := Z.land (Z.shiftr byte 6) 3 in
  if channel_select =? 3 then read_back now byte [0; 1; 2]
  else
    let rw := Z.land (Z.shiftr byte 4) 3 in
    with_channel channel_select
      (if rw =? 0 then latch_count now
       else st_modify (set_control rw (from_u8 (Z.land (Z.shiftr byte 1) 7)) (negb (Z.land byte 1 =? 0)))).

Definition write_register_locked (now offset byte : Z) : ST TimerDevice Error unit :=
  if offset <=? 2 then
    _ ← with_channel offset (st_modify (write_data now byte));
    st_modify count_tick
  else if offset =? 3 then write_control now byte
  else mret tt.

Definition write_register (now offset byte : Z) : ST TimerDevice Error unit :=
  _ ← write_register_locked now offset byte;
  st_modify (set_permit true).

(** An access of several bytes goes to consecutive registers; each byte reads the
    clock. *)
Fixpoint device_read (now : Z -> Z) (offset index : Z) (n : nat) : ST TimerDevice Error bytes :=
  match n with
  | O => mret []
  | S n' =>
      o ← st_lift (add 64 offset index);
      b ← read_register (now index) o;
      bs ← device_read now offset (index + 1) n';
      mret (b :: bs)
  end.

Fixpoint device_write (now : Z -> Z) (offset index : Z) (data : bytes) : ST TimerDevice Error unit :=
  match data with
  | [] => mret tt
  | b :: data' =>
      o ← st_lift (add 64 offset index);
      _ ← write_register (now index) o b;
      device_write now offset (index + 1) data'
  end.

Definition reset (now : Z) (t : TimerDevice) : TimerDevice :=
  mkTimer ((fun _ => channel_new now) <$> channels t) (interrupt_enabled t) 0 (pic t) (timer_running t) (reprogrammed t).

(** ** Saved state *)

Definition STATE_VERSION : Z := 1.
Definition CHANNEL_STATE_LEN : Z := 15.

Definition flag {A} (o : option A) : Z := Z.b2z (bool_decide (is_Some o)).

Definition export_channel (c : PitChannel) : bytes :=
  to_le_bytes 2 (reload_value c) ++ to_le_bytes 2 (count c) ++
  [mode_value (mode c); Z.b2z (bcd_mode c); rw_mode c; flag (latch c)] ++
  to_le_bytes 2 (default 0 (latch c)) ++
  [flag (write_latch c); default 0 (write_latch c); Z.b2z (gate c); Z.b2z (output c); Z.b2z (active c)].

Definition export_state (t : TimerDevice) : bytes := STATE_VERSION :: concat (export_channel <$> channels t).

Definition at_byte (raw : bytes) (i : Z) : Result Z :=
  match raw !! Z.to_nat i with Some b => Ok b | None => Panic IndexOutOfBounds end.
Definition at_u16 (raw : bytes) (i : Z) : Result Z :=
  a ← at_byte raw i; b ← at_byte raw (i + 1); mret (from_le_bytes [a; b]).
Definition at_flag (raw : bytes) (i : Z) : Result bool := b ← at_byte raw i; mret (negb (b =? 0)).

Definition import_channel (now : Z) (raw : bytes) : Result PitChannel :=
  rl ← at_u16 raw 0;
  n ← at_u16 raw 2;
  m ← at_byte raw 4;
  bcd ← at_flag raw 5;
  rw ← at_byte raw 6;
  fl ← at_flag raw 7;
  l ← (if fl : bool then x ← at_u16 raw 8; mret (Some x) else mret None);
  fw ← at_flag raw 10;
  w ← at_byte raw 11;
  g ← at_flag raw 12;
  o ← at_flag raw 13;
  a ← at_flag raw 14;
  mret (mkChannel rl n (from_u8 m) bcd rw l (if fw : bool then Some w else None) now g o a).

(** The channels and the chunks of the bytes, side by side. *)
Fixpoint import_channels (now : Z) (raw : bytes) (chs : list PitChannel) : Result (list PitChannel) :=
  match chs, raw with
  | c :: chs', _ :: _ =>
      c' ← import_channel now (take 15 raw);
      rest ← import_channels now (drop 15 raw) chs';
      mret (c' :: rest)
  | _, _ => mret chs
  end.

Definition import_state (now : Z) (bs : bytes) : ST TimerDevice Error unit :=
  let bad := st_lift (Err (Device "PIT state is {} bytes, version {:?}; this reads {} bytes, version {}" [Z.of_nat (length bs)])) in
  match bs with
  | v :: raw =>
      if negb (Z.of_nat (length bs) =? 1 + 3 * CHANNEL_STATE_LEN) || negb (v =? STATE_VERSION) then bad
      else
        chs ← st_read (fun t => import_channels now raw (channels t));
        _ ← st_modify (set_channels chs);
        st_modify (set_permit true)
  | [] => bad
  end.

(** ** Port 0x61 *)

Record SystemControlPort := mkPort { value : Z; toggle : bool }.
Definition port_new : SystemControlPort := mkPort 0 false.

Definition read_byte (now : Z) : ST (TimerDevice * SystemControlPort) Error Z :=
  v ← st_gets (fun s => Z.land (value s.2) 3);
  out ← st_fst (with_channel 2 (_ ← update_count now; st_gets output));
  tg ← st_gets (fun s => toggle s.2);
  _ ← st_snd (st_modify (fun p => mkPort (value p) (negb (toggle p))));
  let v1 := if out : bool then Z.lor v 0x20 else v in
  mret (if tg : bool then Z.lor v1 0x10 else v1).

Definition write_byte (now byte : Z) : ST (TimerDevice * SystemControlPort) Error unit :=
  _ ← st_snd (st_modify (fun p => mkPort (Z.land byte 3) (toggle p)));
  st_fst (with_channel 2 (_ ← update_count now; st_modify (set_gate (negb (Z.land byte 1 =? 0))))).

Definition port_read (now : Z) (n : nat) : ST (TimerDevice * SystemControlPort) Error bytes :=
  v ← read_byte now; mret (replicate n v).
Definition port_write (now : Z) (data : bytes) : ST (TimerDevice * SystemControlPort) Error unit :=
  match data with b :: _ => write_byte now b | [] => mret tt end.
Definition port_reset (p : SystemControlPort) : SystemControlPort := mkPort 0 (toggle p).

(** ** Counting *)

Record chan_wf (c : PitChannel) : Prop := {
  cw_reload : fits 16 (reload_value c);
  cw_count : 0 <= count c <= period_ticks c;
  cw_fits : count c < 2 ^ 16;
  cw_rw : is_byte (rw_mode c);
  cw_latch : forall n, latch c = Some n -> fits 16 n;
  cw_write : forall b, write_latch c = Some b -> is_byte b
}.

Definition running (c : PitChannel) : bool := gate c && active c.

Definition is_one_shot (m : PitMode) : bool :=
  match m with RateGenerator | SquareWaveGenerator => false | _ => true end.

(** What a number of clock cycles makes of a running channel, and whether it fires. *)
Definition after_ticks (ticks : Z) (c : PitChannel) : bool * PitChannel :=
  if is_one_shot (mode c) && output c then (false, c)
  else if count c <=? ticks then
    match mode c with
    | RateGenerator => (true, set_counter (reload_value c) (output c) c)
    | SquareWaveGenerator => (output c, set_counter (reload_value c) (negb (output c)) c)
    | _ => (true, set_counter 0 true c)
    end
  else (false, set_counter (count c - ticks) (output c) c).

Lemma advance_ticks_eq ticks c :
  fits 16 (count c) -> 0 <= ticks ->
  advance_ticks ticks c =
    if running c && negb (ticks =? 0) then (Ok (after_ticks ticks c).1, (after_ticks ticks c).2) else (Ok false, c).
Proof.
  intros Hc Ht. unfold advance_ticks. rewrite st_bind_gets. unfold id, running.
  destruct (gate c), (active c); cbn [negb orb andb]; try done. destruct (Z.eqb_spec ticks 0); [done|]. cbn [negb].
  assert (count c <= ticks \/ sub (E:=Error) (count c) (trunc 16 ticks) = Ok (count c - ticks)) as Hsub.
  { destruct (Z.leb_spec (count c) ticks); [by left|right]. destruct Hc. unfold trunc, sub. rewrite Z.mod_small by lia.
    by rewrite (proj2 (Z.leb_le _ _)) by lia. }
  unfold after_ticks, one_shot. destruct (mode c) eqn:Em; cbn [is_one_shot andb]; rewrite ?st_bind_gets;
    destruct (output c) eqn:Eo; cbn [negb]; try done; rewrite ?st_bind_gets; destruct (Z.leb_spec (count c) ticks); try done;
    (destruct Hsub as [?| ->]; [lia|]; by rewrite st_bind_lift).
Qed.

(** The clock cycles of an interval, as the code computes them. *)
Definition ticks_of (elapsed : Z) : Z := micros elapsed * PIT_HZ / 1000000.

Lemma update_count_eq now c :
  fits 16 (count c) ->
  update_count now c =
    (let e := saturating_sub now (last_update c) in
     let c1 := set_last_update now c in
     if negb (running c) then (Ok false, c1)
     else if 2 ^ 64 <=? micros e * PIT_HZ then (Panic ArithOverflow, c1)
     else advance_ticks (ticks_of e) c1).
Proof.
  intros Hc. unfold update_count. rewrite st_bind_gets, st_bind_modify. unfold advance_by. rewrite st_bind_gets. cbv zeta. unfold id, running.
  cbn [set_last_update gate active]. destruct (gate c), (active c); cbn [negb orb andb]; try done.
  rewrite st_bind_lift. unfold mul. rewrite Z.ltb_antisym. destruct (2 ^ 64 <=? _); done.
Qed.

Lemma ticks_of_nonneg e : 0 <= ticks_of e.
Proof. unfold ticks_of, micros, trunc. apply Z.div_pos; [|lia]. apply Z.mul_nonneg_nonneg; [|done]. by apply Z.mod_pos_bound. Qed.

(** An update panics exactly when a running channel has not been looked at for
    2^64 / 1193182 microseconds, some 179 days. *)
Lemma update_count_panics now c :
  fits 16 (count c) ->
  is_panic (update_count now c).1 = running c && (2 ^ 64 <=? micros (saturating_sub now (last_update c)) * PIT_HZ).
Proof.
  intros Hc. rewrite update_count_eq by done. cbv zeta. destruct (running c); cbn [negb andb]; [|done]. destruct (2 ^ 64 <=? _); [done|].
  rewrite advance_ticks_eq by (done || apply ticks_of_nonneg). by destruct (_ && _).
Qed.

Lemma period_bounds c : fits 16 (reload_value c) -> reload_value c <= period_ticks c /\ 1193 <= period_ticks c <= 65536.
Proof. unfold period_ticks, fits. change (PIT_HZ / 1000) with 1193. destruct (Z.eqb_spec (reload_value c) 0); lia. Qed.

Lemma after_ticks_wf ticks c : chan_wf c -> 0 <= ticks -> chan_wf (after_ticks ticks c).2.
Proof.
  intros [H1 H2 H3 H4 H5 H6] Ht. unfold after_ticks. destruct (is_one_shot _ && _); [done|].
  destruct (period_bounds c H1) as [Hp Hp'].
  destruct (Z.leb_spec (count c) ticks); [destruct (mode c)|]; split; cbn [snd set_counter reload_value count rw_mode latch write_latch]; try done;
    unfold period_ticks in *; cbn [set_counter reload_value] in *; destruct H1; lia.
Qed.

Lemma set_last_update_wf now c : chan_wf c -> chan_wf (set_last_update now c).
Proof. by intros [H1 H2 H3 H4 H5 H6]. Qed.

Lemma cw_fits16 c : chan_wf c -> fits 16 (count c).
Proof. intros H. split; [apply (cw_count c H)|apply (cw_fits c H)]. Qed.

Lemma advance_ticks_wf ticks c : chan_wf c -> 0 <= ticks -> chan_wf (advance_ticks ticks c).2.
Proof.
  intros Hc Ht. rewrite advance_ticks_eq by (done || by apply cw_fits16). destruct (_ && _); [by apply after_ticks_wf|done].
Qed.

Lemma update_count_wf now c : chan_wf c -> chan_wf (update_count now c).2.
Proof.
  intros Hc. rewrite update_count_eq by by apply cw_fits16. cbv zeta. destruct (negb _); [by apply set_last_update_wf|].
  destruct (2 ^ 64 <=? _); [by apply set_last_update_wf|]. apply advance_ticks_wf; [by apply set_last_update_wf|apply ticks_of_nonneg].
Qed.

(** ** What every operation keeps

    Times are counted from a moment [lo], and all readings of the clock lie within
    [LIFE] of it: 173 days, less than it takes an update to overflow. *)

Definition LIFE : Z := 15000000000000000.

Definition chan_ok (lo : Z) (c : PitChannel) : Prop := chan_wf c /\ lo <= last_update c.

Definition timer_ok (lo : Z) (t : TimerDevice) : Prop :=
  length (channels t) = 3%nat /\ Forall (chan_ok lo) (channels t) /\ forall p, pic t = Some p -> pic_wf p.

Definition in_life (lo now : Z) : Prop := lo <= now <= lo + LIFE.

Lemma short_elapsed e : 0 <= e <= LIFE -> micros e = e / 1000 /\ micros e * PIT_HZ < 2 ^ 64.
Proof.
  intros He. unfold LIFE in He. assert (0 <= e / 1000 <= 15000000000000) as Hd.
  { split; [apply Z.div_pos; lia|]. apply Z.div_le_upper_bound; lia. }
  assert (micros e = e / 1000) as -> by (unfold micros, trunc; apply Z.mod_small; lia).
  split; [done|]. unfold PIT_HZ. lia.
Qed.

Lemma update_last now c : fits 16 (count c) -> last_update (update_count now c).2 = now.
Proof.
  intros Hc. rewrite update_count_eq by done. cbv zeta. destruct (negb _); [done|]. destruct (2 ^ 64 <=? _); [done|].
  rewrite advance_ticks_eq by (done || apply ticks_of_nonneg). destruct (_ && _); [|done]. unfold after_ticks.
  destruct (is_one_shot _ && _); [done|]. destruct (count _ <=? _); [by destruct (mode _)|done].
Qed.

Lemma keeps_update lo now : in_life lo now -> keeps (chan_ok lo) (update_count now).
Proof.
  intros [H1 H2] c [Hc Hl]. split; [split; [by apply update_count_wf|rewrite update_last by (by apply cw_fits16); done]|].
  rewrite update_count_panics by by apply cw_fits16. destruct (running c); [|done]. cbn [andb]. apply Z.leb_gt.
  apply short_elapsed. unfold saturating_sub. lia.
Qed.

Lemma keeps_advance lo ticks : 0 <= ticks -> keeps (chan_ok lo) (advance_ticks ticks).
Proof.
  intros Ht c [Hc Hl]. split; [split; [by apply advance_ticks_wf|]|]; rewrite advance_ticks_eq by (done || by apply cw_fits16);
    destruct (_ && _); try done. cbn [snd]. unfold after_ticks.
  destruct (is_one_shot _ && _); [done|]. destruct (count _ <=? _); [by destruct (mode _)|done].
Qed.

Lemma load_wf v now c : chan_wf c -> fits 16 v -> chan_wf (load v now c).
Proof.
  intros [H1 H2 H3 H4 H5 H6] Hv. split; cbn [load reload_value count rw_mode latch write_latch]; try done; [|apply Hv].
  split; [apply Hv|]. by apply (period_bounds (load v now c)).
Qed.

Lemma write_data_ok lo now b c : in_life lo now -> is_byte b -> chan_ok lo c -> chan_ok lo (write_data now b c).
Proof.
  intros [Hn _] Hb [Hc Hl]. unfold write_data.
  assert (forall v, fits 16 v -> chan_ok lo (load v now c)) as Hload by (intros v Hv; split; [by apply load_wf|done]).
  assert (forall b, is_byte b -> fits 16 (trunc 16 (Z.shiftl b 8))) as Hs.
  { intros b' _. unfold trunc. apply Z.mod_pos_bound. lia. }
  assert (fits 16 b) as Hb16 by (destruct Hb; split; lia).
  destruct (rw_mode c) as [|[[|[]|]|[]|]|]; try done; [|by apply Hload, Hs|by apply Hload].
  destruct (write_latch c) as [lsb|] eqn:El.
  - assert (is_byte lsb) as [? ?] by by eapply cw_write.
    destruct (Hload (Z.lor lsb (trunc 16 (Z.shiftl b 8)))) as [[] ?]; [apply fits_lor; [lia|split; lia|by apply Hs]|].
    by split; [split|].
  - split; [|done]. destruct Hc. by split; try done; intros ? [= <-].
Qed.

Lemma keeps_latch lo now : in_life lo now -> keeps (chan_ok lo) (latch_count now).
Proof.
  intros Hn. apply keeps_bind; [by apply keeps_update|]. intros _. apply keeps_modify. intros c [Hc Hl]. split; [|done].
  pose proof (cw_fits16 c Hc). destruct Hc. by split; try done; intros ? [= <-].
Qed.

Lemma keeps_read_byte lo now : in_life lo now -> keeps (chan_ok lo) (read_byte_of now).
Proof.
  intros Hn. unfold read_byte_of, read_count. apply keeps_bind; [apply keeps_bind; [by apply keeps_update|eauto with keeps]|]. intros n.
  apply keeps_bind; [eauto with keeps|]. intros rw. destruct rw as [|[[|[]|]|[]|]|]; try apply keeps_ret.
  apply keeps_bind; [eauto with keeps|]. intros [w|]; (apply keeps_bind; [apply keeps_modify|eauto with keeps]);
    intros c [[] ?]; split; try done; split; try done. intros ? [= <-]. by apply Z.mod_pos_bound.
Qed.

Lemma status_fits c : chan_wf c -> fits 16 (status_byte c).
Proof.
  intros Hc. unfold status_byte. apply fits_lor; [lia|apply fits_lor; [lia| |]|].
  - unfold trunc. pose proof (Z.mod_pos_bound (Z.shiftl (rw_mode c) 4) (2 ^ 8) ltac:(lia)). split; lia.
  - by destruct (mode c).
  - by destruct (bcd_mode c).
Qed.

Lemma keeps_if {S E A} (P : S -> Prop) (b : bool) (f g : ST S E A) : keeps P f -> keeps P g -> keeps P (if b then f else g).
Proof. by destruct b. Qed.

Lemma keeps_read_back_channel lo now lc ls : in_life lo now -> keeps (chan_ok lo) (read_back_channel now lc ls).
Proof.
  intros Hn. apply keeps_bind; [eauto with keeps|]. intros l. apply keeps_bind; [apply keeps_if; [by apply keeps_latch|eauto with keeps]|].
  intros _. apply keeps_bind; [eauto with keeps|]. intros l'. apply keeps_if; [|eauto with keeps]. apply keeps_modify.
  intros c [Hc Hl]. split; [|done]. pose proof (status_fits c Hc). destruct Hc. by split; try done; intros ? [= <-].
Qed.

Lemma keeps_channel {A} lo i (f : ST PitChannel Error A) : 0 <= i < 3 -> keeps (chan_ok lo) f -> keeps (timer_ok lo) (with_channel i f).
Proof.
  intros Hi Hf t (Hlen & Hch & Hp). unfold with_channel. destruct (channels t !! Z.to_nat i) as [c|] eqn:Ec; [|apply lookup_ge_None in Ec; lia].
  destruct (Hf c) as [Hc' Hr]; [by eapply Forall_lookup|]. destruct (f c) as [r c']. split; [|done]. split_and!; cbn [channels pic set_channels snd].
  - by rewrite length_insert.
  - by apply Forall_insert.
  - done.
Qed.

Lemma keeps_raise lo : keeps (timer_ok lo) raise_irq0.
Proof.
  intros t (Hlen & Hch & Hp). unfold raise_irq0. destruct (pic t) as [p|] eqn:Ep; [|split; [split_and!; [done|done|]|done]; intros q Hq; cbn [snd] in Hq; congruence].
  destruct (raise_irq_total 0 p ltac:(lia) (Hp p eq_refl)) as (p' & -> & Hp'). split; [|done]. split_and!; try done. by intros ? [= <-].
Qed.

Lemma count_tick_ok lo t : timer_ok lo t -> timer_ok lo (count_tick t).
Proof. done. Qed.

Lemma keeps_ignore lo {A} (f : ST TimerDevice Error A) : keeps (timer_ok lo) f -> keeps (timer_ok lo) (ignore_err f).
Proof. intros Hf t Ht. destruct (Hf t Ht) as [Hs Hp]. unfold ignore_err. by destruct (f t) as [[] t']. Qed.

#[local] Hint Resolve keeps_update keeps_latch keeps_read_byte keeps_read_back_channel keeps_channel keeps_raise keeps_ignore keeps_if count_tick_ok : keeps.

Lemma keeps_read lo now offset : in_life lo now -> 0 <= offset -> keeps (timer_ok lo) (read_register now offset).
Proof. intros Hn Ho. unfold read_register. destruct (Z.leb_spec offset 2); [|eauto with keeps]. apply keeps_channel; [lia|eauto with keeps]. Qed.

Lemma keeps_tick lo now : in_life lo now -> keeps (timer_ok lo) (tick now).
Proof. intros Hn. apply keeps_bind; [apply keeps_channel; [lia|eauto with keeps]|]. intros []; eauto 8 with keeps. Qed.

Lemma keeps_read_back lo now byte chs : in_life lo now -> Forall (fun i => 0 <= i < 3) chs -> keeps (timer_ok lo) (read_back now byte chs).
Proof.
  intros Hn. induction 1 as [|ch chs Hch _ IH]; cbn [read_back]; [eauto with keeps|]. apply keeps_bind; [|done].
  apply keeps_if; [eauto with keeps|]. apply keeps_channel; [done|eauto with keeps].
Qed.

Lemma keeps_write lo now offset byte : in_life lo now -> 0 <= offset -> is_byte byte -> keeps (timer_ok lo) (write_register now offset byte).
Proof.
  intros Hn Ho Hb. apply keeps_bind; [|intros _; by apply keeps_modify]. unfold write_register_locked. destruct (Z.leb_spec offset 2).
  { apply keeps_bind; [|eauto with keeps]. apply keeps_channel; [lia|]. apply keeps_modify. intros c. by apply write_data_ok. }
  destruct (offset =? 3); [|eauto with keeps]. unfold write_control.
  assert (forall x, 0 <= Z.land x 3 < 4) as Hl.
  { intros x. change 3 with (Z.ones 2). rewrite Z.land_ones by lia. apply Z.mod_pos_bound. lia. }
  destruct (Z.eqb_spec (Z.land (Z.shiftr byte 6) 3) 3).
  { apply keeps_read_back; [done|]. by repeat constructor. }
  apply keeps_channel; [specialize (Hl (Z.shiftr byte 6)); lia|]. apply keeps_if; [eauto with keeps|]. apply keeps_modify.
  intros c [[] ?]. split; [|done]. specialize (Hl (Z.shiftr byte 4)). split; try done. cbn [set_control rw_mode]. split; lia.
Qed.


Lemma channel_value {A} i (f : PitChannel -> A) t a t' :
  with_channel i (st_gets f) t = (Ok a, t') -> exists c, channels t !! Z.to_nat i = Some c /\ a = f c.
Proof. unfold with_channel. destruct (channels t !! _) as [c|]; [|done]. intros [= <- _]. eauto. Qed.

Lemma keeps_period lo {B} (k : Z -> ST TimerDevice Error B) :
  (forall step, 0 <= step <= 65536 -> keeps (timer_ok lo) (k step)) -> keeps (timer_ok lo) (with_channel 0 (st_gets period_ticks) ≫= k).
Proof.
  intros Hk. apply (keeps_bind_val _ (fun n => 0 <= n <= 65536)); [apply keeps_channel; [lia|eauto with keeps]| |done].
  intros t a t' (_ & Hch & _) (c & Hc & ->)%channel_value. destruct (Forall_lookup_1 _ _ _ _ Hch Hc) as [[] _].
  destruct (period_bounds c); [done|lia].
Qed.

Lemma keeps_step lo : keeps (timer_ok lo) task_step.
Proof.
  apply keeps_period. intros step Hs. apply keeps_bind; [apply keeps_channel; [lia|apply keeps_advance; lia]|]. intros fired.
  apply keeps_bind; [destruct fired; eauto 8 with keeps|eauto with keeps].
Qed.

(** ** The device, the deadline of its task and the port together *)

Abbreviation System := (TimerDevice * Z * SystemControlPort)%type.

Inductive TOp :=
| ORead (now offset : Z) | OWrite (now offset byte : Z) | OTick (now : Z) | OEnable (b : bool)
| ODue | ONotified (now : Z) | OStop | OReset (now : Z)
| OPortRead (now : Z) | OPortWrite (now byte : Z) | OPortReset | OSetPic (p : Pic8259).

Definition on_device {A} (f : ST TimerDevice Error A) : ST System Error unit := _ ← st_fst (st_fst f); mret tt.
Definition on_port {A} (f : ST (TimerDevice * SystemControlPort) Error A) : ST System Error unit := fun '(t, n, p) =>
  match f (t, p) with
  | (Ok _, (t', p')) => (Ok tt, (t', n, p'))
  | (Err e, (t', p')) => (Err e, (t', n, p'))
  | (Panic x, (t', p')) => (Panic x, (t', n, p'))
  end.

Definition apply_top (o : TOp) : ST System Error unit :=
  match o with
  | ORead now off => on_device (read_register now off)
  | OWrite now off b => on_device (write_register now off b)
  | OTick now => on_device (tick now)
  | OEnable b => on_device (st_modify (set_interrupt_enabled b))
  | ODue => st_fst task_due
  | ONotified now => st_fst (task_notified now)
  | OStop => on_device (st_modify stop_timer_task)
  | OReset now => on_device (st_modify (reset now))
  | OPortRead now => on_port (read_byte now)
  | OPortWrite now b => on_port (write_byte now b)
  | OPortReset => st_snd (st_modify port_reset)
  | OSetPic p => on_device (st_modify (set_pic p))
  end.

Definition run_tops (os : list TOp) (s : System) : System := foldl (fun s o => (apply_top o s).2) s os.

(** Arguments of the types the code gives them, and moments within the life. *)
Definition top_ok (lo : Z) (o : TOp) : Prop :=
  match o with
  | ORead now off => in_life lo now /\ 0 <= off
  | OWrite now off b => in_life lo now /\ 0 <= off /\ is_byte b
  | OTick now | ONotified now | OReset now | OPortRead now => in_life lo now
  | OPortWrite now b => in_life lo now /\ is_byte b
  | OEnable _ | ODue | OStop | OPortReset => True
  | OSetPic p => pic_wf p
  end.

Definition sys_ok (lo : Z) (s : System) : Prop := timer_ok lo s.1.1.

Lemma keeps_fst {S T E A} (P : S -> Prop) (f : ST S E A) : keeps P f -> keeps (fun s : S * T => P s.1) (st_fst f).
Proof. intros Hf [s t] Hs. destruct (Hf s Hs) as [H1 H2]. unfold st_fst. by destruct (f s) as [r s']. Qed.

Lemma keeps_snd {S T E A} (P : S -> Prop) (f : ST T E A) : (forall t, is_panic (f t).1 = false) -> keeps (fun s : S * T => P s.1) (st_snd f).
Proof. intros Hf [s t] Hs. specialize (Hf t). unfold st_snd. by destruct (f t) as [r t']. Qed.

Lemma keeps_device lo {A} (f : ST TimerDevice Error A) : keeps (timer_ok lo) f -> keeps (sys_ok lo) (on_device f).
Proof. intros Hf. apply keeps_bind; [|eauto with keeps]. by apply (keeps_fst (fun s : TimerDevice * Z => timer_ok lo s.1)), keeps_fst. Qed.

Lemma keeps_port lo {A} (f : ST (TimerDevice * SystemControlPort) Error A) :
  keeps (fun s => timer_ok lo s.1) f -> keeps (sys_ok lo) (on_port f).
Proof. intros Hf [[t n] p] Ht. destruct (Hf (t, p) Ht) as [H1 H2]. unfold on_port. by destruct (f (t, p)) as [[] [t' p']]. Qed.

Lemma pit_duration_ok step : 0 <= step <= 65536 -> exists d, pit_duration step = Ok d /\ d = step * 1000000000 / PIT_HZ.
Proof. intros Hs. unfold pit_duration, mul. rewrite (proj2 (Z.ltb_lt _ _)) by lia. eexists. split; [reflexivity|done]. Qed.

Lemma step_value lo t a t' : timer_ok lo t -> task_step t = (Ok a, t') -> 0 <= a <= 65536.
Proof.
  intros (Hlen & Hch & _) H. apply st_bind_Ok in H as (step & t1 & H & Hk). apply channel_value in H as (c & Hc & ->).
  apply st_bind_Ok in Hk as (fired & t2 & _ & Hk). apply st_bind_Ok in Hk as (u & t3 & _ & Hk). apply st_ret_Ok in Hk as [-> _].
  destruct (Forall_lookup_1 _ _ _ _ Hch Hc) as [[] _]. destruct (period_bounds c); [done|lia].
Qed.

Lemma keeps_due lo : keeps (fun s => timer_ok lo s.1) task_due.
Proof.
  apply (keeps_bind_val _ (fun n => 0 <= n <= 65536)); [apply keeps_fst, keeps_step| |].
  - intros [t n] a s' Ht. unfold st_fst. destruct (task_step t) as [r t'] eqn:Es. intros [= -> _]. by eapply step_value.
  - intros step Hs. destruct (pit_duration_ok step Hs) as (d & -> & _). apply keeps_bind; [by apply keeps_lift|]. intros d'.
    by apply keeps_snd.
Qed.

Lemma keeps_notified lo now : keeps (fun s => timer_ok lo s.1) (task_notified now).
Proof.
  apply (keeps_bind_val _ (fun n => 0 <= n <= 65536)).
  - apply keeps_fst, keeps_bind; [by apply keeps_modify|]. intros _. apply keeps_channel; [lia|eauto with keeps].
  - intros [t n] a s' Ht. unfold st_fst. rewrite st_bind_modify. destruct (with_channel _ _ _) as [r t'] eqn:Es. intros [= -> _].
    apply channel_value in Es as (c & Hc & ->). destruct Ht as (_ & Hch & _). destruct (Forall_lookup_1 _ _ _ _ Hch Hc) as [[] _].
    destruct (period_bounds c); [done|lia].
  - intros step Hs. destruct (pit_duration_ok step Hs) as (d & -> & _). apply keeps_bind; [by apply keeps_lift|]. intros d'.
    by apply keeps_snd.
Qed.

Lemma channel_new_ok lo now : lo <= now -> chan_ok lo (channel_new now).
Proof. intros. split; [|done]. by split. Qed.

Lemma keeps_top lo o : top_ok lo o -> keeps (sys_ok lo) (apply_top o).
Proof.
  destruct o as [now off|now off b|now|b| |now| |now|now|now b| |p]; cbn [top_ok apply_top]; intros Ho.
  - apply keeps_device, keeps_read; apply Ho.
  - apply keeps_device, keeps_write; apply Ho.
  - by apply keeps_device, keeps_tick.
  - by apply keeps_device, keeps_modify.
  - apply (keeps_fst (fun s : TimerDevice * Z => timer_ok lo s.1)), keeps_due.
  - apply (keeps_fst (fun s : TimerDevice * Z => timer_ok lo s.1)), keeps_notified.
  - by apply keeps_device, keeps_modify.
  - apply keeps_device, keeps_modify. intros t (Hlen & Hch & Hp). split_and!; [by cbn; rewrite length_fmap| |done].
    apply Forall_fmap. apply Forall_true. intros c. apply channel_new_ok, Ho.
  - apply keeps_port. apply keeps_bind; [eauto with keeps|]. intros v. apply keeps_bind; [|intros out].
    { apply keeps_fst, keeps_channel; [lia|]. apply keeps_bind; eauto with keeps. }
    apply keeps_bind; [eauto with keeps|]. intros tg. apply keeps_bind; [by apply keeps_snd|]. eauto with keeps.
  - apply keeps_port. apply keeps_bind; [by apply keeps_snd|]. intros _. apply keeps_fst, keeps_channel; [lia|].
    apply keeps_bind; [apply keeps_update, Ho|]. intros _. by apply keeps_modify; intros c [[] ?].
  - by apply (keeps_snd (fun s : TimerDevice * Z => timer_ok lo s.1)).
  - apply keeps_device, keeps_modify. intros t (Hlen & Hch & Hp). split_and!; [done|done|]. by intros ? [= <-].
Qed.

(** For 173 days of operation the timer never panics: whatever a guest reads and
    writes, whenever the task runs, the channels stay in range and no access
    overflows. *)
Theorem pit_invariant lo os :
  Forall (top_ok lo) os ->
  let s := run_tops os (timer_new lo, lo, port_new) in
  sys_ok lo s /\ forall o, top_ok lo o -> is_panic (apply_top o s).1 = false.
Proof.
  intros Hos s. assert (sys_ok lo s) as Hs; [|split; [done|intros o Ho; by apply (keeps_top lo o Ho)]].
  assert (sys_ok lo (timer_new lo, lo, port_new)) as H0.
  { split_and!; [done| |done]. apply Forall_replicate. by apply channel_new_ok. }
  unfold s, run_tops. clear s. revert H0. generalize (timer_new lo, lo, port_new). induction Hos as [|o os Ho _ IH]; intros s Hs; cbn [foldl]; [done|].
  apply IH. by apply (keeps_top lo o Ho).
Qed.

(** ** The rate of the interrupt *)

(** How often a channel fires in [n] of its periods. *)
Definition fires (m : PitMode) (out : bool) (n : nat) : nat :=
  match m with
  | RateGenerator => n
  | SquareWaveGenerator => Nat.div2 (n + Nat.b2n out)
  | _ => if out then 0 else Nat.min n 1
  end.

Definition raised (n : nat) (p : Pic8259) : Pic8259 := Nat.iter n (fun p => (raise_irq 0 p).2) p.

Lemma task_step_eq t c p :
  channels t !! 0%nat = Some c -> chan_wf c -> running c = true -> pic t = Some p -> pic_wf p ->
  let '(fired, c') := after_ticks (period_ticks c) c in
  task_step t = (Ok (period_ticks c),
    mkTimer (<[0%nat := c']> (channels t)) (interrupt_enabled t)
      (if fired : bool then wrapping_add 64 (total_ticks t) 1 else total_ticks t)
      (Some (if fired : bool then (raise_irq 0 p).2 else p)) (timer_running t) (reprogrammed t)).
Proof.
  intros Hc Hwf Hr Hp Hpw. destruct (period_bounds c (cw_reload c Hwf)) as [_ [Hb _]].
  unfold task_step, with_channel. rewrite st_bind_eq. change (Z.to_nat 0) with 0%nat. rewrite Hc.
  cbn [st_gets]. rewrite st_bind_eq. cbn [set_channels channels]. rewrite list_insert_id by done.
  rewrite Hc, advance_ticks_eq by (by apply cw_fits16 || lia). rewrite Hr. rewrite (proj2 (Z.eqb_neq _ _)) by lia. cbn [andb negb].
  destruct (after_ticks (period_ticks c) c) as [fired c']. cbn [fst snd].
  destruct t as [chs en tot pc run per]. cbn [pic] in Hp. subst pc. cbn [set_channels channels interrupt_enabled total_ticks pic timer_running reprogrammed].
  destruct fired; [|done]. rewrite st_bind_eq, st_bind_modify. unfold ignore_err, raise_irq0.
  cbn [set_channels count_tick pic interrupt_enabled total_ticks channels timer_running reprogrammed].
  destruct (raise_irq_total 0 p ltac:(lia) Hpw) as (p1 & -> & _). done.
Qed.

Fixpoint due_times (n : nat) : ST (TimerDevice * Z) Error unit :=
  match n with O => mret tt | S n' => _ ← task_due; due_times n' end.

(** A whole period makes a well-formed channel fire, or toggle, once. *)
Lemma after_period c :
  chan_wf c ->
  exists c', (after_ticks (period_ticks c) c).2 = c' /\ chan_wf c' /\ running c' = running c /\ mode c' = mode c /\ reload_value c' = reload_value c /\
    output c' = match mode c with RateGenerator => output c | SquareWaveGenerator => negb (output c) | _ => true end /\
    (after_ticks (period_ticks c) c).1 = match mode c with RateGenerator => true | SquareWaveGenerator => output c | _ => negb (output c) end.
Proof.
  intros Hc. pose proof (after_ticks_wf (period_ticks c) c Hc) as Hw. eexists. split; [reflexivity|]. split.
  { apply Hw. destruct (cw_count c Hc). lia. }
  unfold after_ticks. rewrite (proj2 (Z.leb_le _ _)) by apply (cw_count c Hc).
  destruct (mode c) eqn:Em; cbn [is_one_shot andb]; destruct (output c) eqn:Eo; cbn [fst snd set_counter running gate active mode reload_value output negb]; by rewrite ?Em, ?Eo.
Qed.

Lemma fires_S m out n :
  fires m out (S n) = ((if match m with RateGenerator => true | SquareWaveGenerator => out | _ => negb out end then 1 else 0) +
    fires m match m with RateGenerator => out | SquareWaveGenerator => negb out | _ => true end n)%nat.
Proof. destruct m, out; cbn [fires negb Nat.b2n]; rewrite ?Nat.add_0_r; try lia; try done. cbn [Nat.add]. by rewrite Nat.add_1_r. Qed.

(** C25: How often the interrupt is raised: in [n] periods a rate generator raises it [n]
    times, a square wave every other time, and a one-shot once; the deadlines of the
    periods are equally spaced and nothing else of the controller changes. *)
Theorem tick_rate n t next c p :
  channels t !! 0%nat = Some c -> chan_wf c -> running c = true -> pic t = Some p -> pic_wf p -> fits 64 (total_ticks t) ->
  exists t', due_times n (t, next) = (Ok tt, (t', next + Z.of_nat n * (period_ticks c * 1000000000 / PIT_HZ))) /\
    total_ticks t' = wrapping_add 64 (total_ticks t) (Z.of_nat (fires (mode c) (output c) n)) /\
    pic t' = Some (raised (fires (mode c) (output c) n) p).
Proof.
  revert t next c p. induction n as [|n IH]; intros t next c p Hc Hw Hr Hp Hpw Ht.
  { exists t. assert (fires (mode c) (output c) 0 = 0%nat) as -> by (destruct (mode c), (output c); done). cbn [due_times]. split_and!; [|change (Z.of_nat 0) with 0; unfold wrapping_add; by rewrite Z.add_0_r, Z.mod_small by apply Ht|done].
    cbn [mret ST_ret]. do 2 f_equal. lia. }
  pose proof (task_step_eq t c p Hc Hw Hr Hp Hpw) as Hs. destruct (after_period c Hw) as (c' & Ec' & Hw' & Hr' & Hm' & Hrl & Ho' & Hf).
  destruct (after_ticks (period_ticks c) c) as [fired c0]. cbn [fst snd] in *. subst c0.
  destruct (period_bounds c (cw_reload c Hw)) as [_ Hb]. destruct (pit_duration_ok (period_ticks c)) as (d & Hd & Ed); [lia|].
  cbn [due_times]. unfold task_due. rewrite st_bind_eq, st_bind_eq. unfold st_fst. rewrite Hs, st_bind_lift, Hd. cbn [st_snd st_modify].
  set (p1 := if fired then (raise_irq 0 p).2 else p) in *. set (t1 := mkTimer _ _ _ _ _ _) in *.
  assert (pic_wf p1) as Hp1 by (unfold p1; destruct fired; [|done]; destruct (raise_irq_total 0 p ltac:(lia) Hpw) as (? & -> & ?); done).
  destruct (IH t1 (next + d) c' p1) as (t' & Et & Htot & Hpic); [|exact Hw'|congruence|reflexivity|exact Hp1| |].
  { cbn [channels]. apply list_lookup_insert_eq. by eapply lookup_lt_Some. }
  { cbn [total_ticks]. destruct fired; [|done]. apply Z.mod_pos_bound. lia. }
  exists t'. assert (period_ticks c' = period_ticks c) as Hpt by (unfold period_ticks; by rewrite Hrl). split_and!.
  - rewrite Et. do 2 f_equal. rewrite Hpt, <- Ed. lia.
  - rewrite Htot, fires_S, Hm', Ho', <- Hf. unfold t1. cbn [total_ticks]. unfold wrapping_add. destruct fired; [|done].
    rewrite Zplus_mod_idemp_l. f_equal. lia.
  - rewrite Hpic, fires_S, Hm', Ho', <- Hf. unfold p1, raised. destruct fired; [|done]. by rewrite Nat.iter_succ_r.
Qed.

(** ** An interrupt lost to a read of the counter *)

(** A one-shot that has run out. *)
Definition spent (c : PitChannel) : Prop := is_one_shot (mode c) = true /\ output c = true.

Lemma spent_advance ticks c : spent c -> advance_ticks ticks c = (Ok false, c).
Proof.
  intros [Hm Ho]. unfold advance_ticks. rewrite st_bind_gets. unfold id. destruct (_ || _); [done|]. destruct (_ =? _); [done|].
  unfold one_shot. destruct (mode c); try done; by rewrite st_bind_gets, Ho.
Qed.

Lemma spent_update now c : spent c -> exists r, update_count now c = (r, set_last_update now c) /\ r <> Ok true.
Proof.
  intros Hs. unfold update_count. rewrite st_bind_gets, st_bind_modify. unfold advance_by. rewrite st_bind_gets. unfold id.
  destruct (_ || _); [by eexists|]. rewrite st_bind_lift. unfold mul. destruct (_ <? _); [|by eexists].
  rewrite spent_advance by done. by eexists.
Qed.

(** What a computation makes of a channel with some property has it too. *)
Definition preserves {A} (P : PitChannel -> Prop) (f : ST PitChannel Error A) : Prop := forall c, P c -> P (f c).2.

Lemma preserves_bind {A B} P (f : ST PitChannel Error A) (k : A -> ST PitChannel Error B) :
  preserves P f -> (forall a, preserves P (k a)) -> preserves P (f ≫= k).
Proof. intros Hf Hk c Hc. specialize (Hf c Hc). rewrite st_bind_eq. destruct (f c) as [[a|e|p] c']; [by apply Hk|done..]. Qed.
Lemma preserves_ret {A} P (a : A) : preserves P (mret a).
Proof. by intros c Hc. Qed.
Lemma preserves_gets {A} P (f : PitChannel -> A) : preserves P (st_gets f).
Proof. by intros c Hc. Qed.
Lemma preserves_modify P f : (forall c, P c -> P (f c)) -> preserves P (st_modify f).
Proof. intros Hf c Hc. by apply Hf. Qed.
Lemma preserves_if {A} P (b : bool) (f g : ST PitChannel Error A) : preserves P f -> preserves P g -> preserves P (if b then f else g).
Proof. by destruct b. Qed.

(** Reading a byte does no more than update the count and move the byte latch. *)
Lemma read_byte_state (P : PitChannel -> Prop) now c :
  P (update_count now c).2 -> (forall c w, P c -> P (set_write_latch w c)) -> P (read_byte_of now c).2.
Proof.
  intros Hu Hw. unfold read_byte_of, read_count. rewrite st_bind_eq, st_bind_eq. destruct (update_count now c) as [[a|e|p] c1]; [|done..].
  cbn [snd] in Hu. cbn [st_gets]. rewrite st_bind_gets. destruct (rw_mode c1) as [|[[|[]|]|[]|]|]; try done.
  rewrite st_bind_gets. destruct (write_latch c1); rewrite st_bind_modify; by apply Hw.
Qed.

(** Channel [i] has a property, and the device has counted and raised so much. *)
Definition holds_at (i : nat) (P : PitChannel -> Prop) (t : TimerDevice) : Prop := exists c, channels t !! i = Some c /\ P c.

Lemma holds_channel {A} i P j (f : ST PitChannel Error A) t :
  holds_at i P t -> preserves P f -> holds_at i P (with_channel j f t).2.
Proof.
  intros (c & Hc & HP) Hf. unfold with_channel. destruct (channels t !! Z.to_nat j) as [c0|] eqn:E; [|by exists c].
  destruct (f c0) as [r c'] eqn:Ef. unfold holds_at. cbn [snd set_channels channels]. destruct (decide (i = Z.to_nat j)) as [->|Hne].
  - assert (c0 = c) as -> by congruence. exists c'. split; [apply list_lookup_insert_eq; by eapply lookup_lt_Some|].
    specialize (Hf c HP). by rewrite Ef in Hf.
  - exists c. by rewrite list_lookup_insert_ne by done.
Qed.

Lemma with_channel_rest {A} j (f : ST PitChannel Error A) t :
  total_ticks (with_channel j f t).2 = total_ticks t /\ pic (with_channel j f t).2 = pic t.
Proof. unfold with_channel. destruct (_ !! _) as [c|]; [|done]. by destruct (f c). Qed.

Lemma with_channel_result {A} j (f : ST PitChannel Error A) t (Q : Res Error A -> Prop) P i :
  holds_at i P t -> Z.to_nat j = i -> (forall c, P c -> Q (f c).1) -> Q (with_channel j f t).1.
Proof. intros (c & Hc & HP) <- Hf. unfold with_channel. rewrite Hc. specialize (Hf c HP). by destruct (f c). Qed.

Lemma preserves_spent_update now : preserves spent (update_count now).
Proof. intros c Hc. destruct (spent_update now c Hc) as (r & -> & _). exact Hc. Qed.

(** Everything but a write to a register, a reset and a change of the controller. *)
Definition quiet (o : TOp) : bool :=
  match o with OWrite _ _ _ | OReset _ | OSetPic _ => false | _ => true end.

(** The device has a spent channel 0, and [tot] and [pc] of its state. *)
Definition silent (tot : Z) (pc : option Pic8259) (t : TimerDevice) : Prop :=
  holds_at 0 spent t /\ total_ticks t = tot /\ pic t = pc.

Lemma silent_channel {A} tot pc j (f : ST PitChannel Error A) t :
  silent tot pc t -> preserves spent f -> silent tot pc (with_channel j f t).2.
Proof.
  intros (H1 & H2 & H3) Hf. split; [by apply holds_channel|]. by destruct (with_channel_rest j f t) as [-> ->].
Qed.

Lemma silent_tick tot pc now t : silent tot pc t -> silent tot pc (tick now t).2.
Proof.
  intros Ht. unfold tick. rewrite st_bind_eq. pose proof (silent_channel tot pc 0 (update_count now) t Ht (preserves_spent_update now)) as Ht'.
  pose proof (with_channel_result 0 (update_count now) t (fun r => r <> Ok true) spent 0 (proj1 Ht) eq_refl) as Hr.
  destruct (with_channel 0 (update_count now) t) as [[[]|e|p] t']; try done. destruct Hr; [|done].
  intros c Hc. by destruct (spent_update now c Hc) as (r & -> & ?).
Qed.

Lemma silent_step tot pc t : silent tot pc t -> silent tot pc (task_step t).2.
Proof.
  intros Ht. unfold task_step. rewrite st_bind_eq.
  pose proof (silent_channel tot pc 0 (st_gets period_ticks) t Ht (preserves_gets _ _)) as Ht1.
  destruct (with_channel 0 (st_gets period_ticks) t) as [[step|e|p] t1]; try done. cbn [snd] in Ht1. rewrite st_bind_eq.
  assert (preserves spent (advance_ticks step)) as Hp by (intros c Hc; by rewrite spent_advance).
  pose proof (silent_channel tot pc 0 (advance_ticks step) t1 Ht1 Hp) as Ht2.
  pose proof (with_channel_result 0 (advance_ticks step) t1 (fun r => r <> Ok true) spent 0 (proj1 Ht1) eq_refl) as Hr.
  destruct (with_channel 0 (advance_ticks step) t1) as [[[]|e|p] t2]; try done.
  destruct Hr; [|done]. intros c Hc. by rewrite spent_advance.
Qed.

Lemma fst_snd_state {S T A B} (f : ST S Error A) (k : A -> ST (S * T) Error B) s t :
  (forall a x, (k a x).2.1 = x.1) -> ((st_fst f ≫= k) (s, t)).2.1 = (f s).2.
Proof. intros Hk. rewrite st_bind_eq. unfold st_fst. destruct (f s) as [[a|e|p] s']; [|done..]. by rewrite Hk. Qed.

Lemma deadline_keeps (step : Z) (g : Z -> Z -> Z) (x : TimerDevice * Z) :
  ((d ← st_lift (pit_duration step); st_snd (st_modify (g d))) x).2.1 = x.1.
Proof. rewrite st_bind_lift. destruct (pit_duration step); [|done..]. by destruct x. Qed.

Lemma port_device {A} (f : ST (TimerDevice * SystemControlPort) Error A) t n p :
  (on_port f (t, n, p)).2.1.1 = (f (t, p)).2.1.
Proof. unfold on_port. by destruct (f (t, p)) as [[] [t' p']]. Qed.

Lemma on_device_state {A} (f : ST TimerDevice Error A) t n p : (on_device f (t, n, p)).2.1.1 = (f t).2.
Proof. unfold on_device. rewrite st_bind_eq. unfold st_fst. by destruct (f t) as [[] t']. Qed.

Lemma read_byte_device now t p :
  (read_byte now (t, p)).2.1 = (with_channel 2 (_ ← update_count now; st_gets output) t).2.
Proof.
  unfold read_byte. rewrite st_bind_gets. rewrite (fst_snd_state (T:=SystemControlPort)); [done|]. by intros out [t' p'].
Qed.

Lemma write_byte_device now b t p :
  (write_byte now b (t, p)).2.1 = (with_channel 2 (_ ← update_count now; st_modify (set_gate (negb (Z.land b 1 =? 0)))) t).2.
Proof. unfold write_byte. rewrite st_bind_eq. unfold st_snd, st_modify, st_fst. by destruct (with_channel _ _ t). Qed.


Lemma fst_state {S T E A} (f : ST S E A) (s : S) (t : T) : (st_fst f (s, t)).2.1 = (f s).2.
Proof. unfold st_fst. by destruct (f s). Qed.

Lemma due_device t n : (task_due (t, n)).2.1 = (task_step t).2.
Proof. unfold task_due. apply fst_snd_state. intros a x. apply deadline_keeps. Qed.

Lemma notified_device now t n :
  (task_notified now (t, n)).2.1 = (with_channel 0 (st_gets period_ticks) (set_permit false t)).2.
Proof. unfold task_notified. rewrite fst_snd_state; [done|]. intros a x. apply (deadline_keeps a (fun d _ => now + d)). Qed.

Lemma silent_top tot pc o s : quiet o = true -> silent tot pc s.1.1 -> silent tot pc (apply_top o s).2.1.1.
Proof.
  destruct s as [[t n] p]. cbn [fst]. intros Hq Ht. pose proof preserves_spent_update as Hu.
  destruct o as [now off|now off b|now|b| |now| |now|now|now b| |q]; cbn [quiet] in Hq; try done; cbn [apply_top];
    rewrite ?on_device_state, ?port_device, ?fst_state, ?due_device, ?notified_device, ?read_byte_device, ?write_byte_device.
  - unfold read_register. destruct (off <=? 2); [|done]. apply silent_channel; [done|]. intros c Hc. apply read_byte_state; [by apply Hu|done].
  - by apply silent_tick.
  - by apply silent_step.
  - apply silent_channel; [exact Ht|apply preserves_gets].
  - apply silent_channel; [done|]. apply preserves_bind; [done|]. intros; apply preserves_gets.
  - apply silent_channel; [done|]. apply preserves_bind; [done|]. intros; by apply preserves_modify.
Qed.

Lemma silent_run tot pc os s : forallb quiet os = true -> silent tot pc s.1.1 -> silent tot pc (run_tops os s).1.1.
Proof.
  unfold run_tops. revert s. induction os as [|o os IH]; intros s Hq Hs; cbn [foldl]; [done|]. cbn [forallb] in Hq.
  apply andb_true_iff in Hq as [Ho Hq]. apply IH; [done|]. by apply silent_top.
Qed.

(** A one-shot on channel 0 whose count runs out between two looks at it: the next
    period of the task raises its interrupt; but when the guest reads the counter
    first, the interrupt is never raised, whatever else happens until a register is
    written. *)
Theorem oneshot_interrupt_lost t next prt c p now :
  channels t !! 0%nat = Some c -> chan_wf c -> running c = true -> is_one_shot (mode c) = true -> output c = false ->
  pic t = Some p -> pic_wf p -> 0 <= now - last_update c <= LIFE -> 0 < count c <= ticks_of (now - last_update c) ->
  pic (apply_top ODue (t, next, prt)).2.1.1 = Some (raise_irq 0 p).2 /\
  forall os, forallb quiet os = true ->
    let s := run_tops os (apply_top (ORead now 0) (t, next, prt)).2 in pic s.1.1 = Some p /\ total_ticks s.1.1 = total_ticks t.
Proof.
  intros Hc Hw Hr Hm Ho Hp Hpw He Hn. split.
  - cbn [apply_top]. rewrite fst_state, due_device. pose proof (task_step_eq t c p Hc Hw Hr Hp Hpw) as Hs.
    destruct (after_period c Hw) as (c' & _ & _ & _ & _ & _ & _ & Hf). destruct (after_ticks _ c) as [fired c0]. cbn [fst] in Hf.
    rewrite Hs. cbn [snd pic]. rewrite Hf, Ho. by destruct (mode c).
  - intros os Hos s. cut (silent (total_ticks t) (Some p) s.1.1); [by intros (_ & -> & ->)|]. apply silent_run; [done|].
    cbn [apply_top]. rewrite on_device_state. unfold read_register. cbn [Z.leb Z.compare].
    destruct (with_channel_rest 0 (read_byte_of now) t) as [Et Ep]. split_and!; [|done|by rewrite Ep].
    unfold with_channel. change (Z.to_nat 0) with 0%nat. rewrite Hc.
    assert (spent (read_byte_of now c).2) as Hs.
    { apply read_byte_state; [|done]. rewrite update_count_eq by by apply cw_fits16. cbv zeta.
      rewrite Hr. cbn [negb]. destruct (short_elapsed _ He) as [_ Hov].
      assert (saturating_sub now (last_update c) = now - last_update c) as -> by (unfold saturating_sub; lia).
      rewrite (proj2 (Z.leb_gt _ _)) by done. rewrite advance_ticks_eq by (exact (cw_fits16 c Hw) || apply ticks_of_nonneg).
      change (running (set_last_update now c)) with (running c). rewrite Hr, (proj2 (Z.eqb_neq _ _)) by lia. cbn [andb negb].
      unfold after_ticks. cbn [set_last_update mode output count]. rewrite Ho, andb_false_r, (proj2 (Z.leb_le _ _)) by lia.
      unfold spent. by destruct (mode c) eqn:Em; cbn; rewrite ?Em. }
    destruct (read_byte_of now c) as [r c']. exists c'. split; [|done]. cbn [snd set_channels channels]. apply list_lookup_insert_eq. by eapply lookup_lt_Some.
Qed.

(** ** A latched count is never released *)

(** The count of channel [i] is latched anew, or the device is reset. *)
Definition relatches (i : Z) (o : TOp) : bool :=
  match o with
  | OWrite _ off b => (off =? 3) && (Z.land (Z.shiftr b 6) 3 =? i) && (Z.land (Z.shiftr b 4) 3 =? 0)
  | OReset _ => true
  | _ => false
  end.

Definition latched (v : Z) (c : PitChannel) : Prop := latch c = Some v.

Lemma advance_latch ticks c : latch (advance_ticks ticks c).2 = latch c.
Proof.
  unfold advance_ticks. rewrite st_bind_gets. unfold id. destruct (_ || _); [done|]. destruct (_ =? _); [done|]. unfold one_shot.
  destruct (mode c); rewrite ?st_bind_gets; try destruct (output c); rewrite ?st_bind_gets; try done;
    (destruct (_ <=? _); [done|]; rewrite st_bind_lift; by destruct (sub _ _)).
Qed.

Lemma update_latch now c : latch (update_count now c).2 = latch c.
Proof.
  unfold update_count. rewrite st_bind_gets, st_bind_modify. unfold advance_by. rewrite st_bind_gets. destruct (_ || _); [done|].
  rewrite st_bind_lift. destruct (mul _ _ _); [by rewrite advance_latch|done..].
Qed.

Lemma preserves_latched_update v now : preserves (latched v) (update_count now).
Proof. intros c Hc. unfold latched. by rewrite update_latch. Qed.

Lemma preserves_read_back v now lc ls : preserves (latched v) (read_back_channel now lc ls).
Proof.
  intros c Hc. unfold read_back_channel. rewrite st_bind_gets. rewrite (bool_decide_false (latch c = None)) by by rewrite Hc. rewrite andb_false_r.
  rewrite st_bind_eq. cbn [mret ST_ret]. rewrite st_bind_gets, (bool_decide_false (latch c = None)) by by rewrite Hc. by rewrite andb_false_r.
Qed.

Lemma holds_read_back v i now byte chs t : holds_at i (latched v) t -> holds_at i (latched v) (read_back now byte chs t).2.
Proof.
  revert t. induction chs as [|ch chs IH]; intros t Ht; cbn [read_back]; [done|]. rewrite st_bind_eq.
  destruct (_ =? 0); [by apply IH|]. pose proof (holds_channel i _ ch _ t Ht (preserves_read_back v now (Z.land byte 0x20 =? 0) (Z.land byte 0x10 =? 0))) as Ht'.
  destruct (with_channel ch _ t) as [[u|e|p] t']; [by apply IH|done..].
Qed.

Lemma write_data_latch now b c : latch (write_data now b c) = latch c.
Proof. unfold write_data. destruct (rw_mode c) as [|[[|[]|]|[]|]|]; try done. by destruct (write_latch c). Qed.

Lemma holds_write v i now off b t :
  0 <= i < 3 -> relatches i (OWrite now off b) = false -> holds_at (Z.to_nat i) (latched v) t -> holds_at (Z.to_nat i) (latched v) (write_register now off b t).2.
Proof.
  intros Hi Hr Ht. unfold write_register. rewrite st_bind_eq.
  assert (holds_at (Z.to_nat i) (latched v) (write_register_locked now off b t).2) as H;
    [|by destruct (write_register_locked now off b t) as [[] ?]].
  unfold write_register_locked. destruct (Z.leb_spec off 2).
  { rewrite st_bind_eq. assert (preserves (latched v) (st_modify (write_data now b))) as Hp.
    { apply preserves_modify. intros c Hc. unfold latched. by rewrite write_data_latch. }
    pose proof (holds_channel _ _ off _ t Ht Hp) as Ht'. by destruct (with_channel off _ t) as [[] t']. }
  cbn [relatches] in Hr. destruct (off =? 3); [|done]. cbn [andb] in Hr. unfold write_control.
  destruct (_ =? 3); [by apply holds_read_back|]. destruct (Z.eqb_spec (Z.land (Z.shiftr b 6) 3) i) as [->|Hne]; cbn [andb] in Hr.
  - rewrite Hr. apply holds_channel; [done|]. by apply preserves_modify.
  - assert (0 <= Z.land (Z.shiftr b 6) 3) as Hnn by (apply Z.land_nonneg; by right). destruct Ht as (c & Hc & Hl). exists c. split; [|done].
    unfold with_channel. destruct (channels t !! Z.to_nat (Z.land _ 3)) as [c0|]; [|done].
    match goal with |- context [let '(_, _) := ?f c0 in _] => destruct (f c0) end. cbn [snd set_channels channels]. rewrite list_lookup_insert_ne; [done|lia].
Qed.

Lemma tick_channels now t : channels (tick now t).2 = channels (with_channel 0 (update_count now) t).2.
Proof.
  unfold tick. rewrite st_bind_eq. destruct (with_channel 0 _ t) as [[[]|e|p] t']; try done. rewrite st_bind_modify, st_bind_gets.
  destruct (interrupt_enabled _); [|done]. unfold raise_irq0. destruct (pic _); [|done]. by destruct (raise_irq 0 _).
Qed.

Lemma channel_gets {A} j (f : PitChannel -> A) t c :
  channels t !! Z.to_nat j = Some c -> with_channel j (st_gets f) t = (Ok (f c), t).
Proof. intros Hc. unfold with_channel. rewrite Hc. cbn [st_gets]. rewrite list_insert_id by done. by destruct t. Qed.

Lemma step_channels t :
  exists step, channels (task_step t).2 = channels t \/ channels (task_step t).2 = channels (with_channel 0 (advance_ticks step) t).2.
Proof.
  unfold task_step. rewrite st_bind_eq. destruct (channels t !! Z.to_nat 0) as [c|] eqn:Ec.
  - rewrite (channel_gets 0 period_ticks t c Ec). exists (period_ticks c). right. rewrite st_bind_eq.
    destruct (with_channel 0 _ t) as [[[]|e|p] t']; try done. rewrite st_bind_eq, st_bind_modify. unfold ignore_err, raise_irq0.
    destruct (pic _); [|done]. by destruct (raise_irq 0 _) as [[] ?].
  - exists 0. left. unfold with_channel. by rewrite Ec.
Qed.

Lemma latched_top v i o s :
  0 <= i < 3 -> relatches i o = false -> holds_at (Z.to_nat i) (latched v) s.1.1 -> holds_at (Z.to_nat i) (latched v) (apply_top o s).2.1.1.
Proof.
  destruct s as [[t n] p]. cbn [fst]. intros Hi Hq Ht. pose proof (preserves_latched_update v) as Hu.
  destruct o as [now off|now off b|now|b| |now| |now|now|now b| |q]; cbn [apply_top];
    rewrite ?on_device_state, ?port_device, ?fst_state, ?due_device, ?notified_device, ?read_byte_device, ?write_byte_device; try exact Ht; try done.
  - unfold read_register. destruct (off <=? 2); [|done]. apply holds_channel; [done|]. intros c Hc. apply read_byte_state; [by apply Hu|done].
  - by apply holds_write.
  - unfold holds_at. rewrite tick_channels. by apply holds_channel.
  - unfold holds_at. destruct (step_channels t) as [step [->| ->]]; [done|]. apply holds_channel; [done|]. intros c Hc. unfold latched. by rewrite advance_latch.
  - apply holds_channel; [exact Ht|apply preserves_gets].
  - apply holds_channel; [done|]. apply preserves_bind; [done|]. intros; apply preserves_gets.
  - apply holds_channel; [done|]. apply preserves_bind; [done|]. intros; by apply preserves_modify.
Qed.

(** Once the count of a channel has been latched every later read returns that
    value: reading it, counting on, reprogramming the channel and loading a new count
    do not release it.  Only another latch command of the channel or a reset does. *)
Theorem latch_never_released i v os s :
  0 <= i < 3 -> holds_at (Z.to_nat i) (latched v) s.1.1 -> forallb (fun o => negb (relatches i o)) os = true ->
  exists c, channels (run_tops os s).1.1 !! Z.to_nat i = Some c /\ forall now n c', read_count now c = (Ok n, c') -> n = v.
Proof.
  intros Hi Hs Hos. assert (holds_at (Z.to_nat i) (latched v) (run_tops os s).1.1) as (c & Hc & Hl).
  { unfold run_tops. revert s Hs. induction os as [|o os IH]; intros s Hs; cbn [foldl]; [done|]. cbn [forallb] in Hos.
    apply andb_true_iff in Hos as [Ho Hos]. apply IH; [done|]. apply latched_top; [done|by destruct (relatches i o)|done]. }
  exists c. split; [done|]. intros now n c'. unfold read_count. rewrite st_bind_eq. pose proof (update_latch now c) as Hu.
  destruct (update_count now c) as [[a|e|p] c1]; [|done..]. intros [= <- <-]. cbn [snd] in Hu. by rewrite Hu, Hl.
Qed.

(** ** Polling loses time *)

Fixpoint polls (ts : list Z) : ST PitChannel Error unit :=
  match ts with [] => mret tt | t :: ts' => _ ← read_count t; polls ts' end.

(** The intervals between the polls, from a moment on. *)
Fixpoint gaps (t0 : Z) (ts : list Z) : list Z :=
  match ts with [] => [] | t :: ts' => (t - t0) :: gaps t ts' end.
Definition total (l : list Z) : Z := foldr Z.add 0 l.

Lemma ticks_bounds e :
  0 <= e <= LIFE ->
  ticks_of e * 1000000000 <= PIT_HZ * e < (ticks_of e + 1) * 1000000000 + 1000 * PIT_HZ /\ (e < 1000 -> ticks_of e = 0).
Proof.
  intros He. unfold ticks_of. destruct (short_elapsed e He) as [-> _]. unfold PIT_HZ.
  pose proof (Z.div_mod e 1000 ltac:(lia)). pose proof (Z.mod_pos_bound e 1000 ltac:(lia)).
  set (u := e / 1000) in *. pose proof (Z.div_mod (u * 1193182) 1000000 ltac:(lia)). pose proof (Z.mod_pos_bound (u * 1193182) 1000000 ltac:(lia)).
  split; [lia|]. intros Hlt. assert (u = 0) as -> by lia. done.
Qed.

(** One look at a counting channel before its count has run out. *)
Lemma poll_step t c :
  chan_wf c -> running c = true -> is_one_shot (mode c) && output c = false -> 0 <= t - last_update c ->
  PIT_HZ * (t - last_update c) < count c * 1000000000 ->
  exists c', update_count t c = (Ok false, c') /\ chan_wf c' /\ running c' = true /\ is_one_shot (mode c') && output c' = false /\
    last_update c' = t /\ count c' = count c - ticks_of (t - last_update c).
Proof.
  intros Hw Hr Ho He Hn. set (e := t - last_update c) in *. pose proof (cw_fits c Hw) as Hf.
  assert (e <= LIFE) as Hl by (unfold PIT_HZ, LIFE in *; lia). destruct (ticks_bounds e) as [[Hb _] _]; [lia|].
  pose proof (ticks_of_nonneg e) as Hnn. assert (ticks_of e < count c) as Hlt by lia.
  pose proof (update_count_wf t c Hw) as Hw'. pose proof (update_last t c (cw_fits16 c Hw)) as Hl'.
  destruct (short_elapsed e) as [_ Hov]; [lia|].
  assert (exists n, update_count t c = (Ok false, set_counter n (output c) (set_last_update t c)) /\ n = count c - ticks_of e) as (n & Hu & Hne).
  { rewrite update_count_eq by by apply cw_fits16. cbv zeta. rewrite Hr. cbn [negb].
    assert (saturating_sub t (last_update c) = e) as -> by (unfold saturating_sub, e in *; lia). rewrite (proj2 (Z.leb_gt _ _)) by done.
    rewrite advance_ticks_eq by (exact (cw_fits16 c Hw) || done). change (running (set_last_update t c)) with (running c). rewrite Hr. cbn [andb].
    destruct (Z.eqb_spec (ticks_of e) 0) as [E0|]; cbn [negb].
    - exists (count c). split; [by destruct c|lia].
    - exists (count c - ticks_of e). split; [|done]. unfold after_ticks. cbn [set_last_update mode output count]. rewrite Ho.
      by rewrite (proj2 (Z.leb_gt _ _)) by lia. }
  rewrite Hu in Hw', Hl' |- *. eexists. split; [reflexivity|]. by rewrite Hne in *.
Qed.

(** The count a guest sees while it polls a channel: each look rounds down, so the
    count never runs ahead of the clock and falls behind by less than one cycle and one
    microsecond a look.  A guest that looks more often than once a microsecond sees
    a counter that stands still. *)
Theorem poll_drift ts c :
  chan_wf c -> running c = true -> is_one_shot (mode c) && output c = false ->
  Forall (fun g => 0 <= g) (gaps (last_update c) ts) -> PIT_HZ * total (gaps (last_update c) ts) < count c * 1000000000 ->
  exists c' n, polls ts c = (Ok tt, c') /\ count c' = count c - n /\
    n * 1000000000 <= PIT_HZ * total (gaps (last_update c) ts) <=
      (n + Z.of_nat (length ts)) * 1000000000 + Z.of_nat (length ts) * 1000 * PIT_HZ /\
    (Forall (fun g => g < 1000) (gaps (last_update c) ts) -> n = 0).
Proof.
  revert c. induction ts as [|t ts IH]; intros c Hw Hr Ho Hg Hn; cbn [polls gaps] in *.
  { exists c, 0. split_and!; try done; lia. }
  apply Forall_cons in Hg as [Hg Hgs]. cbn [total foldr] in Hn.
  assert (0 <= total (gaps t ts)) as Hpos.
  { clear -Hgs. unfold total. induction Hgs; cbn [foldr]; lia. }
  fold (total (gaps t ts)) in Hn. change (total (t - last_update c :: gaps t ts)) with (t - last_update c + total (gaps t ts)).
  pose proof (cw_fits c Hw) as Hf. assert (t - last_update c <= LIFE) as Hl by (unfold PIT_HZ, LIFE in *; lia).
  destruct (ticks_bounds (t - last_update c)) as [Hb Hz]; [lia|].
  destruct (poll_step t c) as (c1 & Hu & Hw1 & Hr1 & Ho1 & Hl1 & Hc1); [done..|unfold PIT_HZ in *; lia|].
  unfold read_count. rewrite st_bind_eq, st_bind_eq, Hu. cbn [st_gets].
  destruct (IH c1) as (c' & n & Hp & Hc' & Hbn & Hzn); [done|done|done|by rewrite Hl1|rewrite Hl1, Hc1; unfold PIT_HZ in *; lia|].
  rewrite Hl1 in Hbn, Hzn. exists c', (ticks_of (t - last_update c) + n). split_and!; [done|lia|unfold PIT_HZ in *; lia|unfold PIT_HZ in *; cbn [length]; lia|].
  intros [H1 H2]%Forall_cons. rewrite Hz, Hzn by done. done.
Qed.

(** ** Programming a channel *)

(** The control word for channel [i], both bytes, in a mode. *)
Definition control_word (i : Z) (m : PitMode) (bcd : bool) : Z :=
  i * 64 + 3 * 16 + mode_value m * 2 + Z.b2z bcd.

Lemma control_fields i m bcd :
  0 <= i < 3 ->
  let b := control_word i m bcd in
  Z.land (Z.shiftr b 6) 3 = i /\ Z.land (Z.shiftr b 4) 3 = 3 /\ from_u8 (Z.land (Z.shiftr b 1) 7) = m /\ negb (Z.land b 1 =? 0) = bcd.
Proof. intros Hi. assert (i = 0 \/ i = 1 \/ i = 2) as [->|[->| ->]] by lia; by destruct m, bcd. Qed.

Lemma with_channel_modify i f t c :
  channels t !! Z.to_nat i = Some c -> with_channel i (st_modify f) t = (Ok tt, set_channels (<[Z.to_nat i := f c]> (channels t)) t).
Proof. intros Hc. unfold with_channel. by rewrite Hc. Qed.

Lemma lor_bytes lo hi : is_byte lo -> Z.lor lo (trunc 16 (Z.shiftl hi 8)) = lo + 256 * (hi mod 256).
Proof.
  intros [H1 H2]. unfold trunc. rewrite Z.shiftl_mul_pow2 by lia. change (2 ^ 8) with 256. change (2 ^ 16) with (256 * 256).
  rewrite Z.mul_mod_distr_r by lia. rewrite <- Z.add_lor_land, (Z.mul_comm (hi mod 256)).
  assert (Z.land lo (256 * (hi mod 256)) = 0) as ->; [|lia]. change 256 with (2 ^ 8) at 1. rewrite (Z.mul_comm (2 ^ 8)), <- Z.shiftl_mul_pow2 by lia.
  apply Z.bits_inj'. intros n Hn. rewrite Z.land_spec, Z.bits_0. destruct (Z.ltb_spec n 8).
  - rewrite Z.shiftl_spec_low by lia. apply andb_false_r.
  - rewrite (fits_testbit 8 lo n); [done|split; lia|lia].
Qed.

(** The sequence a guest programs a channel with: a control word, the low byte, the
    high byte.  Whatever was there before, the channel counts from the value given,
    in the mode given; the other channels are as they were, and the task is told. *)
Theorem program_spec i m bcd lo hi n1 n2 n3 t c :
  0 <= i < 3 -> is_byte lo -> is_byte hi -> length (channels t) = 3%nat -> channels t !! Z.to_nat i = Some c ->
  exists t', (_ ← write_register n1 3 (control_word i m bcd); _ ← write_register n2 i lo; write_register n3 i hi) t = (Ok tt, t') /\
    channels t' = <[Z.to_nat i := mkChannel (lo + 256 * hi) (lo + 256 * hi) m bcd 3 (latch c) None n3 (gate c) false true]> (channels t) /\
    reprogrammed t' = true /\ pic t' = pic t /\ total_ticks t' = wrapping_add 64 (wrapping_add 64 (total_ticks t) 1) 1.
Proof.
  intros Hi Hlo Hhi Hlen Hc. destruct (control_fields i m bcd Hi) as (Hs & Hrw & Hm & Hb).
  pose proof (lookup_lt_Some _ _ _ Hc) as Hlt.
  assert (forall now b t c, channels t !! Z.to_nat i = Some c ->
    write_register now i b t = (Ok tt, set_permit true (count_tick (set_channels (<[Z.to_nat i := write_data now b c]> (channels t)) t)))) as Hw.
  { intros now b t0 c0 Hc0. unfold write_register, write_register_locked. rewrite (proj2 (Z.leb_le i 2)) by lia.
    by rewrite st_bind_eq, st_bind_eq, (with_channel_modify i _ t0 c0 Hc0). }
  rewrite st_bind_eq. unfold write_register at 1, write_register_locked at 1. change (3 <=? 2) with false. change (3 =? 3) with true. cbn iota. unfold write_control.
  rewrite st_bind_eq, Hs, (proj2 (Z.eqb_neq i 3)) by lia. rewrite Hrw. change (3 =? 0) with false. cbn iota.
  rewrite Hm, Hb, (with_channel_modify i _ t c Hc). cbn [st_modify]. rewrite st_bind_eq.
  erewrite Hw by (cbn [set_permit set_channels channels]; by apply list_lookup_insert_eq).
  erewrite Hw by (cbn [set_permit count_tick set_channels channels]; apply list_lookup_insert_eq; by rewrite length_insert).
  eexists. split; [reflexivity|]. cbn [set_permit count_tick set_channels channels reprogrammed pic total_ticks]. split_and!; try done.
  rewrite !list_insert_insert_eq. unfold write_data. cbn [set_control set_write_latch rw_mode write_latch load]. rewrite lor_bytes by done.
  by rewrite (Z.mod_small hi) by done.
Qed.

(** Reads and writes share the byte latch: a guest that reads one byte of a count and
    then writes the low byte of a new one has it taken for the high byte, with the high
    byte of the old count below it. *)
Theorem read_write_share_latch i now now' b t c n c1 :
  0 <= i < 3 -> is_byte b -> channels t !! Z.to_nat i = Some c -> chan_wf c -> rw_mode c = 3 -> write_latch c = None ->
  read_count now c = (Ok n, c1) ->
  exists t', (_ ← read_register now i; write_register now' i b) t = (Ok tt, t') /\
    exists c', channels t' !! Z.to_nat i = Some c' /\ reload_value c' = trunc 8 (Z.shiftr n 8) + 256 * b /\ count c' = reload_value c'.
Proof.
  intros Hi Hb Hc Hw Hrw Hwl Hn. pose proof (lookup_lt_Some _ _ _ Hc) as Hlt.
  assert (rw_mode c1 = 3 /\ write_latch c1 = None) as [Hrw1 Hwl1].
  { revert Hn. unfold read_count. rewrite st_bind_eq, update_count_eq by by apply cw_fits16. cbv zeta. destruct (negb _).
    { by intros [= _ <-]. }
    destruct (2 ^ 64 <=? _); [done|]. rewrite advance_ticks_eq by (exact (cw_fits16 c Hw) || apply ticks_of_nonneg).
    destruct (_ && _); [|by intros [= _ <-]]. unfold after_ticks. cbn [set_last_update mode output count].
    destruct (is_one_shot _ && _); [by intros [= _ <-]|]. destruct (count c <=? _); [destruct (mode c)|]; by intros [= _ <-]. }
  assert (read_byte_of now c = (Ok (trunc 8 n), set_write_latch (Some (trunc 8 (Z.shiftr n 8))) c1)) as Hr.
  { unfold read_byte_of. rewrite st_bind_eq, Hn, st_bind_gets, Hrw1, st_bind_gets, Hwl1. done. }
  rewrite st_bind_eq. unfold read_register, with_channel at 1. rewrite (proj2 (Z.leb_le i 2)) by lia. rewrite Hc, Hr.
  unfold write_register, write_register_locked. rewrite (proj2 (Z.leb_le i 2)) by lia. rewrite st_bind_eq, st_bind_eq.
  erewrite with_channel_modify by (cbn [set_channels channels]; by apply list_lookup_insert_eq).
  eexists. split; [reflexivity|]. eexists. split; [cbn [set_permit count_tick set_channels channels]; apply list_lookup_insert_eq; by rewrite length_insert|].
  unfold write_data. cbn [set_write_latch rw_mode write_latch load]. rewrite Hrw1. cbn [set_write_latch reload_value count load].
  rewrite lor_bytes by (by apply Z.mod_pos_bound). by rewrite (Z.mod_small b).
Qed.

(** ** Uptime *)

Lemma micros_id e : 0 <= e < 2 ^ 64 * 1000 -> micros e = e / 1000.
Proof. intros He. unfold micros, trunc. apply Z.mod_small. split; [apply Z.div_pos; lia|apply Z.div_lt_upper_bound; lia]. Qed.

(** The port of a timer that nobody has touched since it was made panics on its first
    read exactly when the timer is 15460126010709 microseconds old, 178.9 days: the
    product of the elapsed microseconds and the clock rate overflows. *)
Theorem uptime_overflow t0 now p :
  0 <= now - t0 < 2 ^ 64 * 1000 ->
  is_panic (read_byte now (timer_new t0, p)).1 = true <-> 15460126010709 <= (now - t0) / 1000.
Proof.
  intros He. unfold read_byte. rewrite st_bind_gets, st_bind_eq. unfold st_fst, with_channel.
  change (channels (timer_new t0) !! Z.to_nat 2) with (Some (channel_new t0)). cbn iota. rewrite st_bind_eq.
  pose proof (update_count_panics now (channel_new t0) ltac:(done)) as Hp. change (running (channel_new t0)) with true in Hp. cbn [andb] in Hp.
  assert (saturating_sub now (last_update (channel_new t0)) = now - t0) as Hs by (unfold saturating_sub; cbn [channel_new last_update]; lia).
  rewrite Hs, micros_id in Hp by done. assert (2 ^ 64 <= (now - t0) / 1000 * PIT_HZ <-> 15460126010709 <= (now - t0) / 1000) as Hb.
  { unfold PIT_HZ. lia. }
  rewrite <- Hb, <- Z.leb_le, <- Hp. destruct (update_count now (channel_new t0)) as [[a|e|x] c]; done.
Qed.

(** ** Saving and restoring *)

Lemma u16_bytes z : fits 16 z -> exists a b, to_le_bytes 2 z = [a; b] /\ from_le_bytes [a; b] = z.
Proof.
  intros Hz. pose proof (length_to_le_bytes 2 z ltac:(lia)) as Hl. destruct (to_le_bytes 2 z) as [|a [|b [|]]] eqn:E; cbn in Hl; try lia.
  exists a, b. split; [done|]. rewrite <- E. by apply from_to_le_bytes.
Qed.

Lemma mode_roundtrip m : from_u8 (mode_value m) = m.
Proof. by destruct m. Qed.

Lemma import_export_channel now c : chan_wf c -> import_channel now (export_channel c) = Ok (set_last_update now c).
Proof.
  intros Hw. destruct (u16_bytes (reload_value c) (cw_reload c Hw)) as (r0 & r1 & Er & Fr).
  destruct (u16_bytes (count c) (cw_fits16 c Hw)) as (n0 & n1 & En & Fn).
  assert (fits 16 (default 0 (latch c))) as Hl by (destruct (latch c) eqn:E; [by eapply cw_latch|done]).
  destruct (u16_bytes _ Hl) as (l0 & l1 & El & Fl).
  unfold export_channel. rewrite Er, En, El. cbn [app].
  transitivity (Ok (E:=Error) (mkChannel (from_le_bytes [r0; r1]) (from_le_bytes [n0; n1]) (from_u8 (mode_value (mode c)))
    (negb (Z.b2z (bcd_mode c) =? 0)) (rw_mode c) (if negb (flag (latch c) =? 0) then Some (from_le_bytes [l0; l1]) else None)
    (if negb (flag (write_latch c) =? 0) then Some (default 0 (write_latch c)) else None) now
    (negb (Z.b2z (gate c) =? 0)) (negb (Z.b2z (output c) =? 0)) (negb (Z.b2z (active c) =? 0)))).
  { unfold import_channel, at_u16, at_flag, at_byte. simpl (_ !! _). cbn [mbind Res_bind mret Res_ret].
    by destruct (negb (flag (latch c) =? 0)). }
  rewrite Fr, Fn, Fl, mode_roundtrip. unfold flag. destruct c as [? ? ? [] ? lt wl ? [] [] []]; cbn; by destruct lt, wl.
Qed.

Lemma export_channel_length c : length (export_channel c) = 15%nat.
Proof.
  unfold export_channel. rewrite !length_app. pose proof (length_to_le_bytes 2 (reload_value c)). pose proof (length_to_le_bytes 2 (count c)).
  pose proof (length_to_le_bytes 2 (default 0 (latch c))). cbn [length]. lia.
Qed.

Lemma import_export_channels now l l' :
  Forall chan_wf l -> length l = length l' -> import_channels now (concat (export_channel <$> l)) l' = Ok (set_last_update now <$> l).
Proof.
  intros Hl. revert l'. induction Hl as [|c l Hc _ IH]; intros [|c' l'] Hlen; try done. cbn [fmap list_fmap concat] in *.
  assert (exists b bs, export_channel c ++ concat (export_channel <$> l) = b :: bs) as (b & bs & Eb).
  { pose proof (export_channel_length c). destruct (export_channel c); [done|by eexists _, _]. }
  cbn [import_channels]. rewrite Eb, <- Eb. rewrite take_app_length' by by rewrite export_channel_length.
  rewrite drop_app_length' by by rewrite export_channel_length. rewrite import_export_channel by done. cbn [mbind Res_bind].
  rewrite IH by (cbn in Hlen; lia). done.
Qed.

(** A saved timer imported into another gives back every channel as it was, but for
    the moment it counts from, and wakes the task; bytes of another length or version
    are refused and change nothing. *)
Theorem pit_export_import now t t' bs :
  length (channels t) = 3%nat -> Forall chan_wf (channels t) -> length (channels t') = 3%nat ->
  (exists u, import_state now (export_state t) t' = (Ok tt, u) /\ channels u = set_last_update now <$> channels t /\ reprogrammed u = true) /\
  (length bs <> 46%nat \/ head bs <> Some 1 -> exists e, import_state now bs t' = (Err e, t')).
Proof.
  intros Hl Hw Hl'. split.
  - unfold import_state, export_state. assert (Z.of_nat (length (STATE_VERSION :: concat (export_channel <$> channels t))) = 46) as ->.
    { by destruct (channels t) as [|a [|b [|c [|]]]]. }
    cbv zeta. change (46 =? 1 + 3 * CHANNEL_STATE_LEN) with true. change (STATE_VERSION =? STATE_VERSION) with true. cbn [negb orb].
    rewrite st_bind_read, import_export_channels by (done || by rewrite Hl). rewrite st_bind_modify. by eexists.
  - intros Hb. unfold import_state. destruct bs as [|v raw]; [by eexists|].
    destruct (negb (Z.of_nat (length (v :: raw)) =? 1 + 3 * CHANNEL_STATE_LEN) || negb (v =? STATE_VERSION)) eqn:E; [by eexists|].
    exfalso. apply orb_false_iff in E as [E1%negb_false_iff%Z.eqb_eq E2%negb_false_iff%Z.eqb_eq]. subst v. unfold CHANNEL_STATE_LEN in E1.
    destruct Hb as [Hb|Hb]; [lia|done].
Qed.

(** ** Examples *)

(** Channel 0 in a mode with a count, looked at last at time 0; a controller fresh
    from a reset. *)
Definition example_channel (m : PitMode) (n : Z) : PitChannel := mkChannel n n m false 3 None None 0 true false true.
Definition example_timer (m : PitMode) (n : Z) : TimerDevice :=
  mkTimer [example_channel m n; channel_new 0; channel_new 0] true 0 (Some pic_new) true false.

Lemma example_channel_wf m n : (0 <=? n) && (n <=? 65535) = true -> chan_wf (example_channel m n).
Proof.
  intros [H1%Z.leb_le H2%Z.leb_le]%andb_true_iff. assert (fits 16 n) as Hn by (split; lia).
  split; cbn [example_channel reload_value count rw_mode latch write_latch]; try done; [|lia].
  split; [done|]. by apply (period_bounds (example_channel m n)).
Qed.

Lemma pic_new_wf : pic_wf pic_new.
Proof. by repeat split. Qed.

Lemma pit_invariant_witness :
  let s := run_tops [OSetPic pic_new; OWrite 5 3 0x34; OWrite 6 0 0x9C; OWrite 7 0 0x2E; ODue; ORead 9000 0] (timer_new 0, 0, port_new) in
  sys_ok 0 s /\ forall o, top_ok 0 o -> is_panic (apply_top o s).1 = false.
Proof.
  apply (pit_invariant 0 [OSetPic pic_new; OWrite 5 3 0x34; OWrite 6 0 0x9C; OWrite 7 0 0x2E; ODue; ORead 9000 0]).
  repeat (apply Forall_cons; split); try apply Forall_nil_2; try exact pic_new_wf; by repeat split.
Defined.

(** A square wave for 100 Hz: ten periods raise the interrupt five times. *)
Lemma tick_rate_witness :
  exists t', due_times 10 (example_timer SquareWaveGenerator 11932, 0) = (Ok tt, (t', 10 * (11932 * 1000000000 / PIT_HZ))) /\
    total_ticks t' = 5 /\ pic t' = Some (raised 5 pic_new).
Proof.
  exact (tick_rate 10 (example_timer SquareWaveGenerator 11932) 0 (example_channel SquareWaveGenerator 11932) pic_new eq_refl
    (example_channel_wf SquareWaveGenerator 11932 eq_refl) eq_refl eq_refl pic_new_wf ltac:(done)).
Defined.

Lemma oneshot_interrupt_lost_witness :
  let t := example_timer InterruptOnTerminalCount 1193 in
  pic (apply_top ODue (t, 0, port_new)).2.1.1 = Some (raise_irq 0 pic_new).2 /\
  pic (run_tops [ODue; OTick 3000000; ODue] (apply_top (ORead 2000000 0) (t, 0, port_new)).2).1.1 = Some pic_new.
Proof.
  destruct (oneshot_interrupt_lost (example_timer InterruptOnTerminalCount 1193) 0 port_new (example_channel InterruptOnTerminalCount 1193)
    pic_new 2000000 eq_refl (example_channel_wf InterruptOnTerminalCount 1193 eq_refl) eq_refl eq_refl eq_refl eq_refl pic_new_wf
    ltac:(done) ltac:(done)) as [H1 H2].
  split; [exact H1|]. by apply (H2 [ODue; OTick 3000000; ODue]).
Defined.

Lemma latch_never_released_witness :
  let s := (apply_top (OWrite 0 3 0x00) (example_timer RateGenerator 5000, 0, port_new)).2 in
  exists c, channels (run_tops [ORead 10 0; ORead 11 0; OWrite 20 3 0x34; OWrite 21 0 0x10; OWrite 22 0 0x20] s).1.1 !! Z.to_nat 0 = Some c /\
    forall now n c', read_count now c = (Ok n, c') -> n = 5000.
Proof.
  apply (latch_never_released 0 5000 [ORead 10 0; ORead 11 0; OWrite 20 3 0x34; OWrite 21 0 0x10; OWrite 22 0 0x20]); [lia| |reflexivity].
  eexists. split; reflexivity.
Defined.

Lemma poll_drift_witness :
  exists c' n, polls [900; 1800; 2700; 3600] (example_channel InterruptOnTerminalCount 1193) = (Ok tt, c') /\ count c' = 1193 - n /\ n = 0.
Proof.
  destruct (poll_drift [900; 1800; 2700; 3600] (example_channel InterruptOnTerminalCount 1193)) as (c' & n & H1 & H2 & _ & H3);
    [by apply example_channel_wf|done|done|by repeat constructor|done|].
  exists c', n. split_and!; [exact H1|exact H2|]. apply H3. by repeat constructor.
Defined.

Lemma program_spec_witness :
  exists t', (_ ← write_register 1 3 (control_word 0 RateGenerator false); _ ← write_register 2 0 0x9C; write_register 3 0 0x2E)
      (timer_new 0) = (Ok tt, t') /\
    channels t' = [mkChannel 11932 11932 RateGenerator false 3 None None 3 true false true; channel_new 0; channel_new 0] /\
    reprogrammed t' = true /\ pic t' = None /\ total_ticks t' = 2.
Proof.
  exact (program_spec 0 RateGenerator false 0x9C 0x2E 1 2 3 (timer_new 0) (channel_new 0) ltac:(lia) ltac:(done) ltac:(done) eq_refl eq_refl).
Defined.

Lemma read_write_share_latch_witness :
  exists t', (_ ← read_register 0 0; write_register 5 0 0xA9) (example_timer RateGenerator 0x1234) = (Ok tt, t') /\
    exists c', channels t' !! Z.to_nat 0 = Some c' /\ reload_value c' = 0x12 + 256 * 0xA9 /\ count c' = reload_value c'.
Proof.
  apply (read_write_share_latch 0 0 5 0xA9 (example_timer RateGenerator 0x1234) (example_channel RateGenerator 0x1234) 0x1234 (example_channel RateGenerator 0x1234));
    try done.
Defined.

Lemma uptime_overflow_witness :
  is_panic (read_byte 15460126010709000 (timer_new 0, port_new)).1 = true <-> 15460126010709 <= (15460126010709000 - 0) / 1000.
Proof. apply (uptime_overflow 0 15460126010709000 port_new). lia. Defined.

Lemma pit_export_import_witness :
  exists u, import_state 77 (export_state (example_timer SquareWaveGenerator 1000)) (timer_new 5) = (Ok tt, u) /\
    channels u = set_last_update 77 <$> channels (example_timer SquareWaveGenerator 1000) /\ reprogrammed u = true.
Proof.
  apply (pit_export_import 77 (example_timer SquareWaveGenerator 1000) (timer_new 5) []); [done| |done].
  repeat (apply Forall_cons; split); try apply Forall_nil_2; [by apply example_channel_wf|by apply (channel_new_ok 0)|by apply (channel_new_ok 0)].
Defined.
