(* ===== verification/Lapic.v ===== *)
(** * The local interrupt controller ([hv2-core/src/devices/lapic.rs])

    Request, in-service and trigger-mode registers of 256 bits, priorities, the
    interrupt command register and the timer.  The calls of the two callbacks are
    recorded in order. *)

From Stdlib Require Import Sorted.
From S2P Require Import Prelude.

(** ** Registers *)

Definition ID : Z := 0x020.
Definition VERSION : Z := 0x030.
Definition TPR : Z := 0x080.
Definition APR : Z := 0x090.
Definition PPR : Z := 0x0A0.
Definition EOI : Z := 0x0B0.
Definition LDR : Z := 0x0D0.
Definition DFR : Z := 0x0E0.
Definition SVR : Z := 0x0F0.
Definition ISR_BASE : Z := 0x100.
Definition TMR_BASE : Z := 0x180.
Definition IRR_BASE : Z := 0x200.
Definition ESR : Z := 0x280.
Definition LVT_CMCI : Z := 0x2F0.
Definition ICR_LOW : Z := 0x300.
Definition ICR_HIGH : Z := 0x310.
Definition LVT_TIMER : Z := 0x320.
Definition LVT_THERMAL : Z := 0x330.
Definition LVT_PMC : Z := 0x340.
Definition LVT_LINT0 : Z := 0x350.
Definition LVT_LINT1 : Z := 0x360.
Definition LVT_ERROR : Z := 0x370.
Definition TIMER_ICR : Z := 0x380.
Definition TIMER_CCR : Z := 0x390.
Definition TIMER_DCR : Z := 0x3E0.

Definition APIC_ENABLE : Z := Z.shiftl 1 8.
Definition VECTOR_MASK : Z := 0xFF.
Definition MASKED : Z := Z.shiftl 1 16.
Definition TIMER_MODE_MASK : Z := Z.shiftl 3 17.
Definition TIMER_MODE_SHIFT : Z := 17.
Definition DELMODE_MASK : Z := 0x700.
Definition DELMODE_SHIFT : Z := 8.
Definition DESTSHORT_MASK : Z := Z.shiftl 3 18.
Definition DESTSHORT_SHIFT : Z := 18.
Definition DEST_MASK : Z := Z.shiftl 0xFF 56.
Definition DEST_SHIFT : Z := 56.

Inductive TimerMode := OneShot | Periodic | TscDeadline | TimerReserved.
#[global] Instance TimerMode_eq_dec : EqDecision TimerMode.
Proof. solve_decision. Defined.
Definition timer_from_bits (bits : Z) : TimerMode :=
  match Z.land bits 3 with 0 => OneShot | 1 => Periodic | 2 => TscDeadline | _ => TimerReserved end.

Inductive IcrDeliveryMode := Fixed | LowestPriority | Smi | ModeReserved | Nmi | Init | Sipi | ExtInt.
Definition delivery_from_bits (bits : Z) : IcrDeliveryMode :=
  match Z.land bits 7 with
  | 0 => Fixed | 1 => LowestPriority | 2 => Smi | 3 => ModeReserved | 4 => Nmi | 5 => Init | 6 => Sipi | _ => ExtInt
  end.

Inductive IcrDestShorthand := NoShorthand | SelfOnly | AllIncludingSelf | AllExcludingSelf.
Definition shorthand_from_bits (bits : Z) : IcrDestShorthand :=
  match Z.land bits 3 with 0 => NoShorthand | 1 => SelfOnly | 2 => AllIncludingSelf | _ => AllExcludingSelf end.

Definition get_divisor (dcr : Z) : Z :=
  let bits := Z.lor (Z.shiftr (Z.land dcr 8) 1) (Z.land dcr 3) in
  match bits with
  | 0 => 2 | 1 => 4 | 2 => 8 | 3 => 16 | 4 => 32 | 5 => 64 | 6 => 128 | 7 => 1 | _ => 1
  end.

(** ** State *)

Record LocalApic := mkLapic {
  id : Z;
  enabled : bool;
  tpr : Z;
  ldr : Z;
  dfr : Z;
  svr : Z;
  esr : Z;
  icr : Z;
  lvt_timer : Z;
  lvt_thermal : Z;
  lvt_pmc : Z;
  lvt_lint0 : Z;
  lvt_lint1 : Z;
  lvt_error : Z;
  lvt_cmci : Z;
  timer_icr : Z;
  timer_ccr : Z;
  timer_dcr : Z;
  isr : list Z;
  tmr : list Z;
  irr : list Z;
  ipi_callback : bool;
  ipis : list (Z * Z * IcrDeliveryMode);
  eoi_callback : bool;
  eois : list Z
}.

Definition lapic_new (i : Z) : LocalApic :=
  mkLapic i false 0 0 0xFFFFFFFF 0xFF 0 0 MASKED MASKED MASKED MASKED MASKED MASKED MASKED 0 0 0
    (replicate 8 0) (replicate 8 0) (replicate 8 0) false [] false [].

(** Stores to one field each. *)
Definition set_enabled (v : bool) (a : LocalApic) : LocalApic :=
  mkLapic (id a) v (tpr a) (ldr a) (dfr a) (svr a) (esr a) (icr a) (lvt_timer a) (lvt_thermal a) (lvt_pmc a) (lvt_lint0 a) (lvt_lint1 a) (lvt_error a) (lvt_cmci a) (timer_icr a) (timer_ccr a) (timer_dcr a) (isr a) (tmr a) (irr a) (ipi_callback a) (ipis a) (eoi_callback a) (eois a).
Definition set_tpr (v : Z) (a : LocalApic) : LocalApic :=
  mkLapic (id a) (enabled a) v (ldr a) (dfr a) (svr a) (esr a) (icr a) (lvt_timer a) (lvt_thermal a) (lvt_pmc a) (lvt_lint0 a) (lvt_lint1 a) (lvt_error a) (lvt_cmci a) (timer_icr a) (timer_ccr a) (timer_dcr a) (isr a) (tmr a) (irr a) (ipi_callback a) (ipis a) (eoi_callback a) (eois a).
Definition set_ldr (v : Z) (a : LocalApic) : LocalApic :=
  mkLapic (id a) (enabled a) (tpr a) v (dfr a) (svr a) (esr a) (icr a) (lvt_timer a) (lvt_thermal a) (lvt_pmc a) (lvt_lint0 a) (lvt_lint1 a) (lvt_error a) (lvt_cmci a) (timer_icr a) (timer_ccr a) (timer_dcr a) (isr a) (tmr a) (irr a) (ipi_callback a) (ipis a) (eoi_callback a) (eois a).
Definition set_dfr (v : Z) (a : LocalApic) : LocalApic :=
  mkLapic (id a) (enabled a) (tpr a) (ldr a) v (svr a) (esr a) (icr a) (lvt_timer a) (lvt_thermal a) (lvt_pmc a) (lvt_lint0 a) (lvt_lint1 a) (lvt_error a) (lvt_cmci a) (timer_icr a) (timer_ccr a) (timer_dcr a) (isr a) (tmr a) (irr a) (ipi_callback a) (ipis a) (eoi_callback a) (eois a).
Definition set_svr (v : Z) (a : LocalApic) : LocalApic :=
  mkLapic (id a) (enabled a) (tpr a) (ldr a) (dfr a) v (esr a) (icr a) (lvt_timer a) (lvt_thermal a) (lvt_pmc a) (lvt_lint0 a) (lvt_lint1 a) (lvt_error a) (lvt_cmci a) (timer_icr a) (timer_ccr a) (timer_dcr a) (isr a) (tmr a) (irr a) (ipi_callback a) (ipis a) (eoi_callback a) (eois a).
Definition set_esr (v : Z) (a : LocalApic) : LocalApic :=
  mkLapic (id a) (enabled a) (tpr a) (ldr a) (dfr a) (svr a) v (icr a) (lvt_timer a) (lvt_thermal a) (lvt_pmc a) (lvt_lint0 a) (lvt_lint1 a) (lvt_error a) (lvt_cmci a) (timer_icr a) (timer_ccr a) (timer_dcr a) (isr a) (tmr a) (irr a) (ipi_callback a) (ipis a) (eoi_callback a) (eois a).
Definition set_icr (v : Z) (a : LocalApic) : LocalApic :=
  mkLapic (id a) (enabled a) (tpr a) (ldr a) (dfr a) (svr a) (esr a) v (lvt_timer a) (lvt_thermal a) (lvt_pmc a) (lvt_lint0 a) (lvt_lint1 a) (lvt_error a) (lvt_cmci a) (timer_icr a) (timer_ccr a) (timer_dcr a) (isr a) (tmr a) (irr a) (ipi_callback a) (ipis a) (eoi_callback a) (eois a).
Definition set_lvt_timer (v : Z) (a : LocalApic) : LocalApic :=
  mkLapic (id a) (enabled a) (tpr a) (ldr a) (dfr a) (svr a) (esr a) (icr a) v (lvt_thermal a) (lvt_pmc a) (lvt_lint0 a) (lvt_lint1 a) (lvt_error a) (lvt_cmci a) (timer_icr a) (timer_ccr a) (timer_dcr a) (isr a) (tmr a) (irr a) (ipi_callback a) (ipis a) (eoi_callback a) (eois a).
Definition set_lvt_thermal (v : Z) (a : LocalApic) : LocalApic :=
  mkLapic (id a) (enabled a) (tpr a) (ldr a) (dfr a) (svr a) (esr a) (icr a) (lvt_timer a) v (lvt_pmc a) (lvt_lint0 a) (lvt_lint1 a) (lvt_error a) (lvt_cmci a) (timer_icr a) (timer_ccr a) (timer_dcr a) (isr a) (tmr a) (irr a) (ipi_callback a) (ipis a) (eoi_callback a) (eois a).
Definition set_lvt_pmc (v : Z) (a : LocalApic) : LocalApic :=
  mkLapic (id a) (enabled a) (tpr a) (ldr a) (dfr a) (svr a) (esr a) (icr a) (lvt_timer a) (lvt_thermal a) v (lvt_lint0 a) (lvt_lint1 a) (lvt_error a) (lvt_cmci a) (timer_icr a) (timer_ccr a) (timer_dcr a) (isr a) (tmr a) (irr a) (ipi_callback a) (ipis a) (eoi_callback a) (eois a).
Definition set_lvt_lint0 (v : Z) (a : LocalApic) : LocalApic :=
  mkLapic (id a) (enabled a) (tpr a) (ldr a) (dfr a) (svr a) (esr a) (icr a) (lvt_timer a) (lvt_thermal a) (lvt_pmc a) v (lvt_lint1 a) (lvt_error a) (lvt_cmci a) (timer_icr a) (timer_ccr a) (timer_dcr a) (isr a) (tmr a) (irr a) (ipi_callback a) (ipis a) (eoi_callback a) (eois a).
Definition set_lvt_lint1 (v : Z) (a : LocalApic) : LocalApic :=
  mkLapic (id a) (enabled a) (tpr a) (ldr a) (dfr a) (svr a) (esr a) (icr a) (lvt_timer a) (lvt_thermal a) (lvt_pmc a) (lvt_lint0 a) v (lvt_error a) (lvt_cmci a) (timer_icr a) (timer_ccr a) (timer_dcr a) (isr a) (tmr a) (irr a) (ipi_callback a) (ipis a) (eoi_callback a) (eois a).
Definition set_lvt_error (v : Z) (a : LocalApic) : LocalApic :=
  mkLapic (id a) (enabled a) (tpr a) (ldr a) (dfr a) (svr a) (esr a) (icr a) (lvt_timer a) (lvt_thermal a) (lvt_pmc a) (lvt_lint0 a) (lvt_lint1 a) v (lvt_cmci a) (timer_icr a) (timer_ccr a) (timer_dcr a) (isr a) (tmr a) (irr a) (ipi_callback a) (ipis a) (eoi_callback a) (eois a).
Definition set_lvt_cmci (v : Z) (a : LocalApic) : LocalApic :=
  mkLapic (id a) (enabled a) (tpr a) (ldr a) (dfr a) (svr a) (esr a) (icr a) (lvt_timer a) (lvt_thermal a) (lvt_pmc a) (lvt_lint0 a) (lvt_lint1 a) (lvt_error a) v (timer_icr a) (timer_ccr a) (timer_dcr a) (isr a) (tmr a) (irr a) (ipi_callback a) (ipis a) (eoi_callback a) (eois a).
Definition set_timer_icr (v : Z) (a : LocalApic) : LocalApic :=
  mkLapic (id a) (enabled a) (tpr a) (ldr a) (dfr a) (svr a) (esr a) (icr a) (lvt_timer a) (lvt_thermal a) (lvt_pmc a) (lvt_lint0 a) (lvt_lint1 a) (lvt_error a) (lvt_cmci a) v (timer_ccr a) (timer_dcr a) (isr a) (tmr a) (irr a) (ipi_callback a) (ipis a) (eoi_callback a) (eois a).
Definition set_timer_ccr (v : Z) (a : LocalApic) : LocalApic :=
  mkLapic (id a) (enabled a) (tpr a) (ldr a) (dfr a) (svr a) (esr a) (icr a) (lvt_timer a) (lvt_thermal a) (lvt_pmc a) (lvt_lint0 a) (lvt_lint1 a) (lvt_error a) (lvt_cmci a) (timer_icr a) v (timer_dcr a) (isr a) (tmr a) (irr a) (ipi_callback a) (ipis a) (eoi_callback a) (eois a).
Definition set_timer_dcr (v : Z) (a : LocalApic) : LocalApic :=
  mkLapic (id a) (enabled a) (tpr a) (ldr a) (dfr a) (svr a) (esr a) (icr a) (lvt_timer a) (lvt_thermal a) (lvt_pmc a) (lvt_lint0 a) (lvt_lint1 a) (lvt_error a) (lvt_cmci a) (timer_icr a) (timer_ccr a) v (isr a) (tmr a) (irr a) (ipi_callback a) (ipis a) (eoi_callback a) (eois a).
Definition set_isr (v : list Z) (a : LocalApic) : LocalApic :=
  mkLapic (id a) (enabled a) (tpr a) (ldr a) (dfr a) (svr a) (esr a) (icr a) (lvt_timer a) (lvt_thermal a) (lvt_pmc a) (lvt_lint0 a) (lvt_lint1 a) (lvt_error a) (lvt_cmci a) (timer_icr a) (timer_ccr a) (timer_dcr a) v (tmr a) (irr a) (ipi_callback a) (ipis a) (eoi_callback a) (eois a).
Definition set_tmr (v : list Z) (a : LocalApic) : LocalApic :=
  mkLapic (id a) (enabled a) (tpr a) (ldr a) (dfr a) (svr a) (esr a) (icr a) (lvt_timer a) (lvt_thermal a) (lvt_pmc a) (lvt_lint0 a) (lvt_lint1 a) (lvt_error a) (lvt_cmci a) (timer_icr a) (timer_ccr a) (timer_dcr a) (isr a) v (irr a) (ipi_callback a) (ipis a) (eoi_callback a) (eois a).
Definition set_irr (v : list Z) (a : LocalApic) : LocalApic :=
  mkLapic (id a) (enabled a) (tpr a) (ldr a) (dfr a) (svr a) (esr a) (icr a) (lvt_timer a) (lvt_thermal a) (lvt_pmc a) (lvt_lint0 a) (lvt_lint1 a) (lvt_error a) (lvt_cmci a) (timer_icr a) (timer_ccr a) (timer_dcr a) (isr a) (tmr a) v (ipi_callback a) (ipis a) (eoi_callback a) (eois a).
Definition set_ipi_callback (a : LocalApic) : LocalApic :=
  mkLapic (id a) (enabled a) (tpr a) (ldr a) (dfr a) (svr a) (esr a) (icr a) (lvt_timer a) (lvt_thermal a) (lvt_pmc a) (lvt_lint0 a) (lvt_lint1 a) (lvt_error a) (lvt_cmci a) (timer_icr a) (timer_ccr a) (timer_dcr a) (isr a) (tmr a) (irr a) true (ipis a) (eoi_callback a) (eois a).
Definition set_eoi_callback (a : LocalApic) : LocalApic :=
  mkLapic (id a) (enabled a) (tpr a) (ldr a) (dfr a) (svr a) (esr a) (icr a) (lvt_timer a) (lvt_thermal a) (lvt_pmc a) (lvt_lint0 a) (lvt_lint1 a) (lvt_error a) (lvt_cmci a) (timer_icr a) (timer_ccr a) (timer_dcr a) (isr a) (tmr a) (irr a) (ipi_callback a) (ipis a) true (eois a).
Definition call_ipi (c : Z * Z * IcrDeliveryMode) (a : LocalApic) : LocalApic :=
  mkLapic (id a) (enabled a) (tpr a) (ldr a) (dfr a) (svr a) (esr a) (icr a) (lvt_timer a) (lvt_thermal a) (lvt_pmc a) (lvt_lint0 a) (lvt_lint1 a) (lvt_error a) (lvt_cmci a) (timer_icr a) (timer_ccr a) (timer_dcr a) (isr a) (tmr a) (irr a) (ipi_callback a) (ipis a ++ [c]) (eoi_callback a) (eois a).
Definition call_eoi (vec : Z) (a : LocalApic) : LocalApic :=
  mkLapic (id a) (enabled a) (tpr a) (ldr a) (dfr a) (svr a) (esr a) (icr a) (lvt_timer a) (lvt_thermal a) (lvt_pmc a) (lvt_lint0 a) (lvt_lint1 a) (lvt_error a) (lvt_cmci a) (timer_icr a) (timer_ccr a) (timer_dcr a) (isr a) (tmr a) (irr a) (ipi_callback a) (ipis a) (eoi_callback a) (eois a ++ [vec]).

(** ** Vectors

    A vector is a byte, so its word is one of the eight. *)

Definition word (l : list Z) (i : Z) : Z := default 0 (l !! Z.to_nat i).
Definition set_bit (vec : Z) (l : list Z) : list Z :=
  <[Z.to_nat (vec / 32) := Z.lor (word l (vec / 32)) (Z.shiftl 1 (vec mod 32))]> l.
Definition clear_bit (vec : Z) (l : list Z) : list Z :=
  <[Z.to_nat (vec / 32) := Z.land (word l (vec / 32)) (bnot 32 (Z.shiftl 1 (vec mod 32)))]> l.
Definition test_bit (vec : Z) (l : list Z) : bool := has (word l (vec / 32)) (Z.shiftl 1 (vec mod 32)).

(** [u32::leading_zeros]. *)
Definition leading_zeros (x : Z) : Z := if x =? 0 then 32 else 31 - Z.log2 x.

(** The loop of [find_highest_set_bit], from a word downwards; a word that is not zero
    has at most 31 leading zeros. *)
Fixpoint find_from (l : list Z) (n : nat) : option Z :=
  match n with
  | O => None
  | S i =>
      let w := word l (Z.of_nat i) in
      if negb (w =? 0) then Some (trunc 8 (Z.of_nat i * 32 + (31 - leading_zeros w))) else find_from l i
  end.
Definition find_highest_set_bit (l : list Z) : option Z := find_from l 8.

Definition get_highest_isr_priority (a : LocalApic) : Z :=
  match find_highest_set_bit (isr a) with Some v => Z.shiftr v 4 | None => 0 end.

Definition processor_priority (a : LocalApic) : Z :=
  Z.max (Z.land (tpr a) 0xF0) (Z.shiftl (get_highest_isr_priority a) 4).

(** ** Interrupts *)

Definition accept_interrupt (vec : Z) (level_triggered : bool) (a : LocalApic) : LocalApic :=
  if negb (enabled a) || (vec <? 16) then a
  else
    let a1 := set_irr (set_bit vec (irr a)) a in
    if level_triggered then set_tmr (set_bit vec (tmr a1)) a1 else a1.

Definition inject_external_interrupt : Z -> bool -> LocalApic -> LocalApic := accept_interrupt.

Definition get_pending_interrupt (a : LocalApic) : option Z :=
  let ppr := trunc 8 (processor_priority a) in
  match find_highest_set_bit (irr a) with
  | None => None
  | Some vec => if ppr <? Z.land vec 0xF0 then Some vec else None
  end.

Definition acknowledge_interrupt (vec : Z) (a : LocalApic) : LocalApic :=
  let a1 := set_irr (clear_bit vec (irr a)) a in
  set_isr (set_bit vec (isr a1)) a1.

Definition handle_eoi (a : LocalApic) : LocalApic :=
  match find_highest_set_bit (isr a) with
  | None => a
  | Some vec =>
      let a1 := set_isr (clear_bit vec (isr a)) a in
      if test_bit vec (tmr a1) then if eoi_callback a1 then call_eoi vec a1 else a1 else a1
  end.

Definition icr_targets (i : Z) (s : IcrDestShorthand) (dest : Z) : list Z :=
  match s with SelfOnly => [i] | AllIncludingSelf => [0xFF] | AllExcludingSelf => [0xFE] | NoShorthand => [dest] end.

Definition handle_icr_write (v : Z) (a : LocalApic) : LocalApic :=
  let vec := trunc 8 (Z.land v VECTOR_MASK) in
  let delmode := delivery_from_bits (trunc 8 (Z.shiftr (Z.land v DELMODE_MASK) DELMODE_SHIFT)) in
  let dest_short := shorthand_from_bits (trunc 8 (Z.shiftr (Z.land v DESTSHORT_MASK) DESTSHORT_SHIFT)) in
  let dest := trunc 8 (Z.shiftr (Z.land v DEST_MASK) DEST_SHIFT) in
  if ipi_callback a then foldl (fun a t => call_ipi (t, vec, delmode) a) a (icr_targets (id a) dest_short dest) else a.

Definition timer_mode (a : LocalApic) : TimerMode :=
  timer_from_bits (trunc 8 (Z.shiftr (Z.land (lvt_timer a) TIMER_MODE_MASK) TIMER_MODE_SHIFT)).

Definition timer_tick (a : LocalApic) : LocalApic :=
  let m := timer_mode a in
  if bool_decide (m = TscDeadline) then a
  else if timer_ccr a =? 0 then a
  else
    let new_ccr := saturating_sub (timer_ccr a) (get_divisor (timer_dcr a)) in
    let a1 := set_timer_ccr new_ccr a in
    if new_ccr =? 0 then
      let a2 :=
        if Z.land (lvt_timer a1) MASKED =? 0
        then accept_interrupt (trunc 8 (Z.land (lvt_timer a1) VECTOR_MASK)) false a1 else a1 in
      if bool_decide (m = Periodic) then set_timer_ccr (timer_icr a2) a2 else a2
    else a1.

Definition reset (a : LocalApic) : LocalApic :=
  mkLapic (id a) false 0 0 0xFFFFFFFF 0xFF 0 0 MASKED MASKED MASKED MASKED MASKED MASKED MASKED 0 0 0
    (replicate 8 0) (replicate 8 0) (replicate 8 0) (ipi_callback a) (ipis a) (eoi_callback a) (eois a).

(** ** The register window *)

Definition in_bank (base offset : Z) : bool := (base <=? offset) && (offset <? base + 0x80).

Definition read (a : LocalApic) (offset : Z) : Z :=
  if offset =? ID then trunc 32 (Z.shiftl (id a) 24)
  else if offset =? VERSION then Z.lor 0x14 (Z.shiftl 5 16)
  else if offset =? TPR then tpr a
  else if offset =? APR then Z.land (tpr a) 0xF0
  else if offset =? PPR then processor_priority a
  else if offset =? LDR then ldr a
  else if offset =? DFR then dfr a
  else if offset =? SVR then svr a
  else if offset =? ESR then esr a
  else if offset =? ICR_LOW then trunc 32 (icr a)
  else if offset =? ICR_HIGH then trunc 32 (Z.shiftr (icr a) 32)
  else if offset =? LVT_TIMER then lvt_timer a
  else if offset =? LVT_THERMAL then lvt_thermal a
  else if offset =? LVT_PMC then lvt_pmc a
  else if offset =? LVT_LINT0 then lvt_lint0 a
  else if offset =? LVT_LINT1 then lvt_lint1 a
  else if offset =? LVT_ERROR then lvt_error a
  else if offset =? LVT_CMCI then lvt_cmci a
  else if offset =? TIMER_ICR then timer_icr a
  else if offset =? TIMER_CCR then timer_ccr a
  else if offset =? TIMER_DCR then timer_dcr a
  else if in_bank ISR_BASE offset then word (isr a) ((offset - ISR_BASE) / 0x10)
  else if in_bank TMR_BASE offset then word (tmr a) ((offset - TMR_BASE) / 0x10)
  else if in_bank IRR_BASE offset then word (irr a) ((offset - IRR_BASE) / 0x10)
  else 0.

Definition write (offset value : Z) (a : LocalApic) : LocalApic :=
  if offset =? ID then a
  else if offset =? TPR then set_tpr (Z.land value 0xFF) a
  else if offset =? EOI then handle_eoi a
  else if offset =? LDR then set_ldr (Z.land value 0xFF000000) a
  else if offset =? DFR then set_dfr (Z.lor value 0x0FFFFFFF) a
  else if offset =? SVR then set_enabled (negb (Z.land value APIC_ENABLE =? 0)) (set_svr value a)
  else if offset =? ESR then set_esr 0 a
  else if offset =? ICR_LOW then
    let high := trunc 32 (Z.shiftr (icr a) 32) in
    let new_icr := Z.lor (Z.shiftl high 32) value in
    handle_icr_write new_icr (set_icr new_icr a)
  else if offset =? ICR_HIGH then
    let low := trunc 32 (icr a) in
    set_icr (Z.lor (Z.shiftl value 32) low) a
  else if offset =? LVT_TIMER then set_lvt_timer value a
  else if offset =? LVT_THERMAL then set_lvt_thermal value a
  else if offset =? LVT_PMC then set_lvt_pmc value a
  else if offset =? LVT_LINT0 then set_lvt_lint0 value a
  else if offset =? LVT_LINT1 then set_lvt_lint1 value a
  else if offset =? LVT_ERROR then set_lvt_error value a
  else if offset =? LVT_CMCI then set_lvt_cmci value a
  else if offset =? TIMER_ICR then set_timer_ccr value (set_timer_icr value a)
  else if offset =? TIMER_DCR then set_timer_dcr (Z.land value 0xB) a
  else a.

(** ** The 256-bit registers as sets of vectors *)

Definition bits_ok (l : list Z) : Prop := length l = 8%nat /\ Forall (fits 32) l.

Lemma word_fits l i : bits_ok l -> fits 32 (word l i).
Proof.
  intros [_ Hf]. unfold word. destruct (l !! Z.to_nat i) as [w|] eqn:E; [|done]. cbn. by eapply Forall_lookup_1 in Hf.
Qed.

Lemma vector_word v : is_byte v -> 0 <= v / 32 < 8 /\ 0 <= v mod 32 < 32 /\ v = v / 32 * 32 + v mod 32.
Proof. intros [H1 H2]. pose proof (Z.div_mod v 32 ltac:(lia)). pose proof (Z.mod_pos_bound v 32 ltac:(lia)). lia. Qed.

Lemma test_bit_testbit v l : is_byte v -> test_bit v l = Z.testbit (word l (v / 32)) (v mod 32).
Proof. intros Hv. unfold test_bit. apply has_bit. apply (vector_word v Hv). Qed.

Lemma word_insert l i j w : bits_ok l -> 0 <= i < 8 -> 0 <= j < 8 -> word (<[Z.to_nat i := w]> l) j = if j =? i then w else word l j.
Proof.
  intros [Hl _] Hi Hj. unfold word. destruct (Z.eqb_spec j i) as [->|Hne]; [rewrite list_lookup_insert_eq by lia; done|].
  by rewrite list_lookup_insert_ne by lia.
Qed.

Lemma set_bit_ok v l : is_byte v -> bits_ok l -> bits_ok (set_bit v l).
Proof.
  intros Hv Hl. pose proof (vector_word v Hv). split; [unfold set_bit; rewrite length_insert; apply Hl|]. apply Forall_insert; [apply Hl|].
  apply fits_lor; [lia|by apply word_fits|apply fits_shift1; lia].
Qed.

Lemma clear_bit_ok v l : is_byte v -> bits_ok l -> bits_ok (clear_bit v l).
Proof.
  intros Hv Hl. pose proof (vector_word v Hv). split; [unfold clear_bit; rewrite length_insert; apply Hl|]. apply Forall_insert; [apply Hl|].
  apply fits_land; [by apply word_fits|]. apply (fits_bnot 32). apply fits_shift1. lia.
Qed.

Lemma same_vector u v : is_byte u -> is_byte v -> (u / 32 =? v / 32) && (u mod 32 =? v mod 32) = (u =? v).
Proof.
  intros Hu Hv. pose proof (vector_word u Hu). pose proof (vector_word v Hv).
  destruct (Z.eqb_spec u v) as [->|Hne]; [by rewrite !Z.eqb_refl|]. apply andb_false_iff. rewrite !Z.eqb_neq. lia.
Qed.

Lemma test_set_bit u v l : is_byte u -> is_byte v -> bits_ok l -> test_bit u (set_bit v l) = (u =? v) || test_bit u l.
Proof.
  intros Hu Hv Hl. rewrite !test_bit_testbit by done. pose proof (vector_word u Hu). pose proof (vector_word v Hv).
  unfold set_bit. rewrite word_insert by (done || lia). rewrite <- (same_vector u v) by done.
  destruct (Z.eqb_spec (u / 32) (v / 32)) as [E|]; [|done]. cbn [andb]. rewrite Z.lor_spec, testbit_shift1, E by lia.
  by rewrite orb_comm, (Z.eqb_sym (v mod 32)).
Qed.

Lemma test_clear_bit u v l : is_byte u -> is_byte v -> bits_ok l -> test_bit u (clear_bit v l) = negb (u =? v) && test_bit u l.
Proof.
  intros Hu Hv Hl. rewrite !test_bit_testbit by done. pose proof (vector_word u Hu). pose proof (vector_word v Hv).
  unfold clear_bit. rewrite word_insert by (done || lia). rewrite <- (same_vector u v) by done.
  destruct (Z.eqb_spec (u / 32) (v / 32)) as [E|]; [|done]. cbn [andb].
  rewrite Z.land_spec, testbit_bnot, testbit_shift1, E by (lia || apply fits_shift1; lia).
  by rewrite andb_comm, (Z.eqb_sym (v mod 32)).
Qed.

(** The vectors whose bit is set. *)
Definition bits (l : list Z) : gset Z := list_to_set (filter (fun v => test_bit v l = true) (seqZ 0 256)).

Lemma elem_of_bits v l : v ∈ bits l <-> is_byte v /\ test_bit v l = true.
Proof. unfold bits. rewrite elem_of_list_to_set, list_elem_of_filter, elem_of_seqZ. unfold is_byte. split; intros []; split; done || lia. Qed.

Lemma bits_set v l : is_byte v -> bits_ok l -> bits (set_bit v l) = {[v]} ∪ bits l.
Proof.
  intros Hv Hl. apply set_eq. intros u. rewrite elem_of_union, elem_of_singleton, !elem_of_bits. split.
  - intros [Hu Ht]. rewrite test_set_bit in Ht by done. apply orb_true_iff in Ht as [->%Z.eqb_eq|Ht]; [by left|by right].
  - intros [->|[Hu Ht]]; (split; [done|]); rewrite test_set_bit by done; [by rewrite Z.eqb_refl|by rewrite Ht, orb_true_r].
Qed.

Lemma bits_clear v l : is_byte v -> bits_ok l -> bits (clear_bit v l) = bits l ∖ {[v]}.
Proof.
  intros Hv Hl. apply set_eq. intros u. rewrite elem_of_difference, elem_of_singleton, !elem_of_bits. split.
  - intros [Hu Ht]. rewrite test_clear_bit in Ht by done. apply andb_true_iff in Ht as [Hn Ht]. apply negb_true_iff, Z.eqb_neq in Hn. done.
  - intros [[Hu Ht] Hn]. split; [done|]. rewrite test_clear_bit, Ht by done. by rewrite (proj2 (Z.eqb_neq u v)).
Qed.

Lemma bits_empty : bits (replicate 8 0) = ∅.
Proof. apply set_eq. intros v. rewrite elem_of_bits. split; [|done]. intros [Hv Ht]. rewrite test_bit_testbit in Ht by done.
  unfold word in Ht. destruct (replicate 8 0 !! _) as [w|] eqn:E; [apply lookup_replicate in E as [-> _]|]; cbn [default] in Ht; by rewrite Z.bits_0 in Ht.
Qed.

Lemma bits_ok_zero : bits_ok (replicate 8 0).
Proof. split; [done|]. by apply Forall_replicate. Qed.

Lemma find_from_spec l n :
  bits_ok l -> (n <= 8)%nat ->
  match find_from l n with
  | Some v => is_byte v /\ v / 32 < Z.of_nat n /\ test_bit v l = true /\ forall u, is_byte u -> u / 32 < Z.of_nat n -> test_bit u l = true -> u <= v
  | None => forall u, is_byte u -> u / 32 < Z.of_nat n -> test_bit u l = false
  end.
Proof.
  intros Hl. induction n as [|n IH]; intros Hn; cbn [find_from].
  { intros u Hu. pose proof (vector_word u Hu). lia. }
  specialize (IH ltac:(lia)). set (w := word l (Z.of_nat n)) in *. pose proof (word_fits l (Z.of_nat n) Hl) as Hw. fold w in Hw.
  destruct (Z.eqb_spec w 0) as [E0|Hnz]; cbn [negb].
  - assert (forall u, is_byte u -> u / 32 = Z.of_nat n -> test_bit u l = false) as Hz.
    { intros u Hu E. rewrite test_bit_testbit by done. rewrite E. fold w. by rewrite E0, Z.bits_0. }
    destruct (find_from l n) as [v|].
    + destruct IH as (H1 & H2 & H3 & H4). split_and!; [done|lia|done|]. intros u Hu Hlt Ht. apply H4; [done| |done].
      destruct (decide (u / 32 = Z.of_nat n)) as [E|]; [by rewrite (Hz u Hu E) in Ht|lia].
    + intros u Hu Hlt. destruct (decide (u / 32 = Z.of_nat n)) as [E|]; [by apply Hz|apply IH; [done|lia]].
  - destruct Hw as [Hw0 Hw1]. pose proof (Z.log2_nonneg w). assert (Z.log2 w < 32) as Hlog by (apply Z.log2_lt_pow2; lia).
    unfold leading_zeros. rewrite (proj2 (Z.eqb_neq w 0)) by done. unfold trunc.
    replace (Z.of_nat n * 32 + (31 - (31 - Z.log2 w))) with (Z.of_nat n * 32 + Z.log2 w) by lia. rewrite Z.mod_small by lia.
    set (v := Z.of_nat n * 32 + Z.log2 w). assert (is_byte v) as Hv by (unfold v; split; lia).
    assert (v / 32 = Z.of_nat n /\ v mod 32 = Z.log2 w) as [E1 E2].
    { unfold v. rewrite Z.add_comm, Z.div_add, Z.div_small, Z.mod_add, Z.mod_small by lia. lia. }
    split_and!; [done|lia| |].
    + rewrite test_bit_testbit, E1, E2 by done. fold w. apply Z.bit_log2. lia.
    + intros u Hu Hlt Ht. pose proof (vector_word u Hu) as (? & ? & Hu'). destruct (decide (u / 32 = Z.of_nat n)) as [E|]; [|unfold v; lia].
      rewrite test_bit_testbit, E in Ht by done. fold w in Ht. assert (u mod 32 <= Z.log2 w); [|unfold v; lia].
      destruct (Z.le_gt_cases (u mod 32) (Z.log2 w)) as [|Hgt]; [done|]. by rewrite Z.bits_above_log2 in Ht by lia.
Qed.

(** The search finds the highest vector of the set. *)
Lemma find_highest_spec l :
  bits_ok l ->
  match find_highest_set_bit l with
  | Some v => v ∈ bits l /\ forall u, u ∈ bits l -> u <= v
  | None => bits l = ∅
  end.
Proof.
  intros Hl. pose proof (find_from_spec l 8 Hl ltac:(lia)) as H. unfold find_highest_set_bit.
  assert (forall u, is_byte u -> u / 32 < Z.of_nat 8) as Hlt by (intros u Hu; pose proof (vector_word u Hu); lia).
  destruct (find_from l 8) as [v|].
  - destruct H as (H1 & _ & H3 & H4). split; [by apply elem_of_bits|]. intros u [Hu Ht]%elem_of_bits. by apply H4; [|apply Hlt|].
  - apply set_eq. intros u. rewrite elem_of_bits. split; [|done]. intros [Hu Ht]. by rewrite H in Ht by auto.
Qed.

Lemma find_highest_is l v : bits_ok l -> v ∈ bits l -> (forall u, u ∈ bits l -> u <= v) -> find_highest_set_bit l = Some v.
Proof.
  intros Hl Hv Hm. pose proof (find_highest_spec l Hl) as H. destruct (find_highest_set_bit l) as [w|].
  - destruct H as [Hw Hw']. f_equal. pose proof (Hm w Hw). pose proof (Hw' v Hv). lia.
  - rewrite H in Hv. by apply elem_of_empty in Hv.
Qed.

(** ** What the controller promises

    Requested vectors are a set, the interrupts in service a stack.  An interrupt is
    delivered when it is the highest requested and of a higher priority class than the
    task and the one on top of the stack; an end of interrupt pops the stack. *)

Definition class (v : Z) : Z := v / 16.

Record Cpu := mkCpu {
  on : bool;
  task : Z;
  requested : gset Z;
  level : gset Z;
  stack : list Z;
  told : list Z
}.

Definition deliverable (s : Cpu) (v : Z) : Prop :=
  v ∈ requested s /\ (forall u, u ∈ requested s -> u <= v) /\ class (task s) < class v /\
  (forall u, head (stack s) = Some u -> class u < class v).

Definition request (v : Z) (lv : bool) (s : Cpu) : Cpu :=
  if on s && (16 <=? v) then
    mkCpu (on s) (task s) ({[v]} ∪ requested s) (if lv then {[v]} ∪ level s else level s) (stack s) (told s)
  else s.

Inductive LOp := LAccept (v : Z) (lv : bool) | LDeliver | LWrite (offset value : Z) | LTick.

(** A step of the promise, with the vector it hands to the processor. *)
Inductive cpu_step : Cpu -> LOp -> option Z -> Cpu -> Prop :=
| step_accept s v lv : cpu_step s (LAccept v lv) None (request v lv s)
| step_deliver s v : deliverable s v ->
    cpu_step s LDeliver (Some v) (mkCpu (on s) (task s) (requested s ∖ {[v]}) (level s) (v :: stack s) (told s))
| step_nothing s : (forall v, ~ deliverable s v) -> cpu_step s LDeliver None s
| step_end s value v st : stack s = v :: st ->
    cpu_step s (LWrite EOI value) None
      (mkCpu (on s) (task s) (requested s) (level s) st (if decide (v ∈ level s) then told s ++ [v] else told s))
| step_no_end s value : stack s = [] -> cpu_step s (LWrite EOI value) None s
| step_tpr s value : cpu_step s (LWrite TPR value) None (mkCpu (on s) (Z.land value 0xFF) (requested s) (level s) (stack s) (told s))
| step_svr s value : cpu_step s (LWrite SVR value) None
    (mkCpu (negb (Z.land value APIC_ENABLE =? 0)) (task s) (requested s) (level s) (stack s) (told s))
| step_other s offset value : offset <> EOI -> offset <> TPR -> offset <> SVR -> cpu_step s (LWrite offset value) None s
| step_idle s : cpu_step s LTick None s
| step_expire s v : is_byte v -> cpu_step s LTick None (request v false s).

Inductive cpu_run : Cpu -> list LOp -> list (option Z) -> Cpu -> Prop :=
| run_nil s : cpu_run s [] [] s
| run_cons s o r s1 os rs s2 : cpu_step s o r s1 -> cpu_run s1 os rs s2 -> cpu_run s (o :: os) (r :: rs) s2.

(** The processor takes what is pending and acknowledges it. *)
Definition deliver (a : LocalApic) : option Z * LocalApic :=
  match get_pending_interrupt a with Some v => (Some v, acknowledge_interrupt v a) | None => (None, a) end.

Definition apply_lop (o : LOp) (a : LocalApic) : option Z * LocalApic :=
  match o with
  | LAccept v lv => (None, accept_interrupt v lv a)
  | LDeliver => deliver a
  | LWrite offset value => (None, write offset value a)
  | LTick => (None, timer_tick a)
  end.

Fixpoint apply_lops (os : list LOp) (a : LocalApic) : list (option Z) * LocalApic :=
  match os with
  | [] => ([], a)
  | o :: os' => let '(r, a1) := apply_lop o a in let '(rs, a2) := apply_lops os' a1 in (r :: rs, a2)
  end.

Definition lop_ok (o : LOp) : Prop := match o with LAccept v _ => is_byte v | _ => True end.

(** Interrupts in service, the latest first, are of falling priority class. *)
Definition nested (st : list Z) : Prop := StronglySorted (fun u v => class v < class u) st.

Record lapic_rel (s : Cpu) (a : LocalApic) : Prop := {
  lr_on : enabled a = on s;
  lr_task : tpr a = task s;
  lr_byte : is_byte (task s);
  lr_irr_ok : bits_ok (irr a);
  lr_isr_ok : bits_ok (isr a);
  lr_tmr_ok : bits_ok (tmr a);
  lr_irr : bits (irr a) = requested s;
  lr_tmr : bits (tmr a) = level s;
  lr_isr : bits (isr a) = list_to_set (stack s);
  lr_nested : nested (stack s);
  lr_callback : eoi_callback a = true;
  lr_told : eois a = told s
}.

Lemma stack_head st v : nested (v :: st) -> forall u, u ∈ v :: st -> class u <= class v /\ (u <> v -> class u < class v).
Proof.
  intros Hn u. inversion Hn as [|? ? Hs Hf]; subst. intros [->|Hu]%elem_of_cons; [split; [lia|done]|].
  rewrite Forall_forall in Hf. specialize (Hf u Hu). cbn in Hf. split; [lia|done].
Qed.

Lemma class_le u v : class u < class v -> u < v.
Proof. unfold class. intros H. apply Z.lt_nge. intros Hle. pose proof (Z.div_le_mono v u 16 ltac:(lia) Hle). lia. Qed.

(** The highest vector in service is the top of the stack. *)
Lemma in_service_top s a : lapic_rel s a -> find_highest_set_bit (isr a) = head (stack s).
Proof.
  intros H. destruct H. destruct (stack s) as [|v st] eqn:E.
  - pose proof (find_highest_spec (isr a) lr_isr_ok0) as Hs. destruct (find_highest_set_bit (isr a)) as [w|]; [|done].
    destruct Hs as [Hw _]. rewrite lr_isr0 in Hw. by apply elem_of_empty in Hw.
  - apply find_highest_is; [done|rewrite lr_isr0; apply elem_of_list_to_set, list_elem_of_here|]. intros u Hu. rewrite lr_isr0, elem_of_list_to_set in Hu.
    destruct (stack_head st v lr_nested0 u Hu) as [_ Hlt]. destruct (decide (u = v)) as [->|Hne]; [lia|].
    apply Z.lt_le_incl, class_le, Hlt, Hne.
Qed.

Lemma land_f0 v : is_byte v -> Z.land v 0xF0 = class v * 16 /\ 0 <= class v < 16.
Proof.
  intros [H1 H2]. unfold class. split; [|split; [apply Z.div_pos; lia|apply Z.div_lt_upper_bound; lia]].
  change 16 with (2 ^ 4). rewrite <- Z.shiftl_mul_pow2, <- Z.shiftr_div_pow2 by lia. rewrite <- Z.ldiff_ones_r by lia.
  apply Z.bits_inj'. intros n Hn. rewrite Z.land_spec, Z.ldiff_spec. destruct (Z.ltb_spec n 8).
  - assert (n = 0 \/ n = 1 \/ n = 2 \/ n = 3 \/ n = 4 \/ n = 5 \/ n = 6 \/ n = 7) as Hc by lia.
    destruct Hc as [->|[->|[->|[->|[->|[->|[->| ->]]]]]]]; by rewrite ?andb_false_r, ?andb_true_r.
  - by rewrite (fits_testbit 8 v n) by (split; lia).
Qed.

Lemma stack_bytes s a v : lapic_rel s a -> v ∈ stack s -> is_byte v.
Proof. intros H Hv. destruct H. assert (v ∈ bits (isr a)) as [? _]%elem_of_bits; [|done]. rewrite lr_isr0. by apply elem_of_list_to_set. Qed.

Lemma priority_spec s a :
  lapic_rel s a -> processor_priority a = 16 * Z.max (class (task s)) (match head (stack s) with Some v => class v | None => 0 end).
Proof.
  intros H. unfold processor_priority, get_highest_isr_priority. rewrite (in_service_top s a H), (lr_task s a H).
  destruct (land_f0 (task s) (lr_byte s a H)) as [-> Ht]. destruct (head (stack s)) as [v|]; [|unfold class in *; rewrite Z.shiftl_0_l; lia].
  rewrite Z.shiftr_div_pow2, Z.shiftl_mul_pow2 by lia. change (2 ^ 4) with 16. unfold class. lia.
Qed.

Lemma pending_spec s a : lapic_rel s a ->
  match get_pending_interrupt a with Some v => deliverable s v /\ is_byte v | None => forall v, ~ deliverable s v end.
Proof.
  intros H. unfold get_pending_interrupt. rewrite (priority_spec s a H). pose proof (find_highest_spec (irr a) (lr_irr_ok s a H)) as Hf.
  set (top := match head (stack s) with Some v => class v | None => 0 end).
  assert (0 <= top < 16) as Htop.
  { unfold top. destruct (stack s) as [|u st] eqn:E; cbn [head]; [lia|]. apply land_f0. apply (stack_bytes s a u H). rewrite E. apply list_elem_of_here. }
  destruct (land_f0 _ (lr_byte s a H)) as [_ Ht]. assert (trunc 8 (16 * Z.max (class (task s)) top) = 16 * Z.max (class (task s)) top) as ->.
  { unfold trunc. apply Z.mod_small. lia. }
  rewrite (lr_irr s a H) in Hf. destruct (find_highest_set_bit (irr a)) as [v|] eqn:Ev.
  - destruct Hf as [Hv Hm]. assert (is_byte v) as Hb by (rewrite <- (lr_irr s a H) in Hv; apply elem_of_bits in Hv; apply Hv).
    destruct (land_f0 v Hb) as [-> Hc]. destruct (Z.ltb_spec (16 * Z.max (class (task s)) top) (class v * 16)).
    + split; [|done]. split_and!; [done|done|lia|]. intros u Hu. unfold top in *. rewrite Hu in *. lia.
    + intros w (Hw & Hw' & Hwt & Hws). assert (w = v) as -> by (pose proof (Hm w Hw); pose proof (Hw' v Hv); lia).
      unfold top in *. destruct (head (stack s)) as [u|]; [specialize (Hws u eq_refl); lia|lia].
  - intros v (Hv & _). rewrite Hf in Hv. by apply elem_of_empty in Hv.
Qed.

Lemma accept_rel s a v lv : is_byte v -> lapic_rel s a -> lapic_rel (request v lv s) (accept_interrupt v lv a).
Proof.
  intros Hv H. unfold accept_interrupt, request. destruct H. rewrite lr_on0, Z.ltb_antisym. destruct (on s) eqn:Eo; cbn [negb orb andb]; [|split; try done; congruence].
  destruct (16 <=? v); cbn [negb]; [|split; try done; congruence].
  destruct lv; split; cbn [enabled tpr irr isr tmr eoi_callback eois on task requested level stack told set_irr set_tmr]; try done;
    try (by apply set_bit_ok); rewrite bits_set by done; congruence.
Qed.

Lemma deliver_rel s a : lapic_rel s a -> exists s', cpu_step s LDeliver (deliver a).1 s' /\ lapic_rel s' (deliver a).2.
Proof.
  intros H. pose proof (pending_spec s a H) as Hp. unfold deliver. destruct (get_pending_interrupt a) as [v|]; [|exists s; by split; [constructor|]].
  destruct Hp as [Hd Hb]. eexists. split; [by apply step_deliver|]. pose proof Hd as (Hv & _ & _ & Htop). destruct H.
  split; cbn [snd acknowledge_interrupt enabled tpr irr isr tmr eoi_callback eois on task requested level stack told set_irr set_isr]; try done.
  - by apply clear_bit_ok.
  - by apply set_bit_ok.
  - rewrite bits_clear by done. by rewrite lr_irr0.
  - rewrite bits_set by done. by rewrite lr_isr0.
  - constructor; [done|]. apply Forall_forall. intros u Hu. destruct (stack s) as [|w st]; [by apply not_elem_of_nil in Hu|].
    specialize (Htop w eq_refl). destruct (stack_head st w lr_nested0 u Hu). lia.
Qed.

Lemma eoi_rel s a value : lapic_rel s a -> exists s', cpu_step s (LWrite EOI value) None s' /\ lapic_rel s' (handle_eoi a).
Proof.
  intros H. unfold handle_eoi. rewrite (in_service_top s a H). destruct (stack s) as [|v st] eqn:E; cbn [head].
  { exists s. split; [by apply step_no_end|done]. }
  assert (is_byte v) as Hb by (apply (stack_bytes s a v H); rewrite E; apply list_elem_of_here).
  eexists. split; [by apply step_end|]. destruct H. rewrite E in *.
  assert (test_bit v (tmr a) = bool_decide (v ∈ level s)) as Hl.
  { rewrite <- lr_tmr0. destruct (test_bit v (tmr a)) eqn:Et; symmetry;
      [apply bool_decide_eq_true; by apply elem_of_bits|apply bool_decide_eq_false; intros [_ ?]%elem_of_bits; congruence]. }
  cbn [set_isr tmr eoi_callback]. rewrite Hl, lr_callback0. inversion lr_nested0 as [|? ? Hs Hf]; subst.
  assert (bits (clear_bit v (isr a)) = list_to_set st) as Hbits.
  { rewrite bits_clear, lr_isr0 by done. assert (v ∉ st) as Hn.
    { intros Hin. rewrite Forall_forall in Hf. specialize (Hf v Hin). cbn in Hf. lia. }
    cbn [list_to_set]. apply set_eq. intros u. rewrite elem_of_difference, elem_of_union, !elem_of_singleton, elem_of_list_to_set.
    split; [by intros [[->|?] ?]|]. intros Hu. split; [by right|]. by intros ->. }
  case_bool_decide; [rewrite decide_True by done|rewrite decide_False by done];
    (split; cbn [enabled tpr irr isr tmr eoi_callback eois on task requested level stack told set_isr call_eoi]; try done; try (by apply clear_bit_ok); congruence).
Qed.

(** Writes that do not touch the interrupt state. *)
Lemma other_rel s a offset value :
  offset <> EOI -> offset <> TPR -> offset <> SVR -> lapic_rel s a -> lapic_rel s (write offset value a).
Proof.
  intros H1 H2 H3 H. unfold write. rewrite (proj2 (Z.eqb_neq _ _) H1), (proj2 (Z.eqb_neq _ _) H2), (proj2 (Z.eqb_neq _ _) H3).
  assert (forall v b, lapic_rel s b -> lapic_rel s (handle_icr_write v b)) as Hicr.
  { intros v b Hb. unfold handle_icr_write. destruct (ipi_callback b); [|done]. destruct (shorthand_from_bits _); by destruct Hb. }
  repeat (match goal with |- context [if ?b then _ else _] => destruct b end; try (by destruct H)).
  apply Hicr. by destruct H.
Qed.

Lemma tick_rel s a : lapic_rel s a -> exists s', cpu_step s LTick None s' /\ lapic_rel s' (timer_tick a).
Proof.
  intros H. unfold timer_tick. cbv zeta. destruct (bool_decide _); [exists s; split; [constructor|done]|].
  destruct (timer_ccr a =? 0); [exists s; split; [constructor|done]|].
  assert (forall n b, lapic_rel s b -> lapic_rel s (set_timer_ccr n b)) as Hc by (intros n b Hb; by destruct Hb).
  assert (forall s n b, lapic_rel s b -> lapic_rel s (set_timer_ccr n b)) as Hc' by (intros s0 n b Hb; by destruct Hb).
  destruct (saturating_sub _ _ =? 0); [|exists s; split; [constructor|by apply Hc]].
  destruct (Z.land _ MASKED =? 0).
  - exists (request (trunc 8 (Z.land (lvt_timer a) VECTOR_MASK)) false s).
    assert (is_byte (trunc 8 (Z.land (lvt_timer a) VECTOR_MASK))) as Hb by by apply Z.mod_pos_bound. split; [by apply step_expire|].
    cbn [set_timer_ccr lvt_timer]. destruct (bool_decide _); [apply Hc'|]; apply accept_rel; by try apply Hc.
  - exists s. split; [constructor|]. destruct (bool_decide _); by repeat apply Hc.
Qed.

Lemma lop_rel s a o : lop_ok o -> lapic_rel s a -> exists s', cpu_step s o (apply_lop o a).1 s' /\ lapic_rel s' (apply_lop o a).2.
Proof.
  intros Ho H. destruct o as [v lv| |offset value|]; cbn [apply_lop fst snd].
  - eexists. split; [constructor|by apply accept_rel].
  - by apply deliver_rel.
  - destruct (decide (offset = EOI)) as [->|H1]; [by apply eoi_rel|].
    destruct (decide (offset = TPR)) as [->|H2].
    { eexists. split; [constructor|]. change (write TPR value a) with (set_tpr (Z.land value 0xFF) a). destruct H. split; try done.
      cbn [task]. change 0xFF with (Z.ones 8). rewrite Z.land_ones by lia. by apply Z.mod_pos_bound. }
    destruct (decide (offset = SVR)) as [->|H3].
    { eexists. split; [constructor|]. by destruct H. }
    exists s. split; [by constructor|by apply other_rel].
  - by apply tick_rel.
Qed.

(** C26: The controller keeps its promise: whatever is requested, written and ticked, and
    whenever the processor takes an interrupt, it takes exactly the one the promise
    allows; the interrupts in service nest with rising priority class, an end of
    interrupt ends the latest, and the ends of level-triggered vectors are told. *)
Theorem lapic_refines i os :
  Forall lop_ok os ->
  exists s, cpu_run (mkCpu false 0 ∅ ∅ [] []) os (apply_lops os (set_eoi_callback (lapic_new i))).1 s /\
    lapic_rel s (apply_lops os (set_eoi_callback (lapic_new i))).2.
Proof.
  assert (lapic_rel (mkCpu false 0 ∅ ∅ [] []) (set_eoi_callback (lapic_new i))) as H0.
  { split; try done; try apply bits_ok_zero; try apply bits_empty. constructor. }
  revert H0. generalize (mkCpu false 0 ∅ ∅ [] []), (set_eoi_callback (lapic_new i)). intros s a H Hos. revert s a H.
  induction Hos as [|o os Ho _ IH]; intros s a H; cbn [apply_lops].
  { exists s. split; [constructor|done]. }
  destruct (lop_rel s a o Ho H) as (s1 & Hs & H1). destruct (apply_lop o a) as [r a1]. cbn [fst snd] in *.
  destruct (IH s1 a1 H1) as (s2 & Hr & H2). destruct (apply_lops os a1) as [rs a2]. exists s2. split; [by econstructor|done].
Qed.

(** ** The timer *)

(** Ticks until a count of [n] has run out, taken down [d] at a tick. *)
Definition period (n d : Z) : Z := (n + d - 1) / d.

Definition ccr_after (m : TimerMode) (n d k : Z) : Z :=
  if bool_decide (m = Periodic) then n - d * (k mod period n d) else Z.max 0 (n - d * k).

Lemma divisor_pos dcr : 1 <= get_divisor dcr <= 128.
Proof.
  unfold get_divisor. set (b := Z.lor _ _). destruct b as [|[[[]|[]|]|[[]|[]|]|]|]; lia.
Qed.

Lemma period_spec n d : 0 < n -> 1 <= d -> 1 <= period n d /\ d * (period n d - 1) < n <= d * period n d.
Proof.
  intros Hn Hd. unfold period. pose proof (Z.div_mod (n + d - 1) d ltac:(lia)). pose proof (Z.mod_pos_bound (n + d - 1) d ltac:(lia)).
  split; [|nia]. apply Z.div_le_lower_bound; lia.
Qed.

Lemma mod_succ k p : 0 <= k -> 1 <= p -> (k + 1) mod p = if k mod p =? p - 1 then 0 else k mod p + 1.
Proof.
  intros Hk Hp. pose proof (Z.div_mod k p ltac:(lia)). pose proof (Z.mod_pos_bound k p ltac:(lia)). symmetry.
  destruct (Z.eqb_spec (k mod p) (p - 1)).
  - apply Z.mod_unique_pos with (k / p + 1); [lia|]. nia.
  - apply Z.mod_unique_pos with (k / p); lia.
Qed.

(** A timer that counts: its mode, initial count and divisor, and a vector that the
    controller accepts. *)
Record counting (m : TimerMode) (n d v : Z) (a : LocalApic) : Prop := {
  ct_mode : timer_mode a = m;
  ct_icr : timer_icr a = n;
  ct_div : get_divisor (timer_dcr a) = d;
  ct_open : Z.land (lvt_timer a) MASKED = 0;
  ct_vector : trunc 8 (Z.land (lvt_timer a) VECTOR_MASK) = v;
  ct_on : enabled a = true;
  ct_irr : bits_ok (irr a)
}.

Lemma tick_counting m n d v a :
  m <> TscDeadline -> 16 <= v < 256 -> counting m n d v a -> 0 < timer_ccr a ->
  counting m n d v (timer_tick a) /\
  timer_ccr (timer_tick a) =
    (if timer_ccr a <=? d then if bool_decide (m = Periodic) then n else 0 else timer_ccr a - d) /\
  bits (irr (timer_tick a)) = if timer_ccr a <=? d then {[v]} ∪ bits (irr a) else bits (irr a).
Proof.
  intros Hm Hv [H1 H2 H3 H4 H5 H6 H7] Hc. unfold timer_tick. cbv zeta. rewrite H1, bool_decide_false by done.
  rewrite (proj2 (Z.eqb_neq _ _)) by lia. rewrite H3. unfold saturating_sub. assert (is_byte v) as Hb by (split; lia).
  destruct (Z.leb_spec (timer_ccr a) d).
  - rewrite Z.max_r, Z.eqb_refl by lia. cbn [set_timer_ccr lvt_timer]. rewrite H4, H5. cbn [Z.eqb].
    unfold accept_interrupt. cbn [set_timer_ccr enabled]. rewrite H6, (proj2 (Z.ltb_ge v 16)) by lia. cbn [negb orb].
    assert (bits_ok (set_bit v (irr a))) as Hok by by apply set_bit_ok. destruct (bool_decide (m = Periodic)); split_and!; try done;
      cbn [set_timer_ccr set_irr irr timer_ccr timer_icr]; by rewrite bits_set.
  - rewrite Z.max_l, (proj2 (Z.eqb_neq _ 0)) by lia. done.
Qed.

Lemma tick_stopped a : timer_ccr a = 0 -> timer_tick a = a.
Proof. intros H. unfold timer_tick. cbv zeta. rewrite H. by destruct (bool_decide _). Qed.

(** The timer fires first after [ceil (n / d)] ticks, and when it is periodic after
    every so many; a larger divisor makes it fire sooner. *)
Theorem timer_period m n v k a :
  let d := get_divisor (timer_dcr a) in
  m <> TscDeadline -> 16 <= v < 256 -> 0 < n -> counting m n d v a -> timer_ccr a = n ->
  timer_ccr (Nat.iter k timer_tick a) = ccr_after m n d (Z.of_nat k) /\
  bits (irr (Nat.iter k timer_tick a)) = if period n d <=? Z.of_nat k then {[v]} ∪ bits (irr a) else bits (irr a).
Proof.
  intros d Hm Hv Hn Hc Hccr. pose proof (divisor_pos (timer_dcr a)) as Hd. fold d in Hd. destruct (period_spec n d) as [Hp Hb]; [lia|lia|].
  cut (counting m n d v (Nat.iter k timer_tick a) /\ timer_ccr (Nat.iter k timer_tick a) = ccr_after m n d (Z.of_nat k) /\
    bits (irr (Nat.iter k timer_tick a)) = if period n d <=? Z.of_nat k then {[v]} ∪ bits (irr a) else bits (irr a)); [by intros (_ & ?)|].
  induction k as [|k IH].
  { change (Nat.iter 0 timer_tick a) with a. change (Z.of_nat 0) with 0. unfold ccr_after. rewrite Z.mod_0_l, !Z.mul_0_r, (proj2 (Z.leb_gt _ _)) by lia.
    split_and!; [done| |done]. destruct (bool_decide _); lia. }
  rewrite Nat.iter_succ. destruct IH as (IH1 & IH2 & IH3). set (b := Nat.iter k timer_tick a) in *.
  pose proof (Z.mod_pos_bound (Z.of_nat k) (period n d) ltac:(lia)) as Hmod.
  destruct (decide (timer_ccr b = 0)) as [E0|Hnz].
  - rewrite tick_stopped by done. assert (m <> Periodic) as Hnp.
    { intros ->. rewrite E0 in IH2. unfold ccr_after in IH2. rewrite bool_decide_true in IH2 by done. nia. }
    rewrite E0 in IH2. unfold ccr_after in IH2 |- *. rewrite bool_decide_false in IH2 |- * by done.
    assert (n <= d * Z.of_nat k) as Hk by lia. assert (period n d <= Z.of_nat k) as Hpk by nia.
    split_and!; [done|rewrite E0; nia|]. rewrite IH3, !(proj2 (Z.leb_le _ _)) by lia. done.
  - assert (0 < timer_ccr b) as Hpos.
    { rewrite IH2 in Hnz |- *. unfold ccr_after in *. destruct (bool_decide _); [nia|lia]. }
    destruct (tick_counting m n d v b Hm Hv IH1 Hpos) as (T1 & T2 & T3). split; [done|]. rewrite T2, T3, IH3, IH2. clear T1 T2 T3 IH3.
    rewrite Nat2Z.inj_succ, <- Z.add_1_r. rewrite IH2 in Hpos. unfold ccr_after in *. destruct (bool_decide (m = Periodic)).
    + rewrite mod_succ by lia. set (j := Z.of_nat k mod period n d) in *.
      destruct (Z.eqb_spec j (period n d - 1)) as [Ej|Hj].
      * rewrite (proj2 (Z.leb_le _ _)) by nia. split; [lia|]. assert (period n d - 1 <= Z.of_nat k) as Hk.
        { rewrite <- Ej. apply Z.mod_le; lia. }
        rewrite (proj2 (Z.leb_le _ (Z.of_nat k + 1))) by lia. destruct (period n d <=? Z.of_nat k); [|done]. apply set_eq. intros u. rewrite !elem_of_union. tauto.
      * rewrite (proj2 (Z.leb_gt _ d)) by nia. split; [lia|]. destruct (Z.leb_spec (period n d) (Z.of_nat k)).
        { by rewrite (proj2 (Z.leb_le _ _)) by lia. }
        rewrite (proj2 (Z.leb_gt _ _)); [done|]. assert (j = Z.of_nat k) by (apply Z.mod_small; lia). lia.
    + rewrite Z.max_r in Hpos |- * by lia. assert (Z.of_nat k < period n d) as Hk by nia. rewrite (proj2 (Z.leb_gt (period n d) (Z.of_nat k))) by lia.
      destruct (Z.leb_spec (n - d * Z.of_nat k) d).
      * rewrite (proj2 (Z.leb_le _ _)) by nia. split; [nia|done].
      * rewrite (proj2 (Z.leb_gt _ _)) by nia. split; [nia|done].
Qed.

(** ** Trigger modes stick *)

Lemma accept_tmr v u lv a : is_byte u -> bits_ok (tmr a) -> bits_ok (tmr (accept_interrupt u lv a)) /\ (v ∈ bits (tmr a) -> v ∈ bits (tmr (accept_interrupt u lv a))).
Proof.
  intros Hu Ht. unfold accept_interrupt. destruct (_ || _); [done|]. destruct lv; [|done]. cbn [set_irr set_tmr tmr].
  split; [by apply set_bit_ok|]. rewrite bits_set by done. rewrite elem_of_union. by right.
Qed.

Lemma lop_tmr v o a :
  lop_ok o -> bits_ok (tmr a) -> bits_ok (tmr (apply_lop o a).2) /\ (v ∈ bits (tmr a) -> v ∈ bits (tmr (apply_lop o a).2)).
Proof.
  intros Ho Ht. destruct o as [u lv| |offset value|]; cbn [apply_lop snd].
  - by apply accept_tmr.
  - unfold deliver. by destruct (get_pending_interrupt a).
  - assert (tmr (write offset value a) = tmr a) as ->; [|done]. unfold write.
    assert (forall x b, tmr (handle_icr_write x b) = tmr b) as Hi.
    { intros x b. unfold handle_icr_write. destruct (ipi_callback b); [|done]. by destruct (shorthand_from_bits _). }
    assert (tmr (handle_eoi a) = tmr a) as He.
    { unfold handle_eoi. destruct (find_highest_set_bit _); [|done]. cbv zeta. destruct (test_bit _ _); [|done]. by destruct (eoi_callback _). }
    repeat (match goal with |- context [if ?b then _ else _] => destruct b end; try done). by rewrite Hi.
  - unfold timer_tick. cbv zeta. destruct (bool_decide _); [done|]. destruct (_ =? 0); [done|]. destruct (_ =? 0); [|done].
    destruct (Z.land _ MASKED =? 0); [|by destruct (bool_decide _)].
    pose proof (accept_tmr v (trunc 8 (Z.land (lvt_timer a) VECTOR_MASK)) false (set_timer_ccr (saturating_sub (timer_ccr a) (get_divisor (timer_dcr a))) a)) as Hacc.
    destruct (bool_decide _); apply Hacc; done || by apply Z.mod_pos_bound.
Qed.

(** A vector that came level-triggered once counts as level-triggered for ever: no
    operation short of a reset takes it back, so the end of a later edge-triggered
    interrupt of that vector is told to the I/O controller as well. *)
Theorem tmr_sticky v os a :
  Forall lop_ok os -> bits_ok (tmr a) -> v ∈ bits (tmr a) ->
  let b := (apply_lops os a).2 in
  v ∈ bits (tmr b) /\ (find_highest_set_bit (isr b) = Some v -> eoi_callback b = true -> eois (write EOI 0 b) = eois b ++ [v]).
Proof.
  intros Hos Ht Hv b. assert (v ∈ bits (tmr b)) as Hb.
  { unfold b. clear b. revert a Ht Hv. induction Hos as [|o os Ho _ IH]; intros a Ht Hv; cbn [apply_lops]; [done|].
    destruct (lop_tmr v o a Ho Ht) as [Ht' Hv']. destruct (apply_lop o a) as [r a1]. cbn [snd] in *.
    specialize (IH a1 Ht' (Hv' Hv)). by destruct (apply_lops os a1). }
  split; [done|]. intros Hf Hc. change (write EOI 0 b) with (handle_eoi b). unfold handle_eoi. rewrite Hf. cbn [set_isr tmr eoi_callback].
  apply elem_of_bits in Hb as [_ ->]. by rewrite Hc.
Qed.

(** ** Sending an interrupt to another processor *)

Lemma byte_field d : is_byte d -> forall x, fits 32 x ->
  trunc 8 (Z.shiftr (Z.land (Z.lor (Z.shiftl (Z.shiftl d 24) 32) x) DEST_MASK) DEST_SHIFT) = d.
Proof.
  intros Hd x Hx. apply Z.bits_inj'. intros i Hi. unfold trunc. rewrite <- Z.land_ones by lia. rewrite Z.land_spec, Z.shiftr_spec, Z.land_spec, Z.lor_spec, Z.testbit_ones by lia.
  unfold DEST_MASK, DEST_SHIFT. rewrite !Z.shiftl_spec by lia. rewrite (fits_testbit 32 x) by (done || lia). rewrite orb_false_r.
  replace (i + 56 - 32 - 24) with i by lia. replace (i + 56 - 56) with i by lia. change 255 with (Z.ones 8). rewrite Z.testbit_ones by lia.
  destruct (Z.ltb_spec i 8).
  - rewrite (proj2 (Z.leb_le 0 i)) by lia. by rewrite !andb_true_r.
  - rewrite (fits_testbit 8 d i) by (split; destruct Hd; lia || done). by rewrite !andb_false_r.
Qed.

Lemma low_field d x mask : fits 32 mask -> Z.land (Z.lor (Z.shiftl d 32) x) mask = Z.land x mask.
Proof.
  intros Hm. apply Z.bits_inj'. intros i Hi. rewrite !Z.land_spec, Z.lor_spec. destruct (Z.ltb_spec i 32).
  - by rewrite Z.shiftl_spec_low.
  - rewrite (fits_testbit 32 mask i) by (done || lia). by rewrite !andb_false_r.
Qed.

(** Writing the destination and then a command without a shorthand sends one
    interrupt, with the vector and the mode of the command, to that destination. *)
Theorem ipi_spec dest cmd a :
  is_byte dest -> fits 32 cmd -> ipi_callback a = true -> Z.land cmd DESTSHORT_MASK = 0 ->
  ipis (write ICR_LOW cmd (write ICR_HIGH (Z.shiftl dest 24) a)) =
    ipis a ++ [(dest, Z.land cmd 0xFF, delivery_from_bits (Z.shiftr (Z.land cmd 0x700) 8))].
Proof.
  intros Hd Hc Hi Hs. change (write ICR_HIGH (Z.shiftl dest 24) a) with (set_icr (Z.lor (Z.shiftl (Z.shiftl dest 24) 32) (trunc 32 (icr a))) a).
  set (a1 := set_icr _ a). change (write ICR_LOW cmd a1) with
    (let new := Z.lor (Z.shiftl (trunc 32 (Z.shiftr (icr a1) 32)) 32) cmd in handle_icr_write new (set_icr new a1)). cbv zeta.
  assert (trunc 32 (Z.shiftr (icr a1) 32) = Z.shiftl dest 24) as ->.
  { unfold a1. cbn [set_icr icr]. apply Z.bits_inj'. intros i Hn. unfold trunc at 1. rewrite <- Z.land_ones by lia.
    rewrite Z.land_spec, Z.shiftr_spec, Z.lor_spec, Z.testbit_ones, Z.shiftl_spec by lia. replace (i + 32 - 32) with i by lia.
    rewrite (fits_testbit 32 (trunc 32 (icr a))) by (lia || by apply Z.mod_pos_bound). rewrite orb_false_r.
    destruct (Z.ltb_spec i 32); [by rewrite (proj2 (Z.leb_le 0 i)), andb_true_r by lia|].
    rewrite Z.shiftl_spec, (fits_testbit 8 dest) by (lia || destruct Hd; split; lia). done. }
  unfold handle_icr_write. unfold a1. cbn [set_icr ipi_callback id]. rewrite Hi. rewrite byte_field by done.
  rewrite !low_field, Hs by done. cbn [icr_targets foldl call_ipi ipis set_icr]. unfold trunc.
  assert (forall m, 0 <= m < 256 -> m mod 2 ^ 8 = m) as Hmod by (intros; by apply Z.mod_small).
  unfold VECTOR_MASK, DELMODE_MASK, DELMODE_SHIFT. rewrite Hmod by (change 255 with (Z.ones 8); rewrite Z.land_ones by lia; by apply Z.mod_pos_bound).
  rewrite Hmod; [done|]. assert (fits 11 (Z.land cmd 0x700)) as [H1 H2].
  { rewrite Z.land_comm. apply fits_land; [done|apply Hc]. }
  rewrite Z.shiftr_div_pow2 by lia. split; [apply Z.div_pos; lia|apply Z.div_lt_upper_bound; lia].
Qed.

(** ** Examples *)

(** An interrupt, a higher one on top of it, and the end of the higher one. *)
Definition nesting_ops : list LOp :=
  [LWrite SVR 0x1FF; LAccept 0x31 true; LDeliver; LAccept 0x38 false; LDeliver; LAccept 0x52 false; LDeliver; LWrite EOI 0; LDeliver].

Lemma lapic_refines_witness :
  exists s, cpu_run (mkCpu false 0 ∅ ∅ [] []) nesting_ops [None; None; Some 0x31; None; None; None; Some 0x52; None; None] s /\
    lapic_rel s (apply_lops nesting_ops (set_eoi_callback (lapic_new 0))).2.
Proof.
  apply (lapic_refines 0 nesting_ops). repeat (apply Forall_cons; split); try apply Forall_nil_2; by repeat split.
Defined.

(** A periodic timer on vector 0x30 with a count of 100 and divisor 16. *)
Definition example_lapic : LocalApic :=
  write TIMER_ICR 100 (write TIMER_DCR 3 (write LVT_TIMER (Z.lor 0x30 (Z.shiftl 1 17)) (write SVR 0x1FF (set_eoi_callback (lapic_new 0))))).

(** It fires after seven ticks, not after 1600. *)
Lemma timer_period_witness :
  timer_ccr (Nat.iter 7 timer_tick example_lapic) = 100 /\ bits (irr (Nat.iter 7 timer_tick example_lapic)) = {[0x30]} ∪ bits (irr example_lapic).
Proof.
  apply (timer_period Periodic 100 0x30 7 example_lapic); [done|lia|lia| |done]. split; try done. apply bits_ok_zero.
Defined.

Lemma tmr_sticky_witness :
  let b := (apply_lops [LDeliver; LWrite EOI 0; LAccept 0x41 false; LDeliver] (accept_interrupt 0x41 true example_lapic)).2 in
  find_highest_set_bit (isr b) = Some 0x41 /\ eois (write EOI 0 b) = eois b ++ [0x41].
Proof.
  split; [vm_compute; reflexivity|].
  apply (tmr_sticky 0x41 [LDeliver; LWrite EOI 0; LAccept 0x41 false; LDeliver] (accept_interrupt 0x41 true example_lapic)).
  - by repeat constructor.
  - split; [done|]. by repeat (apply Forall_cons; split); try apply Forall_nil_2.
  - apply elem_of_bits. by split; [split|].
  - vm_compute. reflexivity.
  - reflexivity.
Defined.

Lemma ipi_spec_witness :
  ipis (write ICR_LOW 0x4642 (write ICR_HIGH (Z.shiftl 3 24) (set_ipi_callback (lapic_new 0)))) = [(3, 0x42, Sipi)].
Proof. by apply (ipi_spec 3 0x4642 (set_ipi_callback (lapic_new 0))); [split| | |]. Defined.
