(* ===== verification/IoApic.v ===== *)
(** * The I/O interrupt controller ([hv2-core/src/devices/ioapic.rs])

    Twenty-four pins, each with a redirection entry of 64 bits.  The callback that
    hands an interrupt to a processor is the list of what was handed over, with
    whether one is set.  A method is one step. *)

From S2P Require Import Prelude.

Definition IOAPIC_NUM_PINS : Z := 24.
Definition IOREGSEL : Z := 0x00.
Definition IOWIN : Z := 0x10.
Definition IOAPICID : Z := 0x00.
Definition IOAPICVER : Z := 0x01.
Definition IOAPICARB : Z := 0x02.
Definition IOREDTBL_BASE : Z := 0x10.

(** ** Redirection entries *)

Definition VECTOR_MASK : Z := 0xFF.
Definition DELMODE_MASK : Z := 0x700.
Definition DELMODE_SHIFT : Z := 8.
Definition DESTMODE : Z := Z.shiftl 1 11.
Definition DELIVS : Z := Z.shiftl 1 12.
Definition INTPOL : Z := Z.shiftl 1 13.
Definition REMOTE_IRR : Z := Z.shiftl 1 14.
Definition TRIGGER : Z := Z.shiftl 1 15.
Definition INTMASK : Z := Z.shiftl 1 16.
Definition DEST_MASK : Z := 0xFF00000000000000.
Definition DEST_SHIFT : Z := 56.

Inductive DeliveryMode := Fixed | LowestPriority | Smi | Reserved3 | Nmi | Init | Reserved6 | ExtInt.
Inductive DestinationMode := Physical | Logical.
Inductive TriggerMode := Edge | Level.
Inductive Polarity := ActiveHigh | ActiveLow.

Definition mode_bits (m : DeliveryMode) : Z :=
  match m with
  | Fixed => 0 | LowestPriority => 1 | Smi => 2 | Reserved3 => 3 | Nmi => 4 | Init => 5 | Reserved6 => 6 | ExtInt => 7
  end.
Definition from_bits (bits : Z) : Result DeliveryMode :=
  match Z.land bits 0x7 with
  | 0 => mret Fixed
  | 1 => mret LowestPriority
  | 2 => mret Smi
  | 3 => mret Reserved3
  | 4 => mret Nmi
  | 5 => mret Init
  | 6 => mret Reserved6
  | 7 => mret ExtInt
  | _ => Panic ExpectFailed
  end.

Record RedirectionEntry := from_raw { raw : Z }.

Definition entry_new : RedirectionEntry := from_raw INTMASK.

(** [raw & !mask] and the single bits. *)
Definition clear_bits (mask : Z) (e : RedirectionEntry) : RedirectionEntry := from_raw (Z.land (raw e) (bnot 64 mask)).
Definition set_bits (mask : Z) (e : RedirectionEntry) : RedirectionEntry := from_raw (Z.lor (raw e) mask).

Definition vector (e : RedirectionEntry) : Z := trunc 8 (Z.land (raw e) VECTOR_MASK).
Definition set_vector (v : Z) (e : RedirectionEntry) : RedirectionEntry :=
  from_raw (Z.lor (Z.land (raw e) (bnot 64 VECTOR_MASK)) v).
Definition delivery_mode (e : RedirectionEntry) : Result DeliveryMode :=
  from_bits (trunc 8 (Z.shiftr (Z.land (raw e) DELMODE_MASK) DELMODE_SHIFT)).
Definition set_delivery_mode (m : DeliveryMode) (e : RedirectionEntry) : RedirectionEntry :=
  from_raw (Z.lor (Z.land (raw e) (bnot 64 DELMODE_MASK)) (Z.shiftl (mode_bits m) DELMODE_SHIFT)).
Definition destination_mode (e : RedirectionEntry) : DestinationMode :=
  if has (raw e) DESTMODE then Logical else Physical.
Definition set_destination_mode (m : DestinationMode) (e : RedirectionEntry) : RedirectionEntry :=
  match m with Physical => clear_bits DESTMODE e | Logical => set_bits DESTMODE e end.
Definition is_delivery_pending (e : RedirectionEntry) : bool := has (raw e) DELIVS.
Definition polarity (e : RedirectionEntry) : Polarity := if has (raw e) INTPOL then ActiveLow else ActiveHigh.
Definition set_polarity (p : Polarity) (e : RedirectionEntry) : RedirectionEntry :=
  match p with ActiveHigh => clear_bits INTPOL e | ActiveLow => set_bits INTPOL e end.
Definition remote_irr (e : RedirectionEntry) : bool := has (raw e) REMOTE_IRR.
Definition clear_remote_irr (e : RedirectionEntry) : RedirectionEntry := clear_bits REMOTE_IRR e.
Definition set_remote_irr (e : RedirectionEntry) : RedirectionEntry := set_bits REMOTE_IRR e.
Definition trigger_mode (e : RedirectionEntry) : TriggerMode := if has (raw e) TRIGGER then Level else Edge.
Definition set_trigger_mode (m : TriggerMode) (e : RedirectionEntry) : RedirectionEntry :=
  match m with Edge => clear_bits TRIGGER e | Level => set_bits TRIGGER e end.
Definition is_masked (e : RedirectionEntry) : bool := has (raw e) INTMASK.
Definition set_masked (m : bool) (e : RedirectionEntry) : RedirectionEntry :=
  if m then set_bits INTMASK e else clear_bits INTMASK e.
Definition destination (e : RedirectionEntry) : Z := trunc 8 (Z.shiftr (Z.land (raw e) DEST_MASK) DEST_SHIFT).
Definition set_destination (d : Z) (e : RedirectionEntry) : RedirectionEntry :=
  from_raw (Z.lor (Z.land (raw e) (bnot 64 DEST_MASK)) (Z.shiftl d DEST_SHIFT)).
Definition low (e : RedirectionEntry) : Z := trunc 32 (raw e).
Definition high (e : RedirectionEntry) : Z := trunc 32 (Z.shiftr (raw e) 32).
Definition set_low (v : Z) (e : RedirectionEntry) : RedirectionEntry :=
  from_raw (Z.lor (Z.land (raw e) 0xFFFFFFFF00000000) v).
Definition set_high (v : Z) (e : RedirectionEntry) : RedirectionEntry :=
  from_raw (Z.lor (Z.land (raw e) 0x00000000FFFFFFFF) (Z.shiftl v 32)).

#[global] Instance TriggerMode_eq_dec : EqDecision TriggerMode.
Proof. solve_decision. Defined.
#[global] Instance DestinationMode_eq_dec : EqDecision DestinationMode.
Proof. solve_decision. Defined.

(** ** The controller *)

(** What the callback was given: destination, vector, whether it is logical. *)
Definition Delivery : Type := Z * Z * bool.

Record IoApic := mkIoApic {
  id : Z;
  regsel : Z;
  redirection_table : list RedirectionEntry;
  irq_state : Z;
  masked_edges : Z;
  has_callback : bool;
  delivered : list Delivery
}.

Definition ioapic_new (i : Z) : IoApic := mkIoApic i 0 (replicate 24 entry_new) 0 0 false [].

Definition set_regsel (v : Z) (a : IoApic) : IoApic :=
  mkIoApic (id a) v (redirection_table a) (irq_state a) (masked_edges a) (has_callback a) (delivered a).
Definition set_table (t : list RedirectionEntry) (a : IoApic) : IoApic :=
  mkIoApic (id a) (regsel a) t (irq_state a) (masked_edges a) (has_callback a) (delivered a).
Definition set_irq_state (s : Z) (a : IoApic) : IoApic :=
  mkIoApic (id a) (regsel a) (redirection_table a) s (masked_edges a) (has_callback a) (delivered a).
Definition set_masked_edges (m : Z) (a : IoApic) : IoApic :=
  mkIoApic (id a) (regsel a) (redirection_table a) (irq_state a) m (has_callback a) (delivered a).
Definition set_interrupt_callback (a : IoApic) : IoApic :=
  mkIoApic (id a) (regsel a) (redirection_table a) (irq_state a) (masked_edges a) true (delivered a).

Definition delivery (e : RedirectionEntry) : Delivery :=
  (destination e, vector e, bool_decide (destination_mode e = Logical)).
Definition deliver_interrupt (e : RedirectionEntry) (a : IoApic) : IoApic :=
  if has_callback a
  then mkIoApic (id a) (regsel a) (redirection_table a) (irq_state a) (masked_edges a) true (delivered a ++ [delivery e])
  else a.

(** [table\[i\]]. *)
Definition entry_at (a : IoApic) (i : Z) : Result RedirectionEntry :=
  match redirection_table a !! Z.to_nat i with Some e => mret e | None => Panic IndexOutOfBounds end.
Definition put_entry (i : Z) (e : RedirectionEntry) (a : IoApic) : IoApic :=
  set_table (<[Z.to_nat i := e]> (redirection_table a)) a.

Definition read_indirect (a : IoApic) : Result Z :=
  let r := regsel a in
  if r =? IOAPICID then mret (Z.shiftl (id a) 24)
  else if r =? IOAPICVER then mret (Z.lor 0x20 (Z.shiftl (IOAPIC_NUM_PINS - 1) 16))
  else if r =? IOAPICARB then mret (Z.shiftl (id a) 24)
  else if (IOREDTBL_BASE <=? r) && (r <? IOREDTBL_BASE + 48) then
    let entry_idx := (r - IOREDTBL_BASE) / 2 in
    let is_high := (r - IOREDTBL_BASE) mod 2 =? 1 in
    if entry_idx <? IOAPIC_NUM_PINS then
      e ← entry_at a entry_idx; mret (if is_high then high e else low e)
    else mret 0
  else mret 0.

Definition read (a : IoApic) (offset : Z) : Result Z :=
  if offset =? IOREGSEL then mret (regsel a)
  else if offset =? IOWIN then read_indirect a
  else mret 0.

(** The low half of an entry: the read-only bits of the value are dropped, the
    remote IRR of the entry is kept. *)
Definition write_low (value : Z) (e : RedirectionEntry) : RedirectionEntry :=
  let clean_value := Z.land value (bnot 32 (Z.lor DELIVS REMOTE_IRR)) in
  let old_remote_irr := Z.land (raw e) REMOTE_IRR in
  set_bits old_remote_irr (set_low clean_value e).

Definition write_indirect (value : Z) : ST IoApic Error unit :=
  r ← st_gets regsel;
  if r =? IOAPICID then mret tt
  else if (r =? IOAPICVER) || (r =? IOAPICARB) then mret tt
  else if (IOREDTBL_BASE <=? r) && (r <? IOREDTBL_BASE + 48) then
    let entry_idx := (r - IOREDTBL_BASE) / 2 in
    let is_high := (r - IOREDTBL_BASE) mod 2 =? 1 in
    if entry_idx <? IOAPIC_NUM_PINS then
      e ← st_read (fun a => entry_at a entry_idx);
      if is_high then st_modify (put_entry entry_idx (set_high value e))
      else
        let e' := write_low value e in
        _ ← st_modify (put_entry entry_idx e');
        let bit := Z.shiftl 1 entry_idx in
        if negb (is_masked e') then
          old ← st_gets masked_edges;
          _ ← st_modify (set_masked_edges (Z.land old (bnot 32 bit)));
          if has old bit then st_modify (deliver_interrupt e') else mret tt
        else mret tt
    else mret tt
  else mret tt.

Definition write (offset value : Z) : ST IoApic Error unit :=
  if offset =? IOREGSEL then st_modify (set_regsel value)
  else if offset =? IOWIN then write_indirect value
  else mret tt.

Definition raise_irq (irq : Z) : ST IoApic Error unit :=
  if IOAPIC_NUM_PINS <=? irq then mret tt
  else
    _ ← st_modify (fun a => set_irq_state (Z.lor (irq_state a) (Z.shiftl 1 irq)) a);
    e ← st_read (fun a => entry_at a irq);
    if is_masked e then
      if bool_decide (trigger_mode e = Edge)
      then st_modify (fun a => set_masked_edges (Z.lor (masked_edges a) (Z.shiftl 1 irq)) a)
      else mret tt
    else if bool_decide (trigger_mode e = Level) then
      if remote_irr e then mret tt
      else
        now ← st_read (fun a => entry_at a irq);
        _ ← st_modify (put_entry irq (set_remote_irr now));
        st_modify (deliver_interrupt e)
    else st_modify (deliver_interrupt e).

Definition lower_irq (irq : Z) (a : IoApic) : IoApic :=
  if IOAPIC_NUM_PINS <=? irq then a
  else set_irq_state (Z.land (irq_state a) (bnot 32 (Z.shiftl 1 irq))) a.

(** The loop of [eoi]: the first level-triggered entry with the vector ends it. *)
Definition eoi_entry (v : Z) (e : RedirectionEntry) : bool :=
  (vector e =? v) && bool_decide (trigger_mode e = Level).

Fixpoint eoi_from (v : Z) (irq : Z) (l : list RedirectionEntry) (a : IoApic) : IoApic :=
  match l with
  | [] => a
  | e :: l' =>
      if eoi_entry v e then
        let e1 := clear_remote_irr e in
        if has (irq_state a) (Z.shiftl 1 irq)
        then let e2 := set_remote_irr e1 in deliver_interrupt e2 (put_entry irq e2 a)
        else put_entry irq e1 a
      else eoi_from v (irq + 1) l' a
  end.
Definition eoi (v : Z) (a : IoApic) : IoApic := eoi_from v 0 (redirection_table a) a.

Definition get_entry (a : IoApic) (irq : Z) : Result (option RedirectionEntry) :=
  if IOAPIC_NUM_PINS <=? irq then mret None else e ← entry_at a irq; mret (Some e).

Definition set_entry (irq : Z) (e : RedirectionEntry) : ST IoApic Error unit :=
  if IOAPIC_NUM_PINS <=? irq then st_lift (Err (VM "Invalid IOAPIC IRQ: {}" [irq]))
  else _ ← st_read (fun a => entry_at a irq); st_modify (put_entry irq e).

Definition configure_irq (irq v dest : Z) (t : TriggerMode) (p : Polarity) (masked : bool) : ST IoApic Error unit :=
  if IOAPIC_NUM_PINS <=? irq then st_lift (Err (VM "Invalid IOAPIC IRQ: {}" [irq]))
  else
    set_entry irq
      (set_masked masked (set_polarity p (set_trigger_mode t (set_destination_mode Physical
        (set_delivery_mode Fixed (set_destination dest (set_vector v entry_new))))))).

Definition export_state (a : IoApic) : bytes :=
  1 :: to_le_bytes 4 (regsel a) ++ to_le_bytes 4 (irq_state a) ++ to_le_bytes 4 (masked_edges a) ++
  concat ((fun e => to_le_bytes 8 (raw e)) <$> redirection_table a).

(** [import_state]; the table has as many entries as the loop reads. *)
Definition import_entry (bs : bytes) (i : Z) : Result RedirectionEntry :=
  b ← slice_ck bs (13 + i * 8) 8; mret (from_raw (from_le_bytes b)).
Fixpoint import_entries (bs : bytes) (i : Z) (n : nat) : Result (list RedirectionEntry) :=
  match n with
  | O => mret []
  | S n' => e ← import_entry bs i; l ← import_entries bs (i + 1) n'; mret (e :: l)
  end.

Definition import_state (bs : bytes) : ST IoApic Error unit :=
  if negb (Z.of_nat (length bs) =? 1 + 3 * 4 + IOAPIC_NUM_PINS * 8) then st_lift (Err (Device "I/O APIC state is malformed" []))
  else
    v ← st_lift (slice_ck bs 0 1);
    if negb (from_le_bytes v =? 1) then st_lift (Err (Device "I/O APIC state is malformed" []))
    else
      w1 ← st_lift (slice_ck bs 1 4);
      _ ← st_modify (set_regsel (from_le_bytes w1));
      w2 ← st_lift (slice_ck bs 5 4);
      _ ← st_modify (set_irq_state (from_le_bytes w2));
      w3 ← st_lift (slice_ck bs 9 4);
      _ ← st_modify (set_masked_edges (from_le_bytes w3));
      n ← st_gets (fun a => length (redirection_table a));
      t ← st_lift (import_entries bs 0 n);
      st_modify (set_table t).

(** ** The memory-mapped device *)

Definition device_read (a : IoApic) (offset : Z) (data : bytes) : Result bytes :=
  v ← read a offset;
  let n := Nat.min (length data) 4 in
  mret (take n (to_le_bytes 4 v) ++ drop n data).

Definition device_write (offset : Z) (data : bytes) : ST IoApic Error unit :=
  let n := Nat.min (length data) 4 in
  write offset (from_le_bytes (take n data ++ replicate (4 - n) 0)).

(** ** Bits of an entry *)

Definition bit_at (e : RedirectionEntry) (i : Z) : bool := Z.testbit (raw e) i.

Lemma masked_bit e : is_masked e = bit_at e 16.
Proof. by apply has_bit. Qed.
Lemma trigger_bit e : trigger_mode e = if bit_at e 15 then Level else Edge.
Proof. unfold trigger_mode, TRIGGER. by rewrite has_bit. Qed.
Lemma remote_bit e : remote_irr e = bit_at e 14.
Proof. by apply has_bit. Qed.
Lemma level_bit e : bool_decide (trigger_mode e = Level) = bit_at e 15.
Proof. rewrite trigger_bit. by destruct (bit_at e 15). Qed.
Lemma edge_bit e : bool_decide (trigger_mode e = Edge) = negb (bit_at e 15).
Proof. rewrite trigger_bit. by destruct (bit_at e 15). Qed.

Lemma set_bits_at k e i : 0 <= k -> 0 <= i -> bit_at (set_bits (Z.shiftl 1 k) e) i = bit_at e i || (i =? k).
Proof. intros Hk Hi. unfold bit_at, set_bits. cbn [raw]. rewrite Z.lor_spec, testbit_shift1 by lia. by rewrite Z.eqb_sym. Qed.

Lemma clear_bits_at k e i : 0 <= k < 64 -> 0 <= i < 64 -> bit_at (clear_bits (Z.shiftl 1 k) e) i = bit_at e i && negb (i =? k).
Proof.
  intros Hk Hi. unfold bit_at, clear_bits. cbn [raw].
  rewrite Z.land_spec, testbit_bnot, testbit_shift1 by (lia || by apply fits_shift1). by rewrite Z.eqb_sym.
Qed.

Definition entry_ok (e : RedirectionEntry) : Prop := fits 64 (raw e).

Lemma set_bits_ok k e : 0 <= k < 64 -> entry_ok e -> entry_ok (set_bits (Z.shiftl 1 k) e).
Proof. intros Hk He. apply fits_lor; [lia|done|by apply fits_shift1]. Qed.
Lemma clear_bits_ok k e : 0 <= k < 64 -> entry_ok e -> entry_ok (clear_bits (Z.shiftl 1 k) e).
Proof.
  intros Hk He. apply fits_land; [done|]. pose proof (fits_shift1 64 k Hk) as Hf. unfold bnot, fits in *. lia.
Qed.

(** Two entries with the same bits are the same. *)
Lemma entry_ext e e' : entry_ok e -> entry_ok e' -> (forall i, 0 <= i < 64 -> bit_at e i = bit_at e' i) -> e = e'.
Proof.
  intros He He' Hb. destruct e as [x], e' as [y]. f_equal. by apply (fits_eq 64).
Qed.

(** What is delivered depends on the vector, the destination and its mode. *)
Lemma delivery_ext e e' :
  (forall i, 0 <= i < 64 -> i < 12 \/ 56 <= i -> bit_at e i = bit_at e' i) -> delivery e = delivery e' /\ vector e = vector e'.
Proof.
  intros Hb. assert (Z.land (raw e) VECTOR_MASK = Z.land (raw e') VECTOR_MASK) as Hv.
  { apply Z.bits_inj'. intros i Hi. rewrite !Z.land_spec. destruct (Z.lt_ge_cases i 8).
    - f_equal. apply Hb; lia.
    - by rewrite (fits_testbit 8 VECTOR_MASK), !andb_false_r by (done || lia). }
  assert (Z.land (raw e) DEST_MASK = Z.land (raw e') DEST_MASK) as Hd.
  { apply Z.bits_inj'. intros i Hi. rewrite !Z.land_spec. destruct (Z.lt_ge_cases i 64).
    - destruct (Z.lt_ge_cases i 56); [|f_equal; apply Hb; lia].
      replace (Z.testbit DEST_MASK i) with false; [by rewrite !andb_false_r|]. unfold DEST_MASK.
      change 0xFF00000000000000 with (Z.shiftl 255 56). by rewrite Z.shiftl_spec, Z.testbit_neg_r by lia.
    - by rewrite (fits_testbit 64 DEST_MASK), !andb_false_r by (done || lia). }
  assert (has (raw e) DESTMODE = has (raw e') DESTMODE) as Hm by (unfold DESTMODE; rewrite !has_bit by done; exact (Hb 11 ltac:(lia) ltac:(lia))).
  unfold delivery, vector, destination, destination_mode. by rewrite Hv, Hd, Hm.
Qed.

Lemma remote_delivery e : entry_ok e -> delivery (set_remote_irr e) = delivery e /\ vector (set_remote_irr e) = vector e.
Proof.
  intros He. apply delivery_ext. intros i Hi Hr. unfold set_remote_irr, REMOTE_IRR. rewrite set_bits_at by lia.
  rewrite (proj2 (Z.eqb_neq i 14)) by lia. apply orb_false_r.
Qed.
Lemma clear_delivery e : delivery (clear_remote_irr e) = delivery e /\ vector (clear_remote_irr e) = vector e.
Proof.
  apply delivery_ext. intros i Hi Hr. unfold clear_remote_irr, REMOTE_IRR. rewrite clear_bits_at by lia.
  rewrite (proj2 (Z.eqb_neq i 14)) by lia. apply andb_true_r.
Qed.

(** ** The invariant *)

Record apic_wf (a : IoApic) : Prop := {
  aw_table : length (redirection_table a) = 24%nat;
  aw_entries : Forall entry_ok (redirection_table a);
  aw_regsel : fits 32 (regsel a);
  aw_state : fits 32 (irq_state a);
  aw_edges : fits 32 (masked_edges a)
}.

Lemma entry_at_ok a i :
  apic_wf a -> 0 <= i < 24 ->
  exists e, entry_at a i = Ok e /\ redirection_table a !! Z.to_nat i = Some e /\ entry_ok e.
Proof.
  intros Ha Hi. destruct (lookup_lt_is_Some_2 (redirection_table a) (Z.to_nat i)) as [e He]; [rewrite (aw_table a Ha); lia|].
  exists e. unfold entry_at. rewrite He. split_and!; [done|done|].
  exact (proj1 (Forall_lookup _ _) (aw_entries a Ha) _ _ He).
Qed.

Lemma put_entry_wf i e a : apic_wf a -> entry_ok e -> apic_wf (put_entry i e a).
Proof. intros [] He. split; try done; cbn [put_entry set_table redirection_table]; [by rewrite length_insert|by apply Forall_insert]. Qed.
Lemma deliver_wf e a : apic_wf a -> apic_wf (deliver_interrupt e a).
Proof. intros []. unfold deliver_interrupt. destruct (has_callback a); by split. Qed.

Lemma write_low_at v e i :
  fits 32 v -> 0 <= i < 64 ->
  bit_at (write_low v e) i =
  if i =? 14 then bit_at e 14 else if i =? 12 then false else if i <? 32 then Z.testbit v i else bit_at e i.
Proof.
  intros Hv Hi. unfold write_low, set_bits, set_low, bit_at. cbn [raw].
  assert (fits 32 (Z.lor DELIVS REMOTE_IRR)) as Hm by by split.
  assert (Z.testbit 0xFFFFFFFF00000000 i = negb (i <? 32)) as Hh.
  { change 0xFFFFFFFF00000000 with (Z.shiftl (Z.ones 32) 32). destruct (Z.ltb_spec i 32).
    - by rewrite Z.shiftl_spec, Z.testbit_neg_r by lia.
    - rewrite Z.shiftl_spec by lia. apply Z.ones_spec_low. lia. }
  rewrite !Z.lor_spec, !Z.land_spec, Hh. unfold REMOTE_IRR at 2. rewrite testbit_shift1 by lia.
  destruct (Z.ltb_spec i 32) as [Hlt|Hge]; cbn [negb].
  - rewrite testbit_bnot, Z.lor_spec by (done || lia). unfold DELIVS, REMOTE_IRR. rewrite !testbit_shift1 by lia.
    destruct (Z.eqb_spec i 14) as [->|]; [simpl; by rewrite !andb_false_r, andb_true_r|].
    destruct (Z.eqb_spec i 12) as [->|]; [simpl; by rewrite !andb_false_r|].
    rewrite !(proj2 (Z.eqb_neq _ _)) by lia. simpl. by rewrite !andb_false_r, andb_true_r, orb_false_r.
  - rewrite (fits_testbit 32 v) by (done || lia). rewrite !(proj2 (Z.eqb_neq _ _)) by lia.
    by rewrite andb_true_r, andb_false_r, andb_false_l, !orb_false_r.
Qed.

(** ** A level-triggered pin *)

Lemma eoi_find v a i l :
  eoi_from v (Z.of_nat i) l a =
  match list_find (fun e => eoi_entry v e = true) l with
  | Some (k, e) =>
      let irq := Z.of_nat (i + k) in
      let e1 := clear_remote_irr e in
      if has (irq_state a) (Z.shiftl 1 irq)
      then deliver_interrupt (set_remote_irr e1) (put_entry irq (set_remote_irr e1) a)
      else put_entry irq e1 a
  | None => a
  end.
Proof.
  revert i. induction l as [|e l IH]; intros i; [done|]. cbn [eoi_from list_find].
  destruct (eoi_entry v e) eqn:Ev.
  - rewrite decide_True by done. by rewrite Nat.add_0_r.
  - rewrite decide_False by congruence. replace (Z.of_nat i + 1) with (Z.of_nat (S i)) by lia. rewrite IH.
    destruct (list_find _ l) as [[k e']|]; [|done]. cbn. by rewrite <- Nat.add_succ_comm.
Qed.

(** The first entry with the vector is the one at [irq]. *)
Definition first_match (v : Z) (irq : Z) (t : list RedirectionEntry) : Prop :=
  forall j e, (j < Z.to_nat irq)%nat -> t !! j = Some e -> eoi_entry v e = false.

Lemma eoi_first v irq a e :
  0 <= irq -> redirection_table a !! Z.to_nat irq = Some e -> eoi_entry v e = true -> first_match v irq (redirection_table a) ->
  eoi v a =
  let e1 := clear_remote_irr e in
  if Z.testbit (irq_state a) irq
  then deliver_interrupt (set_remote_irr e1) (put_entry irq (set_remote_irr e1) a)
  else put_entry irq e1 a.
Proof.
  intros Hi He Hv Hf. unfold eoi. change 0 with (Z.of_nat 0) at 1. rewrite eoi_find.
  rewrite (proj2 (list_find_Some _ _ (Z.to_nat irq) e)).
  - cbv zeta. rewrite Nat.add_0_l, Z2Nat.id, has_bit by done. done.
  - split_and!; [done|done|]. intros j e' Hj Hlt. rewrite (Hf j e') by done. done.
Qed.

Inductive PinOp := Raise | Lower | Eoi.

Definition pin_op (irq v : Z) (o : PinOp) : ST IoApic Error unit :=
  match o with Raise => raise_irq irq | Lower => st_modify (lower_irq irq) | Eoi => st_modify (eoi v) end.

Fixpoint pin_run (irq v : Z) (os : list PinOp) : ST IoApic Error unit :=
  match os with [] => mret tt | o :: os' => _ ← pin_op irq v o; pin_run irq v os' end.

(** The pin as a client sees it: its line, whether the processor has an interrupt
    of it in service, how many were sent. *)
Record LevelPin := mkLevel { line : bool; in_service : bool; sent : nat }.

Definition level_step (p : LevelPin) (o : PinOp) : LevelPin :=
  match o with
  | Raise => mkLevel true true (if in_service p then sent p else S (sent p))
  | Lower => mkLevel false (in_service p) (sent p)
  | Eoi => if line p then mkLevel true true (S (sent p)) else mkLevel false false (sent p)
  end.

Section level_pin.
Context (irq v : Z) (e : RedirectionEntry).
Context (Hirq : 0 <= irq < 24) (He : entry_ok e).
Context (Hmask : is_masked e = false) (Hlevel : trigger_mode e = Level) (Hidle : remote_irr e = false) (Hv : vector e = v).

(** The entry of the pin, with or without an interrupt in service. *)
Definition level_entry (serving : bool) : RedirectionEntry := if serving then set_remote_irr e else e.

Record level_rel (base : list Delivery) (p : LevelPin) (a : IoApic) : Prop := {
  lr_wf : apic_wf a;
  lr_callback : has_callback a = true;
  lr_entry : redirection_table a !! Z.to_nat irq = Some (level_entry (in_service p));
  lr_line : Z.testbit (irq_state a) irq = line p;
  lr_sent : delivered a = base ++ replicate (sent p) (delivery e);
  lr_first : first_match v irq (redirection_table a)
}.

Lemma level_entry_facts s :
  entry_ok (level_entry s) /\ is_masked (level_entry s) = false /\ bit_at (level_entry s) 15 = true /\
  remote_irr (level_entry s) = s /\ delivery (level_entry s) = delivery e /\ eoi_entry v (level_entry s) = true /\
  clear_remote_irr (level_entry s) = e.
Proof.
  rewrite masked_bit in Hmask. rewrite remote_bit in Hidle. rewrite trigger_bit in Hlevel.
  assert (bit_at e 15 = true) as H15 by by destruct (bit_at e 15).
  assert (clear_remote_irr (level_entry s) = e) as Hc.
  { apply entry_ext; [|done|].
    - apply clear_bits_ok; [lia|]. destruct s; [apply set_bits_ok; [lia|done]|done].
    - intros i Hi. unfold clear_remote_irr, REMOTE_IRR. rewrite clear_bits_at by lia.
      destruct s; cbn [level_entry]; unfold set_remote_irr, REMOTE_IRR; rewrite ?set_bits_at by lia;
        destruct (Z.eqb_spec i 14) as [->|]; by rewrite ?orb_true_r, ?orb_false_r, ?andb_true_r, ?andb_false_r, ?Hidle. }
  unfold eoi_entry. rewrite masked_bit, remote_bit, level_bit.
  destruct s; cbn [level_entry] in *.
  - destruct (remote_delivery e He) as [-> ->]. unfold set_remote_irr, REMOTE_IRR in *. rewrite !set_bits_at by lia.
    rewrite H15, Hmask, Hidle, Hv, (Z.eqb_refl v). split_and!; try done. by apply set_bits_ok; [lia|].
  - rewrite H15, Hmask, Hidle, Hv, (Z.eqb_refl v). by split_and!.
Qed.

Lemma first_match_put t e' : first_match v irq t -> first_match v irq (<[Z.to_nat irq := e']> t).
Proof. intros Hf j x Hj. rewrite list_lookup_insert_ne by lia. by apply Hf. Qed.

(** Raising the line and ending an interrupt put the entry back and may deliver. *)
Lemma level_rel_put base p a s' n :
  level_rel base p a ->
  (n = sent p -> level_rel base (mkLevel (line p) s' n) (put_entry irq (level_entry s') a)) /\
  (n = S (sent p) -> forall x, delivery x = delivery e ->
     level_rel base (mkLevel (line p) s' n) (deliver_interrupt x (put_entry irq (level_entry s') a))).
Proof.
  intros [Hw Hc Ht Hl Hs Hf]. destruct (level_entry_facts s') as (Hok & _).
  pose proof (put_entry_wf irq _ a Hw Hok) as Hw'. assert (Z.to_nat irq < length (redirection_table a))%nat by (rewrite (aw_table a Hw); lia).
  split; intros -> *; [|intros Hx].
  - split; try done; [|by apply first_match_put]. by apply list_lookup_insert_eq.
  - unfold deliver_interrupt. cbn [put_entry set_table has_callback]. rewrite Hc.
    destruct Hw'. split; [by split|done|by apply list_lookup_insert_eq|done| |by apply first_match_put].
    cbn [delivered sent set_table put_entry]. rewrite Hs, Hx, replicate_S_end, app_assoc. done.
Qed.

Lemma set_irq_state_wf a s : apic_wf a -> fits 32 s -> apic_wf (set_irq_state s a).
Proof. intros [] Hs. by split. Qed.

Lemma level_rel_line base p a b s :
  level_rel base p a -> fits 32 s -> Z.testbit s irq = b ->
  level_rel base (mkLevel b (in_service p) (sent p)) (set_irq_state s a).
Proof. intros [Hw Hc Ht Hl Hs Hf] Hfit Hb. split; try done. by apply set_irq_state_wf. Qed.

Lemma level_step_ok base p a o :
  level_rel base p a -> exists a', pin_op irq v o a = (Ok tt, a') /\ level_rel base (level_step p o) a'.
Proof.
  intros Hr. pose proof Hr as [Hw Hc Ht Hl Hs Hf]. destruct (level_entry_facts (in_service p)) as (Hok & Hm & H15 & Hrirr & Hdel & Heoi & Hclr).
  destruct o; cbn [pin_op level_step].
  - unfold raise_irq. rewrite (proj2 (Z.leb_gt _ _)) by (unfold IOAPIC_NUM_PINS; lia). rewrite st_bind_modify, st_bind_read.
    set (a1 := set_irq_state _ a).
    assert (level_rel base (mkLevel true (in_service p) (sent p)) a1) as Hr1.
    { apply level_rel_line; [done|apply fits_lor; [lia|apply Hw|apply fits_shift1; lia]|].
      rewrite Z.lor_spec, testbit_shift1, Z.eqb_refl by lia. apply orb_true_r. }
    assert (entry_at a1 irq = Ok (level_entry (in_service p))) as Hat by (unfold entry_at, a1; cbn [set_irq_state redirection_table]; by rewrite Ht).
    rewrite Hat, Hm, level_bit, H15, Hrirr. destruct (in_service p) eqn:Es; [by eexists|].
    rewrite st_bind_read, Hat, st_bind_modify. eexists. split; [reflexivity|].
    apply (level_rel_put base (mkLevel true false (sent p)) a1 true (S (sent p)) Hr1); [done|exact Hdel].
  - eexists. split; [reflexivity|]. unfold lower_irq. rewrite (proj2 (Z.leb_gt _ _)) by (unfold IOAPIC_NUM_PINS; lia).
    pose proof (fits_shift1 32 irq ltac:(lia)) as Hb. apply level_rel_line; [done|apply fits_land; [apply Hw|by apply fits_bnot]|].
    rewrite Z.land_spec, testbit_bnot, testbit_shift1, Z.eqb_refl by (done || lia). apply andb_false_r.
  - eexists. split; [reflexivity|]. rewrite (eoi_first v irq a _ (proj1 Hirq) Ht Heoi Hf). cbv zeta. rewrite Hclr, Hl.
    destruct p as [[] sv n]; cbn [line in_service sent] in *.
    + apply (level_rel_put base (mkLevel true sv n) a true (S n) Hr); [done|].
      by destruct (level_entry_facts true) as (_ & _ & _ & _ & ? & _).
    + by apply (level_rel_put base (mkLevel false sv n) a false n Hr).
Qed.

Lemma level_run_ok base os p a :
  level_rel base p a -> exists a', pin_run irq v os a = (Ok tt, a') /\ level_rel base (foldl level_step p os) a'.
Proof.
  revert p a. induction os as [|o os IH]; intros p a Hr; cbn [pin_run foldl]; [by exists a|].
  destruct (level_step_ok base p a o Hr) as (a1 & Ho & Hr1). rewrite st_bind_eq, Ho. by apply IH.
Qed.
End level_pin.

(** C19: A level-triggered pin, whatever sequence of raising, lowering and ends of
    interrupt it goes through, sends an interrupt when its line rises and none is in
    service, and again at the end of an interrupt while the line is still up; none
    is sent twice and none is lost. *)
Theorem level_refines irq v e os a :
  0 <= irq < 24 -> apic_wf a -> has_callback a = true -> redirection_table a !! Z.to_nat irq = Some e ->
  is_masked e = false -> trigger_mode e = Level -> remote_irr e = false -> vector e = v ->
  first_match v irq (redirection_table a) ->
  let p := foldl level_step (mkLevel (Z.testbit (irq_state a) irq) false 0) os in
  exists a', pin_run irq v os a = (Ok tt, a') /\ delivered a' = delivered a ++ replicate (sent p) (delivery e) /\
    Z.testbit (irq_state a') irq = line p /\ (e' ← entry_at a' irq; mret (remote_irr e')) = Ok (in_service p) /\ apic_wf a'.
Proof.
  intros Hirq Hw Hc Ht Hm Hl Hr Hv Hf p. assert (entry_ok e) as He by exact (proj1 (Forall_lookup _ _) (aw_entries a Hw) _ _ Ht).
  destruct (level_run_ok irq v e Hirq He Hm Hl Hr Hv (delivered a) os (mkLevel (Z.testbit (irq_state a) irq) false 0) a)
    as (a' & Hrun & [Hw' _ Ht' Hl' Hs' _]).
  { split; try done. cbn [sent]. by rewrite app_nil_r. }
  exists a'. split_and!; try done. unfold entry_at. rewrite Ht'. cbn [mbind Res_bind mret Res_ret]. f_equal.
  by destruct (level_entry_facts v e He Hm Hl Hr Hv (in_service p)) as (_ & _ & _ & ? & _).
Qed.

(** ** An edge-triggered pin *)

Inductive EdgeOp := ERaise | EMask | EUnmask.

(** The guest masks and unmasks the pin by writing the low half of its entry. *)
Definition write_pin (irq value : Z) : ST IoApic Error unit :=
  _ ← write IOREGSEL (IOREDTBL_BASE + 2 * irq); write IOWIN value.

Definition edge_op (irq v : Z) (o : EdgeOp) : ST IoApic Error unit :=
  match o with
  | ERaise => raise_irq irq
  | EMask => write_pin irq (Z.lor v INTMASK)
  | EUnmask => write_pin irq v
  end.

Fixpoint edge_run (irq v : Z) (os : list EdgeOp) : ST IoApic Error unit :=
  match os with [] => mret tt | o :: os' => _ ← edge_op irq v o; edge_run irq v os' end.

(** Masked, holding an edge that came while it was, how many were sent. *)
Record EdgePin := mkEdge { masked : bool; latched : bool; esent : nat }.

Definition edge_step (p : EdgePin) (o : EdgeOp) : EdgePin :=
  match o with
  | ERaise => if masked p then mkEdge true true (esent p) else mkEdge false (latched p) (S (esent p))
  | EMask => mkEdge true (latched p) (esent p)
  | EUnmask => mkEdge false false (if latched p then S (esent p) else esent p)
  end.

Lemma write_low_ok w x : fits 32 w -> entry_ok x -> entry_ok (write_low w x).
Proof.
  intros Hw Hx. unfold entry_ok, write_low, set_bits, set_low. cbn [raw].
  apply fits_lor; [lia| |apply fits_land; [done|done]]. apply fits_lor; [lia|by apply fits_land|].
  destruct (fits_land 32 w (bnot 32 (Z.lor DELIVS REMOTE_IRR)) Hw) as [H1 H2]; [done|]. split; [done|].
  eapply Z.lt_trans; [exact H2|done].
Qed.

(** A write of the low half of an entry, by its registers. *)
Lemma write_pin_any irq w a e :
  0 <= irq < 24 -> redirection_table a !! Z.to_nat irq = Some e ->
  write_pin irq w a =
  (Ok tt,
   let e' := write_low w e in
   let a1 := put_entry irq e' (set_regsel (IOREDTBL_BASE + 2 * irq) a) in
   if is_masked e' then a1
   else
     let a2 := set_masked_edges (Z.land (masked_edges a) (bnot 32 (Z.shiftl 1 irq))) a1 in
     if Z.testbit (masked_edges a) irq then deliver_interrupt e' a2 else a2).
Proof.
  intros Hirq Ht. change (write_pin irq w a)
    with ((st_modify (set_regsel (IOREDTBL_BASE + 2 * irq)) ≫= fun _ : unit => write_indirect w) a).
  rewrite st_bind_modify. unfold write_indirect. rewrite st_bind_gets.
  cbn [set_regsel regsel]. set (r := IOREDTBL_BASE + 2 * irq).
  assert (r - IOREDTBL_BASE = irq * 2) as Er by (unfold r; lia).
  unfold IOAPICID, IOAPICVER, IOAPICARB, IOREDTBL_BASE, IOAPIC_NUM_PINS in *.
  rewrite !(proj2 (Z.eqb_neq r _)) by (unfold r; lia). rewrite (proj2 (Z.leb_le _ _)), (proj2 (Z.ltb_lt r _)) by (unfold r; lia).
  cbn [orb andb]. rewrite Er, Z.div_mul, Z_mod_mult, (proj2 (Z.ltb_lt irq 24)) by lia. cbn [Z.eqb]. rewrite st_bind_read.
  unfold entry_at. cbn [set_regsel redirection_table]. rewrite Ht. cbn [mret Res_ret]. rewrite st_bind_modify.
  destruct (is_masked (write_low w e)); cbn [negb]; [done|]. rewrite st_bind_gets, st_bind_modify.
  cbn [put_entry set_table masked_edges]. rewrite has_bit by lia.
  change (masked_edges (set_regsel r a)) with (masked_edges a). by destruct (Z.testbit (masked_edges a) irq).
Qed.

Section edge_pin.
Context (irq v : Z) (e : RedirectionEntry).
Context (Hirq : 0 <= irq < 24) (He : entry_ok e) (Hfit : fits 32 v).
Context (Hmask : Z.testbit v 16 = false) (Hedge : Z.testbit v 15 = false).

Definition low_value (m : bool) : Z := if m then Z.lor v INTMASK else v.
(** The entry as the last write of the guest left it. *)
Definition edge_entry (m : bool) : RedirectionEntry := write_low (low_value m) e.

Record edge_rel (base : list Delivery) (p : EdgePin) (a : IoApic) : Prop := {
  er_wf : apic_wf a;
  er_callback : has_callback a = true;
  er_entry : redirection_table a !! Z.to_nat irq = Some (edge_entry (masked p));
  er_latched : Z.testbit (masked_edges a) irq = latched p;
  er_sent : delivered a = base ++ replicate (esent p) (delivery (edge_entry false))
}.

Lemma low_value_fits m : fits 32 (low_value m).
Proof. destruct m; [|done]. apply fits_lor; [lia|done|by split]. Qed.

Lemma low_value_at m i : 0 <= i -> Z.testbit (low_value m) i = Z.testbit v i || (m && (i =? 16)).
Proof.
  intros Hi. destruct m; cbn [low_value andb]; [|by rewrite orb_false_r].
  unfold INTMASK. rewrite Z.lor_spec, testbit_shift1 by done. by rewrite Z.eqb_sym.
Qed.

Lemma edge_entry_facts m :
  entry_ok (edge_entry m) /\ is_masked (edge_entry m) = m /\ trigger_mode (edge_entry m) = Edge /\
  forall m', write_low (low_value m') (edge_entry m) = edge_entry m'.
Proof.
  pose proof (low_value_fits m) as Hl. split_and!.
  - by apply write_low_ok.
  - rewrite masked_bit. unfold edge_entry. rewrite write_low_at by (done || lia). cbn -[Z.testbit low_value bit_at]. rewrite low_value_at, Hmask by lia.
    by destruct m.
  - rewrite trigger_bit. unfold edge_entry. rewrite write_low_at by (done || lia). cbn -[Z.testbit low_value bit_at]. rewrite low_value_at, Hedge by lia.
    by destruct m.
  - intros m'. pose proof (low_value_fits m'). apply entry_ext; [by repeat apply write_low_ok|by apply write_low_ok|].
    intros i Hi. unfold edge_entry. rewrite !write_low_at by (done || lia). rewrite !Z.eqb_refl.
    destruct (i =? 14); [done|]. destruct (i =? 12); [done|]. by destruct (i <? 32).
Qed.

Lemma write_pin_eq a m m' :
  apic_wf a -> redirection_table a !! Z.to_nat irq = Some (edge_entry m) ->
  write_pin irq (low_value m') a =
  (Ok tt,
   let a1 := put_entry irq (edge_entry m') (set_regsel (IOREDTBL_BASE + 2 * irq) a) in
   if m' then a1
   else
     let a2 := set_masked_edges (Z.land (masked_edges a) (bnot 32 (Z.shiftl 1 irq))) a1 in
     if Z.testbit (masked_edges a) irq then deliver_interrupt (edge_entry m') a2 else a2).
Proof.
  intros Hw Ht. destruct (edge_entry_facts m') as (_ & Hm' & _ & _). destruct (edge_entry_facts m) as (_ & _ & _ & Hwr).
  rewrite (write_pin_any irq _ a _ Hirq Ht). cbv zeta. rewrite Hwr, Hm'. by destruct m'.
Qed.

Lemma clear_edge_bit s : fits 32 s ->
  fits 32 (Z.land s (bnot 32 (Z.shiftl 1 irq))) /\ Z.testbit (Z.land s (bnot 32 (Z.shiftl 1 irq))) irq = false.
Proof.
  intros Hs. pose proof (fits_shift1 32 irq ltac:(lia)) as Hb. split; [apply fits_land; [done|by apply fits_bnot]|].
  rewrite Z.land_spec, testbit_bnot, testbit_shift1, Z.eqb_refl by (done || lia). apply andb_false_r.
Qed.

Lemma edge_step_ok base p a o :
  edge_rel base p a -> exists a', edge_op irq v o a = (Ok tt, a') /\ edge_rel base (edge_step p o) a'.
Proof.
  intros [Hw Hc Ht Hl Hs]. destruct (edge_entry_facts (masked p)) as (Hok & Hm & Htr & _).
  assert (Z.to_nat irq < length (redirection_table a))%nat as Hlt by (rewrite (aw_table a Hw); lia).
  destruct o; cbn [edge_op edge_step].
  - unfold raise_irq. rewrite (proj2 (Z.leb_gt _ _)) by (unfold IOAPIC_NUM_PINS; lia). rewrite st_bind_modify, st_bind_read.
    unfold entry_at. cbn [set_irq_state redirection_table]. rewrite Ht. cbn [mret Res_ret]. rewrite Hm, Htr.
    assert (apic_wf (set_irq_state (Z.lor (irq_state a) (Z.shiftl 1 irq)) a)) as Hw1.
    { apply set_irq_state_wf; [done|]. apply fits_lor; [lia|apply Hw|apply fits_shift1; lia]. }
    destruct (masked p) eqn:Em; [rewrite bool_decide_true by done|rewrite bool_decide_false by done].
    + eexists. split; [reflexivity|]. destruct Hw1. split; [split; try done|done|done| |done].
      * apply fits_lor; [lia|done|apply fits_shift1; lia].
      * cbn [set_masked_edges masked_edges set_irq_state]. rewrite Z.lor_spec, testbit_shift1, Z.eqb_refl by lia. apply orb_true_r.
    + eexists. split; [reflexivity|]. unfold deliver_interrupt. cbn [set_irq_state has_callback]. rewrite Hc. destruct Hw1.
      split; [by split|done|done|done|]. cbn [delivered set_irq_state esent]. by rewrite Hs, replicate_S_end, app_assoc.
  - change (Z.lor v INTMASK) with (low_value true). rewrite (write_pin_eq a (masked p) true Hw Ht). eexists. split; [reflexivity|].
    destruct (edge_entry_facts true) as (Hok' & _).
    split; [|done|by apply list_lookup_insert_eq|done|done]. apply put_entry_wf; [|done]. destruct Hw. split; try done. unfold IOREDTBL_BASE. split; cbn; lia.
  - change v with (low_value false). rewrite (write_pin_eq a (masked p) false Hw Ht), Hl. eexists. split; [reflexivity|].
    destruct (edge_entry_facts false) as (Hok' & _). destruct (clear_edge_bit _ (aw_edges a Hw)) as [Hf1 Hf2].
    assert (apic_wf (put_entry irq (edge_entry false) (set_regsel (IOREDTBL_BASE + 2 * irq) a))) as Hw1.
    { apply put_entry_wf; [|done]. destruct Hw. split; try done. unfold IOREDTBL_BASE. split; cbn; lia. }
    destruct (latched p); cbv zeta.
    + unfold deliver_interrupt. cbn [set_masked_edges put_entry set_table set_regsel has_callback]. rewrite Hc. destruct Hw1.
      split; [by split|done|by apply list_lookup_insert_eq|done|]. cbn [delivered esent set_masked_edges put_entry set_table set_regsel]. by rewrite Hs, replicate_S_end, app_assoc.
    + destruct Hw1. split; [by split|done|by apply list_lookup_insert_eq|done|done].
Qed.

Lemma edge_run_ok base os p a :
  edge_rel base p a -> exists a', edge_run irq v os a = (Ok tt, a') /\ edge_rel base (foldl edge_step p os) a'.
Proof.
  revert p a. induction os as [|o os IH]; intros p a Hr; cbn [edge_run foldl]; [by exists a|].
  destruct (edge_step_ok base p a o Hr) as (a1 & Ho & Hr1). rewrite st_bind_eq, Ho. by apply IH.
Qed.
End edge_pin.

(** C20: An edge-triggered pin, however masking, unmasking and edges alternate, sends one
    interrupt for an edge while it is unmasked, and one when it is unmasked if any
    edge came while it was masked: the edge is not lost, and edges that came
    together are one. *)
Theorem edge_refines irq v e os a :
  0 <= irq < 24 -> apic_wf a -> has_callback a = true -> entry_ok e ->
  fits 32 v -> Z.testbit v 16 = false -> Z.testbit v 15 = false ->
  redirection_table a !! Z.to_nat irq = Some (write_low v e) ->
  let p := foldl edge_step (mkEdge false (Z.testbit (masked_edges a) irq) 0) os in
  exists a', edge_run irq v os a = (Ok tt, a') /\
    delivered a' = delivered a ++ replicate (esent p) (delivery (write_low v e)) /\
    Z.testbit (masked_edges a') irq = latched p /\ (e' ← entry_at a' irq; mret (is_masked e')) = Ok (masked p) /\ apic_wf a'.
Proof.
  intros Hirq Hw Hc He Hv H16 H15 Ht p.
  destruct (edge_run_ok irq v e Hirq He Hv H16 H15 (delivered a) os (mkEdge false (Z.testbit (masked_edges a) irq) 0) a)
    as (a' & Hrun & [Hw' _ Ht' Hl' Hs']).
  { split; try done. cbn [esent]. by rewrite app_nil_r. }
  exists a'. split_and!; try done. unfold entry_at. rewrite Ht'. cbn [mbind Res_bind mret Res_ret]. f_equal.
  by destruct (edge_entry_facts v e He Hv H16 H15 (masked p)) as (_ & ? & _).
Qed.

(** ** Where the pins differ from the hardware *)

Lemma eoi_entry_remote v e : entry_ok e ->
  eoi_entry v (clear_remote_irr e) = eoi_entry v e /\ eoi_entry v (set_remote_irr (clear_remote_irr e)) = eoi_entry v e /\
  entry_ok (clear_remote_irr e) /\ entry_ok (set_remote_irr (clear_remote_irr e)).
Proof.
  intros He. assert (entry_ok (clear_remote_irr e)) as Hc by (apply clear_bits_ok; [lia|done]).
  assert (entry_ok (set_remote_irr (clear_remote_irr e))) as Hs by (apply set_bits_ok; [lia|done]).
  unfold eoi_entry. rewrite !level_bit. destruct (clear_delivery e) as [_ Hv]. destruct (remote_delivery _ Hc) as [_ Hv'].
  rewrite Hv', Hv. unfold set_remote_irr, clear_remote_irr, REMOTE_IRR. rewrite set_bits_at, clear_bits_at by lia.
  change (15 =? 14) with false. cbn [negb]. by rewrite orb_false_r, andb_true_r.
Qed.

(** Two pins share a vector; the one with the greater number is stuck. *)
Record shared (v i j : Z) (ej : RedirectionEntry) (a : IoApic) : Prop := {
  sh_wf : apic_wf a;
  sh_first : exists ei, redirection_table a !! Z.to_nat i = Some ei /\ eoi_entry v ei = true /\ first_match v i (redirection_table a);
  sh_second : redirection_table a !! Z.to_nat j = Some ej
}.

Lemma shared_eoi v i j ej a : 0 <= i < j -> shared v i j ej a -> shared v i j ej (eoi v a).
Proof.
  intros Hij [Hw (ei & Hi & Hv & Hf) Hj]. rewrite (eoi_first v i a ei) by (done || lia). cbv zeta.
  assert (entry_ok ei) as Hok by exact (proj1 (Forall_lookup _ _) (aw_entries a Hw) _ _ Hi).
  destruct (eoi_entry_remote v ei Hok) as (E1 & E2 & O1 & O2). pose proof (lookup_lt_Some _ _ _ Hi) as Hlt.
  assert (forall e', eoi_entry v e' = true -> entry_ok e' -> shared v i j ej (put_entry i e' a)) as Hput.
  { intros e' He' Ho. split; [by apply put_entry_wf| |].
    - exists e'. cbn [put_entry set_table redirection_table]. split_and!; [by apply list_lookup_insert_eq|done|by apply first_match_put].
    - cbn [put_entry set_table redirection_table]. by rewrite list_lookup_insert_ne by lia. }
  destruct (Z.testbit (irq_state a) i); [|apply Hput; congruence].
  destruct (Hput _ ltac:(rewrite E2; exact Hv) O2) as [Hw1 Hfi Hse]. unfold deliver_interrupt.
  destruct (has_callback _); split; try done. by destruct Hw1; split.
Qed.

(** An end of interrupt stops at the first pin with its vector: of two level pins
    that share one, the other keeps its interrupt in service for ever, and whatever
    its line does nothing is sent for it any more. *)
Theorem shared_vector_stuck v i j ei ej a n :
  0 <= i < j -> j < 24 -> apic_wf a -> redirection_table a !! Z.to_nat i = Some ei -> eoi_entry v ei = true ->
  first_match v i (redirection_table a) ->
  redirection_table a !! Z.to_nat j = Some ej -> is_masked ej = false -> trigger_mode ej = Level -> remote_irr ej = true ->
  let a' := Nat.iter n (eoi v) a in
  exists a'', raise_irq j a' = (Ok tt, a'') /\ delivered a'' = delivered a' /\ redirection_table a'' !! Z.to_nat j = Some ej.
Proof.
  intros Hij Hj24 Hw Hi Hv Hf Hj Hm Hl Hr. assert (shared v i j ej (Nat.iter n (eoi v) a)) as Hs.
  { induction n as [|n IH]; cbn [Nat.iter nat_rect]; [|by apply shared_eoi].
    split; [done|by exists ei|done]. }
  cbv zeta. set (a' := Nat.iter n (eoi v) a) in *. destruct Hs as [_ _ Hse]. unfold raise_irq.
  rewrite (proj2 (Z.leb_gt _ _)) by (unfold IOAPIC_NUM_PINS; lia). rewrite st_bind_modify, st_bind_read.
  unfold entry_at. cbn [set_irq_state redirection_table]. rewrite Hse. cbn [mret Res_ret]. rewrite Hm, Hl, bool_decide_true, Hr by done.
  eexists. by split_and!.
Qed.

(** A level-triggered line that rises while its pin is masked is not sent when the
    pin is unmasked, although it is still up and nothing is in service: only edges
    are kept. *)
Theorem masked_level_lost irq w e a :
  0 <= irq < 24 -> redirection_table a !! Z.to_nat irq = Some e -> is_masked e = true -> trigger_mode e = Level ->
  Z.testbit (masked_edges a) irq = false -> fits 32 w -> Z.testbit w 16 = false -> Z.testbit w 15 = true ->
  exists a', (_ ← raise_irq irq; write_pin irq w) a = (Ok tt, a') /\ delivered a' = delivered a /\
    Z.testbit (irq_state a') irq = true /\
    exists e', entry_at a' irq = Ok e' /\ is_masked e' = false /\ trigger_mode e' = Level /\ remote_irr e' = remote_irr e.
Proof.
  intros Hirq Ht Hm Hl Hme Hw H16 H15. rewrite st_bind_eq. unfold raise_irq.
  rewrite (proj2 (Z.leb_gt _ _)) by (unfold IOAPIC_NUM_PINS; lia). rewrite st_bind_modify, st_bind_read.
  unfold entry_at at 1. cbn [set_irq_state redirection_table]. rewrite Ht. cbn [mret Res_ret]. rewrite Hm, Hl, bool_decide_false by done.
  cbn [mret ST_ret]. rewrite (write_pin_any irq w _ e) by done. cbv zeta. cbn [set_irq_state masked_edges]. rewrite Hme.
  assert (is_masked (write_low w e) = false) as Hm' by (rewrite masked_bit, write_low_at by (done || lia); exact H16).
  rewrite Hm'. eexists. split; [reflexivity|]. split; [done|]. split.
  - cbn. rewrite Z.lor_spec, testbit_shift1, Z.eqb_refl by lia. apply orb_true_r.
  - exists (write_low w e). unfold entry_at. cbn [set_masked_edges put_entry set_table redirection_table].
    rewrite list_lookup_insert_eq by (cbn; by eapply lookup_lt_Some). split_and!; [done|done| |].
    + rewrite trigger_bit, write_low_at by (done || lia). cbn -[Z.testbit bit_at]. by rewrite H15.
    + rewrite !remote_bit, write_low_at by (done || lia). done.
Qed.

(** ** Every run *)

Inductive AOp :=
| AWrite (offset value : Z) | ARaise (irq : Z) | ALower (irq : Z) | AEoi (v : Z)
| ASetEntry (irq : Z) (e : RedirectionEntry)
| AConfigure (irq v dest : Z) (t : TriggerMode) (p : Polarity) (m : bool)
| AImport (bs : bytes) | ACallback.

Definition apply_aop (o : AOp) : ST IoApic Error unit :=
  match o with
  | AWrite offset value => write offset value
  | ARaise irq => raise_irq irq
  | ALower irq => st_modify (lower_irq irq)
  | AEoi v => st_modify (eoi v)
  | ASetEntry irq e => set_entry irq e
  | AConfigure irq v dest t p m => configure_irq irq v dest t p m
  | AImport bs => import_state bs
  | ACallback => st_modify set_interrupt_callback
  end.

(** What the types of the arguments say. *)
Definition aop_ok (o : AOp) : Prop :=
  match o with
  | AWrite offset value => 0 <= offset /\ fits 32 value
  | ARaise irq | ALower irq => fits 8 irq
  | AEoi v => fits 8 v
  | ASetEntry irq e => fits 8 irq /\ entry_ok e
  | AConfigure irq v dest _ _ _ => fits 8 irq /\ fits 8 v /\ fits 8 dest
  | AImport bs => Forall is_byte bs
  | ACallback => True
  end.

(** A call on a well-formed controller returns and leaves one. *)
Definition safe (m : ST IoApic Error unit) : Prop :=
  forall a, apic_wf a -> is_panic (m a).1 = false /\ apic_wf (m a).2.

Lemma safe_modify f : (forall a, apic_wf a -> apic_wf (f a)) -> safe (st_modify f).
Proof. intros Hf a Ha. split; [done|by apply Hf]. Qed.
Lemma safe_ret : safe (mret tt).
Proof. by intros a Ha. Qed.
Lemma safe_err e : safe (st_lift (Err e)).
Proof. by intros a Ha. Qed.
Lemma safe_then f (k : unit -> ST IoApic Error unit) :
  (forall a, apic_wf a -> apic_wf (f a)) -> safe (k tt) -> safe (st_modify f ≫= k).
Proof. intros Hf Hk a Ha. rewrite st_bind_modify. apply Hk, Hf, Ha. Qed.
Lemma safe_entry i (k : RedirectionEntry -> ST IoApic Error unit) :
  0 <= i < 24 -> (forall e, entry_ok e -> safe (k e)) -> safe (st_read (fun a => entry_at a i) ≫= k).
Proof. intros Hi Hk a Ha. rewrite st_bind_read. destruct (entry_at_ok a i Ha Hi) as (e & -> & _ & He). by apply Hk. Qed.
Lemma safe_bytes bs off n (k : bytes -> ST IoApic Error unit) :
  Forall is_byte bs -> 0 <= off -> 0 <= n -> off + n <= Z.of_nat (length bs) ->
  (forall w, fits (8 * n) (from_le_bytes w) -> safe (k w)) -> safe (st_lift (slice_ck bs off n) ≫= k).
Proof.
  intros Hb Ho Hn Hl Hk a Ha. rewrite st_bind_lift, slice_ck_ok by done. apply Hk; [by apply slice_fits|done].
Qed.

Lemma set_high_ok v e : fits 32 v -> entry_ok e -> entry_ok (set_high v e).
Proof.
  intros [H1 H2] He. apply fits_lor; [lia|by apply fits_land|]. rewrite Z.shiftl_mul_pow2 by done. split; [lia|].
  change (2 ^ 64) with (2 ^ 32 * 2 ^ 32). lia.
Qed.

Lemma set_edges_wf a m : apic_wf a -> fits 32 m -> apic_wf (set_masked_edges m a).
Proof. intros [] Hm. by split. Qed.

Lemma safe_write offset value : fits 32 value -> safe (write offset value).
Proof.
  intros Hv. unfold write. destruct (offset =? IOREGSEL); [apply safe_modify; intros a []; by split|].
  destruct (offset =? IOWIN); [|apply safe_ret]. unfold write_indirect. intros a Ha. rewrite st_bind_gets.
  destruct (regsel a =? IOAPICID); [by apply safe_ret|]. destruct (_ || _); [by apply safe_ret|].
  destruct (Z.leb_spec IOREDTBL_BASE (regsel a)); [|by apply safe_ret].
  destruct (Z.ltb_spec (regsel a) (IOREDTBL_BASE + 48)); [|by apply safe_ret]. cbn [andb].
  destruct (Z.ltb_spec ((regsel a - IOREDTBL_BASE) / 2) IOAPIC_NUM_PINS); [|by apply safe_ret].
  revert a Ha H H0 H1. intros a Ha H H0 H1. set (i := (regsel a - IOREDTBL_BASE) / 2) in *.
  assert (0 <= i < 24) as Hi by (split; [apply Z.div_pos; lia|done]). generalize ((regsel a - IOREDTBL_BASE) mod 2 =? 1) as hi.
  clearbody i. clear H H0 H1. intros hi. revert a Ha. apply safe_entry; [done|]. intros e He.
  destruct hi; [apply safe_modify; intros; apply put_entry_wf; [done|by apply set_high_ok]|].
  apply safe_then; [intros; apply put_entry_wf; [done|by apply write_low_ok]|].
  destruct (is_masked _); cbn [negb]; [apply safe_ret|]. intros a Ha. rewrite st_bind_gets, st_bind_modify.
  assert (apic_wf (set_masked_edges (Z.land (masked_edges a) (bnot 32 (Z.shiftl 1 i))) a)) as Hw.
  { apply set_edges_wf; [done|]. apply fits_land; [apply Ha|]. apply fits_bnot, fits_shift1. lia. }
  destruct (has _ _); [split; [done|by apply deliver_wf]|by split].
Qed.

Lemma safe_raise irq : fits 8 irq -> safe (raise_irq irq).
Proof.
  intros Hi. unfold raise_irq. destruct (Z.leb_spec IOAPIC_NUM_PINS irq) as [|Hlt]; [apply safe_ret|].
  assert (0 <= irq < 24) as Hr by (destruct Hi; unfold IOAPIC_NUM_PINS in Hlt; lia).
  apply safe_then; [intros; apply set_irq_state_wf; [done|]; apply fits_lor; [lia|by destruct H|apply fits_shift1; lia]|].
  apply safe_entry; [done|]. intros e He. destruct (is_masked e).
  - destruct (bool_decide _); [|apply safe_ret]. apply safe_modify. intros a Ha. apply set_edges_wf; [done|].
    apply fits_lor; [lia|apply Ha|apply fits_shift1; lia].
  - destruct (bool_decide _); [|apply safe_modify; intros; by apply deliver_wf].
    destruct (remote_irr e); [apply safe_ret|]. apply safe_entry; [done|]. intros now Hnow.
    apply safe_then; [intros; apply put_entry_wf; [done|by apply set_bits_ok; [lia|]]|]. apply safe_modify. intros. by apply deliver_wf.
Qed.

Lemma ioapic_eoi_wf v a : apic_wf a -> apic_wf (eoi v a).
Proof.
  intros Ha. unfold eoi. change 0 with (Z.of_nat 0). rewrite eoi_find.
  destruct (list_find _ _) as [[k e]|] eqn:E; [|done]. apply list_find_Some in E as (Hk & _).
  assert (entry_ok e) as He by exact (proj1 (Forall_lookup _ _) (aw_entries a Ha) _ _ Hk).
  destruct (eoi_entry_remote v e He) as (_ & _ & O1 & O2). cbv zeta.
  destruct (has _ _); [apply deliver_wf|]; by apply put_entry_wf.
Qed.

Lemma safe_set_entry irq e : fits 8 irq -> entry_ok e -> safe (set_entry irq e).
Proof.
  intros Hi He. unfold set_entry. destruct (Z.leb_spec IOAPIC_NUM_PINS irq) as [|Hlt]; [apply safe_err|].
  apply safe_entry; [destruct Hi; unfold IOAPIC_NUM_PINS in Hlt; lia|]. intros _ _. apply safe_modify. intros. by apply put_entry_wf.
Qed.

Lemma fits_mono w w' z : 0 <= w <= w' -> fits w z -> fits w' z.
Proof. intros Hw [? ?]. split; [done|]. eapply Z.lt_le_trans; [done|]. apply Z.pow_le_mono_r; lia. Qed.

Lemma configured_ok v dest t p m :
  fits 8 v -> fits 8 dest ->
  entry_ok (set_masked m (set_polarity p (set_trigger_mode t (set_destination_mode Physical
    (set_delivery_mode Fixed (set_destination dest (set_vector v entry_new))))))).
Proof.
  intros Hv Hd. assert (forall e, entry_ok e -> entry_ok (set_masked m e)) as H1
    by (intros; destruct m; [apply set_bits_ok|apply clear_bits_ok]; lia || done).
  assert (forall e, entry_ok e -> entry_ok (set_polarity p e)) as H2
    by (intros; destruct p; [apply clear_bits_ok|apply set_bits_ok]; lia || done).
  assert (forall e, entry_ok e -> entry_ok (set_trigger_mode t e)) as H3
    by (intros; destruct t; [apply clear_bits_ok|apply set_bits_ok]; lia || done).
  apply H1, H2, H3. apply clear_bits_ok; [lia|]. apply fits_lor; [lia| |by split].
  apply fits_land; [|done]. apply fits_lor; [lia|apply fits_land; [|done]|].
  - apply fits_lor; [lia|by apply fits_land; [split|]|by apply (fits_mono 8)].
  - destruct Hd. rewrite Z.shiftl_mul_pow2 by done. split; [lia|]. unfold DEST_SHIFT. change (2 ^ 64) with (2 ^ 8 * 2 ^ 56). lia.
Qed.

Lemma import_entries_ok bs i n :
  Forall is_byte bs -> 0 <= i -> 13 + (i + Z.of_nat n) * 8 <= Z.of_nat (length bs) ->
  exists l, import_entries bs i n = Ok l /\ length l = n /\ Forall entry_ok l.
Proof.
  intros Hb. revert i. induction n as [|n IH]; intros i Hi Hl; cbn [import_entries]; [by exists []|].
  unfold import_entry. rewrite slice_ck_ok by lia. cbn [mbind Res_bind mret Res_ret].
  destruct (IH (i + 1)) as (l & -> & Hn & Hf); [lia..|]. eexists. split; [reflexivity|]. split; [cbn; lia|].
  apply Forall_cons. split; [|done]. apply (slice_fits bs (13 + i * 8) 8); [done|lia..].
Qed.

Lemma safe_import bs : Forall is_byte bs -> safe (import_state bs).
Proof.
  intros Hb. unfold import_state. destruct (Z.eqb_spec (Z.of_nat (length bs)) (1 + 3 * 4 + IOAPIC_NUM_PINS * 8)) as [Hl|];
    [|apply safe_err]. unfold IOAPIC_NUM_PINS in Hl. cbn [negb]. apply safe_bytes; [done|lia..|]. intros w _.
  destruct (negb _); [apply safe_err|]. apply safe_bytes; [done|lia..|]. intros w1 H1. apply safe_then; [intros a []; by split|].
  apply safe_bytes; [done|lia..|]. intros w2 H2. apply safe_then; [intros a []; by split|].
  apply safe_bytes; [done|lia..|]. intros w3 H3. apply safe_then; [intros a []; by split|].
  intros a Ha. rewrite st_bind_gets, st_bind_lift, (aw_table a Ha).
  destruct (import_entries_ok bs 0 24 Hb) as (l & -> & Hn & Hf); [lia..|]. split; [done|]. destruct Ha. by split.
Qed.

Lemma aop_safe o : aop_ok o -> safe (apply_aop o).
Proof.
  destruct o as [off w|irq|irq|v|irq e|irq v dest t p m|bs|]; cbn [aop_ok apply_aop].
  - intros [_ Hw]. by apply safe_write.
  - apply safe_raise.
  - intros [H1 H2]. apply safe_modify. intros a Ha. unfold lower_irq. destruct (Z.leb_spec IOAPIC_NUM_PINS irq) as [|Hlt]; [done|].
    apply set_irq_state_wf; [done|]. apply fits_land; [apply Ha|]. apply fits_bnot, fits_shift1. unfold IOAPIC_NUM_PINS in Hlt. lia.
  - intros _. apply safe_modify. apply ioapic_eoi_wf.
  - intros [Hi He]. by apply safe_set_entry.
  - intros (Hi & Hv & Hd). unfold configure_irq. destruct (IOAPIC_NUM_PINS <=? irq); [apply safe_err|].
    apply safe_set_entry; [done|by apply configured_ok].
  - apply safe_import.
  - intros _. apply safe_modify. intros a []. by split.
Qed.

(** In every run of the controller, whatever the guest writes, whatever the devices
    raise and whatever is imported, no call panics and the registers keep their
    widths. *)
Theorem ioapic_invariant i os :
  Forall aop_ok os ->
  let run := foldl (fun a o => (apply_aop o a).2) (ioapic_new i) os in
  apic_wf run /\ forall o, aop_ok o -> is_panic (apply_aop o run).1 = false.
Proof.
  intros Hos. cbv zeta. assert (apic_wf (foldl (fun a o => (apply_aop o a).2) (ioapic_new i) os)) as Hw.
  { assert (apic_wf (ioapic_new i)) as Hn.
    { split; try done. apply Forall_replicate. by split. }
    revert Hn. generalize (ioapic_new i) as a. induction Hos as [|o os Ho Hos IH]; intros a Ha; cbn [foldl]; [done|].
    apply IH, aop_safe; done. }
  split; [done|]. intros o Ho. by apply (aop_safe o Ho).
Qed.

(** ** Snapshots *)

Lemma export_length a : apic_wf a -> Z.of_nat (length (export_state a)) = 205.
Proof.
  intros Ha. unfold export_state. cbn [length]. rewrite !length_app.
  assert (forall l, length (concat ((fun e => to_le_bytes 8 (raw e)) <$> l)) = (8 * length l)%nat) as Hc.
  { induction l as [|e l IH]; [done|]. rewrite fmap_cons. cbn [concat length]. rewrite length_app, IH.
    pose proof (length_to_le_bytes 8 (raw e) ltac:(lia)). lia. }
  rewrite Hc, (aw_table a Ha). pose proof (length_to_le_bytes 4 (regsel a) ltac:(lia)).
  pose proof (length_to_le_bytes 4 (irq_state a) ltac:(lia)). pose proof (length_to_le_bytes 4 (masked_edges a) ltac:(lia)). lia.
Qed.

Lemma import_entries_export pre l i :
  Forall entry_ok l -> Z.of_nat (length pre) = 13 + i * 8 -> 0 <= i ->
  import_entries (pre ++ concat ((fun e => to_le_bytes 8 (raw e)) <$> l)) i (length l) = Ok l.
Proof.
  intros Hl. revert pre i. induction Hl as [|e l He Hl IH]; intros pre i Hp Hi; [done|]. rewrite fmap_cons. cbn [length concat import_entries].
  unfold import_entry. rewrite (slice_ck_mid _ pre (to_le_bytes 8 (raw e)) (concat ((fun e => to_le_bytes 8 (raw e)) <$> l)));
    [|done|done|by rewrite length_to_le_bytes by lia].
  cbn [mbind Res_bind mret Res_ret]. rewrite from_to_le_bytes by (done || lia). rewrite app_assoc, IH.
  - by destruct e.
  - rewrite length_app. pose proof (length_to_le_bytes 8 (raw e) ltac:(lia)). lia.
  - lia.
Qed.

(** A snapshot imported into any controller gives back the selected register, the
    lines, the kept edges and every entry, remote IRR included. *)
Theorem ioapic_export_import a b :
  apic_wf a -> apic_wf b ->
  exists b', import_state (export_state a) b = (Ok tt, b') /\ regsel b' = regsel a /\ irq_state b' = irq_state a /\
    masked_edges b' = masked_edges a /\ redirection_table b' = redirection_table a /\ delivered b' = delivered b.
Proof.
  intros Ha Hb. unfold import_state. rewrite export_length by done. change (205 =? 1 + 3 * 4 + IOAPIC_NUM_PINS * 8) with true. cbn [negb].
  set (r := to_le_bytes 4 (regsel a)). set (s := to_le_bytes 4 (irq_state a)). set (m := to_le_bytes 4 (masked_edges a)).
  set (t := concat ((fun e => to_le_bytes 8 (raw e)) <$> redirection_table a)).
  assert (Z.of_nat (length r) = 4 /\ Z.of_nat (length s) = 4 /\ Z.of_nat (length m) = 4) as (Lr & Ls & Lm)
    by (split_and!; by apply length_to_le_bytes).
  assert (export_state a = 1 :: r ++ s ++ m ++ t) as Ee by done.
  rewrite st_bind_lift, (slice_ck_mid _ [] [1] (r ++ s ++ m ++ t)) by done. cbn [Z.eqb from_le_bytes little_endian_to_Z].
  change (Z.lor 1 (Z.shiftl 0 8) =? 1) with true. cbn [negb].
  rewrite st_bind_lift, (slice_ck_mid _ [1] r (s ++ m ++ t)) by done. rewrite st_bind_modify.
  rewrite st_bind_lift, (slice_ck_mid _ (1 :: r) s (m ++ t));
    [|done|cbn [length]; lia|done]. rewrite st_bind_modify.
  rewrite st_bind_lift, (slice_ck_mid _ (1 :: r ++ s) m t);
    [|rewrite Ee; cbn; by rewrite <- app_assoc|cbn [length]; rewrite length_app; lia|done]. rewrite st_bind_modify, st_bind_gets, st_bind_lift.
  cbn [set_masked_edges set_irq_state set_regsel redirection_table]. rewrite (aw_table b Hb), <- (aw_table a Ha).
  replace (export_state a) with ((1 :: r ++ s ++ m) ++ t) by (rewrite Ee; cbn; by rewrite <- !app_assoc).
  unfold t. rewrite import_entries_export; [|apply Ha|cbn [length]; rewrite !length_app; lia|lia].
  eexists. split; [reflexivity|]. destruct Ha. unfold r, s, m. cbn. by rewrite !from_to_le_bytes by (done || lia).
Qed.

(** ** Examples *)

(** Pins 16 and 17 level-triggered with the same vector, both in use; pin 4
    edge-triggered. *)
Definition level_raw : Z := Z.lor TRIGGER 0x41.
Definition example_apic (remote : Z) : IoApic :=
  mkIoApic 0 0 (<[4%nat := write_low 0x34 entry_new]> (<[16%nat := from_raw level_raw]>
    (<[17%nat := from_raw (Z.lor level_raw remote)]> (replicate 24 entry_new)))) 0 0 true [].

Lemma example_apic_wf remote : fits 64 (Z.lor level_raw remote) -> apic_wf (example_apic remote).
Proof.
  intros Hr. split; try done. unfold example_apic. cbn [redirection_table].
  by repeat apply Forall_insert; try (apply Forall_replicate; split).
Qed.

Lemma example_first remote : first_match 0x41 16 (redirection_table (example_apic remote)).
Proof.
  intros j e Hj He. do 16 (destruct j as [|j]; [injection He as <-; reflexivity|]). change (Z.to_nat 16) with 16%nat in Hj. lia.
Qed.

Lemma level_refines_witness :
  exists a', pin_run 16 0x41 [Raise; Raise; Eoi; Lower; Eoi; Raise] (example_apic 0) = (Ok tt, a') /\
    delivered a' = [(0, 0x41, false); (0, 0x41, false); (0, 0x41, false)] /\
    Z.testbit (irq_state a') 16 = true /\ (e' ← entry_at a' 16; mret (remote_irr e')) = Ok true /\ apic_wf a'.
Proof.
  apply (level_refines 16 0x41 (from_raw level_raw) [Raise; Raise; Eoi; Lower; Eoi; Raise] (example_apic 0));
    [lia|by apply example_apic_wf|done|done|done|done|done|done|apply example_first].
Defined.

Lemma edge_refines_witness :
  exists a', edge_run 4 0x34 [ERaise; EMask; ERaise; ERaise; EUnmask] (example_apic 0) = (Ok tt, a') /\
    delivered a' = [(0, 0x34, false); (0, 0x34, false)] /\
    Z.testbit (masked_edges a') 4 = false /\ (e' ← entry_at a' 4; mret (is_masked e')) = Ok false /\ apic_wf a'.
Proof.
  apply (edge_refines 4 0x34 entry_new [ERaise; EMask; ERaise; ERaise; EUnmask] (example_apic 0));
    [lia|by apply example_apic_wf|done|by split|by split|done|done|done].
Defined.

Lemma shared_vector_stuck_witness :
  exists a'', raise_irq 17 (Nat.iter 5 (eoi 0x41) (example_apic REMOTE_IRR)) = (Ok tt, a'') /\
    delivered a'' = delivered (Nat.iter 5 (eoi 0x41) (example_apic REMOTE_IRR)) /\
    redirection_table a'' !! 17%nat = Some (from_raw (Z.lor level_raw REMOTE_IRR)).
Proof.
  apply (shared_vector_stuck 0x41 16 17 (from_raw level_raw) (from_raw (Z.lor level_raw REMOTE_IRR)) (example_apic REMOTE_IRR) 5);
    [lia|lia|by apply example_apic_wf|done|done|apply example_first|done|done|done|done].
Defined.

Lemma masked_level_lost_witness :
  exists a', (_ ← raise_irq 3; write_pin 3 level_raw) (put_entry 3 (set_bits TRIGGER entry_new) (example_apic 0)) = (Ok tt, a') /\
    delivered a' = [] /\ Z.testbit (irq_state a') 3 = true /\
    exists e', entry_at a' 3 = Ok e' /\ is_masked e' = false /\ trigger_mode e' = Level /\ remote_irr e' = false.
Proof.
  apply (masked_level_lost 3 level_raw (set_bits TRIGGER entry_new) (put_entry 3 (set_bits TRIGGER entry_new) (example_apic 0)));
    done || by split.
Defined.

Lemma ioapic_invariant_witness :
  let run := foldl (fun a o => (apply_aop o a).2) (ioapic_new 0) [ACallback; AConfigure 3 0x50 1 Edge ActiveHigh false; ARaise 3] in
  apic_wf run /\ forall o, aop_ok o -> is_panic (apply_aop o run).1 = false.
Proof.
  apply (ioapic_invariant 0 [ACallback; AConfigure 3 0x50 1 Edge ActiveHigh false; ARaise 3]).
  repeat (apply Forall_cons; split); try apply Forall_nil_2; by repeat split.
Defined.

Lemma ioapic_export_import_witness :
  exists b', import_state (export_state (example_apic REMOTE_IRR)) (ioapic_new 7) = (Ok tt, b') /\
    regsel b' = 0 /\ irq_state b' = 0 /\ masked_edges b' = 0 /\
    redirection_table b' = redirection_table (example_apic REMOTE_IRR) /\ delivered b' = [].
Proof.
  apply (ioapic_export_import (example_apic REMOTE_IRR) (ioapic_new 7)); [by apply example_apic_wf|].
  split; try done. apply Forall_replicate. by split.
Defined.
