(* ===== verification/DeviceBus.v ===== *)
(** * The device bus ([hv2-core/src/device.rs] and the access handlers of [vm.rs])

    Registered devices, the memory regions and port ranges they answer, and the path of
    a guest access from the exit of the processor to a device and back. *)

From S2P Require Import Prelude Pic Pit IoApic.

(** ** Devices *)

Inductive DeviceType :=
  | Serial | Keyboard | Mouse | Disk | Network | Gpu | Display | Timer | RTC | Input | InterruptController | Custom.
#[global] Instance DeviceType_eq_dec : EqDecision DeviceType.
Proof. solve_decision. Defined.

(** The trait, as far as the bus calls it: a read fills the buffer it is given.  A sink is
    known by its number. *)
Class DeviceTrait (D : Type) := {
  dev_type : D -> DeviceType;
  dev_init : ST D Error unit;
  dev_read : Z -> bytes -> ST D Error bytes;
  dev_write : Z -> bytes -> ST D Error unit;
  dev_shutdown : ST D Error unit;
  dev_set_sink : Z -> D -> D;
  dev_pending : D -> option Z;
  dev_console_input : bytes -> ST D Error unit
}.

(** A buffer is filled in place. *)
Class DeviceLaws (D : Type) `{DeviceTrait D} := {
  dev_read_fills off buf d b d' : dev_read off buf d = (Ok b, d') -> length b = length buf /\ (Forall is_byte buf -> Forall is_byte b)
}.

(** ** The bus *)

(** An [Arc] to a device is its number in the store of objects, so that two mappings of
    one device share its state. *)
Record MmioRegionMapping := mkRegion { base_addr : Z; size : Z; m_name : string; m_device : Z }.
Record IoPortMapping := mkPorts { start_port : Z; end_port : Z; io_name : string; io_device : Z }.

Section Bus.
Context {D : Type} `{DeviceTrait D}.

Record DeviceManager := mkBus {
  devices : gmap string Z;
  mmio_regions : list MmioRegionMapping;
  io_ports : list IoPortMapping;
  interrupt_sink : option Z;
  objects : gmap Z D
}.
Abbreviation Bus := (ST DeviceManager Error).

(** A new manager, over the devices that exist. *)
Definition bus_new (objs : gmap Z D) : DeviceManager := mkBus ∅ [] [] None objs.

Definition set_devices (x : gmap string Z) (m : DeviceManager) : DeviceManager := mkBus x (mmio_regions m) (io_ports m) (interrupt_sink m) (objects m).
Definition set_mmio (x : list MmioRegionMapping) (m : DeviceManager) : DeviceManager := mkBus (devices m) x (io_ports m) (interrupt_sink m) (objects m).
Definition set_ports (x : list IoPortMapping) (m : DeviceManager) : DeviceManager := mkBus (devices m) (mmio_regions m) x (interrupt_sink m) (objects m).
Definition set_objects (x : gmap Z D) (m : DeviceManager) : DeviceManager := mkBus (devices m) (mmio_regions m) (io_ports m) (interrupt_sink m) x.

(** A method of the object behind an [Arc]. *)
Definition on_object {A} (h : Z) (f : ST D Error A) : Bus A := fun m =>
  match objects m !! h with
  | Some d => let '(r, d') := f d in (r, set_objects (<[h := d']> (objects m)) m)
  | None => (Panic ExpectFailed, m)
  end.

Definition register_device (name : string) (h : Z) : Bus unit :=
  known ← st_gets (fun m => devices m !! name);
  match known with
  | Some _ => st_lift (Err (Device "Device '{}' already registered" []))
  | None =>
      sink ← st_gets interrupt_sink;
      _ ← (match sink with Some s => on_object h (st_modify (dev_set_sink s)) | None => mret tt end);
      st_modify (fun m => set_devices (<[name := h]> (devices m)) m)
  end.

Definition set_interrupt_sink (s : Z) (m : DeviceManager) : DeviceManager :=
  mkBus (devices m) (mmio_regions m) (io_ports m) (Some s) (objects m).

Definition unregister_device (name : string) : Bus unit :=
  known ← st_gets (fun m => devices m !! name);
  match known with
  | None => st_lift (Err (Device "Device '{}' not found" []))
  | Some _ => st_modify (fun m => set_devices (delete name (devices m)) m)
  end.

Definition get_device (name : string) (m : DeviceManager) : option Z := devices m !! name.

(** The loops of [init_all] and [shutdown_all], over the devices in the order of the map. *)
Fixpoint for_each (f : ST D Error unit) (hs : list Z) : Bus unit :=
  match hs with
  | [] => mret tt
  | h :: hs' => _ ← on_object h f; for_each f hs'
  end.
Definition init_all (order : gmap string Z -> list Z) : Bus unit := hs ← st_gets (fun m => order (devices m)); for_each dev_init hs.
Definition shutdown_all (order : gmap string Z -> list Z) : Bus unit := hs ← st_gets (fun m => order (devices m)); for_each dev_shutdown hs.
Definition get_devices_by_type (order : gmap string Z -> list Z) (t : DeviceType) (m : DeviceManager) : list Z :=
  List.filter (fun h => match objects m !! h with Some d => bool_decide (dev_type d = t) | None => false end) (order (devices m)).

(** *** Mappings *)

Fixpoint check_regions (base end_addr : Z) (rs : list MmioRegionMapping) : Result unit :=
  match rs with
  | [] => mret tt
  | r :: rs' =>
      region_end ← add 64 (base_addr r) (size r);
      if (base <? region_end) && (base_addr r <? end_addr)
      then Err (Device "MMIO region {:#x}-{:#x} overlaps with existing region {:#x}-{:#x} ({})" [base; end_addr; base_addr r; region_end])
      else check_regions base end_addr rs'
  end.

Definition register_mmio_region (name : string) (base sz : Z) : Bus unit :=
  h ← st_read (fun m => ok_or (devices m !! name) (Device "Device '{}' not found" []));
  end_addr ← st_lift (add 64 base sz);
  _ ← st_read (fun m => check_regions base end_addr (mmio_regions m));
  st_modify (fun m => set_mmio (mmio_regions m ++ [mkRegion base sz name h]) m).

Fixpoint check_ports (s e : Z) (ps : list IoPortMapping) : Result unit :=
  match ps with
  | [] => mret tt
  | p :: ps' =>
      if (s <=? end_port p) && (start_port p <=? e)
      then Err (Device "I/O port range {:#x}-{:#x} overlaps with existing range {:#x}-{:#x} ({})" [s; e; start_port p; end_port p])
      else check_ports s e ps'
  end.

Definition register_io_port_range (name : string) (s e : Z) : Bus unit :=
  h ← st_read (fun m => ok_or (devices m !! name) (Device "Device '{}' not found" []));
  _ ← st_read (fun m => check_ports s e (io_ports m));
  st_modify (fun m => set_ports (io_ports m ++ [mkPorts s e name h]) m).

Fixpoint find_region (addr : Z) (rs : list MmioRegionMapping) : Result (option MmioRegionMapping) :=
  match rs with
  | [] => mret None
  | r :: rs' =>
      end_addr ← add 64 (base_addr r) (size r);
      if (base_addr r <=? addr) && (addr <? end_addr) then mret (Some r) else find_region addr rs'
  end.
Definition find_mmio_device (addr : Z) (m : DeviceManager) : Result (option MmioRegionMapping) := find_region addr (mmio_regions m).

Definition find_io_device (port : Z) (m : DeviceManager) : option IoPortMapping :=
  List.find (fun p => (start_port p <=? port) && (port <=? end_port p)) (io_ports m).

(** *** Handles *)

Definition clamp_width (width : Z) : nat := Z.to_nat (Z.max 1 (Z.min width 4)).

Definition read_register (h : Z) (offset width : Z) : Bus Z :=
  let w := clamp_width width in
  b ← on_object h (dev_read offset (replicate w 0));
  mret (from_le_bytes (b ++ replicate (4 - w) 0)).
Definition write_register (h : Z) (offset value width : Z) : Bus unit :=
  on_object h (dev_write offset (take (clamp_width width) (to_le_bytes 4 value))).
Definition pending_interrupt (h : Z) (m : DeviceManager) : option Z := objects m !! h ≫= dev_pending.
Definition io_read_register (h : Z) (offset width : Z) : Bus Z :=
  let w := clamp_width width in
  b ← on_object h (dev_read offset (replicate w 0));
  mret (from_le_bytes (b ++ replicate (4 - w) 0)).
Definition io_write_register (h : Z) (offset value width : Z) : Bus unit :=
  on_object h (dev_write offset (take (clamp_width width) (to_le_bytes 4 value))).
Definition console_input (h : Z) (data : bytes) : Bus unit := on_object h (dev_console_input data).

(** ** Guest accesses *)

Inductive VmEvent := MemoryAccess (addr len : Z) (is_write : bool) | IoOperation (port : Z) (is_write : bool).
Record Vm := mkVm { bus : DeviceManager; vm_pic : Pic8259; events : list VmEvent }.
Record IoOutcome := mkOutcome { input : option (Z * Z); interrupt : option Z }.
Inductive IoDirection := In | Out.

Definition on_bus {A} (f : Bus A) : ST Vm Error A := fun v => let '(r, m) := f (bus v) in (r, mkVm m (vm_pic v) (events v)).
Definition on_pic {A} (f : ST Pic8259 Error A) : ST Vm Error A := fun v => let '(r, p) := f (vm_pic v) in (r, mkVm (bus v) p (events v)).
Definition publish (e : VmEvent) : ST Vm Error unit := st_modify (fun v => mkVm (bus v) (vm_pic v) (events v ++ [e])).

(** [data] is the eight bytes of the exit, given back as the handler leaves them.  The
    arguments of a log message are not evaluated when it is not printed. *)
Definition mmio_write (addr : Z) (data : bytes) (len : Z) : ST Vm Error bytes :=
  r ← on_bus (st_read (find_mmio_device addr));
  match r with
  | None => mret data
  | Some r =>
      offset ← st_lift (sub addr (base_addr r));
      if len =? 8 then
        _ ← on_bus (write_register (m_device r) offset (from_le_bytes (slice data 0 4)) 4);
        next ← st_lift (add 64 offset 4);
        _ ← on_bus (write_register (m_device r) next (from_le_bytes (slice data 4 4)) 4);
        mret data
      else
        value ← (if len =? 1 then mret (from_le_bytes (slice data 0 1))
                 else if len =? 2 then mret (from_le_bytes (slice data 0 2))
                 else if len =? 4 then mret (from_le_bytes (slice data 0 4))
                 else st_lift (Err (InvalidMemoryAccess addr)));
        _ ← on_bus (write_register (m_device r) offset value (trunc 8 len));
        _ ← publish (MemoryAccess addr len true);
        mret data
  end.

Definition mmio_read (addr : Z) (data : bytes) (len : Z) : ST Vm Error bytes :=
  r ← on_bus (st_read (find_mmio_device addr));
  match r with
  | None => st_lift (if len <=? Z.of_nat (length data) then Ok (splice data 0 (replicate (Z.to_nat len) 0xFF)) else Panic IndexOutOfBounds)
  | Some r =>
      offset ← st_lift (sub addr (base_addr r));
      value ← on_bus (read_register (m_device r) offset (trunc 8 len));
      data' ← (if len =? 1 then mret (splice data 0 (to_le_bytes 1 (trunc 8 value)))
               else if len =? 2 then mret (splice data 0 (to_le_bytes 2 (trunc 16 value)))
               else if len =? 4 then mret (splice data 0 (to_le_bytes 4 value))
               else if len =? 8 then
                 low ← on_bus (read_register (m_device r) offset 4);
                 next ← st_lift (add 64 offset 4);
                 high ← on_bus (read_register (m_device r) next 4);
                 mret (splice (splice data 0 (to_le_bytes 4 low)) 4 (to_le_bytes 4 high))
               else st_lift (Err (InvalidMemoryAccess addr)));
      _ ← publish (MemoryAccess addr len false);
      mret data'
  end.

Definition handle_mmio (addr : Z) (data : bytes) (len : Z) (is_write : bool) : ST Vm Error bytes :=
  if is_write then mmio_write addr data len else mmio_read addr data len.

Definition handle_io (port : Z) (direction : IoDirection) (sz data : Z) : ST Vm Error IoOutcome :=
  match direction with
  | Out =>
      irq ← (if handles_port port then _ ← on_pic (Pic.write_port port (trunc 8 data)); mret None
             else
               p ← st_gets (fun v => find_io_device port (bus v));
               match p with
               | Some p =>
                   offset ← st_lift (sub port (start_port p));
                   _ ← on_bus (io_write_register (io_device p) offset data sz);
                   st_gets (fun v => pending_interrupt (io_device p) (bus v))
               | None => mret None
               end);
      _ ← publish (IoOperation port true);
      mret (mkOutcome None irq)
  | In =>
      di ← (if handles_port port then b ← st_read (fun v => Pic.read_port port (vm_pic v)); mret (b, None)
            else
              p ← st_gets (fun v => find_io_device port (bus v));
              match p with
              | Some p =>
                  offset ← st_lift (sub port (start_port p));
                  d ← on_bus (io_read_register (io_device p) offset sz);
                  irq ← st_gets (fun v => pending_interrupt (io_device p) (bus v));
                  mret (d, irq)
              | None => mret (0xFF, None)
              end);
      _ ← publish (IoOperation port false);
      mret (mkOutcome (Some (di.1, sz)) di.2)
  end.

(** The controller of the guest is the one of the process; its errors are dropped. *)
Definition pulse_irq (irq : Z) : ST Vm Error unit := fun v =>
  match on_pic (Pic.raise_irq irq) v with
  | (Panic p, v') => (Panic p, v')
  | (_, v') => (Ok tt, v')
  end.
End Bus.

(** ** Registers and bytes *)

Lemma from_le_pad (bs : bytes) k : from_le_bytes (bs ++ replicate k 0) = from_le_bytes bs.
Proof.
  unfold from_le_bytes. induction bs as [|b bs IH]; simpl; [|rewrite IH; reflexivity].
  induction k as [|k IHk]; simpl; [reflexivity|]. rewrite IHk. reflexivity.
Qed.
Lemma to_from_le_bytes (bs : bytes) n : Forall is_byte bs -> n = Z.of_nat (length bs) -> to_le_bytes n (from_le_bytes bs) = bs.
Proof. intros Hb ->. apply Z_to_little_endian_to_Z; [reflexivity|lia|exact Hb]. Qed.
Lemma zeros_bytes k : Forall is_byte (replicate k 0).
Proof. apply Forall_replicate. unfold is_byte. lia. Qed.

(** The bytes a handle passes to a device are those the guest wrote. *)
Lemma register_bytes (bs : bytes) : Forall is_byte bs -> (length bs <= 4)%nat -> take (length bs) (to_le_bytes 4 (from_le_bytes bs)) = bs.
Proof.
  intros Hb Hl. rewrite <- (from_le_pad bs (4 - length bs)), to_from_le_bytes.
  - apply take_app_length.
  - apply Forall_app. split; [exact Hb|apply zeros_bytes].
  - rewrite length_app, length_replicate. lia.
Qed.

(** And the bytes the guest reads are those the device gave. *)
Lemma read_bytes_back (bs : bytes) n :
  Forall is_byte bs -> n = Z.of_nat (length bs) -> to_le_bytes n (trunc (8 * n) (from_le_bytes (bs ++ replicate (4 - length bs) 0))) = bs.
Proof.
  intros Hb Hn. rewrite from_le_pad. unfold trunc. rewrite Z.mod_small; [apply to_from_le_bytes; assumption|].
  subst n. apply from_le_bytes_bound, Hb.
Qed.

(** ** The invariant of the bus *)

Definition covers (r : MmioRegionMapping) (a : Z) : Prop := base_addr r <= a < base_addr r + size r.
Definition covers_port (p : IoPortMapping) (a : Z) : Prop := start_port p <= a <= end_port p.
Definition region_ok (r : MmioRegionMapping) : Prop := 0 <= base_addr r /\ 0 <= size r /\ base_addr r + size r < 2 ^ 64.

(** At most one element covers a number. *)
Definition at_most_one {A} (P : A -> Z -> Prop) (l : list A) : Prop :=
  forall i j x y a, l !! i = Some x -> l !! j = Some y -> P x a -> P y a -> i = j.

Lemma at_most_one_snoc {A} (P : A -> Z -> Prop) l x :
  at_most_one P l -> (forall y a, y ∈ l -> P y a -> ~ P x a) -> at_most_one P (l ++ [x]).
Proof.
  intros Hl Hx i j y z a Hi Hj Py Pz. apply lookup_app_Some in Hi as [Hi|[Hi Ei]], Hj as [Hj|[Hj Ej]].
  - exact (Hl i j y z a Hi Hj Py Pz).
  - apply list_lookup_singleton_Some in Ej as [_ ->]. destruct (Hx y a); [eapply list_elem_of_lookup_2; exact Hi|exact Py|exact Pz].
  - apply list_lookup_singleton_Some in Ei as [_ ->]. destruct (Hx z a); [eapply list_elem_of_lookup_2; exact Hj|exact Pz|exact Py].
  - apply list_lookup_singleton_Some in Ei as [Ei _], Ej as [Ej _]. lia.
Qed.

Lemma at_most_one_unique {A} (P : A -> Z -> Prop) l x y a : at_most_one P l -> x ∈ l -> y ∈ l -> P x a -> P y a -> x = y.
Proof.
  intros Hl [i Hi]%list_elem_of_lookup [j Hj]%list_elem_of_lookup Px Py. assert (i = j) as -> by exact (Hl i j x y a Hi Hj Px Py). congruence.
Qed.

Lemma find_mapping_ok addr rs :
  Forall region_ok rs -> find_region addr rs = Ok (List.find (fun r => (base_addr r <=? addr) && (addr <? base_addr r + size r)) rs).
Proof.
  induction 1 as [|r rs (H1 & H2 & H3) _ IH]; [reflexivity|]. cbn [find_region List.find]. rewrite add_ok by exact H3. cbn [mbind Res_bind].
  destruct (_ && _); [reflexivity|exact IH].
Qed.

Lemma check_regions_ok base end_addr rs :
  Forall region_ok rs ->
  match check_regions base end_addr rs with
  | Ok _ => forall r a, r ∈ rs -> covers r a -> ~ (base <= a < end_addr)
  | Err _ => exists r, r ∈ rs /\ base < base_addr r + size r /\ base_addr r < end_addr
  | Panic _ => False
  end.
Proof.
  induction 1 as [|r rs (H1 & H2 & H3) _ IH]; cbn [check_regions]; [intros r a Hr; apply not_elem_of_nil in Hr; contradiction|].
  rewrite add_ok by exact H3. cbn [mbind Res_bind].
  destruct (Z.ltb_spec base (base_addr r + size r)), (Z.ltb_spec (base_addr r) end_addr); cbn [andb];
    try (exists r; split; [apply list_elem_of_here|lia]);
    (destruct (check_regions base end_addr rs) as [u|e|p]; [|destruct IH as (x & Hx & Hc); exists x; split; [apply list_elem_of_further, Hx|exact Hc]|exact IH];
     intros x a [->|Hx]%elem_of_cons Hc; [unfold covers in Hc; lia|exact (IH x a Hx Hc)]).
Qed.

Lemma check_ports_ok s e ps :
  match check_ports s e ps with
  | Ok _ => forall p a, p ∈ ps -> covers_port p a -> ~ (s <= a <= e)
  | Err _ => exists p, p ∈ ps /\ s <= end_port p /\ start_port p <= e
  | Panic _ => False
  end.
Proof.
  induction ps as [|p ps IH]; cbn [check_ports]; [intros r a Hr; apply not_elem_of_nil in Hr; contradiction|].
  destruct (Z.leb_spec s (end_port p)), (Z.leb_spec (start_port p) e); cbn [andb];
    try (exists p; split; [apply list_elem_of_here|lia]);
    (destruct (check_ports s e ps) as [u|x|x]; [|destruct IH as (y & Hy & Hc); exists y; split; [apply list_elem_of_further, Hy|exact Hc]|exact IH];
     intros y a [->|Hy]%elem_of_cons Hc; [unfold covers_port in Hc; lia|exact (IH y a Hy Hc)]).
Qed.

Section Invariant.
Context {D : Type} `{DeviceTrait D}.

Record bus_wf (objs : gset Z) (m : DeviceManager (D := D)) : Prop := {
  bw_regions : Forall region_ok (mmio_regions m);
  bw_one : at_most_one covers (mmio_regions m);
  bw_one_port : at_most_one covers_port (io_ports m);
  bw_objects : dom (objects m) = objs;
  bw_devices n h : devices m !! n = Some h -> h ∈ objs;
  bw_mmio r : r ∈ mmio_regions m -> m_device r ∈ objs;
  bw_ports p : p ∈ io_ports m -> io_device p ∈ objs
}.

Inductive BusOp :=
  | BRegister (name : string) (h : Z) | BUnregister (name : string) | BMmio (name : string) (base sz : Z)
  | BPorts (name : string) (s e : Z) | BSink (s : Z).
Definition bop_ok (objs : gset Z) (o : BusOp) : Prop :=
  match o with
  | BRegister _ h => h ∈ objs
  | BMmio _ base sz => 0 <= base /\ 0 <= sz /\ base + sz < 2 ^ 64
  | _ => True
  end.
Definition exec_bop (o : BusOp) : ST (DeviceManager (D := D)) Error unit :=
  match o with
  | BRegister name h => register_device name h
  | BUnregister name => unregister_device name
  | BMmio name base sz => register_mmio_region name base sz
  | BPorts name s e => register_io_port_range name s e
  | BSink s => st_modify (set_interrupt_sink s)
  end.

Lemma object_some objs m h : bus_wf objs m -> h ∈ objs -> exists d, objects m !! h = Some d.
Proof. intros Hw Hh. rewrite <- (bw_objects _ _ Hw) in Hh. apply elem_of_dom in Hh as [d Hd]. eauto. Qed.

(** Changing the state of an object. *)
Lemma set_object_wf objs m h d : bus_wf objs m -> h ∈ objs -> bus_wf objs (set_objects (<[h := d]> (objects m)) m).
Proof.
  intros [H1 H2 H3 H4 H5 H6 H7] Hh. split; try assumption. cbn [set_objects objects]. rewrite dom_insert_L, H4. apply subseteq_union_1_L, singleton_subseteq_l, Hh.
Qed.

Lemma set_devices_wf objs m x : bus_wf objs m -> (forall n h, x !! n = Some h -> h ∈ objs) -> bus_wf objs (set_devices x m).
Proof. intros [H1 H2 H3 H4 H5 H6 H7] Hx. split; assumption. Qed.

Lemma exec_bop_ok objs o m :
  bus_wf objs m -> bop_ok objs o -> is_panic (exec_bop o m).1 = false /\ bus_wf objs (exec_bop o m).2.
Proof.
  intros Hw Ho. destruct o as [n h|n|n base sz|n s e|s]; cbn [exec_bop bop_ok] in *.
  - unfold register_device. rewrite st_bind_gets. destruct (devices m !! n); [auto|]. rewrite st_bind_gets.
    destruct (object_some _ _ _ Hw Ho) as [d Hd].
    assert (Hins : forall m', bus_wf objs m' -> bus_wf objs (set_devices (<[n := h]> (devices m')) m')).
    { intros m' Hw'. apply set_devices_wf; [exact Hw'|]. intros n' h' [[_ <-]|[_ E]]%lookup_insert_Some; [exact Ho|exact (bw_devices _ _ Hw' _ _ E)]. }
    destruct (interrupt_sink m) as [k|]; rewrite st_bind_eq; [unfold on_object; rewrite Hd; cbn|cbn]; split; try reflexivity.
    + apply (Hins (set_objects (<[h := dev_set_sink k d]> (objects m)) m)), set_object_wf; assumption.
    + apply Hins, Hw.
  - unfold unregister_device. rewrite st_bind_gets. destruct (devices m !! n); [|auto]. split; [reflexivity|].
    apply set_devices_wf; [exact Hw|]. intros n' h' [_ E]%lookup_delete_Some. exact (bw_devices _ _ Hw _ _ E).
  - unfold register_mmio_region. rewrite st_bind_read. destruct (devices m !! n) as [h|] eqn:En; [cbn [ok_or]|auto].
    rewrite st_bind_lift, add_ok, st_bind_read by lia. pose proof (check_regions_ok base (base + sz) _ (bw_regions _ _ Hw)) as Hc.
    destruct (check_regions _ _ _) as [u|e|p]; [|auto|contradiction]. split; [reflexivity|].
    destruct Hw as [H1 H2 H3 H4 H5 H6 H7]. split; try assumption; cbn [st_modify snd set_mmio mmio_regions].
    + apply Forall_app. split; [exact H1|]. constructor; [exact Ho|constructor].
    + apply at_most_one_snoc; [exact H2|]. intros y a Hy Hya. exact (Hc y a Hy Hya).
    + intros r [Hr|Hr]%elem_of_app; [exact (H6 r Hr)|]. apply list_elem_of_singleton in Hr as ->. exact (H5 _ _ En).
  - unfold register_io_port_range. rewrite st_bind_read. destruct (devices m !! n) as [h|] eqn:En; [cbn [ok_or]|auto].
    rewrite st_bind_read. pose proof (check_ports_ok s e (io_ports m)) as Hc.
    destruct (check_ports _ _ _) as [u|x|x]; [|auto|contradiction]. split; [reflexivity|].
    destruct Hw as [H1 H2 H3 H4 H5 H6 H7]. split; try assumption; cbn [st_modify snd set_ports io_ports].
    + apply at_most_one_snoc; [exact H3|]. intros y a Hy Hya. exact (Hc y a Hy Hya).
    + intros r [Hr|Hr]%elem_of_app; [exact (H7 r Hr)|]. apply list_elem_of_singleton in Hr as ->. exact (H5 _ _ En).
  - split; [reflexivity|]. destruct Hw as [H1 H2 H3 H4 H5 H6 H7]. split; assumption.
Qed.

Definition run_bops (os : list BusOp) (m : DeviceManager (D := D)) : DeviceManager := foldl (fun m o => (exec_bop o m).2) m os.

Lemma run_bops_wf objs os m : bus_wf objs m -> Forall (bop_ok objs) os -> bus_wf objs (run_bops os m).
Proof.
  intros Hw Hos. revert m Hw. induction Hos as [|o os Ho _ IH]; intros m Hw; [exact Hw|]. cbn [run_bops foldl].
  apply IH. apply (exec_bop_ok objs o m Hw Ho).
Qed.

Lemma bus_new_wf (objs : gmap Z D) : bus_wf (dom objs) (bus_new objs).
Proof.
  split; cbn.
  - constructor.
  - intros i j x y a Hi. rewrite lookup_nil in Hi. discriminate.
  - intros i j x y a Hi. rewrite lookup_nil in Hi. discriminate.
  - reflexivity.
  - intros n h E. rewrite lookup_empty in E. discriminate.
  - intros r Hr. apply not_elem_of_nil in Hr. contradiction.
  - intros r Hr. apply not_elem_of_nil in Hr. contradiction.
Qed.
End Invariant.

(** ** Theorems *)

Section Access.
Context {D : Type} `{DeviceLaws D}.

(** Whatever is registered and unregistered, in whatever order, no registration panics, no
    two memory regions share an address, no two ranges share a port, and every mapping leads
    to a device that exists. *)
Theorem bus_invariant (objs : gmap Z D) os :
  Forall (bop_ok (dom objs)) os ->
  bus_wf (dom objs) (run_bops os (bus_new objs)) /\
  forall o, bop_ok (dom objs) o -> is_panic (exec_bop o (run_bops os (bus_new objs))).1 = false.
Proof.
  intros Hos. assert (Hw : bus_wf (dom objs) (run_bops os (bus_new objs))) by (apply run_bops_wf; [apply bus_new_wf|exact Hos]).
  split; [exact Hw|]. intros o Ho. apply (exec_bop_ok _ o _ Hw Ho).
Qed.

Lemma find_mmio_spec objs (m : DeviceManager (D := D)) addr :
  bus_wf objs m ->
  (exists r, find_mmio_device addr m = Ok (Some r) /\ r ∈ mmio_regions m /\ covers r addr) \/
  (find_mmio_device addr m = Ok None /\ forall r, r ∈ mmio_regions m -> ~ covers r addr).
Proof.
  intros Hw. unfold find_mmio_device. rewrite find_mapping_ok by apply (bw_regions _ _ Hw).
  destruct (List.find _ (mmio_regions m)) as [r|] eqn:E.
  - left. exists r. apply List.find_some in E as [Hin Hc]. apply list_elem_of_In in Hin. split; [reflexivity|]. split; [exact Hin|].
    unfold covers. apply andb_true_iff in Hc as [H1%Z.leb_le H2%Z.ltb_lt]. lia.
  - right. split; [reflexivity|]. intros r Hr Hc. apply list_elem_of_In in Hr. pose proof (List.find_none _ _ E r Hr) as Hn. cbn beta in Hn.
    unfold covers in Hc. rewrite (proj2 (Z.leb_le _ _)), (proj2 (Z.ltb_lt _ _)) in Hn by lia. discriminate.
Qed.

Lemma dispatch_spec_ports objs (m : DeviceManager (D := D)) port p :
  bus_wf objs m -> find_io_device port m = Some p <-> p ∈ io_ports m /\ covers_port p port.
Proof.
  intros Hw. unfold find_io_device. split.
  - intros [Hin Hc]%List.find_some. apply list_elem_of_In in Hin. split; [exact Hin|]. unfold covers_port.
    apply andb_true_iff in Hc as [H1%Z.leb_le H2%Z.leb_le]. lia.
  - intros [Hp Hc]. destruct (List.find _ (io_ports m)) as [x|] eqn:E.
    + apply List.find_some in E as [Hin Hx]. apply list_elem_of_In in Hin. f_equal.
      apply (at_most_one_unique _ _ _ _ port (bw_one_port _ _ Hw) Hin Hp); [|exact Hc]. unfold covers_port.
      apply andb_true_iff in Hx as [H1%Z.leb_le H2%Z.leb_le]. lia.
    + exfalso. apply list_elem_of_In in Hp. pose proof (List.find_none _ _ E p Hp) as Hn. cbn beta in Hn.
      unfold covers_port in Hc. rewrite !(proj2 (Z.leb_le _ _)) in Hn by lia. discriminate.
Qed.

(** Dispatch does not depend on the order of registration: an address leads to a device
    exactly when a region covers it, and then to the one of that region; the same holds for
    ports. *)
Theorem dispatch_spec objs (m : DeviceManager (D := D)) :
  bus_wf objs m ->
  (forall addr r, find_mmio_device addr m = Ok (Some r) <-> r ∈ mmio_regions m /\ covers r addr) /\
  (forall port p, find_io_device port m = Some p <-> p ∈ io_ports m /\ covers_port p port).
Proof.
  intros Hw. split.
  - intros addr r. destruct (find_mmio_spec _ _ addr Hw) as [(x & -> & Hx & Hc)|[-> Hn]].
    + split; [intros [= <-]; auto|]. intros [Hr Hcr]. f_equal. f_equal. exact (at_most_one_unique _ _ _ _ _ (bw_one _ _ Hw) Hx Hr Hc Hcr).
    + split; [discriminate|]. intros [Hr Hcr]. destruct (Hn r Hr Hcr).
  - intros port p. apply (dispatch_spec_ports objs), Hw.
Qed.

(** The state after an access to one object, with the event it publishes. *)
Definition after_access {A} (v : Vm (D := D)) (h : Z) (d : D) (r : Res Error A) (e : VmEvent) : Vm :=
  mkVm (set_objects (<[h := d]> (objects (bus v))) (bus v)) (vm_pic v) (events v ++ match r with Ok _ => [e] | _ => [] end).

Lemma clamp_124 len : len = 1 \/ len = 2 \/ len = 4 -> clamp_width (trunc 8 len) = Z.to_nat len.
Proof. intros [->|[->| ->]]; reflexivity. Qed.

Lemma on_bus_find objs (v : Vm (D := D)) r addr {A} (k : option MmioRegionMapping -> ST Vm Error A) :
  bus_wf objs (bus v) -> r ∈ mmio_regions (bus v) -> covers r addr ->
  (x ← on_bus (st_read (find_mmio_device addr)); k x) v = k (Some r) v.
Proof.
  intros Hw Hr Hc. destruct (find_mmio_spec _ _ addr Hw) as [(x & E & Hx & Hcx)|[_ Hn]]; [|destruct (Hn r Hr Hc)].
  rewrite (at_most_one_unique _ _ _ _ _ (bw_one _ _ Hw) Hx Hr Hcx Hc) in E.
  rewrite st_bind_eq. unfold on_bus, st_read. rewrite E. destruct v. reflexivity.
Qed.

(** One call of a device through a handle. *)
Lemma on_bus_object (v : Vm (D := D)) h d {A} (f : ST D Error A) :
  objects (bus v) !! h = Some d ->
  on_bus (on_object h f) v = let '(res, d') := f d in (res, mkVm (set_objects (<[h := d']> (objects (bus v))) (bus v)) (vm_pic v) (events v)).
Proof. intros E. unfold on_bus, on_object. rewrite E. destruct (f d) as [res d']. reflexivity. Qed.

Lemma write_bytes_passed data len :
  Forall is_byte data -> length data = 8%nat -> len = 1 \/ len = 2 \/ len = 4 ->
  take (Z.to_nat len) (to_le_bytes 4 (from_le_bytes (slice data 0 len))) = take (Z.to_nat len) data.
Proof.
  intros Hb Hl Hlen. assert (E : slice data 0 len = take (Z.to_nat len) data) by reflexivity. rewrite E.
  assert (Hn : length (take (Z.to_nat len) data) = Z.to_nat len) by (rewrite length_take; lia).
  rewrite <- Hn at 1. apply register_bytes; [apply Forall_take, Hb|lia].
Qed.

Lemma splice_front (data b : bytes) : splice data 0 b = b ++ drop (length b) data.
Proof. unfold splice. rewrite take_0. reflexivity. Qed.

(** The register a read returns, and the bytes the guest sees of it. *)
Lemma read_bytes_passed len (b : bytes) :
  len = 1 \/ len = 2 \/ len = 4 -> length b = Z.to_nat len -> Forall is_byte b ->
  to_le_bytes len (trunc (8 * len) (from_le_bytes (b ++ replicate (4 - Z.to_nat len) 0))) = b.
Proof. intros Hlen Hn Hb. rewrite <- Hn. apply read_bytes_back; [exact Hb|lia]. Qed.


(** An access to an address no region covers changes nothing; a read of it gives all ones. *)
Theorem unmapped_access_spec objs (v : Vm (D := D)) addr data len :
  bus_wf objs (bus v) -> (forall r, r ∈ mmio_regions (bus v) -> ~ covers r addr) -> 0 <= len <= Z.of_nat (length data) ->
  handle_mmio addr data len true v = (Ok data, v) /\
  handle_mmio addr data len false v = (Ok (replicate (Z.to_nat len) 0xFF ++ drop (Z.to_nat len) data), v).
Proof.
  intros Hw Hn Hl. destruct (find_mmio_spec _ _ addr Hw) as [(r & _ & Hr & Hc)|[E _]]; [destruct (Hn r Hr Hc)|].
  assert (Hb : forall A (k : option MmioRegionMapping -> ST (Vm (D := D)) Error A), (x ← on_bus (st_read (find_mmio_device addr)); k x) v = k None v).
  { intros A k. rewrite st_bind_eq. unfold on_bus, st_read. rewrite E. destruct v. reflexivity. }
  unfold handle_mmio, mmio_write, mmio_read. rewrite !Hb. split; [reflexivity|].
  rewrite (proj2 (Z.leb_le _ _)) by lia. unfold st_lift. rewrite splice_front, length_replicate. reflexivity.
Qed.

(** Reading a register of four bytes through a handle. *)
Lemma read4_ok (v : Vm (D := D)) h d off width b d' :
  objects (bus v) !! h = Some d -> clamp_width width = 4%nat -> dev_read off (replicate 4 0) d = (Ok b, d') ->
  on_bus (read_register h off width) v =
    (Ok (from_le_bytes b), mkVm (set_objects (<[h := d']> (objects (bus v))) (bus v)) (vm_pic v) (events v)).
Proof.
  intros Hd Hw E. unfold on_bus, read_register. rewrite Hw, st_bind_eq. unfold on_object. rewrite Hd, E. cbn [mret ST_ret].
  rewrite app_nil_r. reflexivity.
Qed.

(** A read of eight bytes reads the low register twice: the first four bytes the device gives
    are thrown away, and the guest gets those of a second read of the same register. *)
Theorem qword_read_twice objs (v : Vm (D := D)) r addr data d b0 d0 lo d1 hi d2 :
  bus_wf objs (bus v) -> r ∈ mmio_regions (bus v) -> covers r addr -> objects (bus v) !! m_device r = Some d -> length data = 8%nat ->
  let off := addr - base_addr r in
  dev_read off (replicate 4 0) d = (Ok b0, d0) -> dev_read off (replicate 4 0) d0 = (Ok lo, d1) ->
  dev_read (off + 4) (replicate 4 0) d1 = (Ok hi, d2) -> off + 4 < 2 ^ 64 ->
  exists v', handle_mmio addr data 8 false v = (Ok (lo ++ hi), v') /\ objects (bus v') !! m_device r = Some d2.
Proof.
  intros Hw Hr Hc Hd Hl off E0 E1 E2 Ho. pose proof Hc as Hc'. unfold covers in Hc'.
  pose proof (proj1 (Forall_forall _ _) (bw_regions _ _ Hw) r Hr) as (R1 & R2 & R3).
  unfold handle_mmio, mmio_read. rewrite (on_bus_find objs v r addr) by assumption. rewrite st_bind_lift, sub_ok by lia. fold off.
  rewrite st_bind_eq, (read4_ok v _ d off (trunc 8 8) b0 d0 Hd eq_refl E0).
  set (v1 := mkVm _ _ _). rewrite st_bind_eq. cbn [Z.eqb Pos.eqb].
  rewrite st_bind_eq, (read4_ok v1 _ d0 off 4 lo d1 (lookup_insert_eq _ _ _) eq_refl E1). set (v2 := mkVm _ _ _).
  rewrite st_bind_lift, add_ok by exact Ho.
  rewrite st_bind_eq, (read4_ok v2 _ d1 (off + 4) 4 hi d2 (lookup_insert_eq _ _ _) eq_refl E2). cbn [mret ST_ret].
  destruct (dev_read_fills _ _ _ _ _ E1) as [L1 B1]. destruct (dev_read_fills _ _ _ _ _ E2) as [L2 B2].
  rewrite length_replicate in L1, L2. specialize (B1 (zeros_bytes _)). specialize (B2 (zeros_bytes _)).
  rewrite (to_from_le_bytes lo 4 B1), (to_from_le_bytes hi 4 B2) by lia.
  exists (mkVm (set_objects (<[m_device r := d2]> (objects (bus v2))) (bus v2)) (vm_pic v2) (events v2 ++ [MemoryAccess addr 8 false])).
  split; [|apply lookup_insert_eq]. rewrite splice_front, st_bind_eq. cbn [publish st_modify vm_pic bus events]. unfold mret, ST_ret. f_equal. f_equal.
  unfold splice. rewrite L1. change (Z.to_nat 4) with 4%nat. rewrite L2, take_app_length', drop_ge by (rewrite ?length_app, ?length_drop; lia).
  apply f_equal, app_nil_r.
Qed.

(** ** Ports *)

(** An access to a port of the interrupt controller goes there, also when a device is mapped
    over it; one to a mapped port is one call of its device, with the low bytes of the
    operand; a read of any other port gives 0xFF whatever its size. *)
Theorem port_access_spec objs (v : Vm (D := D)) port sz data :
  bus_wf objs (bus v) ->
  (handles_port port = true -> bus (handle_io port Out sz data v).2 = bus v /\ bus (handle_io port In sz data v).2 = bus v) /\
  (handles_port port = false -> (forall p, p ∈ io_ports (bus v) -> ~ covers_port p port) ->
     (handle_io port In sz data v).1 = Ok (mkOutcome (Some (0xFF, sz)) None) /\ bus (handle_io port In sz data v).2 = bus v) /\
  (forall p d, handles_port port = false -> p ∈ io_ports (bus v) -> covers_port p port -> objects (bus v) !! io_device p = Some d ->
     let '(res, d') := dev_write (port - start_port p) (take (clamp_width sz) (to_le_bytes 4 data)) d in
     handle_io port Out sz data v =
       (_ ← res; Ok (mkOutcome None (dev_pending d')), after_access v (io_device p) d' res (IoOperation port true))).
Proof.
  intros Hw. pose proof (fun a p => dispatch_spec_ports objs (bus v) a p Hw) as Hd. split; [|split].
  - intros Hp. unfold handle_io. rewrite Hp. split.
    + rewrite !st_bind_eq. unfold on_pic. destruct (Pic.write_port port (trunc 8 data) (vm_pic v)) as [[u|e|x] p']; reflexivity.
    + rewrite !st_bind_eq. unfold st_read. destruct (Pic.read_port port (vm_pic v)); reflexivity.
  - intros Hp Hn. unfold handle_io. rewrite Hp, st_bind_eq, st_bind_gets.
    destruct (find_io_device port (bus v)) as [p|] eqn:E; [apply Hd in E as [H1 H2]; destruct (Hn p H1 H2)|]. split; reflexivity.
  - intros p d Hp Hin Hc Hob. destruct (dev_write _ _ d) as [res d'] eqn:E. unfold handle_io. rewrite Hp, st_bind_eq, st_bind_gets.
    rewrite (proj2 (Hd port p) (conj Hin Hc)). unfold covers_port in Hc. rewrite st_bind_lift, sub_ok by lia.
    rewrite st_bind_eq. unfold io_write_register. rewrite (on_bus_object _ _ _ _ Hob), E. unfold after_access.
    destruct res; cbn; rewrite ?app_nil_r; try reflexivity. unfold pending_interrupt. cbn. rewrite lookup_insert_eq. reflexivity.
Qed.

(** Unregistering a device does not take it off the bus: every address and port still leads
    to it, a device registered again under its name is not reached there, and cannot even be
    mapped there. *)
Theorem unregistered_still_answers objs (m : DeviceManager (D := D)) name h r h' :
  bus_wf objs m -> devices m !! name = Some h -> r ∈ mmio_regions m -> 0 < size r -> h' ∈ objs ->
  let m' := run_bops [BUnregister name; BRegister name h'] m in
  devices m' !! name = Some h' /\
  (forall addr, find_mmio_device addr m' = find_mmio_device addr m) /\ (forall port, find_io_device port m' = find_io_device port m) /\
  exists e, exec_bop (BMmio name (base_addr r) (size r)) m' = (Err e, m').
Proof.
  intros Hw Hn Hr Hs Hh'. cbv zeta. set (m' := run_bops _ m).
  assert (Em : devices m' !! name = Some h' /\ mmio_regions m' = mmio_regions m /\ io_ports m' = io_ports m).
  { unfold m', run_bops. cbn [foldl exec_bop]. unfold unregister_device. rewrite st_bind_gets, Hn. cbn [st_modify snd].
    unfold register_device. rewrite st_bind_gets. cbn [set_devices devices]. rewrite lookup_delete_eq, st_bind_gets. cbn [set_devices interrupt_sink].
    destruct (object_some objs m h' Hw Hh') as [d Hd].
    destruct (interrupt_sink m); rewrite st_bind_eq; [unfold on_object; cbn [set_devices objects]; rewrite Hd; cbn|];
      (split; [apply lookup_insert_eq|split; reflexivity]). }
  destruct Em as (E1 & E2 & E3). split; [exact E1|]. unfold find_mmio_device, find_io_device. rewrite E2, E3. split; [reflexivity|]. split; [reflexivity|].
  pose proof (proj1 (Forall_forall _ _) (bw_regions _ _ Hw) r Hr) as (R1 & R2 & R3). cbn [exec_bop]. unfold register_mmio_region.
  rewrite st_bind_read, E1. cbn [ok_or]. rewrite st_bind_lift, add_ok, st_bind_read, E2 by lia.
  pose proof (check_regions_ok (base_addr r) (base_addr r + size r) _ (bw_regions _ _ Hw)) as Hc.
  destruct (check_regions _ _ _) as [u|e|p]; [|eauto|contradiction]. exfalso.
  apply (Hc r (base_addr r) Hr); unfold covers; lia.
Qed.
End Access.

(** ** Devices on the bus

    The interval timer and the I/O APIC behind the trait.  The timer reads the host's
    clock for every byte of an access: [now n] is what the [n]-th reading gives. *)
Section Devices.
Context (now : Z -> Z).

Inductive AnyDevice := TheTimer (t : TimerDevice) (readings : Z) | TheIoApic (a : IoApic).

Definition no_input : string := "device '{}' accepts no console input".

#[export] Instance AnyDevice_trait : DeviceTrait AnyDevice := {
  dev_type d := match d with TheTimer _ _ => Timer | TheIoApic _ => InterruptController end;
  dev_init := mret tt;
  dev_read off buf d :=
    match d with
    | TheTimer t n => let '(r, t') := Pit.device_read (fun i => now (n + i)) off 0 (length buf) t in (r, TheTimer t' (n + Z.of_nat (length buf)))
    | TheIoApic a => (IoApic.device_read a off buf, d)
    end;
  dev_write off buf d :=
    match d with
    | TheTimer t n => let '(r, t') := Pit.device_write (fun i => now (n + i)) off 0 buf t in (r, TheTimer t' (n + Z.of_nat (length buf)))
    | TheIoApic a => let '(r, a') := IoApic.device_write off buf a in (r, TheIoApic a')
    end;
  dev_shutdown := st_modify (fun d => match d with TheTimer t n => TheTimer (stop_timer_task t) n | TheIoApic _ => d end);
  dev_set_sink _ d := d;
  dev_pending _ := None;
  dev_console_input _ := st_lift (Err (Device no_input []))
}.

Lemma read_register_byte nw off t b t' : Pit.read_register nw off t = (Ok b, t') -> is_byte b.
Proof.
  assert (Ht : forall z, is_byte (trunc 8 z)) by (intros z; apply Z.mod_pos_bound; reflexivity).
  assert (Hb : forall c x c', read_byte_of nw c = (Ok x, c') -> is_byte x).
  { intros c x c'. unfold read_byte_of. rewrite st_bind_eq. destruct (read_count nw c) as [[n|e|p] c1]; [|discriminate..]. rewrite st_bind_gets.
    destruct (rw_mode c1) as [|[[q|q|]|[q|q|]|]|q]; try (intros [= <- _]; first [apply Ht|unfold is_byte; lia]).
    rewrite st_bind_gets. destruct (write_latch c1); rewrite st_bind_modify; intros [= <- _]; apply Ht. }
  unfold Pit.read_register. destruct (off <=? 2); [|intros [= <- _]; unfold is_byte; lia].
  unfold with_channel. destruct (channels t !! Z.to_nat off) as [c|]; [|discriminate].
  destruct (read_byte_of nw c) as [r c'] eqn:E. intros [= -> _]. exact (Hb _ _ _ E).
Qed.

Lemma timer_read_bytes nw off n : forall i t bs t', Pit.device_read nw off i n t = (Ok bs, t') -> length bs = n /\ Forall is_byte bs.
Proof.
  induction n as [|n IH]; intros i t bs t'; cbn [Pit.device_read]; [intros [= <- _]; auto|].
  rewrite st_bind_lift. destruct (add 64 off i) as [o|e|p]; [|discriminate..]. rewrite st_bind_eq.
  destruct (Pit.read_register (nw i) o t) as [[b|e|p] t1] eqn:Eb; [|discriminate..]. rewrite st_bind_eq.
  destruct (Pit.device_read nw off (i + 1) n t1) as [[l|e|p] t2] eqn:El; [|discriminate..]. intros [= <- _].
  destruct (IH _ _ _ _ El) as [Hl Hf]. split; [cbn; lia|]. constructor; [exact (read_register_byte _ _ _ _ _ Eb)|exact Hf].
Qed.

#[export] Instance AnyDevice_laws : DeviceLaws AnyDevice.
Proof.
  split. intros off buf [t n|a] b d'; cbn [dev_read AnyDevice_trait].
  - destruct (Pit.device_read _ off 0 (length buf) t) as [r t'] eqn:E. intros [= -> _]. destruct (timer_read_bytes _ _ _ _ _ _ _ E). auto.
  - unfold IoApic.device_read. destruct (IoApic.read a off) as [v|e|p]; cbn [mbind Res_bind]; [|discriminate..]. intros [= <- _].
    assert (Hl : length (to_le_bytes 4 v) = 4%nat) by (pose proof (length_to_le_bytes 4 v ltac:(lia)); lia).
    split; [rewrite length_app, length_take, length_drop, Hl; lia|].
    intros Hb. apply Forall_app. split; [apply Forall_take, to_le_bytes_byte; lia|apply Forall_drop, Hb].
Qed.

(** *** A guest that programs the timer *)

(** The guest's byte-wide [OUT] instructions, each a register of the timer and a byte. *)
Fixpoint guest_outs (base : Z) (ws : list (Z * Z)) : ST (Vm (D := AnyDevice)) Error unit :=
  match ws with
  | [] => mret tt
  | (reg, byte) :: ws' => _ ← handle_io (base + reg) Out 1 byte; guest_outs base ws'
  end.

(** The same writes made to the timer itself. *)
Fixpoint timer_writes (n : Z) (ws : list (Z * Z)) : ST TimerDevice Error unit :=
  match ws with
  | [] => mret tt
  | (reg, byte) :: ws' => _ ← Pit.write_register (now n) reg byte; timer_writes (n + 1) ws'
  end.

Lemma byte_operand b : is_byte b -> take (clamp_width 1) (to_le_bytes 4 b) = [b].
Proof.
  intros Hb. assert (E : from_le_bytes [b] = b) by (unfold from_le_bytes; cbn; rewrite Z.lor_0_r; reflexivity).
  pose proof (register_bytes [b] ltac:(by constructor) ltac:(cbn; lia)) as Hr. rewrite E in Hr. exact Hr.
Qed.

(** One write of the guest is one write of a register. *)
Lemma timer_out objs (v : Vm (D := AnyDevice)) p t n reg byte :
  bus_wf objs (bus v) -> p ∈ io_ports (bus v) -> covers_port p (start_port p + reg) -> handles_port (start_port p + reg) = false ->
  objects (bus v) !! io_device p = Some (TheTimer t n) -> 0 <= reg < 2 ^ 64 -> is_byte byte ->
  let '(res, t') := Pit.write_register (now n) reg byte t in
  handle_io (start_port p + reg) Out 1 byte v =
    (_ ← res; Ok (mkOutcome None None), after_access v (io_device p) (TheTimer t' (n + 1)) res (IoOperation (start_port p + reg) true)).
Proof.
  intros Hw Hp Hc Hh Ho Hreg Hb. destruct (Pit.write_register (now n) reg byte t) as [res t'] eqn:E.
  destruct (port_access_spec objs v (start_port p + reg) 1 byte Hw) as (_ & _ & Hout). specialize (Hout p _ Hh Hp Hc Ho).
  rewrite byte_operand in Hout by exact Hb. replace (start_port p + reg - start_port p) with reg in Hout by lia.
  cbn [dev_write AnyDevice_trait Pit.device_write length] in Hout. rewrite st_bind_lift, add_ok, Z.add_0_r, st_bind_eq, Z.add_0_r, E in Hout by lia.
  destruct res; exact Hout.
Qed.

(** C22: A guest that writes the ports of the timer, one byte at a time, makes exactly the
    writes of its registers, in order: whatever they do to the timer, an error of the model
    included, is what the instructions do, and nothing else on the bus changes. *)
Theorem timer_over_bus objs (v : Vm (D := AnyDevice)) p t n ws :
  bus_wf objs (bus v) -> p ∈ io_ports (bus v) -> end_port p = start_port p + 3 ->
  (forall reg, 0 <= reg <= 3 -> handles_port (start_port p + reg) = false) ->
  objects (bus v) !! io_device p = Some (TheTimer t n) -> Forall (fun w => 0 <= w.1 <= 3 /\ is_byte w.2) ws ->
  exists v' k,
    guest_outs (start_port p) ws v = ((timer_writes n ws t).1, v') /\
    bus v' = set_objects (<[io_device p := TheTimer (timer_writes n ws t).2 k]> (objects (bus v))) (bus v) /\ vm_pic v' = vm_pic v.
Proof.
  intros Hw Hp He Hh Ho Hws. revert v t n Hw Hp Ho. induction Hws as [|[reg byte] ws [Hreg Hb] Hws IH]; intros v t n Hw Hp Ho; cbn [guest_outs timer_writes fst snd] in *.
  { exists v, n. split; [reflexivity|]. split; [|reflexivity]. cbn. rewrite insert_id by exact Ho. destruct v as [[] ? ?]. reflexivity. }
  pose proof (timer_out objs v p t n reg byte Hw Hp ltac:(unfold covers_port; lia) (Hh reg Hreg) Ho ltac:(lia) Hb) as Hstep.
  rewrite !st_bind_eq. destruct (Pit.write_register (now n) reg byte t) as [res t1]. rewrite Hstep. destruct res as [[]|e|x]; cbn [mbind Res_bind].
  - set (v1 := after_access _ _ _ _ _). assert (Hin : io_device p ∈ objs) by (rewrite <- (bw_objects _ _ Hw); apply elem_of_dom; eauto).
    destruct (IH v1 t1 (n + 1)) as (v' & k & E & Eb & Ep); [apply set_object_wf; assumption|exact Hp|apply lookup_insert_eq|].
    exists v', k. split; [exact E|]. split; [|exact Ep]. rewrite Eb. cbn [v1 after_access bus set_objects objects]. rewrite insert_insert_eq. reflexivity.
  - exists (after_access v (io_device p) (TheTimer t1 (n + 1)) (Err e : Res Error unit) (IoOperation (start_port p + reg) true)), (n + 1). auto.
  - exists (after_access v (io_device p) (TheTimer t1 (n + 1)) (Panic x : Res Error unit) (IoOperation (start_port p + reg) true)), (n + 1). auto.
Qed.
End Devices.

(** ** Witnesses *)

Definition demo_clock (n : Z) : Z := 1000 * n.
#[local] Instance demo_trait : DeviceTrait AnyDevice := AnyDevice_trait demo_clock.
#[local] Instance demo_laws : DeviceLaws AnyDevice := AnyDevice_laws demo_clock.

(** A timer on ports 0x40 to 0x43 and an I/O APIC at its usual address. *)
Definition demo_objects : gmap Z AnyDevice := {[1 := TheTimer (timer_new 0) 1; 2 := TheIoApic (ioapic_new 0)]}.
Definition demo_ops : list BusOp :=
  [BSink 7; BRegister "pit" 1; BRegister "ioapic" 2; BPorts "pit" 0x40 0x43; BMmio "ioapic" 0xFEC00000 0x1000].
Definition demo_vm : Vm (D := AnyDevice) := mkVm (run_bops demo_ops (bus_new demo_objects)) pic_new [].
Definition pit_ports : IoPortMapping := mkPorts 0x40 0x43 "pit" 1.
Definition ioapic_region : MmioRegionMapping := mkRegion 0xFEC00000 0x1000 "ioapic" 2.

Lemma bus_ops_ok : Forall (bop_ok (dom demo_objects)) demo_ops.
Proof.
  assert (dom demo_objects = {[1; 2]}) as -> by (unfold demo_objects; rewrite dom_insert_L, dom_singleton_L; reflexivity).
  repeat (apply Forall_cons; split); [exact I| | |exact I|cbn; lia|apply Forall_nil_2];
    cbn [bop_ok]; [apply elem_of_union_l|apply elem_of_union_r]; apply elem_of_singleton; reflexivity.
Qed.
Lemma demo_wf : bus_wf (dom demo_objects) (bus demo_vm).
Proof. apply run_bops_wf; [apply bus_new_wf|exact bus_ops_ok]. Qed.

Lemma bus_invariant_witness : bus_wf (dom demo_objects) (run_bops demo_ops (bus_new demo_objects)).
Proof. apply (bus_invariant demo_objects demo_ops bus_ops_ok). Defined.


(** The guest sets channel 0 to a square wave with a reload value of 0x1234. *)
Definition program : list (Z * Z) := [(3, 0x36); (0, 0x34); (0, 0x12)].
Lemma timer_over_bus_witness :
  exists v' t' k, guest_outs demo_clock 0x40 program demo_vm = (Ok tt, v') /\ objects (bus v') !! 1 = Some (TheTimer t' k) /\
    reload_value <$> channels t' !! 0%nat = Some 0x1234.
Proof.
  destruct (timer_over_bus demo_clock (dom demo_objects) demo_vm pit_ports (timer_new 0) 1 program demo_wf) as (v' & k & E & Eb & _).
  - apply list_elem_of_here.
  - reflexivity.
  - intros reg Hr. assert (reg = 0 \/ reg = 1 \/ reg = 2 \/ reg = 3) as [-> |[-> |[-> | ->]]] by lia; reflexivity.
  - reflexivity.
  - repeat constructor; cbn; unfold is_byte; lia.
  - exists v', (timer_writes demo_clock 1 program (timer_new 0)).2, k.
    split; [rewrite (E : guest_outs demo_clock 0x40 program demo_vm = _); vm_compute; reflexivity|].
    split; [rewrite Eb; apply lookup_insert_eq|vm_compute; reflexivity].
Defined.

Lemma qword_read_twice_witness :
  exists v', handle_mmio 0xFEC00000 (replicate 8 0) 8 false demo_vm = (Ok (replicate 8 0), v') /\
    objects (bus v') !! 2 = Some (TheIoApic (ioapic_new 0)).
Proof.
  refine (qword_read_twice (dom demo_objects) demo_vm ioapic_region 0xFEC00000 (replicate 8 0) (TheIoApic (ioapic_new 0))
    (replicate 4 0) (TheIoApic (ioapic_new 0)) (replicate 4 0) (TheIoApic (ioapic_new 0)) (replicate 4 0) (TheIoApic (ioapic_new 0))
    demo_wf _ _ _ _ _ _ _ _); [apply list_elem_of_here|unfold covers; cbn; lia|reflexivity|reflexivity|vm_compute; reflexivity..].
Defined.

Lemma unmapped_access_spec_witness :
  handle_mmio 0x1000 (replicate 8 9) 2 false demo_vm = (Ok ([0xFF; 0xFF] ++ replicate 6 9), demo_vm).
Proof.
  refine (proj2 (unmapped_access_spec (dom demo_objects) demo_vm 0x1000 (replicate 8 9) 2 demo_wf _ _)); [|cbn; lia].
  intros r [-> |Hr]%elem_of_cons; [unfold covers; cbn; lia|]. apply not_elem_of_nil in Hr. contradiction.
Defined.

Lemma port_access_spec_witness :
  (handle_io 0x99 In 4 0 demo_vm).1 = Ok (mkOutcome (Some (0xFF, 4)) None).
Proof.
  refine (proj1 (proj1 (proj2 (port_access_spec (dom demo_objects) demo_vm 0x99 4 0 demo_wf)) _ _)); [reflexivity|].
  intros p [-> |Hp]%elem_of_cons; [unfold covers_port; cbn; lia|]. apply not_elem_of_nil in Hp. contradiction.
Defined.

Lemma dispatch_spec_witness : find_mmio_device 0xFEC00010 (bus demo_vm) = Ok (Some ioapic_region).
Proof.
  apply (proj1 (dispatch_spec (dom demo_objects) (bus demo_vm) demo_wf)). split; [apply list_elem_of_here|unfold covers; cbn; lia].
Defined.

Lemma unregistered_still_answers_witness :
  let m' := run_bops [BUnregister "ioapic"; BRegister "ioapic" 1] (bus demo_vm) in
  devices m' !! "ioapic"%string = Some 1 /\ find_mmio_device 0xFEC00010 m' = find_mmio_device 0xFEC00010 (bus demo_vm).
Proof.
  destruct (unregistered_still_answers (dom demo_objects) (bus demo_vm) "ioapic" 2 ioapic_region 1 demo_wf) as (H1 & H2 & _).
  - vm_compute. reflexivity.
  - apply list_elem_of_here.
  - cbn. lia.
  - unfold demo_objects. rewrite dom_insert_L. apply elem_of_union_l, elem_of_singleton. reflexivity.
  - split; [exact H1|apply H2].
Defined.
