(* ===== verification/VirtioBlkMmio.v ===== *)
(** * The file-backed block device ([hv2-core/src/devices/virtio_blk_mmio.rs])

    One request queue over guest memory and a host file behind it.  The file
    is an operating-system object: the device model takes it through the
    [BlockFile] interface, and its theorems rest on [BlockFileLaws], what
    positioned reads and writes of a regular file are documented to do. *)

From S2P Require Import Prelude GuestRam GuestMem VirtQueue.

(** ** The file *)

(** [File::metadata().len()], [read_exact_at], [write_all_at] and
    [sync_data]; an I/O error is [None], and a failed write may have changed
    the file. *)
Class BlockFile (F : Type) := {
  file_len : F -> option Z;
  file_read : F -> Z -> Z -> option bytes;
  file_write : F -> Z -> bytes -> option unit * F;
  file_sync : F -> option unit * F
}.

Class BlockFileLaws (F : Type) `{BlockFile F} := {
  file_len_fits f n : file_len f = Some n -> fits 64 n;
  file_read_shape f off n bs :
    file_read f off n = Some bs -> 0 <= n -> Z.of_nat (length bs) = n /\ Forall is_byte bs;
  file_write_read f off d f' :
    0 <= off -> Forall is_byte d -> file_write f off d = (Some tt, f') ->
    file_read f' off (Z.of_nat (length d)) = Some d;
  file_write_frame f off d f' off' n bs :
    file_write f off d = (Some tt, f') -> 0 <= n ->
    disjoint_ranges off (Z.of_nat (length d)) off' n ->
    file_read f off' n = Some bs -> file_read f' off' n = Some bs;
  file_sync_read f r f' off n :
    file_sync f = (r, f') -> file_read f' off n = file_read f off n
}.

(** ** Constants *)

Definition VIRTIO_F_VERSION_1 : Z := Z.shiftl 1 32.
Definition VIRTIO_ID_BLOCK : Z := 2.
Definition SECTOR_SIZE : Z := 512.
Definition QUEUE_SIZE : Z := 128.
Definition SEG_MAX : Z := QUEUE_SIZE - 2.
Definition REQ_HDR_LEN : Z := 16.
Definition ID_LEN : Z := 20.
Definition VIRTIO_BLK_F_SEG_MAX : Z := Z.shiftl 1 2.
Definition VIRTIO_BLK_F_RO : Z := Z.shiftl 1 5.
Definition VIRTIO_BLK_F_FLUSH : Z := Z.shiftl 1 9.
Definition T_IN : Z := 0.
Definition T_OUT : Z := 1.
Definition T_FLUSH : Z := 4.
Definition T_GET_ID : Z := 8.
Definition S_OK : Z := 0.
Definition S_IOERR : Z := 1.
Definition S_UNSUPP : Z := 2.

(** ** The device *)

Record VirtioBlockMmio (F : Type) := mkBlk {
  file : F;
  sectors : Z;
  read_only : bool;
  id : bytes;
  acked_features : Z;
  queue0 : GuestQueue
}.
Arguments mkBlk {F} _ _ _ _ _ _.
Arguments file {F} _.
Arguments sectors {F} _.
Arguments read_only {F} _.
Arguments id {F} _.
Arguments acked_features {F} _.
Arguments queue0 {F} _.

Section Device.
Context `{BlockFile F}.

Abbreviation Blk := (VirtioBlockMmio F).

Definition set_file (f : F) (d : Blk) : Blk :=
  mkBlk f (sectors d) (read_only d) (id d) (acked_features d) (queue0 d).
Definition set_queue0 (q : GuestQueue) (d : Blk) : Blk :=
  mkBlk (file d) (sectors d) (read_only d) (id d) (acked_features d) q.

Definition from_file (f : F) (ro : bool) (name : bytes) : Result Blk :=
  len ← ok_or (file_len f) (Device "cannot size disk: {e}" []);
  let secs := len / SECTOR_SIZE in
  if secs =? 0 then Err (Device "a {len}-byte disk is smaller than one sector" [len])
  else
    let take := Z.min (Z.of_nat (length name)) ID_LEN in
    front ← slice_ck name 0 take;
    serial ← splice_ck (replicate (Z.to_nat ID_LEN) 0) 0 front;
    mret (mkBlk f secs ro serial 0 (new QUEUE_SIZE)).

Definition replace_backing (f : F) (name : bytes) : ST Blk Error unit :=
  fresh ← st_read (fun d => from_file f (read_only d) name);
  st_modify (fun d => mkBlk (file fresh) (sectors fresh) (read_only d) (id fresh)
                        (acked_features d) (queue0 d)).

Definition capacity_bytes (d : Blk) : Result Z := mul 64 (sectors d) SECTOR_SIZE.
Definition is_read_only (d : Blk) : bool := read_only d.

Definition in_bounds (d : Blk) (sector len : Z) : bool :=
  (len mod SECTOR_SIZE =? 0) &&
  match checked_add 64 sector (len / SECTOR_SIZE) with
  | Some e => e <=? sectors d
  | None => false
  end.

Definition read_at (f : F) (n off : Z) : option bytes := file_read f off n.
Definition write_at (f : F) (d : bytes) (off : Z) : option unit * F := file_write f off d.

Section Memory.
Context `{GuestRam M}.

(** The status goes in the last writable byte. *)
Fixpoint put_status (bufs : list (Z * Z)) (remaining status : Z) : ST M Error unit :=
  match bufs with
  | [] => mret tt
  | (a, l) :: rest =>
      if remaining <? l
      then a' ← st_lift (add 64 a remaining); ram_write a' [status]
      else put_status rest (remaining - l) status
  end.

Definition answer (c : DescriptorChain) (d : bytes) (status : Z) : ST M Error Z :=
  let room := writable_len c in
  last ← st_lift (sub room 1);
  front ← st_lift (slice_ck d 0 (Z.min (Z.of_nat (length d)) last));
  written ← write_all c front;
  _ ← put_status (writable c) last status;
  n ← st_lift (add 64 written 1);
  mret (trunc 32 n).

(** The arms of [serve], each on the header it needs. *)
Definition serve_in (c : DescriptorChain) (sector data_room : Z) : ST (Blk * M) Error Z :=
  d ← st_gets fst;
  if in_bounds d sector data_room then
    off ← st_lift (mul 64 sector SECTOR_SIZE);
    match read_at (file d) data_room off with
    | Some bs => st_snd (answer c bs S_OK)
    | None => st_snd (answer c [] S_IOERR)
    end
  else st_snd (answer c [] S_IOERR).

Definition serve_out (c : DescriptorChain) (sector : Z) (data : bytes) : ST (Blk * M) Error Z :=
  d ← st_gets fst;
  if read_only d || negb (in_bounds d sector (Z.of_nat (length data)))
  then st_snd (answer c [] S_IOERR)
  else
    off ← st_lift (mul 64 sector SECTOR_SIZE);
    let '(r, f') := write_at (file d) data off in
    _ ← st_fst (st_modify (set_file f'));
    st_snd (answer c [] (match r with Some _ => S_OK | None => S_IOERR end)).

Definition serve_flush (c : DescriptorChain) : ST (Blk * M) Error Z :=
  d ← st_gets fst;
  if read_only d then st_snd (answer c [] S_OK)
  else
    let '(r, f') := file_sync (file d) in
    _ ← st_fst (st_modify (set_file f'));
    st_snd (answer c [] (match r with Some _ => S_OK | None => S_IOERR end)).

Definition serve (c : DescriptorChain) : ST (Blk * M) Error Z :=
  let room := writable_len c in
  if room =? 0 then mret 0
  else
    request ← st_read (fun s => read_all c s.2);
    if Z.of_nat (length request) <? REQ_HDR_LEN then st_snd (answer c [] S_IOERR)
    else
      kind ← st_lift (slice_ck request 0 4);
      sector ← st_lift (slice_ck request 8 8);
      let kind := from_le_bytes kind in
      let sector := from_le_bytes sector in
      let data_room := room - 1 in
      if kind =? T_IN then serve_in c sector data_room
      else if kind =? T_OUT then
        data ← st_lift (slice_ck request REQ_HDR_LEN (Z.of_nat (length request) - REQ_HDR_LEN));
        serve_out c sector data
      else if kind =? T_FLUSH then serve_flush c
      else if kind =? T_GET_ID then
        d ← st_gets fst;
        front ← st_lift (slice_ck (id d) 0 (Z.min data_room ID_LEN));
        st_snd (answer c front S_OK)
      else st_snd (answer c [] S_UNSUPP).

(** The queue operations on the device that owns the queue. *)
Definition pop0 : ST (Blk * M) Error (option DescriptorChain) :=
  fun '(d, m) => let '(r, q) := pop m (queue0 d) in (r, (set_queue0 q d, m)).
Definition add_used0 (h l : Z) : ST (Blk * M) Error unit :=
  fun '(d, m) => let '(r, (q, m')) := add_used h l (queue0 d, m) in (r, (set_queue0 q d, m')).

(** [drain], in at most [fuel] turns of its loop. *)
Fixpoint drain (fuel : nat) (consumed : bool) : ST (Blk * M) Error bool :=
  match fuel with
  | O => st_lift (Panic FuelExhausted)
  | S fuel' =>
      popped ← pop0;
      match popped with
      | None => mret consumed
      | Some c =>
          written ← serve c;
          _ ← add_used0 (head c) written;
          drain fuel' true
      end
  end.

Definition notify (fuel : nat) (queue : Z) : ST (Blk * M) Error bool :=
  if queue =? 0 then drain fuel false else mret false.
End Memory.

Definition device_id (d : Blk) : Z := VIRTIO_ID_BLOCK.

Definition device_features (d : Blk) : Z :=
  let ro := if read_only d then VIRTIO_BLK_F_RO else 0 in
  Z.lor (Z.lor (Z.lor VIRTIO_F_VERSION_1 VIRTIO_BLK_F_SEG_MAX) VIRTIO_BLK_F_FLUSH) ro.

Definition ack_features (features : Z) (d : Blk) : Blk :=
  mkBlk (file d) (sectors d) (read_only d) (id d) features (queue0 d).

Definition queues (d : Blk) : list GuestQueue := [queue0 d].

(** Capacity, a hole for the unoffered [size_max], and [seg_max]; bytes past
    the sixteenth read zero. *)
Definition config_space (d : Blk) : bytes :=
  to_le_bytes 8 (sectors d) ++ replicate 4 0 ++ to_le_bytes 4 SEG_MAX.

Fixpoint read_config (d : Blk) (offset i : Z) (n : nat) : Result bytes :=
  match n with
  | O => mret []
  | S n' =>
      a ← add 64 offset i;
      rest ← read_config d offset (i + 1) n';
      mret (default 0 (config_space d !! Z.to_nat a) :: rest)
  end.

Definition write_config (offset : Z) (data : bytes) (d : Blk) : Blk := d.

Definition reset (d : Blk) : Blk :=
  mkBlk (file d) (sectors d) (read_only d) (id d) 0 (VirtQueue.reset (queue0 d)).
End Device.

(** ** Where the answer goes *)

(** The guest address of byte [i] of a list of buffers. *)
Fixpoint byte_addr (bufs : list (Z * Z)) (i : Z) : option Z :=
  match bufs with
  | [] => None
  | (a, l) :: rest => if i <? l then Some (a + i) else byte_addr rest (i - l)
  end.

(** No buffer wraps around the top of the address space. *)
Definition bufs_low (bufs : list (Z * Z)) : Prop := Forall (fun p => p.1 + p.2 <= 2 ^ 64) bufs.

Lemma byte_addr_some bufs i : 0 <= i < total_len bufs -> exists a, byte_addr bufs i = Some a.
Proof.
  revert i. induction bufs as [|[a l] bufs IH]; intros i Hi; [simpl in *; lia|].
  rewrite total_len_cons in Hi. simpl.
  destruct (Z.ltb_spec i l); [eauto|]. apply IH. lia.
Qed.

Lemma byte_apart_all bufs i a b k :
  bufs_typed bufs -> 0 <= i -> bufs_apart b k bufs -> byte_addr bufs i = Some a ->
  disjoint_ranges a 1 b k.
Proof.
  revert i. induction bufs as [|[a' l'] bufs IH]; intros i Ht Hi Ha; simpl; [done|].
  apply Forall_cons in Ha as [Hd Ha]. apply Forall_cons in Ht as [[_ Ht1] Ht].
  unfold disjoint_ranges, fits in *. simpl in *. destruct (Z.ltb_spec i l').
  - intros [= <-]. lia.
  - intros. by apply (IH (i - l')); [|lia|..].
Qed.

(** A byte past the first [n] lies outside the first [n]. *)
Lemma byte_addr_apart bufs n i a :
  pairwise_apart bufs -> bufs_typed bufs -> n <= i -> byte_addr bufs i = Some a ->
  bufs_apart a 1 (clip n bufs).
Proof.
  revert n i. induction bufs as [|[b l] bufs IH]; intros n i Hp Ht Hn; simpl; [done|].
  destruct Hp as [Hp1 Hp2]. apply Forall_cons in Ht as [[_ Ht1] Ht]. unfold fits in Ht1. simpl in Ht1.
  destruct (Z.leb_spec n 0); [intros; by apply Forall_nil|].
  destruct (Z.ltb_spec i l) as [Hil|Hil].
  - intros [= <-]. apply Forall_cons. unfold disjoint_ranges. simpl. split; [lia|].
    rewrite clip_nil by lia. by apply Forall_nil.
  - intros Hb. apply Forall_cons. split.
    + pose proof (byte_apart_all bufs (i - l) a b l Ht ltac:(lia) Hp1 Hb) as Hd. revert Hd.
      unfold disjoint_ranges. simpl. lia.
    + by apply (IH (n - l) (i - l)); [..|lia|].
Qed.

Lemma slice_len_one (b : Z) : slice_len (Z.of_nat (length [b])).
Proof. split; simpl; lia. Qed.

Section Answer.
Context `{GuestRamLaws M}.

Lemma put_status_eq bufs i st (m : M) a :
  bufs_typed bufs -> bufs_low bufs -> 0 <= i -> byte_addr bufs i = Some a ->
  put_status bufs i st m = ram_write a [st] m.
Proof.
  revert i. induction bufs as [|[b l] bufs IH]; intros i Ht Hl Hi; simpl; [done|].
  apply Forall_cons in Ht as [_ Ht]. apply Forall_cons in Hl as [Hl1 Hl]. simpl in Hl1.
  destruct (Z.ltb_spec i l) as [Hil|Hil].
  - intros [= <-]. rewrite st_bind_lift, add_ok by lia. done.
  - intros. apply IH; try done. lia.
Qed.

(** The outcome of an answer, as the driver sees it. *)
Definition answered (c : DescriptorChain) (bs : bytes) (st : Z) (m' : M) : Prop :=
  read_buffers m' (clip (Z.of_nat (length bs)) (writable c)) = Ok bs /\
  exists a, byte_addr (writable c) (writable_len c - 1) = Some a /\ ram_read m' a 1 = Ok [st].

Definition buffers_only (c : DescriptorChain) (m m' : M) : Prop :=
  forall b k, slice_len k -> bufs_apart b k (writable c) -> ram_read m' b k = ram_read m b k.

Lemma answer_spec c bs st (m : M) :
  ram_wf m -> bufs_typed (writable c) -> bufs_low (writable c) -> pairwise_apart (writable c) ->
  Forall is_byte bs -> is_byte st -> Z.of_nat (length bs) < writable_len c < 2 ^ 32 ->
  match answer c bs st m with
  | (Ok n, m') => ram_wf m' /\ n = Z.of_nat (length bs) + 1 /\ answered c bs st m' /\ buffers_only c m m'
  | (Err _, m') => ram_wf m' /\ buffers_only c m m'
  | (Panic _, _) => False
  end.
Proof.
  intros Hm Ht Hlow Hap Hbs Hst Hlen. unfold answer.
  rewrite st_bind_lift, sub_ok by lia. rewrite st_bind_lift, slice_ck_ok by lia.
  rewrite Z.min_l, slice_all by lia. rewrite st_bind_eq.
  assert (slice_len (Z.of_nat (length bs))) as Hsl by (split; lia).
  unfold write_all. pose proof (write_buffers_frame _ bs 0 m Hm Hbs Hsl Ht ltac:(lia)) as Hf.
  destruct (write_buffers (writable c) bs 0 m) as [[n|e|p] m1] eqn:E; destruct Hf as (Hm1 & Hp & Hf & Hn); [|done..].
  specialize (Hn n eq_refl). unfold writable_len in Hlen.
  assert (n = Z.of_nat (length bs)) as -> by lia. clear Hn.
  pose proof (write_buffers_read _ bs 0 m _ m1 Hm Hbs Hsl Ht Hap ltac:(lia) E) as Hrd.
  rewrite Z.sub_0_r, slice_all in Hrd by lia.
  destruct (byte_addr_some (writable c) (writable_len c - 1)) as [a Ha]; [unfold writable_len; lia|].
  rewrite st_bind_eq, (put_status_eq _ _ _ _ a) by (done || (unfold writable_len; lia)).
  pose proof (ram_write_no_panic m1 a [st] Hm1 (slice_len_one st)) as Hp2.
  assert (forall m2, ram_write a [st] m1 = (Ok tt, m2) -> buffers_only c m m2) as Hbo.
  { intros m2 E2 b k Hk Hapart. rewrite <- (Hf b k Hk Hapart).
    eapply ram_read_frame; [done|exact (slice_len_one st)|done| |done].
    eapply byte_apart_all; [done| |done|done]. unfold writable_len; lia. }
  destruct (ram_write a [st] m1) as [[[]|e|p] m2] eqn:E2; [| |done].
  2:{ split; [eapply ram_write_wf; [done| |done]; by constructor|].
      by rewrite (ram_write_fail _ _ _ _ _ E2). }
  rewrite st_bind_lift, add_ok by lia. unfold trunc. cbn -[Z.pow Z.modulo]. rewrite Z.mod_small by lia.
  split; [eapply ram_write_wf; [done| |done]; by constructor|]. split; [done|]. split; [|by apply Hbo].
  split.
  - rewrite <- Hrd. apply read_buffers_ext.
    pose proof (byte_addr_apart (writable c) (Z.of_nat (length bs)) (writable_len c - 1) a Hap Ht ltac:(unfold writable_len; lia) Ha) as Hapc.
    apply Forall_forall. intros [b k] Hin.
    pose proof (proj1 (Forall_forall _ _) Hapc _ Hin) as Hd.
    pose proof (clip_typed (Z.of_nat (length bs)) _ Ht) as Hct.
    pose proof (proj1 (Forall_forall _ _) Hct _ Hin) as [_ [??]]. simpl in *.
    eapply ram_read_frame; [done|exact (slice_len_one st)|split; lia| |done]. by apply disjoint_ranges_sym.
  - exists a. split; [done|]. exact (ram_read_write _ _ _ _ E2).
Qed.
End Answer.

(** ** What a request asks of the disk *)

Record blk_wf {F} (d : VirtioBlockMmio F) : Prop := {
  bw_sectors : 0 < sectors d /\ sectors d * SECTOR_SIZE < 2 ^ 64;
  bw_id : Z.of_nat (length (id d)) = ID_LEN /\ Forall is_byte (id d);
  bw_queue : queue_wf (queue0 d)
}.

Section Reply.
Context `{BlockFile F}.

Definition on_disk (d : VirtioBlockMmio F) (sector len : Z) : bool :=
  (len mod SECTOR_SIZE =? 0) && (sector * SECTOR_SIZE + len <=? sectors d * SECTOR_SIZE).

(** The reply to a request with [room] bytes for data: the data, the status,
    and the device afterwards. *)
Definition reply (d : VirtioBlockMmio F) (request : bytes) (room : Z)
    : bytes * Z * VirtioBlockMmio F :=
  if Z.of_nat (length request) <? REQ_HDR_LEN then ([], S_IOERR, d)
  else
    let kind := from_le_bytes (slice request 0 4) in
    let sector := from_le_bytes (slice request 8 8) in
    let data := slice request REQ_HDR_LEN (Z.of_nat (length request) - REQ_HDR_LEN) in
    if kind =? T_IN then
      if on_disk d sector room then
        match file_read (file d) (sector * SECTOR_SIZE) room with
        | Some bs => (bs, S_OK, d)
        | None => ([], S_IOERR, d)
        end
      else ([], S_IOERR, d)
    else if kind =? T_OUT then
      if negb (read_only d) && on_disk d sector (Z.of_nat (length data)) then
        match file_write (file d) (sector * SECTOR_SIZE) data with
        | (Some _, f') => ([], S_OK, set_file f' d)
        | (None, f') => ([], S_IOERR, set_file f' d)
        end
      else ([], S_IOERR, d)
    else if kind =? T_FLUSH then
      if read_only d then ([], S_OK, d)
      else match file_sync (file d) with
           | (Some _, f') => ([], S_OK, set_file f' d)
           | (None, f') => ([], S_IOERR, set_file f' d)
           end
    else if kind =? T_GET_ID then (slice (id d) 0 (Z.min room ID_LEN), S_OK, d)
    else ([], S_UNSUPP, d).

Lemma in_bounds_eq d sector len :
  blk_wf d -> fits 64 sector -> 0 <= len ->
  in_bounds d sector len = on_disk d sector len.
Proof.
  intros [[Hs1 Hs2] _ _] [? ?] Hl. unfold in_bounds, on_disk, checked_add, SECTOR_SIZE in *.
  destruct (Z.eqb_spec (len mod 512) 0) as [Hm|]; [|done]. simpl.
  pose proof (Z.div_mod len 512 ltac:(lia)). pose proof (Z.div_pos len 512 Hl ltac:(lia)).
  destruct (Z.ltb_spec (sector + len / 512) (2 ^ 64)).
  - destruct (Z.leb_spec (sector + len / 512) (sectors d)), (Z.leb_spec (sector * 512 + len) (sectors d * 512));
      done || lia.
  - symmetry. apply Z.leb_gt. lia.
Qed.

Lemma on_disk_offset (d : VirtioBlockMmio F) sector len :
  blk_wf d -> 0 <= len -> on_disk d sector len = true ->
  sector * SECTOR_SIZE + len <= sectors d * SECTOR_SIZE /\ sector * SECTOR_SIZE < 2 ^ 64.
Proof. intros [[]] ? Ho. unfold on_disk in Ho. bool_to_prop. lia. Qed.

Section Serve.
Context `{GuestRamLaws M}.

(** What [serve] does, as one equation: the reply, then the answer. *)
Lemma serve_eq c d (m : M) :
  blk_wf d -> ram_wf m -> 0 < writable_len c -> bufs_typed (readable c) ->
  serve c (d, m) =
  match read_all c m with
  | Ok request =>
      let '(bs, st, d') := reply d request (writable_len c - 1) in
      let '(r, m') := answer c bs st m in (r, (d', m'))
  | Err e => (Err e, (d, m))
  | Panic p => (Panic p, (d, m))
  end.
Proof.
  intros Hd Hm Hw Ht. unfold serve. rewrite (proj2 (Z.eqb_neq _ _)) by lia.
  rewrite st_bind_read. simpl.
  destruct (read_all c m) as [request|e|p] eqn:Hr; [|done..].
  pose proof (read_buffers_shape m (readable c) Hm Ht) as Hb. unfold read_all in Hr.
  rewrite Hr in Hb. destruct Hb as [_ Hb].
  unfold reply, REQ_HDR_LEN. destruct (Z.ltb_spec (Z.of_nat (length request)) 16); [done|].
  rewrite st_bind_lift, slice_ck_ok by lia. rewrite st_bind_lift, slice_ck_ok by lia.
  assert (fits 64 (from_le_bytes (slice request 8 8))) as Hsec by (apply from_le_slice; done || lia).
  set (kind := from_le_bytes (slice request 0 4)).
  set (sector := from_le_bytes (slice request 8 8)) in *.
  destruct (kind =? T_IN).
  { unfold serve_in. rewrite st_bind_gets, in_bounds_eq by (done || simpl; lia). cbn [fst].
    destruct (on_disk d sector (writable_len c - 1)) eqn:Ho; [|done].
    apply on_disk_offset in Ho; [|done|lia].
    rewrite st_bind_lift, mul_ok by lia. unfold read_at. by destruct (file_read _ _ _). }
  destruct (kind =? T_OUT).
  { rewrite st_bind_lift, slice_ck_ok by lia. set (data := slice request 16 _).
    unfold serve_out. rewrite st_bind_gets, in_bounds_eq by (done || simpl; lia). cbn [fst].
    destruct (read_only d); [done|]. cbn [orb andb negb].
    destruct (on_disk d sector _) eqn:Ho; [|done]. apply on_disk_offset in Ho; [|done|lia].
    cbn [negb]. rewrite st_bind_lift, mul_ok by lia. unfold write_at.
    by destruct (file_write _ _ _) as [[] f']. }
  destruct (kind =? T_FLUSH).
  { unfold serve_flush. rewrite st_bind_gets. cbn [fst].
    destruct (read_only d); [done|]. by destruct (file_sync _) as [[] f']. }
  destruct (kind =? T_GET_ID); [|done].
  rewrite st_bind_gets, st_bind_lift. cbn [fst]. pose proof (bw_id d Hd) as [Hid _].
  rewrite slice_ck_ok by (unfold ID_LEN in *; lia). done.
Qed.
End Serve.
End Reply.

(** ** Serving a request *)

(** What every chain out of a queue has, and buffers of a driver that does not
    overlap them or run them past the end of the address space. *)
Record chain_ok (c : DescriptorChain) : Prop := {
  co_readable : bufs_typed (readable c);
  co_writable : bufs_typed (writable c);
  co_low : bufs_low (writable c);
  co_apart : pairwise_apart (writable c);
  co_len : 0 <= writable_len c < 2 ^ 32
}.

(** Everything of the device but the file's contents and the queue. *)
Definition same_shape {F} (d d' : VirtioBlockMmio F) : Prop :=
  sectors d' = sectors d /\ read_only d' = read_only d /\ id d' = id d /\
  acked_features d' = acked_features d.

Section Theorems.
Context `{BlockFileLaws F} `{GuestRamLaws M}.
Implicit Types (d : VirtioBlockMmio F) (m : M).

Lemma set_file_wf d f : blk_wf d -> blk_wf (set_file f d).
Proof. intros []. by split. Qed.

Lemma set_queue0_wf d q : blk_wf d -> queue_wf q -> blk_wf (set_queue0 q d).
Proof. intros [] ?. by split. Qed.

(** A reply is the device as it was or with another file behind it. *)
Lemma reply_device d request room bs st d' :
  reply d request room = (bs, st, d') ->
  d' = d \/ (read_only d = false /\ exists f', d' = set_file f' d).
Proof.
  unfold reply. repeat case_match; intros; simplify_eq; try (by left); right;
    (split; [|by eexists]); try done;
    match goal with Hg : negb _ && _ = true |- _ => apply andb_true_iff in Hg as [Hg _] end;
    by apply negb_true_iff.
Qed.

Lemma reply_shape d request room bs st d' :
  blk_wf d -> 0 <= room -> reply d request room = (bs, st, d') ->
  Z.of_nat (length bs) <= room /\ Forall is_byte bs /\ is_byte st.
Proof.
  intros Hd Hr. unfold reply. assert (forall z, 0 <= z <= 2 -> is_byte z) as Hz by (unfold is_byte; lia).
  assert (is_byte S_OK /\ is_byte S_IOERR /\ is_byte S_UNSUPP) as (? & ? & ?)
    by (split_and!; apply Hz; by vm_compute).
  pose proof (bw_id d Hd) as [Hid Hidb]. unfold ID_LEN in *.
  repeat case_match; intros; simplify_eq; split_and!; try done; try (by apply Forall_nil).
  - edestruct file_read_shape; [done..|]. lia.
  - edestruct file_read_shape; done.
  - rewrite length_slice by lia. lia.
  - unfold slice. auto using Forall_take, Forall_drop.
Qed.

Lemma serve_cases c d m :
  blk_wf d -> ram_wf m -> chain_ok c -> 0 < writable_len c ->
  match serve c (d, m) with
  | (Ok n, (d', m')) =>
      ram_wf m' /\ buffers_only c m m' /\
      exists request bs st, read_all c m = Ok request /\
        reply d request (writable_len c - 1) = (bs, st, d') /\
        n = Z.of_nat (length bs) + 1 /\ n <= writable_len c /\ answered c bs st m'
  | (Err e, (d', m')) =>
      ram_wf m' /\ buffers_only c m m' /\
      (d' = d \/ exists request bs st, reply d request (writable_len c - 1) = (bs, st, d'))
  | (Panic _, _) => False
  end.
Proof.
  intros Hd Hm Hc Hw. destruct Hc. rewrite serve_eq by done.
  pose proof (read_buffers_shape m (readable c) Hm co_readable0) as Hrs.
  unfold read_all. destruct (read_buffers m (readable c)) as [request|e|p]; [|split_and!; [done|by intros ??|by left]|done].
  destruct (reply d request (writable_len c - 1)) as [[bs st] d'] eqn:Er.
  destruct (reply_shape d request (writable_len c - 1) _ _ _ Hd ltac:(lia) Er) as (Hlen & Hb & Hst).
  pose proof (answer_spec c bs st m Hm co_writable0 co_low0 co_apart0 Hb Hst ltac:(lia)) as Ha.
  destruct (answer c bs st m) as [[n|e|p] m']; [| |done].
  - destruct Ha as (? & -> & ? & ?). split_and!; try done. exists request, bs, st. split_and!; try done. lia.
  - destruct Ha. split_and!; try done. right. eauto.
Qed.

(** C7: A request whose writable buffers do not overlap, end within the 64-bit address
    space and hold less than 4 GiB together is served without a panic, and serving it
    writes nothing outside them.  When it returns, the driver finds the reply to the
    request it wrote: the data at the front of the buffers, the status in their last
    byte, and the count of both as the used length.  A request without a writable byte
    is returned untouched. *)
Theorem serve_spec c d m :
  blk_wf d -> ram_wf m -> chain_ok c ->
  match serve c (d, m) with
  | (Ok n, (d', m')) =>
      ram_wf m' /\ blk_wf d' /\ same_shape d d' /\ buffers_only c m m' /\
      if writable_len c =? 0 then n = 0 /\ d' = d /\ m' = m
      else exists request bs st, read_all c m = Ok request /\
        reply d request (writable_len c - 1) = (bs, st, d') /\
        n = Z.of_nat (length bs) + 1 /\ n <= writable_len c /\ answered c bs st m'
  | (Err e, (d', m')) => ram_wf m' /\ blk_wf d' /\ same_shape d d' /\ buffers_only c m m'
  | (Panic _, _) => False
  end.
Proof.
  intros Hd Hm Hc. destruct (Z.eqb_spec (writable_len c) 0) as [Hz|Hz].
  { unfold serve. rewrite (proj2 (Z.eqb_eq _ _)) by done. by split_and!. }
  pose proof (serve_cases c d m Hd Hm Hc ltac:(pose proof (co_len c Hc); lia)) as Hs.
  assert (forall request room bs st d', reply d request room = (bs, st, d') ->
    blk_wf d' /\ same_shape d d') as Hsh.
  { intros request room bs st d' [->|(_ & f' & ->)]%reply_device; [done|].
    split; [by apply set_file_wf|done]. }
  destruct (serve c (d, m)) as [[n|e|p] [d' m']]; [| |done].
  - destruct Hs as (? & ? & request & bs & st & ? & Er & ?). destruct (Hsh _ _ _ _ _ Er).
    split_and!; try done. by exists request, bs, st.
  - destruct Hs as (? & ? & [->|(request & bs & st & Er)]); [done|].
    destruct (Hsh _ _ _ _ _ Er). by split_and!.
Qed.

Lemma put_status_overflow bufs i st m a :
  byte_addr bufs i = Some a -> 2 ^ 64 <= a -> put_status bufs i st m = (Panic ArithOverflow, m).
Proof.
  revert i. induction bufs as [|[b l] bufs IH]; intros i; cbn [byte_addr put_status]; [done|].
  destruct (i <? l); [|apply IH]. intros [= <-] Ha. rewrite st_bind_lift. unfold add.
  by rewrite (proj2 (Z.ltb_ge _ _)) by done.
Qed.

(** The address of the status byte is computed without a check: a request too short for
    its header, whose last writable byte would lie past the 64-bit address space, takes
    the host down. *)
Theorem serve_address_overflow c d m request a :
  read_all c m = Ok request -> Z.of_nat (length request) < REQ_HDR_LEN ->
  0 < writable_len c -> byte_addr (writable c) (writable_len c - 1) = Some a -> 2 ^ 64 <= a ->
  serve c (d, m) = (Panic ArithOverflow, (d, m)).
Proof.
  intros Hr Hl Hw Hb Ha. unfold serve. rewrite (proj2 (Z.eqb_neq _ _)), st_bind_read by lia. cbn [snd]. rewrite Hr.
  rewrite (proj2 (Z.ltb_lt _ _)) by done. unfold st_snd, answer. rewrite st_bind_lift, sub_ok by lia.
  rewrite st_bind_lift, slice_ck_ok by (cbn [length]; lia). rewrite st_bind_eq.
  assert (write_all c (slice [] 0 (Z.min (Z.of_nat (length (A := Z) [])) (writable_len c - 1))) m = (Ok 0, m)) as ->.
  { unfold write_all, slice. rewrite drop_nil, take_nil. by destruct (writable c) as [|[? ?] ?]. }
  by rewrite st_bind_eq, (put_status_overflow _ _ _ m a).
Qed.

(** A request header. *)
Definition req_header (kind sector : Z) : bytes :=
  to_le_bytes 4 kind ++ to_le_bytes 4 0 ++ to_le_bytes 8 sector.

Lemma length_req_header kind sector : Z.of_nat (length (req_header kind sector)) = 16.
Proof. unfold req_header. rewrite !length_app, !Nat2Z.inj_add, !length_to_le_bytes by lia. done. Qed.

Lemma req_header_decode kind sector data :
  fits 32 kind -> fits 64 sector ->
  let request := req_header kind sector ++ data in
  from_le_bytes (slice request 0 4) = kind /\ from_le_bytes (slice request 8 8) = sector /\
  slice request 16 (Z.of_nat (length request) - 16) = data.
Proof.
  intros ??. pose proof (length_req_header kind sector) as Hl. unfold req_header, slice.
  pose proof (length_to_le_bytes 4 kind ltac:(lia)) as Hl4.
  pose proof (length_to_le_bytes 4 0 ltac:(lia)) as Hl4'.
  pose proof (length_to_le_bytes 8 sector ltac:(lia)) as Hl8.
  split_and!.
  - rewrite drop_0, <- !app_assoc, take_app_length' by lia. by apply from_to_le_bytes.
  - rewrite <- !app_assoc, (app_assoc (to_le_bytes 4 kind)).
    rewrite drop_app_length' by (rewrite length_app; lia).
    rewrite take_app_length' by lia. by apply from_to_le_bytes.
  - unfold req_header in Hl. rewrite drop_app_length' by lia. apply take_ge. rewrite length_app. lia.
Qed.

(** What a driver wrote is what it reads: after a write request that the
    device reported done, a read request of the same sectors returns exactly
    those bytes, with status OK. *)
Theorem disk_roundtrip c1 c2 d m data sector n1 d1 m1 a1 n2 d2 m2 :
  blk_wf d -> ram_wf m -> chain_ok c1 -> chain_ok c2 -> 0 < writable_len c1 ->
  fits 64 sector -> writable_len c2 = Z.of_nat (length data) + 1 ->
  read_all c1 m = Ok (req_header T_OUT sector ++ data) ->
  serve c1 (d, m) = (Ok n1, (d1, m1)) ->
  byte_addr (writable c1) (writable_len c1 - 1) = Some a1 -> ram_read m1 a1 1 = Ok [S_OK] ->
  read_all c2 m1 = Ok (req_header T_IN sector) ->
  serve c2 (d1, m1) = (Ok n2, (d2, m2)) ->
  n2 = Z.of_nat (length data) + 1 /\ answered c2 data S_OK m2.
Proof.
  intros Hd Hm Hc1 Hc2 Hw1 Hsec Hw2 Hr1 Hs1 Ha1 Hst1 Hr2 Hs2.
  pose proof (serve_cases c1 d m Hd Hm Hc1 Hw1) as Hsp1. rewrite Hs1 in Hsp1.
  destruct Hsp1 as (Hm1 & _ & request & bs & st & Hr1' & Hrep & _ & _ & _ & a & Ha & Hst).
  assert (request = req_header T_OUT sector ++ data) as -> by congruence. rewrite Ha1 in Ha. injection Ha as <-.
  rewrite Hst1 in Hst. injection Hst as <-.
  pose proof (read_buffers_shape m _ Hm (co_readable c1 Hc1)) as Hb. unfold read_all in Hr1.
  rewrite Hr1 in Hb. destruct Hb as [_ [_ Hdata]%Forall_app].
  destruct (req_header_decode T_OUT sector data ltac:(by vm_compute) Hsec) as (Hk & Hse & Hda).
  pose proof (length_req_header T_OUT sector) as Hl.
  assert ((Z.of_nat (length (req_header T_OUT sector ++ data)) <? 16) = false) as Hlt
    by (apply Z.ltb_ge; rewrite length_app; lia).
  unfold reply, REQ_HDR_LEN in Hrep. rewrite Hlt in Hrep.
  rewrite Hk, Hse, Hda in Hrep. cbn [T_IN T_OUT Z.eqb Pos.eqb] in Hrep.
  destruct (negb (read_only d) && on_disk d sector (Z.of_nat (length data))) eqn:Eg; [|done].
  apply andb_true_iff in Eg as [_ Hon].
  destruct (file_write (file d) (sector * SECTOR_SIZE) data) as [[[]|] f'] eqn:Ew; [|done].
  injection Hrep as <- <-. clear Hk Hse Hda.
  pose proof (serve_cases c2 (set_file f' d) m1 (set_file_wf _ _ Hd) Hm1 Hc2 ltac:(lia)) as Hsp2.
  rewrite Hs2 in Hsp2.
  destruct Hsp2 as (_ & _ & request & bs & st & Hr2' & Hrep & Hn2 & _ & Hans).
  assert (request = req_header T_IN sector) as -> by congruence.
  destruct (req_header_decode T_IN sector [] ltac:(by vm_compute) Hsec) as (Hk & Hse & _).
  rewrite app_nil_r in Hk, Hse. pose proof (length_req_header T_IN sector) as Hl'.
  assert ((Z.of_nat (length (req_header T_IN sector)) <? 16) = false) as Hlt' by (apply Z.ltb_ge; lia).
  unfold reply, REQ_HDR_LEN in Hrep. rewrite Hlt' in Hrep.
  rewrite Hk, Hse in Hrep. cbn [T_IN Z.eqb] in Hrep.
  replace (writable_len c2 - 1) with (Z.of_nat (length data)) in Hrep by lia.
  change (on_disk (set_file f' d)) with (on_disk d) in Hrep. rewrite Hon in Hrep.
  change (file (set_file f' d)) with f' in Hrep.
  rewrite (file_write_read (file d) (sector * SECTOR_SIZE) data f' ltac:(unfold fits, SECTOR_SIZE in *; lia) Hdata Ew) in Hrep.
  injection Hrep as <- <- <-. done.
Qed.

(** ** The file behind the disk *)

Lemma from_file_cases f ro name :
  Forall is_byte name ->
  match from_file f ro name with
  | Ok d => blk_wf d /\ file d = f /\ read_only d = ro /\
      exists len, file_len f = Some len /\ sectors d = len / SECTOR_SIZE /\
        id d = take 20 name ++ replicate (20 - length (take 20 name)) 0
  | Err _ => forall len, file_len f = Some len -> len < SECTOR_SIZE
  | Panic _ => False
  end.
Proof.
  intros Hn. unfold from_file. destruct (file_len f) as [len|] eqn:El; cbn [ok_or mbind Res_bind]; [|done].
  pose proof (file_len_fits _ _ El) as [Hl1 Hl2]. unfold SECTOR_SIZE, ID_LEN.
  destruct (Z.eqb_spec (len / 512) 0) as [Hz|Hz].
  { intros len' [= <-]. apply Z.div_small_iff in Hz; lia. }
  set (zs := replicate (Z.to_nat 20) 0). assert (Z.of_nat (length zs) = 20) as Hzs by done.
  set (k := Z.min (Z.of_nat (length name)) 20). rewrite slice_ck_ok by lia. cbn [mbind Res_bind].
  assert (slice name 0 k = take 20 name) as ->.
  { unfold slice. rewrite drop_0. destruct (Z.le_gt_cases 20 (Z.of_nat (length name))).
    - f_equal. lia.
    - rewrite !take_ge by lia. done. }
  assert (length (take 20 name) <= 20)%nat as Hlt by (rewrite length_take; lia).
  unfold splice_ck. rewrite !(proj2 (Z.leb_le _ _)) by lia. cbn [andb mbind Res_bind].
  assert (splice zs 0 (take 20 name) =
          take 20 name ++ replicate (20 - length (take 20 name)) 0) as ->.
  { unfold splice, zs. rewrite take_0, drop_replicate. done. }
  split; [|by eauto 6]. split; simpl.
  - unfold SECTOR_SIZE. pose proof (Z.div_pos len 512). pose proof (Z.mul_div_le len 512). lia.
  - rewrite length_app, length_replicate. split; [unfold ID_LEN; lia|].
    apply Forall_app. split; [by apply Forall_take|]. by apply Forall_replicate.
  - by apply new_wf.
Qed.

(** Putting another file behind a disk: either nothing changes and the file
    is refused as shorter than a sector, or the disk has the new file, its
    whole sectors and the serial cut to twenty bytes, and keeps its queue,
    features and access mode. *)
Theorem replace_backing_spec f name d :
  blk_wf d -> Forall is_byte name ->
  match replace_backing f name d with
  | (Ok _, d') => blk_wf d' /\ file d' = f /\ queue0 d' = queue0 d /\
      acked_features d' = acked_features d /\ read_only d' = read_only d /\
      id d' = take 20 name ++ replicate (20 - length (take 20 name)) 0 /\
      exists len, file_len f = Some len /\
        sectors d' * SECTOR_SIZE <= len < (sectors d' + 1) * SECTOR_SIZE
  | (Err _, d') => d' = d /\ forall len, file_len f = Some len -> len < SECTOR_SIZE
  | (Panic _, _) => False
  end.
Proof.
  intros Hd Hn. unfold replace_backing. rewrite st_bind_read.
  pose proof (from_file_cases f (read_only d) name Hn) as Hf.
  destruct (from_file f (read_only d) name) as [fresh|e|p]; [|done..].
  destruct Hf as ([] & Hff & _ & len & El & Hs & Hid). unfold st_modify. simpl.
  split_and!; try done; [by split; [..|apply Hd]|].
  rewrite Hs. exists len. split; [done|]. unfold SECTOR_SIZE. pose proof (Z.div_mod len 512).
  pose proof (Z.mod_pos_bound len 512). lia.
Qed.

(** ** The loop over the queue *)

(** The states [drain] passes through, one per request served. *)
Inductive drain_reach : VirtioBlockMmio F * M -> VirtioBlockMmio F * M -> Prop :=
| dr_refl s : drain_reach s s
| dr_step s c s1 n s2 s3 t :
    pop0 s = (Ok (Some c), s1) -> serve c s1 = (Ok n, s2) ->
    add_used0 (head c) n s2 = (Ok tt, s3) -> drain_reach s3 t -> drain_reach s t.

Lemma drain_reach_inv s t :
  drain_reach s t -> t = s \/ exists c s1 n s2 s3,
    pop0 s = (Ok (Some c), s1) /\ serve c s1 = (Ok n, s2) /\
    add_used0 (head c) n s2 = (Ok tt, s3) /\ drain_reach s3 t.
Proof. destruct 1; [by left|right; eauto 10]. Qed.

Lemma st_snd_fst {A} (k : ST M Error A) d m : (st_snd k (d, m)).2.1 = d.
Proof. simpl. by destruct (k m). Qed.

(** Serving a request changes nothing of the device but the file, and not
    that when the disk is read-only. *)
Lemma serve_device c d m r d' m' :
  serve c (d, m) = (r, (d', m')) ->
  d' = d \/ (read_only d = false /\ exists f', d' = set_file f' d).
Proof.
  assert (forall A (k : ST M Error A) d0 r d' m', st_snd k (d0, m) = (r, (d', m')) -> d' = d0) as Hsnd.
  { intros A k d0 r0 d0' m0' E. pose proof (st_snd_fst k d0 m) as Hf. by rewrite E in Hf. }
  unfold serve. destruct (writable_len c =? 0); [intros [= <- <- <-]; by left|].
  rewrite st_bind_read. destruct (read_all c (d, m).2) as [request|e|p];
    [|intros [= <- <- <-]; by left..].
  destruct (_ <? _); [intros ->%Hsnd; by left|].
  rewrite st_bind_lift. destruct (slice_ck request 0 4); [|intros [= <- <- <-]; by left..].
  rewrite st_bind_lift. destruct (slice_ck request 8 8); [|intros [= <- <- <-]; by left..].
  destruct (_ =? T_IN).
  { unfold serve_in. rewrite st_bind_gets. destruct (in_bounds _ _ _); [|intros ->%Hsnd; by left].
    rewrite st_bind_lift. destruct (mul _ _ _); [|intros [= <- <- <-]; by left..].
    destruct (read_at _ _ _); intros ->%Hsnd; by left. }
  destruct (_ =? T_OUT).
  { rewrite st_bind_lift. destruct (slice_ck request REQ_HDR_LEN _); [|intros [= <- <- <-]; by left..].
    unfold serve_out. rewrite st_bind_gets. cbn [fst].
    destruct (read_only d) eqn:Ero; cbn [orb]; [intros ->%Hsnd; by left|].
    destruct (negb _); [intros ->%Hsnd; by left|].
    rewrite st_bind_lift. destruct (mul _ _ _); [|intros [= <- <- <-]; by left..].
    destruct (write_at _ _ _) as [w f']. intros E. right. split; [done|]. exists f'.
    exact (Hsnd _ _ _ _ _ _ E). }
  destruct (_ =? T_FLUSH).
  { unfold serve_flush. rewrite st_bind_gets. cbn [fst].
    destruct (read_only d) eqn:Ero; [intros ->%Hsnd; by left|].
    destruct (file_sync _) as [w f']. intros E. right. split; [done|]. exists f'.
    exact (Hsnd _ _ _ _ _ _ E). }
  destruct (_ =? T_GET_ID); [|intros ->%Hsnd; by left].
  rewrite st_bind_gets, st_bind_lift. destruct (slice_ck _ _ _); [|intros [= <- <- <-]; by left..].
  intros ->%Hsnd. by left.
Qed.

(** Whatever requests a guest queues, well formed or not, the device keeps its
    capacity, serial and features, and a read-only disk keeps its file: no
    byte of it is written and no flush is issued on it. *)
Theorem drain_read_only fuel b d m r d' m' :
  drain fuel b (d, m) = (r, (d', m')) ->
  same_shape d d' /\ (read_only d = true -> file d' = file d).
Proof.
  revert b d m. induction fuel as [|fuel IH]; intros b d m; simpl; [by intros [= <- <- <-]|].
  unfold pop0 at 1. rewrite st_bind_eq. destruct (pop m (queue0 d)) as [[[c|]|e|p] q];
    [|by intros [= <- <- <-]..].
  rewrite st_bind_eq. destruct (serve c (set_queue0 q d, m)) as [r1 [d1 m1]] eqn:E1.
  assert (same_shape d d1 /\ (read_only d = true -> file d1 = file d)) as [(? & ? & ? & ?) Hf].
  { apply serve_device in E1 as [->|(Hro & f' & ->)]; [done|]. split; [done|]. simpl in Hro. congruence. }
  unfold same_shape. destruct r1 as [n|e|p]; [|by intros [= <- <- <-]..].
  rewrite st_bind_eq. unfold add_used0. destruct (add_used _ n (queue0 d1, m1)) as [r2 [q2 m2]].
  destruct r2 as [[]|e|p]; [|by intros [= <- <- <-]..].
  intros [(Hs1 & Hs2 & Hs3 & Hs4) Hf']%IH. simpl in *. split; [split_and!; congruence|].
  intros Hro. rewrite Hf' by congruence. by apply Hf.
Qed.

(** A driver that leaves its available index at [i] while the device works and offers
    only chains that are in order. *)
Definition driver_quiet (i : Z) (s : VirtioBlockMmio F * M) : Prop :=
  avail_idx (queue0 s.1) s.2 = Ok i /\
  (forall c q', pop s.2 (queue0 s.1) = (Ok (Some c), q') -> chain_ok c).

Lemma has_available_idx q m i :
  avail_idx q m = Ok i -> has_available q m = Ok true -> i <> last_avail_idx q /\ 0 < ring_size q.
Proof.
  unfold has_available. intros E. destruct (is_ready q) eqn:Er; simpl; [|done]. rewrite E. simpl.
  intros [= Hn]. split; [by apply negb_true_iff, Z.eqb_neq in Hn|by apply is_ready_ring].
Qed.

(** How many chains are still to be taken. *)
Definition pending (i : Z) (q : GuestQueue) : Z := (i - last_avail_idx q) mod 2 ^ 16.

Lemma pending_advance i q :
  fits 16 i -> queue_wf q -> i <> last_avail_idx q -> pending i (advance q) = pending i q - 1.
Proof.
  intros [? ?] Hq Hne. pose proof (qw_avail q Hq). unfold pending, advance, wrapping_add. simpl.
  change (Z.pow_pos 2 16) with 65536 in *. change (2 ^ 16) with 65536 in *.
  rewrite Zminus_mod_idemp_r. symmetry. apply Z.mod_unique_pos with (q := (i - last_avail_idx q) / 65536).
  - pose proof (Z.mod_pos_bound (i - last_avail_idx q) 65536 ltac:(lia)).
    assert ((i - last_avail_idx q) mod 65536 <> 0); [|lia].
    intros Hz. apply Z.mod_divide in Hz as [k Hk]; lia.
  - pose proof (Z.div_mod (i - last_avail_idx q) 65536). lia.
Qed.

(** C8: A kick is over in at most as many turns as the ring has chains pending,
    and no turn panics: for rings that end within the 64-bit address space, and a driver
    that leaves its index alone meanwhile and offers only chains whose writable buffers
    do not overlap, end within that space and hold less than 4 GiB, 65536 turns always
    suffice. *)
Theorem drain_terminates fuel b d m i :
  blk_wf d -> queue_room (queue0 d) -> ram_wf m -> fits 16 i ->
  (forall s, drain_reach (d, m) s -> driver_quiet i s) ->
  2 ^ 16 <= Z.of_nat fuel -> is_panic (drain fuel b (d, m)).1 = false.
Proof.
  intros Hd Hr Hm Hi Hquiet Hfuel.
  assert (pending i (queue0 d) < Z.of_nat fuel) as Hp.
  { eapply Z.lt_le_trans; [|exact Hfuel]. apply Z.mod_pos_bound. lia. }
  clear Hfuel. revert b d m Hd Hr Hm Hquiet Hp.
  induction fuel as [|fuel IH]; intros b d m Hd Hr Hm Hquiet Hp.
  { pose proof (Z.mod_pos_bound (i - last_avail_idx (queue0 d)) (2 ^ 16) ltac:(lia)).
    unfold pending in Hp. lia. }
  cbn [drain]. unfold pop0 at 1. rewrite st_bind_eq.
  destruct (Hquiet (d, m) (dr_refl _)) as [Hidx Hch]. simpl in Hidx, Hch.
  destruct (pop m (queue0 d)) as [r q] eqn:Epop.
  destruct (pop_safe m (queue0 d) r q (bw_queue d Hd) Hr Hm Epop) as (Hnp & Hq & Hqr & Hsome).
  destruct r as [[c|]|e|p]; [|done..]. destruct (Hsome c eq_refl) as [-> Havail].
  destruct (has_available_idx _ _ _ Hidx Havail) as [Hne Hsize].
  specialize (Hch c _ eq_refl). set (d0 := set_queue0 (advance (queue0 d)) d).
  assert (blk_wf d0) as Hd0 by (by apply set_queue0_wf).
  rewrite st_bind_eq. destruct (serve c (d0, m)) as [r1 [d1 m1]] eqn:Eserve.
  assert (is_panic r1 = false /\ ram_wf m1) as [Hnp1 Hm1].
  { destruct (Z.eqb_spec (writable_len c) 0) as [Hz|Hz].
    - unfold serve in Eserve. rewrite (proj2 (Z.eqb_eq _ _)) in Eserve by done. by injection Eserve as <- <- <-.
    - pose proof (serve_cases c d0 m Hd0 Hm Hch ltac:(pose proof (co_len c Hch); lia)) as Hs.
      rewrite Eserve in Hs. by destruct r1; [destruct Hs as (? & _)..|done]. }
  assert (queue0 d1 = advance (queue0 d) /\ blk_wf d1) as [Hq1 Hd1].
  { apply serve_device in Eserve as [->|(_ & f' & ->)]; [done|]. split; [done|by apply set_file_wf]. }
  destruct r1 as [n|e|p]; [|done..]. rewrite st_bind_eq. unfold add_used0.
  destruct (add_used (head c) n (queue0 d1, m1)) as [r2 [q2 m2]] eqn:Eadd.
  pose proof (add_used_state m1 (head c) n (queue0 d1)) as Hq2. rewrite Eadd in Hq2. simpl in Hq2.
  rewrite Hq1 in Hq2.
  destruct (add_used_safe (queue0 d1) m1 (head c) n r2 q2 m2) as [Hnp2 Hm2];
    [by rewrite Hq1|done|by rewrite Hq1|done|].
  destruct r2 as [[]|e|p]; [|done..]. apply IH.
  - apply set_queue0_wf; [done|]. destruct Hq2 as [->| ->]; [done|by apply publish_wf].
  - simpl. destruct Hqr. by destruct Hq2 as [->| ->].
  - done.
  - intros s Hs. apply Hquiet. eapply dr_step with (s1 := (d0, m)) (c := c); [|done| |done].
    + unfold pop0. by rewrite Epop.
    + unfold add_used0. by rewrite Eadd.
  - change (queue0 (set_queue0 q2 d1)) with q2.
    assert (pending i q2 = pending i (queue0 d) - 1) as ->; [|lia].
    rewrite <- (pending_advance i (queue0 d)) by (done || apply Hd). by destruct Hq2 as [->| ->].
Qed.
End Theorems.

(** ** A driver that is not quiet *)

(** A ring of one whose used ring lies on its available ring, and a first
    descriptor of zeros, on a queue that has rejected a chain before: every
    completion then publishes the next request itself. *)
Record self_feeding {F} (d : VirtioBlockMmio F) (m : GuestMemory) : Prop := {
  sf_wf : queue_wf (queue0 d) /\ queue_room (queue0 d) /\ ram_wf m;
  sf_ready : is_ready (queue0 d) = true;
  sf_one : qsize (queue0 d) = 1;
  sf_same : used_addr (queue0 d) = avail_addr (queue0 d);
  sf_apart : disjoint_ranges (avail_addr (queue0 d)) 12 (desc_addr (queue0 d)) 16;
  sf_behind : last_avail_idx (queue0 d) <> next_used_idx (queue0 d);
  sf_desc : ram_read m (desc_addr (queue0 d)) 16 = Ok (replicate 16 0);
  sf_entry : ram_read m (avail_addr (queue0 d) + 4) 8 = Ok (replicate 8 0);
  sf_idx : ram_read m (avail_addr (queue0 d) + 2) 2 = Ok (to_le_bytes 2 (next_used_idx (queue0 d)))
}.

Section Hostile.
Context `{BlockFileLaws F}.
Implicit Types (d : VirtioBlockMmio F) (m : GuestMemory).

Lemma self_feeding_pop d m :
  self_feeding d m -> pop m (queue0 d) = (Ok (Some (mkChain 0 [] [])), advance (queue0 d)).
Proof.
  intros [(Hq & Hr & Hm) Hready Hone Hsame _ Hbehind Hdesc Hentry Hidx].
  assert (ring_size (queue0 d) = 1) as Hrs by (unfold ring_size; by rewrite Hone).
  rewrite pop_eq by done. unfold has_available, avail_idx, read_u16. rewrite Hready. cbn [negb].
  pose proof (qr_avail _ Hr) as Hra. pose proof (qr_desc _ Hr) as Hrd.
  rewrite Hrs in Hra, Hrd. unfold DESC_SIZE in Hrd. rewrite add_ok by lia.
  unfold mbind, Res_bind. rewrite Hidx. unfold mret, Res_ret.
  rewrite from_to_le_bytes by (done || apply Hq). rewrite (proj2 (Z.eqb_neq _ _)) by done. cbn [negb].
  unfold slot_head, read_u16. rewrite Hrs, Z.mod_1_r.
  rewrite (ram_read_sub m (avail_addr (queue0 d) + 4) 8 (replicate 8 0) (0 * 2) 2) by
    (done || lia || (split; lia)).
  unfold walk_chain, mbind, Res_bind, mret, Res_ret. rewrite Hrs.
  change (from_le_bytes (slice (replicate 8 0) (0 * 2) 2)) with 0.
  change (Z.to_nat 1) with 1%nat. cbn [chain_loop]. unfold read_desc. rewrite Hrs. cbn [Z.leb Z.compare].
  unfold DESC_SIZE. rewrite add_ok by lia. rewrite Z.add_0_r. unfold mbind, Res_bind. rewrite Hdesc.
  reflexivity.
Qed.

Lemma self_feeding_step d m :
  self_feeding d m -> exists q' m',
    add_used 0 0 (advance (queue0 d), m) = (Ok tt, (q', m')) /\ self_feeding (set_queue0 q' d) m'.
Proof.
  intros [(Hq & Hr & Hm) Hready Hone Hsame Hap Hbehind Hdesc Hentry Hidx].
  set (q := advance (queue0 d)). set (A := avail_addr (queue0 d)) in *.
  assert (ring_size q = 1) as Hrs by (unfold q, ring_size; simpl; by rewrite Hone).
  assert (queue_room q) as Hqr by (by destruct Hr).
  rewrite add_used_eq by (done || lia).
  assert (used_entry q = A + 4) as ->.
  { unfold used_entry. rewrite Hrs, Z.mod_1_r. unfold q. simpl. rewrite Hsame. fold A. lia. }
  change (used_addr q) with (used_addr (queue0 d)). rewrite Hsame. fold A.
  change (to_le_bytes 4 0 ++ to_le_bytes 4 0) with (replicate 8 0).
  destruct (write_readable m (A + 4) (replicate 8 0) _ Hentry) as [m1 E1].
  change (ram_write (A + 4) (replicate 8 0) m) with (write_bytes (A + 4) (replicate 8 0) m).
  rewrite E1. change (write_bytes (A + 4)) with (ram_write (A + 4)) in E1.
  set (nu := next_used_idx (publish q)).
  assert (Forall is_byte (replicate 8 0)) as Hb8 by (by apply bytes_forallb).
  assert (slice_len 8 /\ slice_len 2 /\ slice_len 16) as (Hs8 & Hs2 & Hs16) by (split_and!; split; lia).
  pose proof (ram_write_wf _ _ _ _ _ Hm Hb8 E1) as Hm1.
  assert (forall b n, slice_len n -> disjoint_ranges (A + 4) 8 b n -> ram_read m1 b n = ram_read m b n) as Hf1
    by (intros; by eapply ram_read_frame; [..|exact E1]).
  pose proof (length_to_le_bytes 2 nu ltac:(lia)) as Hl.
  assert (ram_read m1 (A + 2) 2 = Ok (to_le_bytes 2 (next_used_idx (queue0 d)))) as Hidx1.
  { rewrite Hf1; [done|done|]. unfold disjoint_ranges; lia. }
  destruct (write_readable m1 (A + 2) (to_le_bytes 2 nu) _ ltac:(rewrite Hl; exact Hidx1)) as [m2 E2].
  change (ram_write (A + 2) (to_le_bytes 2 nu) m1) with (write_bytes (A + 2) (to_le_bytes 2 nu) m1).
  rewrite E2. change (write_bytes (A + 2)) with (ram_write (A + 2)) in E2.
  exists (publish q), m2. split; [done|].
  assert (forall b n, slice_len n -> disjoint_ranges (A + 2) 2 b n -> ram_read m2 b n = ram_read m1 b n) as Hf2.
  { intros b n Hn Hd. eapply ram_read_frame; [done|by rewrite Hl|done|by rewrite Hl|exact E2]. }
  assert (queue_wf (publish q)) as Hqp by (by apply publish_wf, advance_wf).
  unfold disjoint_ranges in *.
  split; simpl; try done; fold A.
  - split_and!; [done|by destruct Hqr|]. change (ram_wf m2). eapply (ram_write_wf m1); [done| |exact E2].
    apply to_le_bytes_byte. lia.
  - pose proof (qw_avail _ Hq). pose proof (qw_used _ Hq).
    unfold wrapping_add. change (Z.pow_pos 2 16) with 65536. change (2 ^ 16) with 65536 in *.
    intros Heq. apply Hbehind. 
    pose proof (Z.div_mod (last_avail_idx (queue0 d) + 1) 65536).
    pose proof (Z.div_mod (next_used_idx (queue0 d) + 1) 65536).
    pose proof (Z.mod_pos_bound (last_avail_idx (queue0 d) + 1) 65536).
    pose proof (Z.mod_pos_bound (next_used_idx (queue0 d) + 1) 65536). lia.
  - rewrite Hf2, Hf1; [done|..]; done || lia.
  - rewrite Hf2; [|done|lia]. exact (ram_read_write _ _ _ _ E1).
  - pose proof (ram_read_write _ _ _ _ E2) as Hrw. rewrite Hl in Hrw. exact Hrw.
Qed.

(** C9: A guest can keep the device busy for ever: on such a ring every turn of
    the loop finds another request, so no bound on the number of turns is
    enough. *)
Theorem drain_self_feeding fuel b d m :
  self_feeding d m -> (drain fuel b (d, m)).1 = Panic FuelExhausted.
Proof.
  revert b d m. induction fuel as [|fuel IH]; intros b d m Hs; [done|].
  cbn [drain]. unfold pop0 at 1. rewrite st_bind_eq, (self_feeding_pop d m Hs).
  rewrite st_bind_eq. unfold serve. cbn [writable_len total_len writable foldr Z.eqb mret ST_ret].
  rewrite st_bind_eq. unfold add_used0. cbn [head set_queue0 queue0].
  destruct (self_feeding_step d m Hs) as (q' & m' & E & Hs'). rewrite E. apply IH. exact Hs'.
Qed.
End Hostile.

(** ** A disk to compute with *)

(** A file of fixed length held in memory. *)
Record MemFile := mkFile { contents : bytes }.

Definition mem_read (f : MemFile) (off n : Z) : option bytes :=
  if (0 <=? off) && (0 <=? n) && (off + n <=? Z.of_nat (length (contents f)))
  then Some ((fun z => z mod 256) <$> slice (contents f) off n) else None.

Definition mem_write (f : MemFile) (off : Z) (d : bytes) : option unit * MemFile :=
  if (0 <=? off) && (off + Z.of_nat (length d) <=? Z.of_nat (length (contents f)))
  then (Some tt, mkFile (splice (contents f) off d)) else (None, f).

#[export] Instance MemFile_file : BlockFile MemFile := {
  file_len f := let n := Z.of_nat (length (contents f)) in if n <? 2 ^ 64 then Some n else None;
  file_read := mem_read;
  file_write := mem_write;
  file_sync f := (Some tt, f)
}.

Lemma mod_bytes (d : bytes) : Forall is_byte d -> ((fun z => z mod 256) <$> d) = d.
Proof.
  induction 1 as [|b d Hb _ IH]; [done|]. rewrite fmap_cons, IH, Z.mod_small by done. done.
Qed.

#[export] Instance MemFile_laws : BlockFileLaws MemFile.
Proof.
  split; simpl.
  - intros f n. destruct (Z.ltb_spec (Z.of_nat (length (contents f))) (2 ^ 64)); [|done].
    intros [= <-]. split; lia.
  - intros f off n bs. unfold mem_read. split_if; [|done]. intros [= <-] _.
    split; [rewrite length_fmap, length_slice; lia|].
    apply Forall_fmap, Forall_forall. intros z _. by apply Z.mod_pos_bound.
  - intros f off d f' Hoff Hd. unfold mem_write. split_if; [|done]. intros [= <-]. unfold mem_read. cbn [contents].
    rewrite length_splice by lia. rewrite !(proj2 (Z.leb_le _ _)) by lia.
    cbn [andb contents]. f_equal. rewrite slice_splice_same by lia. by apply mod_bytes.
  - intros f off d f' off' n bs. unfold mem_write. split_if; [|done]. intros [= <-] Hn Hd.
    unfold mem_read. cbn [contents]. split_if; [|done]. intros [= <-].
    rewrite length_splice by lia. rewrite !(proj2 (Z.leb_le _ _)) by lia. cbn [andb]. f_equal. f_equal.
    apply slice_splice_disjoint; try lia. unfold disjoint_ranges in Hd. lia.
  - by intros f r f' off n [= <- <-].
Qed.

Definition demo_file : MemFile := mkFile (replicate 1024 7 ++ replicate 1030 9).

(** Four sectors; the tail of the file is not exposed. *)
Definition demo_disk (ro : bool) : VirtioBlockMmio MemFile :=
  mkBlk demo_file 4 ro ([104; 109] ++ replicate 18 0) 0 demo_queue.

Lemma demo_disk_wf ro : blk_wf (demo_disk ro).
Proof.
  split; [by vm_compute| |exact demo_queue_wf].
  split; [by vm_compute|]. apply bytes_forallb. by vm_compute.
Qed.

Lemma demo_chain_ok : chain_ok demo_chain.
Proof.
  split; [|exact demo_chain_typed| |exact demo_chain_apart|by vm_compute].
  - apply Forall_cons. split; [by vm_compute|]. by apply Forall_nil.
  - apply Forall_cons. split; [by vm_compute|]. apply Forall_cons. split; [by vm_compute|].
    by apply Forall_nil.
Qed.

(** One writable buffer of two bytes at the last address there is. *)
Lemma serve_address_overflow_witness :
  serve (mkChain 0 [] [(2 ^ 64 - 1, 2)]) (demo_disk false, demo_ring_mem) = (Panic ArithOverflow, (demo_disk false, demo_ring_mem)).
Proof. apply (serve_address_overflow _ _ _ [] (2 ^ 64)); vm_compute; reflexivity || discriminate. Defined.

(** The read of sector one published in the demonstration ring. *)
Lemma serve_spec_witness :
  exists d' m', serve demo_chain (demo_disk false, demo_ring_mem) = (Ok 513, (d', m')) /\
    answered demo_chain (replicate 512 7) S_OK m'.
Proof.
  pose proof (serve_spec demo_chain (demo_disk false) demo_ring_mem (demo_disk_wf false)
    demo_ring_mem_wf demo_chain_ok) as H.
  assert (res_ok (serve demo_chain (demo_disk false, demo_ring_mem)).1 = Some 513) as E
    by (vm_compute; reflexivity).
  assert (exists request, read_all demo_chain demo_ring_mem = Ok request /\
    (reply (demo_disk false) request 512).1 = (replicate 512 7, S_OK)) as (req & Hreq & Hrep)
    by (eexists; split; vm_compute; reflexivity).
  destruct (serve demo_chain _) as [[n|e|p] [d' m']]; [|discriminate E..]. injection E as ->.
  exists d', m'. split; [reflexivity|].
  destruct H as (_ & _ & _ & _ & request & bs & st & Hr & Hre & _ & _ & Ha).
  assert (request = req) as -> by congruence.
  change (writable_len demo_chain - 1) with 512 in Hre. rewrite Hre in Hrep. cbn [fst] in Hrep.
  assert (bs = replicate 512 7) as -> by congruence. assert (st = S_OK) as -> by congruence. exact Ha.
Defined.

(** A write of sector two and a read of it back. *)
Definition write_chain : DescriptorChain :=
  mkChain 0 [(0x4000, 16); (0x7000, 512)] [(0x6000, 1)].
Definition read_chain : DescriptorChain :=
  mkChain 1 [(0x4100, 16)] [(0x5000, 512); (0x6001, 1)].
Definition demo_io_mem : GuestMemory :=
  driver_write 0x4000 (req_header T_OUT 2)
    (driver_write 0x4100 (req_header T_IN 2) (driver_write 0x7000 (replicate 512 3) demo_mem)).

Lemma demo_io_mem_wf : ram_wf demo_io_mem.
Proof.
  repeat apply driver_write_wf; [exact demo_mem_wf|..]; apply bytes_forallb; vm_compute; reflexivity.
Qed.

Ltac typed_bufs :=
  repeat (apply Forall_cons; split; [by vm_compute|]); by apply Forall_nil.

Lemma write_chain_ok : chain_ok write_chain.
Proof. split; try typed_bufs; [|by vm_compute]. split; [by apply Forall_nil|done]. Qed.

Lemma read_chain_ok : chain_ok read_chain.
Proof.
  split; try typed_bufs; [|by vm_compute]. simpl. unfold bufs_apart, disjoint_ranges.
  split; [apply Forall_cons; split; [simpl; lia|]|split; [|done]]; by apply Forall_nil.
Qed.

Lemma disk_roundtrip_witness :
  exists d1 m1 n2 d2 m2,
    serve write_chain (demo_disk false, demo_io_mem) = (Ok 1, (d1, m1)) /\
    serve read_chain (d1, m1) = (Ok n2, (d2, m2)) /\
    answered read_chain (replicate 512 3) S_OK m2.
Proof.
  assert (res_ok (serve write_chain (demo_disk false, demo_io_mem)).1 = Some 1) as E1
    by (vm_compute; reflexivity).
  assert (ram_read (serve write_chain (demo_disk false, demo_io_mem)).2.2 0x6000 1 = Ok [S_OK]) as Es
    by (vm_compute; reflexivity).
  assert (read_all read_chain (serve write_chain (demo_disk false, demo_io_mem)).2.2
          = Ok (req_header T_IN 2)) as Er by (vm_compute; reflexivity).
  assert (is_ok (serve read_chain (serve write_chain (demo_disk false, demo_io_mem)).2).1 = true) as E2
    by (vm_compute; reflexivity).
  destruct (serve write_chain _) as [[n1|e|p] [d1 m1]] eqn:H1; [|discriminate E1..].
  injection E1 as ->. cbn [fst snd] in Es, Er, E2.
  destruct (serve read_chain (d1, m1)) as [[n2|e|p] [d2 m2]] eqn:H2; [|discriminate E2..].
  exists d1, m1, n2, d2, m2. split; [reflexivity|]. split; [exact H2|].
  refine (proj2 (disk_roundtrip write_chain read_chain (demo_disk false) demo_io_mem (replicate 512 3) 2
    1 d1 m1 0x6000 n2 d2 m2 (demo_disk_wf false) demo_io_mem_wf write_chain_ok read_chain_ok
    _ _ _ _ H1 _ Es Er H2)); vm_compute; first [reflexivity|split; [discriminate|reflexivity]].
Defined.

Lemma replace_backing_spec_witness :
  exists d', replace_backing (mkFile (replicate 1500 1)) [120; 121] (demo_disk false) = (Ok tt, d') /\
    sectors d' = 2 /\ queue0 d' = demo_queue.
Proof.
  pose proof (replace_backing_spec (mkFile (replicate 1500 1)) [120; 121] (demo_disk false)
    (demo_disk_wf false) ltac:(by apply bytes_forallb)) as H.
  assert (is_ok (replace_backing (mkFile (replicate 1500 1)) [120; 121] (demo_disk false)).1 = true) as E
    by (vm_compute; reflexivity).
  destruct (replace_backing _ _ _) as [[[]|e|p] d']; [|discriminate E..].
  exists d'. split; [reflexivity|]. destruct H as (_ & _ & Hq & _ & _ & _ & len & El & Hs).
  assert (len = 1500) as -> by (vm_compute in El; congruence).
  split; [unfold SECTOR_SIZE in Hs; lia|exact Hq].
Defined.

Lemma drain_read_only_witness :
  file (drain 3 false (demo_disk true, demo_io_mem)).2.1 = demo_file.
Proof.
  destruct (drain 3 false (demo_disk true, demo_io_mem)) as [r [d' m']] eqn:E.
  exact (proj2 (drain_read_only 3 false (demo_disk true) demo_io_mem r d' m' E) eq_refl).
Defined.

(** The demonstration ring, kicked: one turn serves its request and the next
    finds nothing. *)
Definition kick0 : VirtioBlockMmio MemFile * GuestMemory := (demo_disk false, demo_ring_mem).
Definition kick1 : VirtioBlockMmio MemFile * GuestMemory :=
  (add_used0 0 513 (serve demo_chain (pop0 kick0).2).2).2.

Lemma kick_reach t : drain_reach kick0 t -> t = kick0 \/ t = kick1.
Proof.
  intros [->|(c & s1 & n & s2 & s3 & Hp & Hs & Ha & Hrest)]%drain_reach_inv; [by left|right].
  assert ((pop0 kick0).1 = Ok (Some demo_chain)) as Ep by (vm_compute; reflexivity).
  assert (c = demo_chain) as -> by (rewrite Hp in Ep; cbn [fst] in Ep; congruence).
  assert (s1 = (pop0 kick0).2) as -> by (by rewrite Hp).
  assert (res_ok (serve demo_chain (pop0 kick0).2).1 = Some 513) as Es by (vm_compute; reflexivity).
  assert (n = 513) as -> by (rewrite Hs in Es; cbn [fst res_ok] in Es; congruence).
  assert (s2 = (serve demo_chain (pop0 kick0).2).2) as -> by (by rewrite Hs).
  assert (s3 = kick1) as -> by (unfold kick1; change 0 with (head demo_chain); by rewrite Ha).
  apply drain_reach_inv in Hrest as [->|(c' & s1' & n' & s2' & s3' & Hp' & _)]; [exact eq_refl|].
  assert (res_ok (pop0 kick1).1 = Some None) as Ep' by (vm_compute; reflexivity).
  rewrite Hp' in Ep'. discriminate Ep'.
Qed.

Lemma kick_quiet t : drain_reach kick0 t -> driver_quiet 1 t.
Proof.
  intros [->| ->]%kick_reach; (split; [vm_compute; reflexivity|]); intros c q' E.
  - assert ((pop kick0.2 (queue0 kick0.1)).1 = Ok (Some demo_chain)) as Ep by (vm_compute; reflexivity).
    rewrite E in Ep. cbn [fst] in Ep. assert (c = demo_chain) as -> by congruence. exact demo_chain_ok.
  - assert (res_ok (pop kick1.2 (queue0 kick1.1)).1 = Some None) as Ep by (vm_compute; reflexivity).
    rewrite E in Ep. discriminate Ep.
Qed.

Definition turns : nat := Z.to_nat (2 ^ 16).

Lemma turns_enough : 2 ^ 16 <= Z.of_nat turns.
Proof. unfold turns. rewrite Z2Nat.id; [apply Z.le_refl|apply Z.pow_nonneg; lia]. Qed.

Lemma drain_terminates_witness :
  is_panic (drain turns false (demo_disk false, demo_ring_mem)).1 = false.
Proof.
  exact (drain_terminates turns false (demo_disk false) demo_ring_mem 1
    (demo_disk_wf false) demo_queue_room demo_ring_mem_wf (conj (Z.le_0_1) eq_refl)
    kick_quiet turns_enough).
Defined.

(** A guest builds the ring of [self_feeding] with register writes, one
    rejected request and ordinary stores. *)
Definition trap_queue : GuestQueue := mkQueue 1 128 0x1000 0x2000 0x2000 true 0 0.
Definition trap_disk : VirtioBlockMmio MemFile := set_queue0 trap_queue (demo_disk false).
Definition trap_mem : GuestMemory :=
  driver_write 0x2000 (to_le_bytes 2 0 ++ to_le_bytes 2 1 ++ to_le_bytes 2 5) demo_mem.
Definition trap_disk1 : VirtioBlockMmio MemFile := (drain 2 false (trap_disk, trap_mem)).2.1.
Definition trap_mem1 : GuestMemory := driver_write 0x2000 (replicate 12 0) trap_mem.

Lemma trap_queue1 : queue0 trap_disk1 = set_progress 1 0 trap_queue.
Proof. vm_compute. reflexivity. Qed.

Lemma drain_self_feeding_witness :
  is_ok (drain 2 false (trap_disk, trap_mem)).1 = false /\
  forall fuel, (drain fuel false (trap_disk1, trap_mem1)).1 = Panic FuelExhausted.
Proof.
  split; [vm_compute; reflexivity|]. intros fuel. apply drain_self_feeding.
  split; rewrite ?trap_queue1; try (vm_compute; reflexivity).
  - split_and!.
    + split; try (vm_compute; split; [discriminate|reflexivity]).
      * vm_compute. split; discriminate.
      * right. split; [vm_compute; split; [reflexivity|discriminate]|reflexivity].
      * split_and!; vm_compute; first [discriminate|reflexivity].
    + split; vm_compute; reflexivity.
    + repeat apply driver_write_wf; [exact demo_mem_wf|..]; apply bytes_forallb; vm_compute; reflexivity.
  - vm_compute. right. discriminate.
  - vm_compute. discriminate.
Defined.
