(* ===== verification/VirtioMmio.v ===== *)
(** * The virtio-MMIO transport ([hv2-core/src/devices/virtio_mmio.rs])

    A page of registers in front of one device.  The device is reached through
    the [VirtioMmioDevice] class, as the trait of the same name; the laws of
    the class are what the transport's theorems need of it, and the block device
    discharges them.  The records of [snapshot/device.rs] are the saved state. *)

From S2P Require Import Prelude GuestRam GuestMem VirtQueue Pic VirtioBlkMmio.

(** ** Registers *)

Definition VIRTIO_MMIO_MAGIC : Z := 0x74726976.
Definition VIRTIO_MMIO_VERSION : Z := 2.
Definition VIRTIO_MMIO_VENDOR_ID : Z := 0x554D4551.
Definition VIRTIO_MMIO_REGION_SIZE : Z := 0x1000.
Definition CONFIG_OFFSET : Z := 0x100.

Module status.
Definition ACKNOWLEDGE : Z := 1.
Definition DRIVER : Z := 2.
Definition DRIVER_OK : Z := 4.
Definition FEATURES_OK : Z := 8.
Definition FAILED : Z := 128.
End status.

Module interrupt.
Definition VRING : Z := 1.
Definition CONFIG : Z := 2.
End interrupt.

Module reg.
Definition MAGIC : Z := 0x000.
Definition VERSION : Z := 0x004.
Definition DEVICE_ID : Z := 0x008.
Definition VENDOR_ID : Z := 0x00c.
Definition DEVICE_FEATURES : Z := 0x010.
Definition DEVICE_FEATURES_SEL : Z := 0x014.
Definition DRIVER_FEATURES : Z := 0x020.
Definition DRIVER_FEATURES_SEL : Z := 0x024.
Definition QUEUE_SEL : Z := 0x030.
Definition QUEUE_NUM_MAX : Z := 0x034.
Definition QUEUE_NUM : Z := 0x038.
Definition QUEUE_READY : Z := 0x044.
Definition QUEUE_NOTIFY : Z := 0x050.
Definition INTERRUPT_STATUS : Z := 0x060.
Definition INTERRUPT_ACK : Z := 0x064.
Definition STATUS : Z := 0x070.
Definition QUEUE_DESC_LOW : Z := 0x080.
Definition QUEUE_DESC_HIGH : Z := 0x084.
Definition QUEUE_DRIVER_LOW : Z := 0x090.
Definition QUEUE_DRIVER_HIGH : Z := 0x094.
Definition QUEUE_DEVICE_LOW : Z := 0x0a0.
Definition QUEUE_DEVICE_HIGH : Z := 0x0a4.
Definition CONFIG_GENERATION : Z := 0x0fc.
End reg.

Record TransportRegs := mkRegs {
  device_features_sel : Z;
  driver_features_sel : Z;
  driver_features : Z;
  queue_sel : Z;
  rstatus : Z;
  interrupt_status : Z;
  config_generation : Z
}.

Definition default_regs : TransportRegs := mkRegs 0 0 0 0 0 0 0.

Definition with_interrupt_status (v : Z) (r : TransportRegs) : TransportRegs :=
  mkRegs (device_features_sel r) (driver_features_sel r) (driver_features r) (queue_sel r)
    (rstatus r) v (config_generation r).
Definition with_config_generation (v : Z) (r : TransportRegs) : TransportRegs :=
  mkRegs (device_features_sel r) (driver_features_sel r) (driver_features r) (queue_sel r)
    (rstatus r) (interrupt_status r) v.

(** ** Devices *)

(** The trait, with the memory the device serves from as its second half.
    [dev_queues] and [dev_put_queues] are the two sides of [&mut \[GuestQueue\]]. *)
Class VirtioMmioDevice (D M : Type) := {
  dev_id : D -> Z;
  dev_features : D -> Z;
  dev_ack_features : Z -> D -> D;
  dev_queues : D -> list GuestQueue;
  dev_put_queues : list GuestQueue -> D -> D;
  dev_read_config : D -> Z -> nat -> Result bytes;
  dev_write_config : Z -> bytes -> D -> D;
  dev_notify : Z -> ST (D * M) Error bool;
  dev_reset : D -> D;
  dev_save_counters : D -> gmap string Z;
  dev_restore_counters : gmap string Z -> D -> D
}.

(** What one transport expects of its device. *)
Class VirtioMmioDeviceLaws (D M : Type) `{VirtioMmioDevice D M} := {
  queues_put d qs : length qs = length (dev_queues d) -> dev_queues (dev_put_queues qs d) = qs;
  put_queues_id d : dev_put_queues (dev_queues d) d = d;
  queues_ack f d : dev_queues (dev_ack_features f d) = dev_queues d;
  queues_restore cs d : dev_queues (dev_restore_counters cs d) = dev_queues d;
  queues_reset d : dev_queues (dev_reset d) = VirtQueue.reset <$> dev_queues d;
  id_put qs d : dev_id (dev_put_queues qs d) = dev_id d;
  id_ack f d : dev_id (dev_ack_features f d) = dev_id d;
  id_restore cs d : dev_id (dev_restore_counters cs d) = dev_id d;
  features_put qs d : dev_features (dev_put_queues qs d) = dev_features d;
  features_ack f d : dev_features (dev_ack_features f d) = dev_features d;
  features_restore cs d : dev_features (dev_restore_counters cs d) = dev_features d
}.

(** ** The transport *)

(** [sink] is the interrupt sink once installed, as the level of the line it
    drives. *)
Record VirtioMmioTransport (D M : Type) := mkTransport {
  name : string;
  base_address : Z;
  memory : M;
  device : D;
  regs : TransportRegs;
  irq_line : option (Pic8259 * Z);
  sink : option bool
}.
Arguments mkTransport {D M} _ _ _ _ _ _ _.
Arguments name {D M} _.
Arguments base_address {D M} _.
Arguments memory {D M} _.
Arguments device {D M} _.
Arguments regs {D M} _.
Arguments irq_line {D M} _.
Arguments sink {D M} _.

Definition set_low (addr value : Z) : Z := Z.lor (Z.land addr 0xffffffff00000000) value.
Definition set_high (addr value : Z) : Z :=
  Z.lor (Z.land addr 0x00000000ffffffff) (Z.shiftl value 32).

Section Transport.
Context `{VirtioMmioDevice D M} `{GuestRam M}.
Abbreviation T := (VirtioMmioTransport D M).

Definition new (nm : string) (base : Z) (m : M) (d : D) : T :=
  mkTransport nm base m d default_regs None None.

Definition set_regs (r : TransportRegs) (t : T) : T :=
  mkTransport (name t) (base_address t) (memory t) (device t) r (irq_line t) (sink t).
Definition set_device (d : D) (t : T) : T :=
  mkTransport (name t) (base_address t) (memory t) d (regs t) (irq_line t) (sink t).
Definition set_memory (m : M) (t : T) : T :=
  mkTransport (name t) (base_address t) m (device t) (regs t) (irq_line t) (sink t).
Definition set_pic (p : Pic8259) (t : T) : T :=
  mkTransport (name t) (base_address t) (memory t) (device t) (regs t)
    ((fun l => (p, l.2)) <$> irq_line t) (sink t).
Definition set_line (b : bool) (t : T) : T :=
  mkTransport (name t) (base_address t) (memory t) (device t) (regs t) (irq_line t)
    ((fun _ => b) <$> sink t).

Definition with_interrupt (p : Pic8259) (irq : Z) (t : T) : T :=
  mkTransport (name t) (base_address t) (memory t) (device t) (regs t) (Some (p, irq)) (sink t).
Definition set_interrupt_sink (t : T) : T :=
  mkTransport (name t) (base_address t) (memory t) (device t) (regs t) (irq_line t) (Some false).

Definition status (t : T) : Z := rstatus (regs t).

Definition driver_ok (t : T) : bool :=
  has (status t) status.DRIVER_OK && has (status t) status.FEATURES_OK
  && negb (has (status t) status.FAILED).

Definition raise (bits : Z) : ST T Error unit :=
  _ ← st_modify (fun t =>
        set_regs (with_interrupt_status (Z.lor (interrupt_status (regs t)) bits) (regs t)) t);
  line ← st_gets irq_line;
  match line with
  | Some (p, irq) =>
      let '(r, p') := Pic.raise_irq irq p in
      _ ← st_modify (set_pic p');
      _ ← st_lift r;
      st_modify (set_line true)
  | None => mret tt
  end.

Definition signal_used_queue : ST T Error unit := raise interrupt.VRING.

Definition signal_config_change : ST T Error unit :=
  g ← st_read (fun t => add 32 (config_generation (regs t)) 1);
  _ ← st_modify (fun t => set_regs (with_config_generation g (regs t)) t);
  raise interrupt.CONFIG.

Definition settle_interrupt (remaining : Z) (t : T) : T :=
  if negb (remaining =? 0) then t
  else match irq_line t with Some _ => set_line false t | None => t end.

Definition selected_queue (t : T) (f : GuestQueue -> Z) : Z :=
  match dev_queues (device t) !! Z.to_nat (queue_sel (regs t)) with
  | Some q => f q
  | None => 0
  end.

Definition with_selected_queue (f : GuestQueue -> GuestQueue) (t : T) : T :=
  set_device (dev_put_queues
    (alter f (Z.to_nat (queue_sel (regs t))) (dev_queues (device t))) (device t)) t.

Definition read_register (t : T) (offset : Z) : Z :=
  if offset =? reg.MAGIC then VIRTIO_MMIO_MAGIC
  else if offset =? reg.VERSION then VIRTIO_MMIO_VERSION
  else if offset =? reg.DEVICE_ID then dev_id (device t)
  else if offset =? reg.VENDOR_ID then VIRTIO_MMIO_VENDOR_ID
  else if offset =? reg.DEVICE_FEATURES then
    let features := dev_features (device t) in
    let sel := device_features_sel (regs t) in
    if sel =? 0 then trunc 32 features
    else if sel =? 1 then trunc 32 (Z.shiftr features 32)
    else 0
  else if offset =? reg.QUEUE_NUM_MAX then selected_queue t max_size
  else if offset =? reg.QUEUE_READY then selected_queue t (fun q => Z.b2z (is_ready q))
  else if offset =? reg.INTERRUPT_STATUS then interrupt_status (regs t)
  else if offset =? reg.STATUS then rstatus (regs t)
  else if offset =? reg.CONFIG_GENERATION then config_generation (regs t)
  else 0.

(** [QueueNotify]: the kick, the look at the available index that the log
    line takes, and the interrupt if the device used anything. *)
Definition notify_register (value : Z) : ST T Error unit :=
  ok ← st_gets (fun t => has (rstatus (regs t)) status.DRIVER_OK);
  if negb ok then mret tt
  else
    used ← (fun t =>
      let '(r, (d, m)) := dev_notify (trunc 16 value) (device t, memory t) in
      (r, set_memory m (set_device d t)));
    _ ← st_read (fun t =>
      match dev_queues (device t) !! Z.to_nat value with
      | Some q => match avail_idx q (memory t) with Panic p => Panic p | _ => Ok tt end
      | None => Ok tt
      end);
    if negb used then mret tt else raise interrupt.VRING.

Definition write_register (offset value : Z) : ST T Error unit :=
  let upd f := st_modify (fun t : T => set_regs (f (regs t)) t) in
  if offset =? reg.DEVICE_FEATURES_SEL then
    upd (fun r => mkRegs value (driver_features_sel r) (driver_features r) (queue_sel r)
                    (rstatus r) (interrupt_status r) (config_generation r))
  else if offset =? reg.DRIVER_FEATURES_SEL then
    upd (fun r => mkRegs (device_features_sel r) value (driver_features r) (queue_sel r)
                    (rstatus r) (interrupt_status r) (config_generation r))
  else if offset =? reg.DRIVER_FEATURES then
    _ ← upd (fun r =>
          let shift := if driver_features_sel r =? 0 then 0 else 32 in
          mkRegs (device_features_sel r) (driver_features_sel r)
            (Z.lor (driver_features r) (Z.shiftl value shift)) (queue_sel r)
            (rstatus r) (interrupt_status r) (config_generation r));
    st_modify (fun t => set_device (dev_ack_features (driver_features (regs t)) (device t)) t)
  else if offset =? reg.QUEUE_SEL then
    upd (fun r => mkRegs (device_features_sel r) (driver_features_sel r) (driver_features r) value
                    (rstatus r) (interrupt_status r) (config_generation r))
  else if offset =? reg.QUEUE_NUM then
    st_modify (with_selected_queue (set_size (trunc 16 value)))
  else if offset =? reg.QUEUE_READY then
    st_modify (with_selected_queue (set_ready (negb (value =? 0))))
  else if offset =? reg.QUEUE_DESC_LOW then
    st_modify (with_selected_queue (fun q => set_desc_addr (set_low (desc_addr q) value) q))
  else if offset =? reg.QUEUE_DESC_HIGH then
    st_modify (with_selected_queue (fun q => set_desc_addr (set_high (desc_addr q) value) q))
  else if offset =? reg.QUEUE_DRIVER_LOW then
    st_modify (with_selected_queue (fun q => set_avail_addr (set_low (avail_addr q) value) q))
  else if offset =? reg.QUEUE_DRIVER_HIGH then
    st_modify (with_selected_queue (fun q => set_avail_addr (set_high (avail_addr q) value) q))
  else if offset =? reg.QUEUE_DEVICE_LOW then
    st_modify (with_selected_queue (fun q => set_used_addr (set_low (used_addr q) value) q))
  else if offset =? reg.QUEUE_DEVICE_HIGH then
    st_modify (with_selected_queue (fun q => set_used_addr (set_high (used_addr q) value) q))
  else if offset =? reg.QUEUE_NOTIFY then notify_register value
  else if offset =? reg.INTERRUPT_ACK then
    st_modify (fun t =>
      let remaining := Z.land (interrupt_status (regs t)) (bnot 32 value) in
      settle_interrupt remaining (set_regs (with_interrupt_status remaining (regs t)) t))
  else if offset =? reg.STATUS then
    if value =? 0 then
      _ ← upd (fun r => mkRegs 0 0 0 0 0 0 (config_generation r));
      _ ← st_modify (settle_interrupt 0);
      st_modify (fun t => set_device (dev_reset (device t)) t)
    else
      upd (fun r => mkRegs (device_features_sel r) (driver_features_sel r) (driver_features r)
                      (queue_sel r) value (interrupt_status r) (config_generation r))
  else mret tt.

(** ** The [Device] side *)

Definition read (t : T) (offset : Z) (n : nat) : Result bytes :=
  if CONFIG_OFFSET <=? offset then dev_read_config (device t) (offset - CONFIG_OFFSET) n
  else
    let aligned := Z.land offset (bnot 64 0x3) in
    let bs := to_le_bytes 4 (read_register t aligned) in
    let start := offset - aligned in
    if 4 - start <? Z.of_nat n
    then Err (Device "virtio-mmio read of {} bytes at {offset:#x} crosses a register"
                [Z.of_nat n; offset])
    else slice_ck bs start (Z.of_nat n).

Definition write (offset : Z) (data : bytes) : ST T Error unit :=
  if CONFIG_OFFSET <=? offset then
    st_modify (fun t => set_device (dev_write_config (offset - CONFIG_OFFSET) data (device t)) t)
  else if negb (Z.of_nat (length data) =? 4) || negb (offset mod 4 =? 0) then
    st_lift (Err (Device
      "virtio-mmio register write must be an aligned 32-bit access, got {} bytes at {offset:#x}"
      [Z.of_nat (length data); offset]))
  else write_register offset (from_le_bytes data).

Definition reset (t : T) : T :=
  let t := settle_interrupt 0 (set_regs default_regs t) in
  set_device (dev_reset (device t)) t.
End Transport.

(** ** Snapshots *)

Record QueueState := mkQueueState {
  qs_size : Z; qs_ready : bool; qs_desc_addr : Z; qs_avail_addr : Z; qs_used_addr : Z;
  qs_last_avail_idx : Z; qs_next_used_idx : Z
}.

Record TransportState := mkTransportState {
  ts_device_features_sel : Z; ts_driver_features_sel : Z; ts_driver_features : Z;
  ts_queue_sel : Z; ts_status : Z; ts_interrupt_status : Z; ts_config_generation : Z
}.

Record MmioDeviceState := mkMmioDeviceState {
  ms_name : string;
  ms_transport : TransportState;
  ms_queues : list QueueState;
  ms_counters : gmap string Z
}.

Definition save_queue (q : GuestQueue) : QueueState :=
  mkQueueState (qsize q) (is_ready q) (desc_addr q) (avail_addr q) (used_addr q)
    (progress q).1 (progress q).2.

Definition restore_queue (q : GuestQueue) (s : QueueState) : GuestQueue :=
  set_ready (qs_ready s)
    (set_progress (qs_last_avail_idx s) (qs_next_used_idx s)
       (set_used_addr (qs_used_addr s)
          (set_avail_addr (qs_avail_addr s)
             (set_desc_addr (qs_desc_addr s) (set_size (qs_size s) q))))).

Section Snapshot.
Context `{VirtioMmioDevice D M}.
Abbreviation T := (VirtioMmioTransport D M).

Definition save_state (t : T) : MmioDeviceState :=
  let r := regs t in
  mkMmioDeviceState (name t)
    (mkTransportState (device_features_sel r) (driver_features_sel r) (driver_features r)
       (queue_sel r) (rstatus r) (interrupt_status r) (config_generation r))
    (save_queue <$> dev_queues (device t)) (dev_save_counters (device t)).

(** The registers are in place before the queues are compared. *)
Definition restore_state (s : MmioDeviceState) : ST T Error unit :=
  let ts := ms_transport s in
  _ ← st_modify (set_regs (mkRegs (ts_device_features_sel ts) (ts_driver_features_sel ts)
        (ts_driver_features ts) (ts_queue_sel ts) (ts_status ts) (ts_interrupt_status ts)
        (ts_config_generation ts)));
  _ ← st_modify (fun t => set_device (dev_ack_features (ts_driver_features ts) (device t)) t);
  _ ← st_modify (fun t => set_device (dev_restore_counters (ms_counters s) (device t)) t);
  qs ← st_gets (fun t => dev_queues (device t));
  if negb (Nat.eqb (length qs) (length (ms_queues s)))
  then st_lift (Err (InvalidState "'{}' has {} queue(s) and the snapshot describes {}"
                       [Z.of_nat (length qs); Z.of_nat (length (ms_queues s))]))
  else st_modify (fun t =>
         set_device (dev_put_queues (zip_with restore_queue qs (ms_queues s)) (device t)) t).
End Snapshot.

(** ** Addresses in two halves *)

Definition low32 (a : Z) : Z := Z.land a (Z.ones 32).
Definition high32 (a : Z) : Z := Z.shiftr a 32.

Lemma set_halves x a : set_high (set_low x (low32 a)) (high32 a) = a.
Proof.
  unfold set_high, set_low, low32, high32.
  change 0xffffffff00000000 with (Z.shiftl (Z.ones 32) 32). change 0xffffffff with (Z.ones 32).
  apply Z.bits_inj_iff'. intros i Hi.
  rewrite Z.lor_spec, Z.land_spec, Z.lor_spec, !Z.land_spec, !Z.shiftl_spec by done.
  rewrite !Z.testbit_ones by lia. destruct (Z.lt_ge_cases i 32).
  - rewrite (proj2 (Z.leb_gt 0 (i - 32))), (proj2 (Z.leb_le 0 i)), (proj2 (Z.ltb_lt i 32)) by lia.
    rewrite (Z.testbit_neg_r _ (i - 32)) by lia. cbn [andb]. by rewrite andb_false_r, orb_false_r, !andb_true_r.
  - rewrite Z.shiftr_spec, Z.sub_add by lia. rewrite (proj2 (Z.ltb_ge i 32)) by lia.
    by rewrite !andb_false_r.
Qed.

Lemma low32_fits a : fits 32 (low32 a).
Proof. unfold low32, fits. rewrite Z.land_ones by lia. by apply Z.mod_pos_bound. Qed.

(** ** Snapshots *)

Section SnapshotFacts.
Context `{VirtioMmioDeviceLaws D M}.
Abbreviation T := (VirtioMmioTransport D M).

(** A queue before the driver has touched it, of the same device. *)
Definition fresh_for (q q0 : GuestQueue) : Prop := max_size q0 = max_size q /\ qsize q0 = 0.

Lemma restore_save_queue q q0 :
  queue_wf q -> fresh_for q q0 -> restore_queue q0 (save_queue q) = set_ready (is_ready q) q.
Proof.
  intros Hq [Hm Hs]. unfold restore_queue, save_queue. simpl.
  assert (set_size (qsize q) q0 =
    mkQueue (qsize q) (max_size q) (desc_addr q0) (avail_addr q0) (used_addr q0) (qready q0)
      (last_avail_idx q0) (next_used_idx q0)) as ->.
  { unfold set_size. rewrite Hm. destruct (qw_size q Hq) as [E|[[? ?] Hp]].
    - rewrite E. simpl. destruct q0. simpl in *. by subst.
    - rewrite Hp, (proj2 (Z.ltb_lt _ _)), (proj2 (Z.leb_le _ _)) by lia. done. }
  done.
Qed.

Lemma set_ready_is_ready q : is_ready (set_ready (is_ready q) q) = is_ready q.
Proof.
  unfold is_ready, set_ready, ring_size. simpl.
  destruct (qready q), (0 <? _), (negb (desc_addr q =? 0)), (negb (avail_addr q =? 0)),
    (negb (used_addr q =? 0)); done.
Qed.

Lemma restore_queues qs qs0 :
  Forall queue_wf qs -> Forall2 fresh_for qs qs0 ->
  zip_with restore_queue qs0 (save_queue <$> qs) = (fun q => set_ready (is_ready q) q) <$> qs.
Proof.
  intros Hw Hf. induction Hf as [|q q0 qs qs0 Hq _ IH]; [done|]. apply Forall_cons in Hw as [? ?].
  rewrite !fmap_cons. cbn [zip_with]. rewrite restore_save_queue by done. by rewrite IH.
Qed.

(** A transport restored from a snapshot onto a fresh device of the same kind
    has the saved registers, and queues with the saved sizes, addresses and
    ring positions that are ready exactly when the saved ones were: no register
    the guest can read tells it from the transport that was saved. *)
Theorem save_restore_roundtrip (t t0 : T) :
  Forall queue_wf (dev_queues (device t)) ->
  Forall2 fresh_for (dev_queues (device t)) (dev_queues (device t0)) ->
  dev_id (device t0) = dev_id (device t) -> dev_features (device t0) = dev_features (device t) ->
  exists t1, restore_state (save_state t) t0 = (Ok tt, t1) /\ regs t1 = regs t /\
    dev_queues (device t1) = (fun q => set_ready (is_ready q) q) <$> dev_queues (device t) /\
    progress <$> dev_queues (device t1) = progress <$> dev_queues (device t) /\
    forall offset, read_register t1 offset = read_register t offset.
Proof.
  intros Hw Hf Hid Hfe. unfold restore_state. rewrite !st_bind_modify, st_bind_gets.
  cbn [device set_device set_regs save_state ms_queues ms_transport ts_driver_features ms_counters].
  rewrite queues_restore, queues_ack.
  assert (length (dev_queues (device t0)) = length (dev_queues (device t))) as Hl
    by (symmetry; by eapply Forall2_length).
  rewrite length_fmap, Hl, Nat.eqb_refl. cbn [negb]. unfold st_modify. eexists. split; [reflexivity|].
  assert (forall d, dev_queues d = dev_queues (device t0) ->
    dev_queues (dev_put_queues (zip_with restore_queue (dev_queues (device t0))
      (save_queue <$> dev_queues (device t))) d) =
    (fun q => set_ready (is_ready q) q) <$> dev_queues (device t)) as Hq.
  { intros d Hd. rewrite restore_queues by done. apply queues_put. by rewrite length_fmap, Hd, Hl. }
  cbn [device set_device set_regs regs].
  match goal with |- context [dev_put_queues _ ?d] => set (d0 := d) in * end.
  assert (dev_queues d0 = dev_queues (device t0)) as Hd0 by (unfold d0; by rewrite queues_restore, queues_ack).
  specialize (Hq d0 Hd0). split_and!; [by destruct (regs t)|done| |].
  - rewrite Hq, <- list_fmap_compose. apply list_fmap_ext. by intros.
  - intros offset. unfold read_register, selected_queue. cbn [device regs set_device set_regs].
    rewrite Hq, id_put, features_put. unfold d0. rewrite id_restore, id_ack, features_restore, features_ack.
    rewrite Hid, Hfe, list_lookup_fmap. cbn [device_features_sel queue_sel interrupt_status rstatus config_generation
      ts_device_features_sel ts_queue_sel ts_interrupt_status ts_status ts_config_generation].
    destruct (dev_queues (device t) !! _) as [q|]; simpl; [|done].
    by rewrite set_ready_is_ready.
Qed.

(** A snapshot of another device is refused, but only after the transport's
    registers have been overwritten with it. *)
Theorem restore_mismatch (t : T) s :
  length (ms_queues s) <> length (dev_queues (device t)) ->
  exists e t1, restore_state s t = (Err e, t1) /\ rstatus (regs t1) = ts_status (ms_transport s) /\
    driver_features (regs t1) = ts_driver_features (ms_transport s) /\
    dev_queues (device t1) = dev_queues (device t).
Proof.
  intros Hl. unfold restore_state. rewrite !st_bind_modify, st_bind_gets.
  cbn [device set_device set_regs]. rewrite queues_restore, queues_ack.
  rewrite (proj2 (Nat.eqb_neq _ _)) by done. cbn [negb]. eexists _, _. split; [reflexivity|].
  cbn [regs device set_device set_regs rstatus driver_features].
  by rewrite queues_restore, queues_ack.
Qed.
End SnapshotFacts.

(** ** Bring-up *)

Section Driver.
Context `{VirtioMmioDeviceLaws D M} `{GuestRam M}.
Abbreviation T := (VirtioMmioTransport D M).

Fixpoint run_writes (ws : list (Z * Z)) : ST T Error unit :=
  match ws with [] => mret tt | (o, v) :: ws' => _ ← write_register o v; run_writes ws' end.

(** The writes of a driver that resets the device, accepts [feats] and
    publishes queue 0. *)
Definition bring_up (feats n da aa ua : Z) : list (Z * Z) :=
  [(reg.STATUS, 0); (reg.STATUS, status.ACKNOWLEDGE);
   (reg.STATUS, status.ACKNOWLEDGE + status.DRIVER);
   (reg.DRIVER_FEATURES_SEL, 0); (reg.DRIVER_FEATURES, low32 feats);
   (reg.DRIVER_FEATURES_SEL, 1); (reg.DRIVER_FEATURES, high32 feats);
   (reg.STATUS, status.ACKNOWLEDGE + status.DRIVER + status.FEATURES_OK);
   (reg.QUEUE_SEL, 0); (reg.QUEUE_NUM, n);
   (reg.QUEUE_DESC_LOW, low32 da); (reg.QUEUE_DESC_HIGH, high32 da);
   (reg.QUEUE_DRIVER_LOW, low32 aa); (reg.QUEUE_DRIVER_HIGH, high32 aa);
   (reg.QUEUE_DEVICE_LOW, low32 ua); (reg.QUEUE_DEVICE_HIGH, high32 ua);
   (reg.QUEUE_READY, 1);
   (reg.STATUS, status.ACKNOWLEDGE + status.DRIVER + status.FEATURES_OK + status.DRIVER_OK)].

(** A transport as far as bring-up looks at it: its registers and its
    queues. *)
Definition sees (t : T) (r : TransportRegs) (qs : list GuestQueue) : Prop :=
  regs t = r /\ dev_queues (device t) = qs.

(** One register write, as it changes what is seen. *)
Definition step (o v : Z) (r : TransportRegs) (qs : list GuestQueue)
    (r' : TransportRegs) (qs' : list GuestQueue) : Prop :=
  forall t, sees t r qs -> exists t', write_register o v t = (Ok tt, t') /\ sees t' r' qs'.

(** A script of them. *)
Inductive script : list (Z * Z) -> TransportRegs -> list GuestQueue ->
    TransportRegs -> list GuestQueue -> Prop :=
| script_nil r qs : script [] r qs r qs
| script_cons o v ws r qs r1 qs1 r' qs' :
    step o v r qs r1 qs1 -> script ws r1 qs1 r' qs' -> script ((o, v) :: ws) r qs r' qs'.

Lemma script_run ws r qs r' qs' t :
  script ws r qs r' qs' -> sees t r qs ->
  exists t', run_writes ws t = (Ok tt, t') /\ sees t' r' qs'.
Proof.
  intros Hs. revert t. induction Hs as [|o v ws r qs r1 qs1 r' qs' Hw _ IH]; intros t Ht; [by exists t|].
  destruct (Hw t Ht) as (t1 & E & Ht1). destruct (IH t1 Ht1) as (t' & ? & ?).
  exists t'. split; [|done]. cbn [run_writes]. by rewrite st_bind_eq, E.
Qed.

Lemma step_reset r qs :
  step reg.STATUS 0 r qs (mkRegs 0 0 0 0 0 0 (config_generation r)) (VirtQueue.reset <$> qs).
Proof.
  intros t [<- <-]. eexists. split; [reflexivity|]. unfold settle_interrupt. simpl.
  destruct (irq_line t); (split; [done|apply queues_reset]).
Qed.

Lemma step_status v a b c d e f g qs :
  v <> 0 -> step reg.STATUS v (mkRegs a b c d e f g) qs (mkRegs a b c d v f g) qs.
Proof.
  intros Hv t [E <-].
  assert (write_register reg.STATUS v t = (Ok tt, set_regs (mkRegs a b c d v f g) t)) as Hw.
  { unfold write_register. simpl. rewrite (proj2 (Z.eqb_neq _ _)) by done. unfold st_modify. by rewrite E. }
  rewrite Hw. by eexists.
Qed.

Lemma step_features_sel v a b c d e f g qs :
  step reg.DRIVER_FEATURES_SEL v (mkRegs a b c d e f g) qs (mkRegs a v c d e f g) qs.
Proof. intros t [E <-]. eexists. split; [reflexivity|]. split; simpl; by rewrite ?E. Qed.

Lemma step_features v a b c d e f g qs :
  step reg.DRIVER_FEATURES v (mkRegs a b c d e f g) qs
    (mkRegs a b (Z.lor c (Z.shiftl v (if b =? 0 then 0 else 32))) d e f g) qs.
Proof.
  intros t [E <-]. eexists. split; [reflexivity|]. split; simpl; [by rewrite E|apply queues_ack].
Qed.

Lemma step_queue_sel v a b c d e f g qs :
  step reg.QUEUE_SEL v (mkRegs a b c d e f g) qs (mkRegs a b c v e f g) qs.
Proof. intros t [E <-]. eexists. split; [reflexivity|]. split; simpl; by rewrite ?E. Qed.

(** A write to a register of the selected queue. *)
Lemma step_queue o v h a b c e f g q qs :
  write_register o v = st_modify (with_selected_queue h) ->
  step o v (mkRegs a b c 0 e f g) (q :: qs) (mkRegs a b c 0 e f g) (h q :: qs).
Proof.
  intros Hw t [E Hq]. rewrite Hw. eexists. split; [done|]. split; [done|].
  unfold with_selected_queue. cbn [device set_device]. rewrite E, Hq. cbn [queue_sel].
  change (alter h (Z.to_nat 0) (q :: qs)) with (h q :: qs). apply queues_put. by rewrite Hq.
Qed.

Lemma low_high a : Z.lor (Z.lor 0 (Z.shiftl (low32 a) 0)) (Z.shiftl (high32 a) 32) = a.
Proof.
  rewrite Z.shiftl_0_r, Z.lor_0_l. rewrite <- (set_halves 0 a) at 3. unfold set_high, set_low.
  f_equal. rewrite Z.land_0_l, Z.lor_0_l. unfold low32. change 0xffffffff with (Z.ones 32).
  by rewrite <- Z.land_assoc, Z.land_diag.
Qed.

Lemma set_size_fresh n q :
  max_size q <= MAX_QUEUE_SIZE -> 0 < n <= max_size q -> is_power_of_two n = true ->
  set_size (trunc 16 n) (VirtQueue.reset q) = mkQueue n (max_size q) 0 0 0 false 0 0.
Proof.
  intros Hmax Hn Hp. assert (trunc 16 n = n) as ->.
  { unfold trunc. apply Z.mod_small. unfold MAX_QUEUE_SIZE in *. lia. }
  unfold set_size, VirtQueue.reset, VirtQueue.new. cbn [max_size]. rewrite (Z.min_l (max_size q)) by done.
  by rewrite Hp, (proj2 (Z.ltb_lt _ _)), (proj2 (Z.leb_le _ _)) by lia.
Qed.

(** The two halves of one ring address. *)
Lemma halves_queue n mx da aa ua : 
  mkQueue n mx (set_high (set_low 0 (low32 da)) (high32 da))
    (set_high (set_low 0 (low32 aa)) (high32 aa)) (set_high (set_low 0 (low32 ua)) (high32 ua)) true 0 0
  = mkQueue n mx da aa ua true 0 0.
Proof. by rewrite !set_halves. Qed.

Lemma bring_up_script r feats n da aa ua q qs :
  max_size q <= MAX_QUEUE_SIZE -> 0 < n <= max_size q -> is_power_of_two n = true ->
  script (bring_up feats n da aa ua) r (q :: qs) (mkRegs 0 1 feats 0 15 0 (config_generation r))
    (mkQueue n (max_size q) da aa ua true 0 0 :: (VirtQueue.reset <$> qs)).
Proof.
  intros Hmax Hn Hp. rewrite <- (low_high feats) at 2. rewrite <- halves_queue.
  eapply script_cons; [apply step_reset|].
  do 2 (eapply script_cons; [by apply step_status|]).
  eapply script_cons; [apply step_features_sel|]. eapply script_cons; [apply step_features|].
  eapply script_cons; [apply step_features_sel|]. eapply script_cons; [apply step_features|].
  eapply script_cons; [by apply step_status|]. eapply script_cons; [apply step_queue_sel|].
  rewrite fmap_cons.
  eapply script_cons; [by apply (step_queue _ _ (set_size (trunc 16 n)))|].
  rewrite set_size_fresh by done.
  eapply script_cons; [by apply (step_queue _ _ (fun q => set_desc_addr (set_low (desc_addr q) (low32 da)) q))|].
  eapply script_cons; [by apply (step_queue _ _ (fun q => set_desc_addr (set_high (desc_addr q) (high32 da)) q))|].
  eapply script_cons; [by apply (step_queue _ _ (fun q => set_avail_addr (set_low (avail_addr q) (low32 aa)) q))|].
  eapply script_cons; [by apply (step_queue _ _ (fun q => set_avail_addr (set_high (avail_addr q) (high32 aa)) q))|].
  eapply script_cons; [by apply (step_queue _ _ (fun q => set_used_addr (set_low (used_addr q) (low32 ua)) q))|].
  eapply script_cons; [by apply (step_queue _ _ (fun q => set_used_addr (set_high (used_addr q) (high32 ua)) q))|].
  eapply script_cons; [by apply (step_queue _ _ (set_ready true))|].
  eapply script_cons; [by apply step_status|]. apply script_nil.
Qed.

(** After the writes of a driver bringing the device up, whatever state it was
    in before, the driver is acknowledged as ready, the features it accepted
    are recorded whole, nothing is pending, and queue 0 has exactly the size and
    the 64-bit ring addresses the driver published, from position zero, and is
    ready. *)
Theorem bring_up_spec (t : T) feats n da aa ua q qs :
  dev_queues (device t) = q :: qs -> max_size q <= MAX_QUEUE_SIZE ->
  0 < n <= max_size q -> is_power_of_two n = true ->
  da <> 0 -> aa <> 0 -> ua <> 0 ->
  exists t', run_writes (bring_up feats n da aa ua) t = (Ok tt, t') /\
    driver_ok t' = true /\ regs t' = mkRegs 0 1 feats 0 15 0 (config_generation (regs t)) /\
    dev_queues (device t') =
      mkQueue n (max_size q) da aa ua true 0 0 :: (VirtQueue.reset <$> qs) /\
    is_ready (mkQueue n (max_size q) da aa ua true 0 0) = true.
Proof.
  intros Hq Hmax Hn Hp Hda Haa Hua.
  pose proof (bring_up_script (regs t) feats n da aa ua q qs Hmax Hn Hp) as Hs.
  destruct (script_run _ _ _ _ _ t Hs (conj eq_refl Hq)) as (t' & E & Hregs & Hqs).
  exists t'. split_and!; try done.
  - unfold driver_ok, status. by rewrite Hregs.
  - unfold is_ready, ring_size. cbn [qready qsize max_size desc_addr avail_addr used_addr].
    rewrite !(proj2 (Z.eqb_neq _ _)) by lia. by rewrite (proj2 (Z.ltb_lt _ _)) by lia.
Qed.
End Driver.

(** ** Kicks and the interrupt line *)

Section Interrupts.
Context `{VirtioMmioDevice D M} `{GuestRam M}.
Abbreviation T := (VirtioMmioTransport D M).

(** The transport drives an existing line through an installed sink, and the
    line is up exactly while some interrupt is pending. *)
Definition line_ok (t : T) : Prop :=
  exists p irq, irq_line t = Some (p, irq) /\ 0 <= irq < 16 /\ pic_wf p /\
    sink t = Some (negb (interrupt_status (regs t) =? 0)).

Lemma raise_spec bits t :
  line_ok t -> bits <> 0 -> exists t', raise bits t = (Ok tt, t') /\ line_ok t' /\
    device t' = device t /\ memory t' = memory t /\
    interrupt_status (regs t') = Z.lor (interrupt_status (regs t)) bits.
Proof.
  intros (p & irq & Hl & Hi & Hp & Hs) Hb. destruct (raise_irq_total irq p Hi Hp) as (p' & E & Hp').
  unfold raise. rewrite st_bind_modify, st_bind_gets. cbn [irq_line set_regs]. rewrite Hl, E.
  rewrite st_bind_modify, st_bind_lift. unfold st_modify. eexists. split; [done|]. simpl.
  split; [|done]. exists p', irq. simpl. rewrite Hl, Hs. simpl. split_and!; try done; try lia.
  f_equal. symmetry. apply negb_true_iff, Z.eqb_neq. intros [_ ?]%Z.lor_eq_0_iff. done.
Qed.

Lemma line_ok_regs t r :
  line_ok t -> interrupt_status r = interrupt_status (regs t) -> line_ok (set_regs r t).
Proof. intros (p & irq & ? & ? & ? & ?) E. exists p, irq. simpl. by rewrite E. Qed.

Lemma line_ok_device t d m : line_ok t -> line_ok (set_memory m (set_device d t)).
Proof. intros (p & irq & ? & ? & ? & ?). by exists p, irq. Qed.

(** Every way the line can move: pending bits set to [s], then settled. *)
Lemma line_ok_clear t r :
  line_ok t -> interrupt_status r = 0 -> line_ok (settle_interrupt 0 (set_regs r t)).
Proof.
  intros (p & irq & Hl & ? & ? & Hs) E. unfold settle_interrupt. cbn [negb Z.eqb irq_line set_regs].
  rewrite Hl. exists p, irq. simpl. by rewrite E, Hs.
Qed.

Lemma line_ok_ack t v :
  line_ok t -> line_ok (write_register reg.INTERRUPT_ACK v t).2.
Proof.
  intros Ht. change ((write_register reg.INTERRUPT_ACK v t).2) with
    (let remaining := Z.land (interrupt_status (regs t)) (bnot 32 v) in
     settle_interrupt remaining (set_regs (with_interrupt_status remaining (regs t)) t)).
  cbv zeta. set (s := Z.land _ _). destruct (Z.eqb_spec s 0) as [->|Hn].
  - by apply line_ok_clear.
  - unfold settle_interrupt. rewrite (proj2 (Z.eqb_neq _ _)) by done. cbn [negb].
    destruct Ht as (p & irq & Hl & ? & ? & Hs). exists p, irq. simpl. rewrite Hl, Hs.
    split_and!; try done; try lia. rewrite (proj2 (Z.eqb_neq s 0)) by done.
    assert (interrupt_status (regs t) <> 0) as Hz; [|by rewrite (proj2 (Z.eqb_neq _ _))].
    intros E. apply Hn. unfold s. by rewrite E, Z.land_0_l.
Qed.

(** A kick before the driver is ready does nothing at all.  After, it reaches
    the device with the queue number cut to sixteen bits, its failure is the
    register write's, and the used-ring interrupt is pending when the device
    used anything. *)
Theorem notify_gate (t : T) v :
  if has (rstatus (regs t)) status.DRIVER_OK then
    match dev_notify (trunc 16 v) (device t, memory t) with
    | (Ok used, (d, m)) =>
        let t1 := set_memory m (set_device d t) in
        line_ok t -> (forall q p, dev_queues d !! Z.to_nat v = Some q -> avail_idx q m <> Panic p) ->
        if used then
          exists t', write_register reg.QUEUE_NOTIFY v t = (Ok tt, t') /\ device t' = d /\
            memory t' = m /\
            interrupt_status (regs t') = Z.lor (interrupt_status (regs t)) interrupt.VRING
        else write_register reg.QUEUE_NOTIFY v t = (Ok tt, t1)
    | (Err e, (d, m)) =>
        write_register reg.QUEUE_NOTIFY v t = (Err e, set_memory m (set_device d t))
    | (Panic p, (d, m)) =>
        write_register reg.QUEUE_NOTIFY v t = (Panic p, set_memory m (set_device d t))
    end
  else write_register reg.QUEUE_NOTIFY v t = (Ok tt, t).
Proof.
  change (write_register reg.QUEUE_NOTIFY v t) with (notify_register v t).
  unfold notify_register. rewrite st_bind_gets. destruct (has _ _); cbn [negb]; [|done].
  rewrite st_bind_eq. destruct (dev_notify _ _) as [[used|e|p] [d m]]; [|done..].
  intros Hl Ha. rewrite st_bind_read. set (t1 := set_memory m (set_device d t)).
  change (device t1) with d. change (memory t1) with m.
  assert (match dev_queues d !! Z.to_nat v with
          | Some q => match avail_idx q m with Panic p => Panic p | _ => Ok () end
          | None => Ok () end = Ok (E:=Error) tt) as ->.
  { destruct (dev_queues d !! Z.to_nat v) as [q|] eqn:Eq; [|done].
    destruct (avail_idx q m) as [|?|p] eqn:Ea; try done. by destruct (Ha q p). }
  destruct used; cbn [negb]; [|done].
  destruct (raise_spec interrupt.VRING t1) as (t' & E & _ & ? & ? & ?); [by apply line_ok_device|done|].
  exists t'. by split_and!.
Qed.

Lemma line_ok_notify t v : line_ok t -> line_ok (notify_register v t).2.
Proof.
  intros Ht. unfold notify_register. rewrite st_bind_gets. destruct (has _ _); cbn [negb]; [|done].
  rewrite st_bind_eq. destruct (dev_notify _ _) as [[used|e|p] [d m]];
    [|apply line_ok_device, Ht..].
  rewrite st_bind_read. set (t1 := set_memory m (set_device d t)).
  assert (line_ok t1) as Ht1 by (by apply line_ok_device).
  destruct (match dev_queues (device t1) !! _ with Some q => _ | None => _ end); [|done..].
  destruct used; cbn [negb]; [|done].
  destruct (raise_spec interrupt.VRING t1 Ht1) as (t' & -> & ? & _); done.
Qed.

Lemma line_ok_set_device t d : line_ok t -> line_ok (set_device d t).
Proof. intros (p & irq & ? & ? & ? & ?). by exists p, irq. Qed.

(** What drives the line: the guest's register writes, the device signalling
    on its own, and a reset. *)
Inductive line_event := RegWrite (offset v : Z) | SignalUsed | SignalConfig | ResetAll.

Definition line_step (e : line_event) (t : T) : T :=
  match e with
  | RegWrite o v => (write_register o v t).2
  | SignalUsed => (signal_used_queue t).2
  | SignalConfig => (signal_config_change t).2
  | ResetAll => reset t
  end.

Lemma line_ok_write t o v : line_ok t -> line_ok (write_register o v t).2.
Proof.
  intros Ht. unfold write_register.
  do 2 (destruct (o =? _); [by apply line_ok_regs|]).
  destruct (o =? reg.DRIVER_FEATURES); [by apply line_ok_set_device, line_ok_regs|].
  destruct (o =? reg.QUEUE_SEL); [by apply line_ok_regs|].
  do 8 (destruct (o =? _); [by apply line_ok_set_device|]).
  destruct (o =? reg.QUEUE_NOTIFY); [by apply line_ok_notify|].
  destruct (o =? reg.INTERRUPT_ACK); [by apply line_ok_ack|].
  destruct (o =? reg.STATUS); [|done].
  destruct (v =? 0); [by apply line_ok_set_device, line_ok_clear|by apply line_ok_regs].
Qed.

(** C11: The line is level-triggered: through any sequence of guest register
    writes, device signals and resets it is held exactly while some interrupt
    bit is unacknowledged. *)
Theorem line_level (t : T) es :
  line_ok t -> line_ok (fold_left (fun t e => line_step e t) es t).
Proof.
  revert t. induction es as [|e es IH]; intros t Ht; simpl; [done|]. apply IH.
  destruct e as [o v| | |]; simpl.
  - by apply line_ok_write.
  - unfold signal_used_queue. by destruct (raise_spec interrupt.VRING t Ht) as (t' & -> & ? & _).
  - unfold signal_config_change. rewrite st_bind_read. destruct (add _ _ _) as [g| |]; [|done..].
    rewrite st_bind_modify.
    destruct (raise_spec interrupt.CONFIG (set_regs (with_config_generation g (regs t)) t)) as (t' & -> & ? & _);
      [by apply line_ok_regs|done|done].
  - unfold reset. by apply line_ok_set_device, line_ok_clear.
Qed.
End Interrupts.

(** ** The block device behind the transport *)

Section BlockDevice.
Context `{BlockFile F} `{GuestRam M}.

(** The trait implementation of [VirtioBlockMmio].  Its one queue is the slice
    of length one; a kick may take as many turns as sixteen bits count. *)
#[export] Instance blk_mmio_device : VirtioMmioDevice (VirtioBlockMmio F) M := {
  dev_id := VirtioBlkMmio.device_id;
  dev_features := VirtioBlkMmio.device_features;
  dev_ack_features := VirtioBlkMmio.ack_features;
  dev_queues := VirtioBlkMmio.queues;
  dev_put_queues qs d := match qs with [q] => set_queue0 q d | _ => d end;
  dev_read_config d offset n := VirtioBlkMmio.read_config d offset 0 n;
  dev_write_config := VirtioBlkMmio.write_config;
  dev_notify := VirtioBlkMmio.notify turns;
  dev_reset := VirtioBlkMmio.reset;
  dev_save_counters _ := ∅;
  dev_restore_counters _ d := d
}.

#[export] Instance blk_mmio_laws : VirtioMmioDeviceLaws (VirtioBlockMmio F) M.
Proof.
  split; simpl; try done.
  - intros d [|q [|]]; done.
  - intros [f s ro i a q0]. done.
  - intros qs d. by destruct qs as [|q [|]].
Qed.
End BlockDevice.

(** ** Witnesses *)

Abbreviation BlkTransport := (VirtioMmioTransport (VirtioBlockMmio MemFile) GuestMemory).

Definition idle_disk : VirtioBlockMmio MemFile :=
  set_queue0 (VirtQueue.new 128) (demo_disk false).

(** A disk wired to line 5 of a fresh controller, and its sink. *)
Definition demo_transport : BlkTransport :=
  set_interrupt_sink (with_interrupt pic_new 5 (new "disk" 0xd0000000 demo_ring_mem idle_disk)).

Lemma demo_line_ok : line_ok demo_transport.
Proof.
  exists pic_new, 5. split; [reflexivity|]. split; [lia|]. split; [|reflexivity].
  split; apply chip_wf_dec; vm_compute; reflexivity.
Qed.

Lemma bring_up_spec_witness :
  exists t', run_writes (bring_up (2 ^ 32) 4 0x1000 0x2000 0x3000) demo_transport = (Ok tt, t') /\
    driver_ok t' = true /\ dev_queues (device t') = [mkQueue 4 128 0x1000 0x2000 0x3000 true 0 0].
Proof.
  destruct (bring_up_spec demo_transport (2 ^ 32) 4 0x1000 0x2000 0x3000 (VirtQueue.new 128) [])
    as (t' & E & Hd & _ & Hq & _); try reflexivity; try (vm_compute; discriminate).
  - vm_compute. split; [reflexivity|discriminate].
  - exists t'. exact (conj E (conj Hd Hq)).
Defined.

(** The transport once its driver has brought it up. *)
Definition ready_transport : BlkTransport :=
  (run_writes (bring_up (2 ^ 32) 4 0x1000 0x2000 0x3000) demo_transport).2.

Lemma ready_queues : dev_queues (device ready_transport) = [mkQueue 4 128 0x1000 0x2000 0x3000 true 0 0].
Proof. vm_compute. reflexivity. Qed.

Lemma save_restore_roundtrip_witness :
  exists t1, restore_state (save_state ready_transport) demo_transport = (Ok tt, t1) /\
    read_register t1 reg.STATUS = 15 /\ read_register t1 reg.QUEUE_READY = 1.
Proof.
  destruct (save_restore_roundtrip ready_transport demo_transport) as (t1 & E & _ & _ & _ & Hr).
  - rewrite ready_queues. apply Forall_cons. split; [|by apply Forall_nil].
    split; simpl; unfold MAX_QUEUE_SIZE; try lia. right. split; [lia|done].
  - rewrite ready_queues. by repeat constructor.
  - reflexivity.
  - reflexivity.
  - exists t1. split; [exact E|]. rewrite !Hr. vm_compute. done.
Defined.

(** A snapshot of a two-queue device, refused: the status it carried is in the
    register all the same. *)
Definition foreign_state : MmioDeviceState :=
  mkMmioDeviceState "net" (mkTransportState 0 0 0 0 15 0 0)
    [mkQueueState 4 true 1 1 1 0 0; mkQueueState 4 true 1 1 1 0 0] ∅.

Lemma restore_mismatch_witness :
  exists e t1, restore_state foreign_state demo_transport = (Err e, t1) /\ rstatus (regs t1) = 15.
Proof.
  destruct (restore_mismatch demo_transport foreign_state) as (e & t1 & E & Hs & _); [done|].
  exists e, t1. exact (conj E Hs).
Defined.

(** A request kicked and its interrupt left pending. *)
Lemma line_level_witness :
  line_ok (fold_left (fun t e => line_step e t)
    [SignalUsed; RegWrite reg.INTERRUPT_ACK 1; SignalConfig] demo_transport).
Proof. apply line_level. exact demo_line_ok. Defined.
