(* ===== verification/Permissions.v ===== *)
(** * The permission graph of the agent layer ([hv2-agent/src/permissions])

    Principals connected by role inheritance, grants of permission sets at
    scopes of a resource tree, delegation and resolution.  The clock is an
    argument ([now]); the order in which a hash set is traversed is a parameter,
    and the theorems hold for every order.  Each call is one step: calls that
    take several locks in turn are not interleaved with others. *)

From S2P Require Import Prelude.

(** ** Scopes ([hierarchy.rs]) *)

Inductive ResourceScope :=
| Root
| Org (org : string)
| Tenant (org tenant : string)
| Project (org tenant project : string)
| Vm (org tenant project vm : string).

#[global] Instance ResourceScope_eq_dec : EqDecision ResourceScope.
Proof. solve_decision. Defined.

Definition parent (s : ResourceScope) : option ResourceScope :=
  match s with
  | Root => None
  | Org _ => Some Root
  | Tenant o _ => Some (Org o)
  | Project o t _ => Some (Tenant o t)
  | Vm o t p _ => Some (Project o t p)
  end.

Definition depth (s : ResourceScope) : nat :=
  match s with Root => 0 | Org _ => 1 | Tenant _ _ => 2 | Project _ _ _ => 3 | Vm _ _ _ _ => 4 end.

(** The loop of [contains]; a scope has no more ancestors than its depth. *)
Fixpoint climb (fuel : nat) (self cursor : ResourceScope) : bool :=
  match fuel with
  | O => false
  | S fuel' =>
      match parent cursor with
      | Some p => if bool_decide (p = self) then true else climb fuel' self p
      | None => false
      end
  end.

Definition contains (self other : ResourceScope) : bool :=
  if bool_decide (self = other) then true else climb (S (depth other)) self other.

Fixpoint ancestors_from (fuel : nat) (cursor : ResourceScope) : list ResourceScope :=
  match fuel with
  | O => []
  | S fuel' => match parent cursor with Some p => p :: ancestors_from fuel' p | None => [] end
  end.

Definition ancestors (s : ResourceScope) : list ResourceScope := s :: ancestors_from (S (depth s)) s.

Definition path (s : ResourceScope) : string :=
  (match s with
   | Root => "/"
   | Org o => "/" +:+ o
   | Tenant o t => "/" +:+ o +:+ "/" +:+ t
   | Project o t p => "/" +:+ o +:+ "/" +:+ t +:+ "/" +:+ p
   | Vm o t p v => "/" +:+ o +:+ "/" +:+ t +:+ "/" +:+ p +:+ "/" +:+ v
   end)%string.

(** ** Permissions ([graph.rs]) *)

Abbreviation PrincipalId := string.
Abbreviation GrantId := Z.

Inductive PrincipalKind := Agent | Role | Service | OrgIdentity.

#[global] Instance PrincipalKind_eq_dec : EqDecision PrincipalKind.
Proof. solve_decision. Defined.

Inductive Permission :=
| VmCreate | VmDelete | VmStart | VmStop | VmPause | VmResume | VmReboot
| VmRead | VmList | VmConfigure | VmMigrate
| GuestExec | GuestFileRead | GuestFileWrite
| SnapshotCreate | SnapshotRestore | SnapshotDelete
| NetworkAttach | NetworkDetach | NetworkConfigure
| StorageAttach | StorageDetach | StorageResize
| GpuAttach | GpuDetach | GpuConfigure
| MemoryRead | MemoryWrite
| MetricsRead | MetricsExport
| AdminConfig | AdminAudit | AdminDelegate
| AgentRegister | AgentDeregister | AgentCoordinate
| All.

#[global] Instance Permission_eq_dec : EqDecision Permission.
Proof. solve_decision. Defined.

#[global] Program Instance Permission_finite : finite.Finite Permission := {|
  finite.enum :=
    [VmCreate; VmDelete; VmStart; VmStop; VmPause; VmResume; VmReboot; VmRead; VmList; VmConfigure;
     VmMigrate; GuestExec; GuestFileRead; GuestFileWrite; SnapshotCreate; SnapshotRestore;
     SnapshotDelete; NetworkAttach; NetworkDetach; NetworkConfigure; StorageAttach; StorageDetach;
     StorageResize; GpuAttach; GpuDetach; GpuConfigure; MemoryRead; MemoryWrite; MetricsRead;
     MetricsExport; AdminConfig; AdminAudit; AdminDelegate; AgentRegister; AgentDeregister;
     AgentCoordinate; All]
|}.
Next Obligation. apply (bool_decide_unpack _). vm_compute. exact I. Qed.
Next Obligation. intros p. apply (bool_decide_unpack _). destruct p; vm_compute; exact I. Qed.

Definition subsumes (self other : Permission) : bool :=
  bool_decide (self = All) || bool_decide (self = other).

Abbreviation PermissionSet := (gset Permission).

Definition with_perm (p : Permission) (s : PermissionSet) : PermissionSet := {[p]} ∪ s.
Definition insert_perm (p : Permission) (s : PermissionSet) : PermissionSet := {[p]} ∪ s.
Definition remove_perm (p : Permission) (s : PermissionSet) : PermissionSet := s ∖ {[p]}.

Definition allows (s : PermissionSet) (p : Permission) : bool :=
  existsb (fun held => subsumes held p) (elements s).

Definition allows_all (s required : PermissionSet) : bool :=
  forallb (fun p => allows s p) (elements required).

Definition intersect (a b : PermissionSet) : PermissionSet := a ∩ b.
Definition union_perms (a b : PermissionSet) : PermissionSet := a ∪ b.

Record Principal := mkPrincipal {
  pid : PrincipalId;
  kind : PrincipalKind;
  display_name : string;
  roles : gset PrincipalId;
  p_created_at : Z
}.

Record GrantEdge := mkGrant {
  gid : GrantId;
  grantee : PrincipalId;
  permissions : PermissionSet;
  scope : ResourceScope;
  granted_by : option PrincipalId;
  delegation_depth : Z;
  expires_at : option Z;
  g_created_at : Z
}.

Definition is_expired (now : Z) (g : GrantEdge) : bool :=
  match expires_at g with Some e => e <=? now | None => false end.

Definition covers_scope (g : GrantEdge) (target : ResourceScope) : bool :=
  contains (scope g) target.

(** ** The audit log ([audit.rs]) *)

Inductive PermissionChange :=
| RoleAssigned (principal role : PrincipalId)
| Granted (grant_id : GrantId) (grantee : PrincipalId) (scope : ResourceScope)
    (granted_by : option PrincipalId)
| Revoked (grant_id : GrantId) (grantee : PrincipalId)
| Delegated (grant_id : GrantId) (from to : PrincipalId) (scope : ResourceScope).

Record PermissionAuditEntry := mkEntry { change : PermissionChange; timestamp : Z }.

Abbreviation AuditLog := (list PermissionAuditEntry).

Definition record (now : Z) (c : PermissionChange) (log : AuditLog) : AuditLog :=
  log ++ [mkEntry c now].

Definition concerns (principal : PrincipalId) (e : PermissionAuditEntry) : bool :=
  match change e with
  | RoleAssigned p _ => bool_decide (p = principal)
  | Granted _ g _ _ => bool_decide (g = principal)
  | Revoked _ g => bool_decide (g = principal)
  | Delegated _ from to _ => bool_decide (from = principal) || bool_decide (to = principal)
  end.

Definition entries_for (principal : PrincipalId) (log : AuditLog) : AuditLog :=
  List.filter (concerns principal) log.

(** ** Errors ([mod.rs]) *)

Inductive PermissionError :=
| PrincipalNotFound (p : PrincipalId)
| Denied (action : Permission) (resource : string)
| DelegationDepthExceeded (max : Z)
| CannotDelegateUnheld (msg : string)
| CycleDetected
| GrantNotFound (g : GrantId)
| InvalidScope (msg : string).

Abbreviation PermissionResult := (Res PermissionError).

(** ** The graph ([graph.rs]) *)

Record PermissionGraph := mkGraph {
  principals : gmap PrincipalId Principal;
  grants_by_grantee : gmap PrincipalId (list GrantEdge);
  next_grant_id : Z;
  audit : AuditLog
}.

Definition graph_new : PermissionGraph := mkGraph ∅ ∅ 1 [].

Definition set_principals (ps : gmap PrincipalId Principal) (g : PermissionGraph) : PermissionGraph :=
  mkGraph ps (grants_by_grantee g) (next_grant_id g) (audit g).
Definition set_grants (gs : gmap PrincipalId (list GrantEdge)) (g : PermissionGraph) : PermissionGraph :=
  mkGraph (principals g) gs (next_grant_id g) (audit g).
Definition set_audit (a : AuditLog) (g : PermissionGraph) : PermissionGraph :=
  mkGraph (principals g) (grants_by_grantee g) (next_grant_id g) a.

Definition add_principal (now : Z) (id : PrincipalId) (k : PrincipalKind) (nm : string)
    : ST PermissionGraph PermissionError unit :=
  st_modify (fun g => set_principals (<[id := mkPrincipal id k nm ∅ now]> (principals g)) g).

(** The order in which a hash set yields its elements: any permutation. *)
Class IterOrder := {
  iter : gset PrincipalId -> list PrincipalId;
  iter_perm X : iter X ≡ₚ elements X
}.

(** A loop that returns at the first hit. *)
Fixpoint any_loop {E A} (f : A -> Res E bool) (l : list A) : Res E bool :=
  match l with
  | [] => mret false
  | x :: l' => f x ≫= fun b : bool => if b then mret true else any_loop f l'
  end.

Section Graph.
Context `{IterOrder}.

Fixpoint would_create_cycle_inner (fuel : nat) (ps : gmap PrincipalId Principal)
    (start target : PrincipalId) : PermissionResult bool :=
  match fuel with
  | O => Panic FuelExhausted
  | S fuel' =>
      if bool_decide (start = target) then mret true
      else match ps !! start with
           | None => mret false
           | Some p =>
               any_loop (fun r => would_create_cycle_inner fuel' ps r target) (iter (roles p))
           end
  end.

(** One more than the principals there are bounds the recursion in a graph
    without cycles. *)
Definition cycle_fuel (ps : gmap PrincipalId Principal) : nat := S (size ps).

Definition assign_role (now : Z) (principal_id role_id : PrincipalId)
    : ST PermissionGraph PermissionError unit :=
  ps ← st_gets principals;
  match ps !! principal_id with
  | None => st_lift (Err (PrincipalNotFound principal_id))
  | Some p =>
      role ← st_lift (ok_or (ps !! role_id) (PrincipalNotFound role_id));
      if bool_decide (kind role <> Role)
      then st_lift (Err (InvalidScope (role_id +:+ " is not a role")))
      else
        st_lift (would_create_cycle_inner (cycle_fuel ps) ps role_id principal_id)
          ≫= fun cycle : bool =>
        if cycle then st_lift (Err CycleDetected)
        else
          let p' := mkPrincipal (pid p) (kind p) (display_name p) ({[role_id]} ∪ roles p)
                      (p_created_at p) in
          _ ← st_modify (set_principals (<[principal_id := p']> ps));
          st_modify (fun g => set_audit (record now (RoleAssigned principal_id role_id) (audit g)) g)
  end.

(** Grants of one principal, in the order they were made. *)
Definition grants_of (g : PermissionGraph) (p : PrincipalId) : list GrantEdge :=
  default [] (grants_by_grantee g !! p).

(** [fetch_add] wraps around. *)
Definition grant (now : Z) (to : PrincipalId) (perms : PermissionSet) (sc : ResourceScope)
    (by_ : option PrincipalId) (depth : Z) (exp : option Z)
    : ST PermissionGraph PermissionError GrantId :=
  g ← st_gets (fun g : PermissionGraph => g);
  match principals g !! to with
  | None => st_lift (Err (PrincipalNotFound to))
  | Some _ =>
      let id := next_grant_id g in
      let edge := mkGrant id to perms sc by_ depth exp now in
      _ ← st_modify (fun g => mkGraph (principals g)
            (<[to := grants_of g to ++ [edge]]> (grants_by_grantee g))
            (wrapping_add 64 id 1) (audit g));
      _ ← st_modify (fun g => set_audit (record now (Granted id to sc by_) (audit g)) g);
      mret id
  end.

(** [position], then [remove] of the first match. *)
Fixpoint take_grant (id : GrantId) (es : list GrantEdge) : option (GrantEdge * list GrantEdge) :=
  match es with
  | [] => None
  | e :: es' =>
      if gid e =? id then Some (e, es')
      else match take_grant id es' with
           | Some (r, rest) => Some (r, e :: rest)
           | None => None
           end
  end.

(** The loop over the lists of all grantees, in the order [ks]. *)
Fixpoint revoke_loop (now : Z) (id : GrantId) (ks : list PrincipalId) (g : PermissionGraph)
    : PermissionResult unit * PermissionGraph :=
  match ks with
  | [] => (Err (GrantNotFound id), g)
  | k :: ks' =>
      match take_grant id (grants_of g k) with
      | Some (removed, rest) =>
          (Ok tt, set_audit (record now (Revoked id (grantee removed)) (audit g))
                    (set_grants (<[k := rest]> (grants_by_grantee g)) g))
      | None => revoke_loop now id ks' g
      end
  end.

Definition revoke (now : Z) (id : GrantId) : ST PermissionGraph PermissionError unit :=
  fun g => revoke_loop now id (iter (dom (grants_by_grantee g))) g.

Definition direct_grants (now : Z) (g : PermissionGraph) (p : PrincipalId) : list GrantEdge :=
  List.filter (fun e => negb (is_expired now e)) (grants_of g p).

(** The loop of [inherited_roles]: a stack, popped from its end, and the
    result so far. *)
Fixpoint inherit_loop (fuel : nat) (ps : gmap PrincipalId Principal)
    (visited : gset PrincipalId) (stack result : list PrincipalId)
    : PermissionResult (list PrincipalId) :=
  match fuel with
  | O => Panic FuelExhausted
  | S fuel' =>
      match last stack with
      | None => mret result
      | Some current =>
          let stack := removelast stack in
          if bool_decide (current ∈ visited) then inherit_loop fuel' ps visited stack result
          else
            let visited := {[current]} ∪ visited in
            match ps !! current with
            | Some p =>
                let rs := iter (roles p) in
                inherit_loop fuel' ps visited (stack ++ rs) (result ++ rs)
            | None => inherit_loop fuel' ps visited stack result
            end
      end
  end.

(** Role edges a walk may follow. *)
Definition edge_count (ps : gmap PrincipalId Principal) : nat :=
  map_fold (fun _ p n => size (roles p) + n)%nat 0%nat ps.

Definition inherited_roles (g : PermissionGraph) (start : PrincipalId)
    : PermissionResult (list PrincipalId) :=
  inherit_loop (edge_count (principals g) + 2) (principals g) ∅ [start] [].

(** ** Delegation ([delegation.rs]) *)

Record DelegationConstraint := mkConstraint {
  max_permissions : PermissionSet;
  max_scope : ResourceScope;
  max_depth : Z;
  c_expires_at : option Z
}.

Record Delegation := mkDelegation {
  d_grant_id : GrantId;
  d_from : PrincipalId;
  d_to : PrincipalId;
  d_permissions : PermissionSet;
  d_scope : ResourceScope;
  remaining_depth : Z;
  d_created_at : Z
}.

Record DelegationChain := mkChain { hops : list Delegation }.

Definition chain_depth (c : DelegationChain) : Z := trunc 32 (Z.of_nat (length (hops c))).
Definition origin (c : DelegationChain) : option PrincipalId := d_from <$> head (hops c).
Definition terminal (c : DelegationChain) : option PrincipalId := d_to <$> last (hops c).

Definition earliest_expiry (a b : option Z) : option Z :=
  match a, b with
  | Some x, Some y => Some (Z.min x y)
  | Some x, None => Some x
  | None, Some x => Some x
  | None, None => None
  end.

(** [Iterator::max_by_key]: the last of the largest. *)
Fixpoint max_by_depth (best : option GrantEdge) (l : list GrantEdge) : option GrantEdge :=
  match l with
  | [] => best
  | g :: l' =>
      max_by_depth (match best with
                    | Some b => if delegation_depth g <? delegation_depth b then Some b else Some g
                    | None => Some g
                    end) l'
  end.

Definition delegate (now : Z) (delegator delegatee : PrincipalId) (perms : PermissionSet)
    (sc : ResourceScope) (c : DelegationConstraint) : ST PermissionGraph PermissionError GrantId :=
  g ← st_gets (fun g : PermissionGraph => g);
  match principals g !! delegator, principals g !! delegatee with
  | None, _ => st_lift (Err (PrincipalNotFound delegator))
  | Some _, None => st_lift (Err (PrincipalNotFound delegatee))
  | Some _, Some _ =>
      if negb (contains (max_scope c) sc)
      then st_lift (Err (InvalidScope ("delegation scope " +:+ path sc +:+
             " is outside allowed scope " +:+ path (max_scope c))))
      else if negb (allows_all (max_permissions c) perms)
      then st_lift (Err (CannotDelegateUnheld "requested permissions exceed delegation constraint"))
      else
        let candidates := List.filter
          (fun e => covers_scope e sc && allows_all (permissions e) perms)
          (direct_grants now g delegator) in
        parent ← st_lift (ok_or (max_by_depth None candidates) (CannotDelegateUnheld
          "delegator does not hold the required permissions at this scope"));
        if delegation_depth parent =? 0 then st_lift (Err (DelegationDepthExceeded 0))
        else
          left ← st_lift (sub (delegation_depth parent) 1);
          grant now delegatee perms sc (Some delegator) (Z.min left (max_depth c))
            (earliest_expiry (expires_at parent) (c_expires_at c))
  end.

(** ** Resolution ([resolution.rs]) *)

Record EffectivePermissions := mkEffective {
  e_principal : PrincipalId;
  e_scope : ResourceScope;
  e_permissions : PermissionSet;
  contributors : list PrincipalId
}.

(** The grants of one principal, added to what is effective already. *)
Fixpoint add_grants (who : PrincipalId) (target : ResourceScope) (gs : list GrantEdge)
    (eff : PermissionSet) (cs : list PrincipalId) : PermissionSet * list PrincipalId :=
  match gs with
  | [] => (eff, cs)
  | e :: gs' =>
      if covers_scope e target then
        add_grants who target gs' (union_perms eff (permissions e))
          (if bool_decide (who ∈ cs) then cs else cs ++ [who])
      else add_grants who target gs' eff cs
  end.

Fixpoint resolve_loop (now : Z) (g : PermissionGraph) (target : ResourceScope)
    (to_check : list PrincipalId) (seen : gset PrincipalId) (eff : PermissionSet)
    (cs : list PrincipalId) : PermissionSet * list PrincipalId :=
  match to_check with
  | [] => (eff, cs)
  | p :: rest =>
      if bool_decide (p ∈ seen) then resolve_loop now g target rest seen eff cs
      else
        let '(eff', cs') := add_grants p target (direct_grants now g p) eff cs in
        resolve_loop now g target rest ({[p]} ∪ seen) eff' cs'
  end.

Definition resolve (now : Z) (g : PermissionGraph) (p : PrincipalId) (target : ResourceScope)
    : PermissionResult EffectivePermissions :=
  match principals g !! p with
  | None => Err (PrincipalNotFound p)
  | Some _ =>
      inherited ← inherited_roles g p;
      let '(eff, cs) := resolve_loop now g target (p :: inherited) ∅ ∅ [] in
      mret (mkEffective p target eff cs)
  end.

Definition check (now : Z) (g : PermissionGraph) (p : PrincipalId) (perm : Permission)
    (target : ResourceScope) : PermissionResult bool :=
  eff ← resolve now g p target; mret (allows (e_permissions eff) perm).

Definition enforce (now : Z) (g : PermissionGraph) (p : PrincipalId) (perm : Permission)
    (target : ResourceScope) : PermissionResult unit :=
  check now g p perm target ≫= fun ok : bool =>
  if ok then mret tt else Err (Denied perm (path target)).
End Graph.

(** ** The scope tree *)

(** A scope as the path from the root. *)
Definition comps (s : ResourceScope) : list string :=
  match s with
  | Root => []
  | Org o => [o]
  | Tenant o t => [o; t]
  | Project o t p => [o; t; p]
  | Vm o t p v => [o; t; p; v]
  end.

Lemma comps_inj a b : comps a = comps b -> a = b.
Proof. destruct a, b; simpl; intros; simplify_eq; done. Qed.

Lemma contains_prefix a b : contains a b = true <-> comps a `prefix_of` comps b.
Proof.
  split.
  - unfold contains. destruct a, b; simpl; repeat case_bool_decide; intros; simplify_eq;
      try done; eexists; reflexivity.
  - intros [k E]. unfold contains. destruct a, b; simpl in E; simplify_eq; simpl;
      repeat case_bool_decide; simplify_eq; done.
Qed.

(** Containment of scopes is the order of a tree: reflexive, transitive,
    antisymmetric, and of two scopes that contain a third one contains the
    other; it is the order of the ancestor lists. *)
Theorem contains_tree_order a b c :
  contains a a = true /\
  (contains a b = true -> contains b c = true -> contains a c = true) /\
  (contains a b = true -> contains b a = true -> a = b) /\
  (contains a c = true -> contains b c = true -> contains a b = true \/ contains b a = true) /\
  (contains a b = true <-> a ∈ ancestors b).
Proof.
  rewrite !contains_prefix. split_and!.
  - done.
  - apply transitivity.
  - intros. apply comps_inj. by apply (anti_symm prefix).
  - apply prefix_weak_total.
  - rewrite <- contains_prefix. unfold contains, ancestors.
    destruct a, b; simpl; repeat case_bool_decide; simplify_eq;
      rewrite ?elem_of_cons, ?elem_of_nil; split; intros; try done; destruct_or?; simplify_eq; auto 8.
Qed.

Lemma contains_trans a b c : contains a b = true -> contains b c = true -> contains a c = true.
Proof. rewrite !contains_prefix. apply transitivity. Qed.

(** ** Sets of permissions *)

Lemma allows_spec s p : allows s p = true <-> All ∈ s \/ p ∈ s.
Proof.
  unfold allows. rewrite existsb_exists. unfold subsumes. split.
  - intros (h & Hin%list_elem_of_In%elem_of_elements & Hs).
    apply orb_true_iff in Hs as [->%bool_decide_eq_true | ->%bool_decide_eq_true]; auto.
  - intros [Hp|Hp]; eexists; (split; [apply list_elem_of_In, elem_of_elements; exact Hp|]).
    + by rewrite bool_decide_true.
    + by rewrite (bool_decide_true (p = p)), orb_true_r.
Qed.

Lemma allows_all_spec s r : allows_all s r = true <-> forall p, p ∈ r -> allows s p = true.
Proof.
  unfold allows_all. rewrite forallb_forall. split; intros Hp p Hin; apply Hp.
  - by apply list_elem_of_In, elem_of_elements.
  - by apply elem_of_elements, list_elem_of_In.
Qed.

(** A set within another grants no more than it. *)
Lemma allows_all_trans s r p : allows_all s r = true -> allows r p = true -> allows s p = true.
Proof.
  rewrite allows_all_spec. intros Hs [Hp|Hp]%allows_spec.
  - apply Hs, allows_spec in Hp as [?|?]; apply allows_spec; auto.
  - by apply Hs.
Qed.

(** ** Role inheritance *)

Definition edge (ps : gmap PrincipalId Principal) (a b : PrincipalId) : Prop :=
  exists p, ps !! a = Some p /\ b ∈ roles p.

Definition acyclic (ps : gmap PrincipalId Principal) : Prop := forall a, ~ tc (edge ps) a a.

Lemma tc_mono {A} (R S : relation A) x y : (forall a b, R a b -> S a b) -> tc R x y -> tc S x y.
Proof. intros Hm. induction 1; [by apply tc_once, Hm|by eapply tc_l; [apply Hm|]]. Qed.

Lemma acyclic_mono ps ps' : (forall a b, edge ps' a b -> edge ps a b) -> acyclic ps -> acyclic ps'.
Proof. intros Hm Ha a Hc. apply (Ha a). by eapply tc_mono. Qed.

(** A walk in the graph with one more edge either avoids it or leads to its
    start and on from its end. *)
Lemma tc_add_edge {A} (R R' : relation A) p r x y :
  (forall a b, R' a b -> R a b \/ (a = p /\ b = r)) -> tc R' x y ->
  tc R x y \/ (rtc R x p /\ rtc R r y).
Proof.
  intros Hadd. induction 1 as [x y Hxy|x y z Hxy _ IH].
  - destruct (Hadd x y Hxy) as [?|[-> ->]]; [left; by apply tc_once|by right].
  - destruct (Hadd x y Hxy) as [?|[-> ->]]; destruct IH as [IH|[IH1 IH2]].
    + left. by eapply tc_l.
    + right. split; [by eapply rtc_l|done].
    + right. split; [done|by apply tc_rtc].
    + right. by split.
Qed.

Lemma size_shrink (D vis : gset PrincipalId) a :
  a ∈ D -> a ∉ vis -> (size (D ∖ ({[a]} ∪ vis)) < size (D ∖ vis))%nat.
Proof.
  intros Ha Hv. apply subset_size. split.
  - intros x [? Hx]%elem_of_difference. apply elem_of_difference. split; [done|].
    intros ?. apply Hx, elem_of_union. by right.
  - intros Hs. assert (a ∈ D ∖ vis) as Hin%Hs by (by apply elem_of_difference).
    apply elem_of_difference in Hin as [_ Hin]. apply Hin, elem_of_union. left. by apply elem_of_singleton.
Qed.

Section GraphFacts.
Context `{IterOrder}.

Lemma elem_of_iter X x : x ∈ iter X <-> x ∈ X.
Proof. rewrite iter_perm. apply elem_of_elements. Qed.

Lemma any_loop_spec {E A} (f : A -> Res E bool) (P : A -> Prop) l :
  (forall x, x ∈ l -> exists b, f x = Ok b /\ (b = true <-> P x)) ->
  exists b, any_loop f l = Ok b /\ (b = true <-> exists x, x ∈ l /\ P x).
Proof.
  induction l as [|x l IH]; intros Hf; simpl.
  { exists false. split; [done|]. split; [done|]. by intros (x & ?%elem_of_nil & _). }
  destruct (Hf x) as (b & -> & Hb); [apply list_elem_of_here|]. simpl. destruct b.
  - exists true. split; [done|]. split; [|done]. intros _. exists x. split; [apply list_elem_of_here|by apply Hb].
  - destruct IH as (b & E1 & Hb'); [intros y Hy; apply Hf; by apply list_elem_of_further|].
    exists b. split; [done|]. rewrite Hb'. split.
    + intros (y & ? & ?). exists y. split; [by apply list_elem_of_further|done].
    + intros (y & [->|Hy]%elem_of_cons & HP); [by apply Hb in HP|by exists y].
Qed.

(** The search for a cycle: in an acyclic graph it ends within its fuel and
    decides reachability. *)
Lemma cycle_search ps fuel vis a t :
  acyclic ps -> (forall v, v ∈ vis -> tc (edge ps) v a) ->
  (size (dom ps ∖ vis) < fuel)%nat ->
  exists b, would_create_cycle_inner fuel ps a t = Ok b /\ (b = true <-> rtc (edge ps) a t).
Proof.
  intros Ha. revert vis a. induction fuel as [|fuel IH]; intros vis a Hv Hf; [lia|]. simpl.
  case_bool_decide as Hat; [subst; by exists true|].
  destruct (ps !! a) as [p|] eqn:Hp.
  2:{ exists false. split; [done|]. split; [done|]. intros Hr.
      apply rtc_inv in Hr as [?|(y & (q & ? & _) & _)]; congruence. }
  assert (a ∉ vis) as Hav by (intros Hin; by apply (Ha a), Hv).
  assert (a ∈ dom ps) by (apply elem_of_dom; eauto).
  destruct (any_loop_spec (fun r => would_create_cycle_inner fuel ps r t)
    (fun r => rtc (edge ps) r t) (iter (roles p))) as (b & E & Hb).
  { intros r Hr%elem_of_iter. apply (IH ({[a]} ∪ vis)).
    - intros v [->%elem_of_singleton|Hin]%elem_of_union; [apply tc_once; by exists p|].
      apply tc_r with a; [by apply Hv|by exists p].
    - pose proof (size_shrink (dom ps) vis a ltac:(done) Hav). lia. }
  exists b. split; [done|]. rewrite Hb. split.
  - intros (r & Hr%elem_of_iter & ?). eapply rtc_l; [by exists p|done].
  - intros [?|(r & (q & Hq & Hr) & ?)]%rtc_inv; [done|]. rewrite Hp in Hq. injection Hq as <-.
    exists r. by rewrite elem_of_iter.
Qed.

Lemma cycle_check ps a t :
  acyclic ps -> exists b, would_create_cycle_inner (cycle_fuel ps) ps a t = Ok b /\
    (b = true <-> rtc (edge ps) a t).
Proof.
  intros Ha. apply (cycle_search ps (cycle_fuel ps) ∅ a t Ha).
  - intros v ?%elem_of_empty. done.
  - unfold cycle_fuel. rewrite difference_empty_L, size_dom. lia.
Qed.

(** ** The invariant of the graph *)

Record grant_ok (g : PermissionGraph) (k : PrincipalId) (e : GrantEdge) : Prop := {
  go_grantee : grantee e = k;
  go_id : 0 < gid e < next_grant_id g;
  go_depth : fits 32 (delegation_depth e)
}.

Record graph_wf (g : PermissionGraph) : Prop := {
  gw_acyclic : acyclic (principals g);
  gw_next : 0 < next_grant_id g;
  gw_grants : forall k, Forall (grant_ok g k) (grants_of g k);
  gw_unique : forall k, NoDup (gid <$> grants_of g k);
  gw_apart : forall k k' e e', e ∈ grants_of g k -> e' ∈ grants_of g k' -> gid e = gid e' -> k = k'
}.

Lemma edge_insert_role ps p r q a b :
  ps !! p = Some q ->
  edge (<[p := mkPrincipal (pid q) (kind q) (display_name q) ({[r]} ∪ roles q) (p_created_at q)]> ps) a b <->
  edge ps a b \/ (a = p /\ b = r).
Proof.
  intros Hp. unfold edge. destruct (decide (a = p)) as [->|Hne].
  - rewrite lookup_insert_eq. split.
    + intros (x & [= <-] & [->%elem_of_singleton|Hb]%elem_of_union); [by right|left; by exists q].
    + intros [(x & Hx & Hb)|[_ ->]].
      * rewrite Hp in Hx. injection Hx as <-. eexists. split; [done|]. simpl. apply elem_of_union. by right.
      * eexists. split; [done|]. simpl. apply elem_of_union. left. by apply elem_of_singleton.
  - rewrite lookup_insert_ne by done. split; [auto|]. by intros [?|[? _]].
Qed.

Lemma acyclic_add ps ps' p r :
  acyclic ps -> ~ rtc (edge ps) r p ->
  (forall a b, edge ps' a b -> edge ps a b \/ (a = p /\ b = r)) -> acyclic ps'.
Proof.
  intros Ha Hn He a Hc. apply (tc_add_edge (edge ps) _ p r) in Hc as [Hc|[H1 H2]]; [by apply (Ha a)| |done].
  apply Hn. by transitivity a.
Qed.

(** Assigning a role.  In an acyclic graph the call always returns; it succeeds
    exactly when both principals exist, the second is a role, and the role does
    not already inherit from the first.  Then the one inheritance edge is
    added, the graph is still acyclic, and the change is in the log; otherwise
    nothing changes. *)
Theorem assign_role_spec now g p r :
  acyclic (principals g) ->
  match assign_role now p r g with
  | (Ok _, g') =>
      (forall a b, edge (principals g') a b <-> edge (principals g) a b \/ (a = p /\ b = r)) /\
      acyclic (principals g') /\ ~ rtc (edge (principals g)) r p /\
      grants_by_grantee g' = grants_by_grantee g /\
      audit g' = audit g ++ [mkEntry (RoleAssigned p r) now]
  | (Err e, g') => g' = g /\
      (principals g !! p = None \/ principals g !! r = None \/
       (exists q, principals g !! r = Some q /\ kind q <> Role) \/
       rtc (edge (principals g)) r p)
  | (Panic _, _) => False
  end.
Proof.
  intros Ha. unfold assign_role. rewrite st_bind_gets.
  destruct (principals g !! p) as [q|] eqn:Hp; [|simpl; auto].
  destruct (principals g !! r) as [rq|] eqn:Hr; [|simpl; auto].
  cbn [ok_or]. rewrite st_bind_lift. cbv beta iota. case_bool_decide as Hk;
    [simpl; split; [done|]; right; right; left; by exists rq|].
  rewrite st_bind_lift. destruct (cycle_check (principals g) r p Ha) as (b & -> & Hb).
  destruct b; [simpl; split; [done|]; right; right; right; by apply Hb|].
  assert (~ rtc (edge (principals g)) r p) as Hn by (intros Hr'; by apply Hb in Hr').
  rewrite st_bind_modify. unfold st_modify, set_audit, record. cbn [principals set_principals grants_by_grantee audit].
  pose proof (edge_insert_role (principals g) p r q) as He. split_and!; try done.
  - intros a c. by apply He.
  - apply (acyclic_add (principals g) _ p r); [done..|]. intros a b Hab. by apply He.
Qed.

Lemma assign_role_keeps now g p r x g' :
  acyclic (principals g) -> assign_role now p r g = (x, g') ->
  acyclic (principals g') /\ grants_by_grantee g' = grants_by_grantee g /\
  next_grant_id g' = next_grant_id g.
Proof.
  intros Ha. unfold assign_role. rewrite st_bind_gets.
  destruct (principals g !! p) as [q|] eqn:Hp; [|by intros [= <- <-]].
  rewrite st_bind_lift. destruct (principals g !! r) as [rq|]; [|by intros [= <- <-]].
  cbn [ok_or]. case_bool_decide; [by intros [= <- <-]|].
  rewrite st_bind_lift. destruct (cycle_check (principals g) r p Ha) as (b & -> & Hb).
  destruct b; [by intros [= <- <-]|]. rewrite st_bind_modify. intros [= <- <-]. split; [|done].
  apply (acyclic_add (principals g) _ p r); [done|intros Hr; by apply Hb in Hr|].
  intros a b Hab. by apply (edge_insert_role (principals g) p r q).
Qed.

(** ** Granting and revoking *)

Lemma grants_of_insert g k k' es :
  grants_of (set_grants (<[k := es]> (grants_by_grantee g)) g) k' =
  if decide (k' = k) then es else grants_of g k'.
Proof.
  unfold grants_of. simpl. destruct (decide (k' = k)) as [->|]; [by rewrite lookup_insert_eq|].
  by rewrite lookup_insert_ne.
Qed.

(** What a successful grant does. *)
Lemma grant_inv now to perms sc by_ dep exp g id g' :
  grant now to perms sc by_ dep exp g = (Ok id, g') ->
  let e := mkGrant id to perms sc by_ dep exp now in
  id = next_grant_id g /\ is_Some (principals g !! to) /\ principals g' = principals g /\
  next_grant_id g' = wrapping_add 64 id 1 /\
  (forall k, grants_of g' k = if decide (k = to) then grants_of g to ++ [e] else grants_of g k) /\
  audit g' = audit g ++ [mkEntry (Granted id to sc by_) now].
Proof.
  unfold grant. rewrite st_bind_gets. destruct (principals g !! to) eqn:Hp; [|done].
  rewrite st_bind_modify, st_bind_modify. intros [= <- <-]. split_and!; try done.
  intros k. apply (grants_of_insert g).
Qed.

Lemma grant_fails now to perms sc by_ dep exp g r g' :
  grant now to perms sc by_ dep exp g = (r, g') -> (forall id, r <> Ok id) ->
  g' = g /\ is_panic r = false.
Proof.
  unfold grant. rewrite st_bind_gets. destruct (principals g !! to).
  - rewrite !st_bind_modify. intros [= <- <-] Hn. by destruct (Hn (next_grant_id g)).
  - by intros [= <- <-].
Qed.

Lemma take_grant_spec id es :
  match take_grant id es with
  | Some (e, rest) => gid e = id /\ exists l k, es = l ++ e :: k /\ rest = l ++ k /\
      Forall (fun x => gid x <> id) l
  | None => Forall (fun x => gid x <> id) es
  end.
Proof.
  induction es as [|x es IH]; simpl; [done|].
  destruct (Z.eqb_spec (gid x) id) as [E|E]; [split; [done|]; by exists [], es|].
  destruct (take_grant id es) as [[e rest]|].
  - destruct IH as (? & l & k & -> & -> & ?). split; [done|]. exists (x :: l), k. by split_and!; [..|constructor].
  - by constructor.
Qed.

Definition without (id : GrantId) (es : list GrantEdge) : list GrantEdge :=
  List.filter (fun e => negb (gid e =? id)) es.

Lemma without_id id es : Forall (fun x => gid x <> id) es -> without id es = es.
Proof.
  unfold without. induction 1 as [|x es Hx _ IH]; simpl; [done|].
  rewrite (proj2 (Z.eqb_neq _ _)) by done. simpl. by rewrite IH.
Qed.

Lemma without_split l e k :
  NoDup (gid <$> (l ++ e :: k)) -> without (gid e) (l ++ e :: k) = l ++ k.
Proof.
  rewrite fmap_app, fmap_cons. intros (_ & Hd & [Hk _]%NoDup_cons)%NoDup_app.
  unfold without. rewrite List.filter_app. simpl. rewrite Z.eqb_refl. simpl. f_equal.
  - apply without_id, Forall_forall. intros x Hx E. apply (Hd (gid x)).
    + by apply list_elem_of_fmap_2.
    + rewrite E. apply list_elem_of_here.
  - apply without_id, Forall_forall. intros x Hx E. apply Hk. rewrite <- E. by apply list_elem_of_fmap_2.
Qed.

Lemma revoke_loop_spec now id ks g :
  graph_wf g -> (forall k, grants_of g k <> [] -> k ∈ ks \/ Forall (fun x => gid x <> id) (grants_of g k)) ->
  match revoke_loop now id ks g with
  | (Ok _, g') => (exists k e, e ∈ grants_of g k /\ gid e = id) /\
      principals g' = principals g /\ next_grant_id g' = next_grant_id g /\
      forall k, grants_of g' k = without id (grants_of g k)
  | (Err _, g') => g' = g /\ forall k, Forall (fun x => gid x <> id) (grants_of g k)
  | (Panic _, _) => False
  end.
Proof.
  intros Hg. induction ks as [|k ks IH]; intros Hk; simpl.
  { split; [done|]. intros k. destruct (decide (grants_of g k = [])) as [->|Hne]; [done|].
    destruct (Hk k Hne) as [?%elem_of_nil|?]; done. }
  pose proof (take_grant_spec id (grants_of g k)) as Ht.
  destruct (take_grant id (grants_of g k)) as [[e rest]|].
  - destruct Ht as (He & l & r & Hes & -> & _). split_and!; try done.
    { exists k, e. split; [|done]. rewrite Hes. apply elem_of_app. right. apply list_elem_of_here. }
    intros k'. change (grants_of (set_audit ?a ?x) k') with (grants_of x k').
    rewrite grants_of_insert. destruct (decide (k' = k)) as [->|Hne].
    + rewrite Hes, <- He. symmetry. apply without_split. rewrite <- Hes. apply Hg.
    + symmetry. apply without_id, Forall_forall. intros x Hx E. apply Hne.
      eapply (gw_apart g Hg k' k x e); [done| |congruence].
      rewrite Hes. apply elem_of_app. right. apply list_elem_of_here.
  - apply IH. intros k' Hne. destruct (Hk k' Hne) as [[->|?]%elem_of_cons|?]; auto.
Qed.

(** The search covers everyone who holds a grant. *)
Lemma grantees_searched g k id :
  grants_of g k <> [] ->
  k ∈ iter (dom (grants_by_grantee g)) \/ Forall (fun x => gid x <> id) (grants_of g k).
Proof.
  intros Hk. left. apply elem_of_iter, elem_of_dom. unfold grants_of in Hk.
  destruct (grants_by_grantee g !! k); [by eexists|done].
Qed.

(** Revoking a grant takes out exactly that grant, from whoever holds it, and
    nothing else; an unknown grant is an error that changes nothing.  The order
    in which the grantees are searched does not matter. *)
Theorem revoke_spec now g id :
  graph_wf g ->
  match revoke now id g with
  | (Ok _, g') => (exists k e, e ∈ grants_of g k /\ gid e = id) /\
      principals g' = principals g /\ next_grant_id g' = next_grant_id g /\
      forall k, grants_of g' k = without id (grants_of g k)
  | (Err _, g') => g' = g /\ forall k, Forall (fun x => gid x <> id) (grants_of g k)
  | (Panic _, _) => False
  end.
Proof.
  intros Hg. unfold revoke. apply revoke_loop_spec; [done|]. intros k. apply grantees_searched.
Qed.

(** ** Delegation *)

Lemma max_by_depth_in b l e :
  max_by_depth b l = Some e -> b = Some e \/ e ∈ l.
Proof.
  revert b. induction l as [|x l IH]; intros b; simpl; [by left|].
  intros [Hb|?]%IH; [|right; by apply list_elem_of_further].
  destruct b as [b|]; [|injection Hb as ->; right; apply list_elem_of_here].
  destruct (_ <? _); [by left|]. injection Hb as ->. right. apply list_elem_of_here.
Qed.

Lemma elem_of_filter_list {A} (f : A -> bool) (l : list A) x :
  x ∈ List.filter f l <-> f x = true /\ x ∈ l.
Proof. rewrite !list_elem_of_In, List.filter_In. tauto. Qed.

Lemma earliest_live now a b :
  match earliest_expiry a b with Some e => (e <=? now) = false | None => True end ->
  match a with Some e => (e <=? now) = false | None => True end /\
  match b with Some e => now < e | None => True end.
Proof. destruct a, b; simpl; rewrite ?Z.leb_gt; try done; lia. Qed.

(** A successful delegation, step by step. *)
Lemma delegate_inv now from to perms sc c g id g' :
  delegate now from to perms sc c g = (Ok id, g') ->
  exists par, par ∈ direct_grants now g from /\ covers_scope par sc = true /\
    allows_all (permissions par) perms = true /\ contains (max_scope c) sc = true /\
    allows_all (max_permissions c) perms = true /\ 1 <= delegation_depth par /\
    grant now to perms sc (Some from) (Z.min (delegation_depth par - 1) (max_depth c))
      (earliest_expiry (expires_at par) (c_expires_at c)) g = (Ok id, g').
Proof.
  unfold delegate. rewrite st_bind_gets.
  destruct (principals g !! from); [|done]. destruct (principals g !! to); [|done].
  destruct (contains (max_scope c) sc) eqn:Hsc; [|done]. cbn [negb].
  destruct (allows_all (max_permissions c) perms) eqn:Hmp; [|done]. cbn [negb].
  rewrite st_bind_lift. destruct (max_by_depth None _) as [par|] eqn:Hpar; [|done]. cbn [ok_or].
  destruct (Z.eqb_spec (delegation_depth par) 0); [done|]. rewrite st_bind_lift.
  unfold sub. destruct (Z.leb_spec 1 (delegation_depth par)); [|done].
  apply max_by_depth_in in Hpar as [?|Hin]; [done|].
  apply elem_of_filter_list in Hin as [[Hcov Hall]%andb_true_iff Hin].
  intros E. exists par. by split_and!.
Qed.

(** C13: Nothing is gained by delegation.  The grant a delegation creates reaches,
    at every later moment and for every resource and permission, no further
    than a grant the delegator holds itself and no further than the constraint, in
    permissions, in scope and in time: it is live only while that grant is, and only
    before the instant the constraint names.  It can be delegated on fewer times; it
    is the only change to the grants. *)
Theorem delegate_attenuates now from to perms sc c g id g' :
  delegate now from to perms sc c g = (Ok id, g') ->
  exists par new,
    par ∈ grants_of g from /\ gid new = id /\ granted_by new = Some from /\
    (forall k, grants_of g' k = if decide (k = to) then grants_of g to ++ [new] else grants_of g k) /\
    delegation_depth new < delegation_depth par /\ delegation_depth new <= max_depth c /\
    forall time target p,
      is_expired time new = false -> covers_scope new target = true ->
      allows (permissions new) p = true ->
      is_expired time par = false /\ covers_scope par target = true /\
      allows (permissions par) p = true /\
      contains (max_scope c) target = true /\ allows (max_permissions c) p = true /\
      (forall limit, c_expires_at c = Some limit -> time < limit).
Proof.
  intros (par & Hin & Hcov & Hall & Hmax & Hmp & Hd & E)%delegate_inv.
  apply grant_inv in E as (_ & _ & _ & _ & Hgr & _).
  eexists par, _. split; [by apply elem_of_filter_list in Hin as [_ ?]|].
  split; [|split; [|split; [exact Hgr|]]]; [done|done|].
  split; [simpl; lia|]. split; [simpl; lia|].
  intros time target p Hex Hct Hp. unfold covers_scope in *. simpl in *.
  unfold is_expired in *. simpl in Hex.
  destruct (earliest_live time (expires_at par) (c_expires_at c)) as [Hpar Hlim]; [by destruct (earliest_expiry _ _)|].
  split_and!.
  - by destruct (expires_at par).
  - by eapply contains_trans.
  - by eapply allows_all_trans.
  - by eapply contains_trans.
  - by eapply allows_all_trans.
  - intros limit Hc. by rewrite Hc in Hlim.
Qed.

(** ** Every graph that can come about *)

Lemma grant_wf now to perms sc by_ dep exp g id g' :
  graph_wf g -> next_grant_id g < 2 ^ 64 - 1 -> fits 32 dep ->
  grant now to perms sc by_ dep exp g = (Ok id, g') -> graph_wf g'.
Proof.
  intros [Ha Hn Hg Hu Hap] Hlt Hd (Hid & _ & Hps & Hnext & Hgr & _)%grant_inv.
  assert (next_grant_id g' = next_grant_id g + 1) as Hn'.
  { rewrite Hnext, Hid. unfold wrapping_add. apply Z.mod_small. lia. }
  set (e := mkGrant id to perms sc by_ dep exp now) in *.
  assert (forall k x, x ∈ grants_of g k -> gid x < next_grant_id g) as Hlow.
  { intros k x Hx. pose proof (proj1 (Forall_forall _ _) (Hg k) x Hx) as []. lia. }
  assert (forall k x, x ∈ grants_of g' k -> (k = to /\ x = e) \/ x ∈ grants_of g k) as Hin.
  { intros k x. rewrite Hgr. destruct (decide (k = to)) as [->|]; [|by right].
    intros [?| ->%list_elem_of_singleton]%elem_of_app; auto. }
  split.
  - by rewrite Hps.
  - lia.
  - intros k. apply Forall_forall. intros x [[-> ->]|Hx]%Hin.
    + split; simpl; [done|lia|done].
    + pose proof (proj1 (Forall_forall _ _) (Hg k) x Hx) as []. split; [done|lia|done].
  - intros k. rewrite Hgr. destruct (decide (k = to)) as [->|]; [|done].
    rewrite fmap_app. apply NoDup_app. split; [apply Hu|]. split; [|apply NoDup_singleton].
    intros i (x & Ei & Hx)%list_elem_of_fmap Es%list_elem_of_singleton.
    specialize (Hlow to x Hx). simpl in *. lia.
  - intros k k' x y [[-> ->]|Hx]%Hin [[-> ->]|Hy]%Hin Exy; [done|..].
    + apply Hlow in Hy. simpl in *. lia.
    + apply Hlow in Hx. simpl in *. lia.
    + by eapply Hap.
Qed.

Lemma without_wf id es (P : GrantEdge -> Prop) :
  Forall P es -> Forall P (without id es).
Proof.
  rewrite !Forall_forall. intros Hf x [_ ?]%elem_of_filter_list. auto.
Qed.

Lemma without_nodup id es : NoDup (gid <$> es) -> NoDup (gid <$> without id es).
Proof.
  unfold without. induction es as [|x es IH]; simpl; [done|].
  rewrite NoDup_cons. intros [Hx Hn]. destruct (negb _); [|auto].
  rewrite fmap_cons. apply NoDup_cons. split; [|auto].
  intros (y & E & [_ Hy]%elem_of_filter_list)%list_elem_of_fmap. apply Hx. rewrite E. by apply list_elem_of_fmap_2.
Qed.

Inductive graph_reach : PermissionGraph -> Prop :=
| gr_new : graph_reach graph_new
| gr_add now id k nm g r g' :
    graph_reach g -> add_principal now id k nm g = (r, g') -> graph_reach g'
| gr_assign now p q g r g' :
    graph_reach g -> assign_role now p q g = (r, g') -> graph_reach g'
| gr_grant now to perms sc by_ dep exp g r g' :
    graph_reach g -> next_grant_id g < 2 ^ 64 - 1 -> fits 32 dep ->
    grant now to perms sc by_ dep exp g = (r, g') -> graph_reach g'
| gr_delegate now from to perms sc c g id g' :
    graph_reach g -> next_grant_id g < 2 ^ 64 - 1 -> fits 32 (max_depth c) ->
    delegate now from to perms sc c g = (Ok id, g') -> graph_reach g'
| gr_revoke now id g r g' : graph_reach g -> revoke now id g = (r, g') -> graph_reach g'.

(** However principals, roles, grants, delegations and revocations are mixed,
    role inheritance never forms a cycle, every grant is filed under its
    grantee, and grant identifiers stay unique; fewer than 2^64 grants are
    made. *)
Theorem graph_invariant g : graph_reach g -> graph_wf g.
Proof.
  induction 1 as [|now id k nm g r g' _ IH E|now p q g r g' _ IH E
    |now to perms sc by_ dep exp g r g' _ IH Hlt Hd E|now from to perms sc c g id g' _ IH Hlt Hd E
    |now id g r g' _ IH E].
  - assert (forall k, grants_of graph_new k = []) as Hno.
    { intros k. unfold grants_of. cbn [graph_new grants_by_grantee]. by rewrite lookup_empty. }
    split; [|done|intros k; rewrite Hno; constructor..|].
    + intros a Hc. destruct Hc as [x y (p & ? & _)|x y z (p & ? & _) _]; done.
    + intros k k' e e' He. rewrite Hno in He. by apply elem_of_nil in He.
  - injection E as _ <-. destruct IH as [Ha Hn Hg Hu Hap]. split; try done.
    + apply (acyclic_mono (principals g)); [|done]. intros a b (p & Hp & Hb). simpl in Hp.
      destruct (decide (a = id)) as [->|].
      * rewrite lookup_insert_eq in Hp. injection Hp as <-. by apply elem_of_empty in Hb.
      * rewrite lookup_insert_ne in Hp by done. by exists p.
    + intros k'. eapply Forall_impl; [apply Hg|]. by intros x [].
  - destruct IH as [Ha Hn Hg Hu Hap]. destruct (assign_role_keeps _ _ _ _ _ _ Ha E) as (Ha' & Hgr & Hnx).
    assert (forall k, grants_of g' k = grants_of g k) as Hgo by (intros; unfold grants_of; by rewrite Hgr).
    split; [done|lia|..].
    + intros k. rewrite Hgo. eapply Forall_impl; [apply Hg|]. intros x []. split; [done|lia|done].
    + intros k. by rewrite Hgo.
    + intros k k' e e'. rewrite !Hgo. apply Hap.
  - destruct r as [id| |]; [by eapply grant_wf|..]; by eapply grant_fails in E as [-> _].
  - apply delegate_inv in E as (par & _ & _ & _ & _ & _ & ? & E). eapply grant_wf; [done..| |exact E].
    unfold fits in *. lia.
  - unfold revoke in E. pose proof (revoke_loop_spec now id (iter (dom (grants_by_grantee g))) g IH
      (fun k => grantees_searched g k id)) as Hs. rewrite E in Hs. destruct r as [u|e|pn].
    + destruct Hs as (_ & Hps & Hnx & Hgo).
      destruct IH as [Ha Hn Hg Hu Hap]. split; [by rewrite Hps|lia|..].
      * intros k. rewrite Hgo. apply without_wf. eapply Forall_impl; [apply Hg|].
        intros x []. split; [done|lia|done].
      * intros k. rewrite Hgo. by apply without_nodup.
      * intros k k' e e'. rewrite !Hgo. intros [_ ?]%elem_of_filter_list [_ ?]%elem_of_filter_list. by apply Hap.
    + by destruct Hs as [-> _].
    + done.
Qed.

(** ** Inheritance and resolution *)

(** Edges that leave a principal not yet visited. *)
Definition edges_left (ps : gmap PrincipalId Principal) (vis : gset PrincipalId) : nat :=
  edge_count (filter (fun kv => kv.1 ∉ vis) ps).

Lemma edges_left_visit ps vis a p :
  ps !! a = Some p -> a ∉ vis ->
  edges_left ps vis = (size (roles p) + edges_left ps ({[a]} ∪ vis))%nat.
Proof.
  intros Hp Ha. unfold edges_left, edge_count.
  rewrite (map_fold_delete_L _ _ a p).
  - f_equal. f_equal. apply map_eq. intros k. destruct (decide (k = a)) as [->|Hk].
    + rewrite lookup_delete_eq. symmetry. apply map_lookup_filter_None. right. intros x _ Hn.
      apply Hn, elem_of_union. left. by apply elem_of_singleton.
    + rewrite lookup_delete_ne by done. apply option_eq. intros x.
      rewrite !map_lookup_filter_Some. simpl. rewrite elem_of_union, elem_of_singleton. tauto.
  - intros j1 j2 z1 z2 y _ _ _. lia.
  - by apply map_lookup_filter_Some.
Qed.

Record inherit_inv (ps : gmap PrincipalId Principal) (start : PrincipalId)
    (vis : gset PrincipalId) (stack result : list PrincipalId) : Prop := {
  ii_stack : forall x, x ∈ stack -> rtc (edge ps) start x;
  ii_sound : forall x, x ∈ result -> tc (edge ps) start x;
  ii_start : start ∈ vis \/ start ∈ stack;
  ii_closed : forall v y, v ∈ vis -> edge ps v y -> y ∈ result /\ (y ∈ vis \/ y ∈ stack)
}.

Lemma inherit_inv_done ps start vis result :
  inherit_inv ps start vis [] result -> forall y, y ∈ result <-> tc (edge ps) start y.
Proof.
  intros [_ Hs Hst Hc] y. split; [apply Hs|]. destruct Hst as [Hv|?%elem_of_nil]; [|done].
  clear Hs. intros Ht. induction Ht as [x y Hxy|x y z Hxy _ IH].
  - by apply (Hc x y).
  - apply IH. by destruct (Hc x y Hv Hxy) as [? [?|?%elem_of_nil]].
Qed.

Lemma inherit_inv_skip ps start vis stack result a :
  a ∈ vis -> inherit_inv ps start vis (stack ++ [a]) result -> inherit_inv ps start vis stack result.
Proof.
  intros Ha [Hst Hs Hb Hc].
  assert (forall y, y ∈ vis \/ y ∈ stack ++ [a] -> y ∈ vis \/ y ∈ stack) as Hdrop.
  { intros y [?|[?| ->%list_elem_of_singleton]%elem_of_app]; auto. }
  split; [|done|auto|].
  - intros x Hx. apply Hst, elem_of_app. by left.
  - intros v y Hv He. destruct (Hc v y Hv He). auto.
Qed.

Lemma inherit_inv_visit ps start vis stack result a rs :
  (forall y, y ∈ rs <-> edge ps a y) -> inherit_inv ps start vis (stack ++ [a]) result ->
  inherit_inv ps start ({[a]} ∪ vis) (stack ++ rs) (result ++ rs).
Proof.
  intros Hrs [Hst Hs Hb Hc].
  assert (rtc (edge ps) start a) as Hra by (apply Hst, elem_of_app; right; by apply list_elem_of_singleton).
  assert (forall y, y ∈ vis \/ y ∈ stack ++ [a] -> y ∈ {[a]} ∪ vis \/ y ∈ stack ++ rs) as Hmove.
  { intros y. rewrite !elem_of_app, elem_of_union, elem_of_singleton, list_elem_of_singleton. tauto. }
  split; [..|auto|].
  - intros x [Hx|Hx%Hrs]%elem_of_app; [apply Hst, elem_of_app; by left|]. by eapply rtc_r.
  - intros x [Hx|Hx%Hrs]%elem_of_app; [by apply Hs|]. by eapply tc_rtc_l; [|apply tc_once].
  - intros v y [->%elem_of_singleton|Hv]%elem_of_union He; rewrite elem_of_app.
    + apply Hrs in He. split; [by right|]. right. apply elem_of_app. by right.
    + destruct (Hc v y Hv He). auto.
Qed.

(** The walk over inherited roles ends and finds exactly the principals
    reachable by one or more inheritance edges. *)
Lemma inherit_loop_spec ps start fuel vis stack result :
  (edges_left ps vis + length stack < fuel)%nat -> inherit_inv ps start vis stack result ->
  exists l, inherit_loop fuel ps vis stack result = Ok l /\
    forall y, y ∈ l <-> tc (edge ps) start y.
Proof.
  revert vis stack result. induction fuel as [|fuel IH]; intros vis stack result Hf Hi; [lia|]. simpl.
  destruct (last stack) as [a|] eqn:Hl.
  2:{ apply last_None in Hl as ->. exists result. split; [done|]. by apply (inherit_inv_done _ _ vis). }
  apply last_Some in Hl as [st ->]. rewrite removelast_last. rewrite length_app in Hf. simpl in Hf.
  case_bool_decide as Ha; [apply IH; [lia|by eapply inherit_inv_skip]|].
  destruct (ps !! a) as [p|] eqn:Hp.
  - apply IH.
    + rewrite (edges_left_visit ps vis a p Hp Ha) in Hf. rewrite length_app, iter_perm.
      change (length (elements (roles p))) with (size (roles p)). lia.
    + apply inherit_inv_visit; [|done]. intros y. rewrite elem_of_iter. split; [by exists p|].
      intros (q & Hq & ?). congruence.
  - apply IH.
    + enough (edges_left ps ({[a]} ∪ vis) = edges_left ps vis) by lia.
      unfold edges_left. f_equal. apply map_filter_ext. intros k x Hk. simpl.
      rewrite elem_of_union, elem_of_singleton. split; [tauto|]. intros Hn [->|?]; [congruence|done].
    + rewrite <- (app_nil_r st), <- (app_nil_r result). apply inherit_inv_visit; [|done].
      intros y. rewrite elem_of_nil. split; [done|]. intros (q & Hq & _). congruence.
Qed.

Lemma inherited_roles_reach g start :
  exists l, inherited_roles g start = Ok l /\ forall y, y ∈ l <-> tc (edge (principals g)) start y.
Proof.
  unfold inherited_roles. apply inherit_loop_spec.
  - unfold edges_left. rewrite map_filter_id; [simpl; lia|]. intros k x _. simpl. apply not_elem_of_empty.
  - split.
    + by intros x ->%list_elem_of_singleton.
    + by intros x ?%elem_of_nil.
    + right. by apply list_elem_of_singleton.
    + by intros v y ?%elem_of_empty.
Qed.

(** A live grant of [q] that reaches the target. *)
Definition reaches (now : Z) (g : PermissionGraph) (target : ResourceScope) (q : PrincipalId)
    (e : GrantEdge) : Prop :=
  e ∈ direct_grants now g q /\ covers_scope e target = true.

Lemma reaches_iff now g target q e :
  reaches now g target q e <->
  e ∈ grants_of g q /\ is_expired now e = false /\ covers_scope e target = true.
Proof.
  unfold reaches, direct_grants. rewrite elem_of_filter_list, negb_true_iff. tauto.
Qed.

Lemma ex_elem_cons {A} (Q : A -> Prop) x l : (exists e, e ∈ x :: l /\ Q e) <-> Q x \/ exists e, e ∈ l /\ Q e.
Proof.
  setoid_rewrite elem_of_cons. split.
  - intros (e & [->|?] & ?); [by left|right; by exists e].
  - intros [?|(e & ? & ?)]; [exists x|exists e]; auto.
Qed.

Lemma ex_elem_nil {A} (Q : A -> Prop) : (exists e, e ∈ [] /\ Q e) <-> False.
Proof. split; [|done]. by intros (e & ?%elem_of_nil & _). Qed.

(** What one principal's grants add. *)
Lemma add_grants_spec who target gs eff cs :
  let P x := exists e, e ∈ gs /\ covers_scope e target = true /\ x ∈ permissions e in
  let C := exists e, e ∈ gs /\ covers_scope e target = true in
  let r := add_grants who target gs eff cs in
  (forall x, x ∈ r.1 <-> x ∈ eff \/ P x) /\ (forall q, q ∈ r.2 <-> q ∈ cs \/ (q = who /\ C)) /\
  (NoDup cs -> NoDup r.2).
Proof.
  revert eff cs. induction gs as [|e gs IH]; intros eff cs; simpl.
  { split_and!; [..|done]; intros y; rewrite ex_elem_nil; tauto. }
  destruct (covers_scope e target) eqn:Hcov.
  - set (cs1 := if bool_decide (who ∈ cs) then cs else cs ++ [who]).
    assert (forall q, q ∈ cs1 <-> q ∈ cs \/ q = who) as Hcs.
    { intros q. unfold cs1. case_bool_decide; [|by rewrite elem_of_app, list_elem_of_singleton].
      split; [auto|]. by intros [?| ->]. }
    destruct (IH (union_perms eff (permissions e)) cs1) as (Hx & Hq & Hn). split_and!.
    + intros x. rewrite Hx, ex_elem_cons. unfold union_perms. rewrite elem_of_union. tauto.
    + intros q. rewrite Hq, Hcs, ex_elem_cons. tauto.
    + intros Hd. apply Hn. unfold cs1. case_bool_decide; [done|]. apply NoDup_app.
      split_and!; [done| |apply NoDup_singleton]. by intros y ? ->%list_elem_of_singleton.
  - assert (covers_scope e target <> true) by congruence.
    destruct (IH eff cs) as (Hx & Hq & Hn). split_and!; [..|done].
    + intros x. rewrite Hx, ex_elem_cons. tauto.
    + intros q. rewrite Hq, ex_elem_cons. tauto.
Qed.

(** The loop over the principals: the order and repetitions of the list do not
    matter. *)
Lemma resolve_loop_spec now g target ks seen eff cs :
  (forall q e, q ∈ seen -> reaches now g target q e -> q ∈ cs /\ permissions e ⊆ eff) -> NoDup cs ->
  let r := resolve_loop now g target ks seen eff cs in
  (forall x, x ∈ r.1 <-> x ∈ eff \/ exists q, q ∈ ks /\ exists e, reaches now g target q e /\ x ∈ permissions e) /\
  (forall q, q ∈ r.2 <-> q ∈ cs \/ (q ∈ ks /\ exists e, reaches now g target q e)) /\ NoDup r.2.
Proof.
  revert seen eff cs. induction ks as [|k ks IH]; intros seen eff cs Hseen Hn; simpl.
  { split_and!; [..|done]; intros y; [rewrite ex_elem_nil|rewrite elem_of_nil]; tauto. }
  case_bool_decide as Hk.
  - destruct (IH seen eff cs Hseen Hn) as (Hx & Hq & Hd). split_and!; [..|done].
    + intros x. rewrite Hx, ex_elem_cons. split; [tauto|]. intros [?|[(e & Hr & ?)|?]]; auto.
      left. by apply (proj2 (Hseen k e Hk Hr)).
    + intros q. rewrite Hq, elem_of_cons. split; [tauto|]. intros [?|[[->|?] [e Hr]]]; eauto.
      left. by apply (Hseen k e Hk Hr).
  - destruct (add_grants_spec k target (direct_grants now g k) eff cs) as (Ax & Aq & An).
    destruct (add_grants k target (direct_grants now g k) eff cs) as [eff1 cs1]. simpl in Ax, Aq, An.
    destruct (IH ({[k]} ∪ seen) eff1 cs1) as (Hx & Hq & Hd); [|by apply An|].
    { intros q e [->%elem_of_singleton|Hs]%elem_of_union Hr.
      - split; [apply Aq; right; split; [done|by exists e]|]. intros x ?. apply Ax. right.
        exists e. destruct Hr. by split_and!.
      - destruct (Hseen q e Hs Hr) as [? Hsub]. split; [by apply Aq; left|].
        intros x ?. apply Ax. left. by apply Hsub. }
    split_and!; [..|done].
    + intros x. rewrite Hx, Ax, ex_elem_cons. unfold reaches. setoid_rewrite <- (assoc and). tauto.
    + intros q. rewrite Hq, Aq, elem_of_cons. unfold reaches. split; [|].
      * intros [[?|[-> ?]]|[? ?]]; auto.
      * intros [?|[[->|?] ?]]; auto.
Qed.

(** What a principal may do at a scope.  Resolution always returns; the
    permissions it reports are those of the live grants that cover the scope
    and are held by the principal or by a role it inherits, directly or through
    other roles, and the contributors are the holders of such grants, each
    listed once.  Only an unknown principal is an error. *)
Theorem resolve_spec now g p target :
  match resolve now g p target with
  | Ok eff => is_Some (principals g !! p) /\ e_principal eff = p /\ e_scope eff = target /\
      (forall x, x ∈ e_permissions eff <-> exists q e,
         rtc (edge (principals g)) p q /\ reaches now g target q e /\ x ∈ permissions e) /\
      (forall q, q ∈ contributors eff <->
         rtc (edge (principals g)) p q /\ exists e, reaches now g target q e) /\
      NoDup (contributors eff)
  | Err err => principals g !! p = None /\ err = PrincipalNotFound p
  | Panic _ => False
  end.
Proof.
  unfold resolve. destruct (principals g !! p) eqn:Hp; [|done].
  destruct (inherited_roles_reach g p) as (l & -> & Hl).
  assert (forall q, q ∈ p :: l <-> rtc (edge (principals g)) p q) as Hpl.
  { intros q. rewrite elem_of_cons, Hl. split; [intros [->|?]; [done|by apply tc_rtc]|].
    intros [->|?]%rtc_tc; auto. }
  destruct (resolve_loop_spec now g target (p :: l) ∅ ∅ []) as (Hx & Hq & Hn);
    [by intros q e ?%elem_of_empty|constructor|].
  cbn [mbind Res_bind]. destruct (resolve_loop _ _ _ (p :: l) _ _ _) as [eff cs]. simpl in Hx, Hq, Hn |- *.
  split_and!; try done.
  - intros x. rewrite Hx, elem_of_empty. split.
    + intros [?|(q & ?%Hpl & e & ? & ?)]; [done|by exists q, e].
    + intros (q & e & ?%Hpl & ? & ?). right. exists q. split; [done|by exists e].
  - intros q. rewrite Hq, elem_of_nil, Hpl. tauto.
Qed.

(** C12: Access control.  The check always returns.  Access is given exactly when
    some live grant that covers the resource, held by the principal or by a role
    it inherits, has the permission or the catch-all one; otherwise it is denied
    with the permission and the path of the resource, and an unknown principal
    is reported as such. *)
Theorem enforce_spec now g p perm target :
  match enforce now g p perm target with
  | Ok _ => is_Some (principals g !! p) /\
      (exists q e, rtc (edge (principals g)) p q /\ e ∈ grants_of g q /\ is_expired now e = false /\
         covers_scope e target = true /\ (perm ∈ permissions e \/ All ∈ permissions e))
  | Err err =>
      (principals g !! p = None /\ err = PrincipalNotFound p) \/
      (is_Some (principals g !! p) /\ err = Denied perm (path target) /\
       (forall q e, rtc (edge (principals g)) p q -> e ∈ grants_of g q -> is_expired now e = false ->
         covers_scope e target = true -> (perm ∉ permissions e) /\ (All ∉ permissions e)))
  | Panic _ => False
  end.
Proof.
  unfold enforce, check. pose proof (resolve_spec now g p target) as Hr.
  destruct (resolve now g p target) as [eff|err|pn]; cbn [mbind Res_bind]; [|by left|done].
  destruct Hr as (Hp & _ & _ & Hx & _).
  destruct (allows (e_permissions eff) perm) eqn:Ha; simpl.
  - split; [done|].
    apply allows_spec in Ha as [Hin|Hin]; apply Hx in Hin as (q & e & ? & (? & ? & ?)%reaches_iff & ?);
      exists q, e; split_and!; auto.
  - right. split_and!; [done..|]. intros q e Hq He Hex Hc.
    assert (forall x, x ∈ permissions e -> x ∈ e_permissions eff) as Hsub.
    { intros x ?. apply Hx. exists q, e. by rewrite reaches_iff. }
    split; intros Hin%Hsub; (assert (allows (e_permissions eff) perm = true) by (apply allows_spec; auto)); congruence.
Qed.

(** ** What the log and revocation leave out *)

Lemma delegate_keeps now from to perms sc c g r g' :
  delegate now from to perms sc c g = (r, g') ->
  g' = g \/ exists id, r = Ok id /\ audit g' = audit g ++ [mkEntry (Granted id to sc (Some from)) now].
Proof.
  unfold delegate. rewrite st_bind_gets.
  destruct (principals g !! from); [|intros [= <- <-]; by left].
  destruct (principals g !! to); [|intros [= <- <-]; by left].
  destruct (negb _); [intros [= <- <-]; by left|]. destruct (negb _); [intros [= <- <-]; by left|].
  rewrite st_bind_lift. destruct (max_by_depth None _) as [par|]; [|intros [= <- <-]; by left]. cbn [ok_or].
  destruct (_ =? _); [intros [= <- <-]; by left|]. rewrite st_bind_lift.
  unfold sub. destruct (_ <=? _); [|intros [= <- <-]; by left]. intros E.
  destruct r as [id|e|pn]; [right; exists id; split; [done|]; by apply grant_inv in E as (_ & _ & _ & _ & _ & ?)|..];
    left; by apply grant_fails in E as [-> _].
Qed.

(** Revocation does not cascade: after a delegation, revoking any other grant,
    the delegator's own included, leaves the delegated grant in force. *)
Theorem revoke_keeps_delegated now now' from to perms sc c g id g' parent g'' :
  graph_wf g -> next_grant_id g < 2 ^ 64 - 1 -> fits 32 (max_depth c) ->
  delegate now from to perms sc c g = (Ok id, g') -> parent <> id ->
  revoke now' parent g' = (Ok tt, g'') ->
  exists e, e ∈ grants_of g'' to /\ gid e = id /\ permissions e = perms /\ scope e = sc /\
    granted_by e = Some from.
Proof.
  intros Hg Hlt Hd (par & _ & _ & _ & _ & _ & ? & E)%delegate_inv Hne Hr.
  assert (graph_wf g') as Hg' by (eapply grant_wf; [done..| |exact E]; unfold fits in *; lia).
  apply grant_inv in E as (_ & _ & _ & _ & Hgr & _).
  pose proof (revoke_loop_spec now' parent (iter (dom (grants_by_grantee g'))) g' Hg'
    (fun k => grantees_searched g' k parent)) as Hs.
  unfold revoke in Hr. rewrite Hr in Hs. destruct Hs as (_ & _ & _ & Hgo).
  eexists. split.
  - rewrite Hgo. apply elem_of_filter_list. split; [|rewrite Hgr, decide_True by done;
      apply elem_of_app; right; by apply list_elem_of_singleton].
    simpl. by rewrite (proj2 (Z.eqb_neq _ _)).
  - done.
Qed.

(** An operation leaves the log as it is or adds one entry that is not a
    delegation. *)
Definition logs_other (g g' : PermissionGraph) : Prop :=
  audit g' = audit g \/
  exists e, audit g' = audit g ++ [e] /\ forall id a b sc, change e <> Delegated id a b sc.

Lemma assign_role_logs now p q g r g' : assign_role now p q g = (r, g') -> logs_other g g'.
Proof.
  unfold assign_role. rewrite st_bind_gets. destruct (principals g !! p); [|intros [= <- <-]; by left].
  rewrite st_bind_lift. destruct (principals g !! q); [|intros [= <- <-]; by left]. cbn [ok_or].
  case_bool_decide; [intros [= <- <-]; by left|]. rewrite st_bind_lift.
  destruct (would_create_cycle_inner _ _ _ _) as [[]| |]; [intros [= <- <-]; by left| |intros [= <- <-]; by left..].
  rewrite st_bind_modify. intros [= <- <-]. right. eexists. split; [reflexivity|done].
Qed.

Lemma grant_logs now to perms sc by_ dep exp g r g' :
  grant now to perms sc by_ dep exp g = (r, g') -> logs_other g g'.
Proof.
  intros E. destruct r as [id|e|pn].
  - apply grant_inv in E as (_ & _ & _ & _ & _ & E). right. eexists. split; [exact E|done].
  - left. by apply grant_fails in E as [-> _].
  - left. by apply grant_fails in E as [-> _].
Qed.

Lemma revoke_logs now id ks g r g' : revoke_loop now id ks g = (r, g') -> logs_other g g'.
Proof.
  induction ks as [|k ks IH]; simpl; [intros [= <- <-]; by left|].
  destruct (take_grant _ _) as [[e rest]|]; [|done].
  intros [= <- <-]. right. eexists. split; [reflexivity|done].
Qed.

(** The log of changes never holds a delegation, although it has an entry for
    it: delegations appear in it as grants. *)
Theorem delegation_never_logged g :
  graph_reach g -> forall e id a b sc, e ∈ audit g -> change e <> Delegated id a b sc.
Proof.
  assert (forall g g', logs_other g g' ->
    (forall e id a b sc, e ∈ audit g -> change e <> Delegated id a b sc) ->
    forall e id a b sc, e ∈ audit g' -> change e <> Delegated id a b sc) as Hstep.
  { intros x y [->|(z & -> & Hz)] Hx e id a b sc; [by apply Hx|].
    intros [?| ->%list_elem_of_singleton]%elem_of_app; [by eapply Hx|apply Hz]. }
  induction 1 as [|now id k nm g r g' _ IH E|now p q g r g' _ IH E
    |now to perms sc by_ dep exp g r g' _ IH _ _ E|now from to perms sc c g id g' _ IH _ _ E
    |now id g r g' _ IH E].
  - by intros e id a b sc ?%elem_of_nil.
  - injection E as _ <-. apply IH.
  - by eapply Hstep; [eapply assign_role_logs|].
  - by eapply Hstep; [eapply grant_logs|].
  - apply delegate_inv in E as (par & _ & _ & _ & _ & _ & _ & E). by eapply Hstep; [eapply grant_logs|].
  - by eapply Hstep; [eapply revoke_logs|].
Qed.
End GraphFacts.

(** ** Witnesses *)

(** Hash sets traversed in the order of their keys. *)
#[local] Instance elements_order : IterOrder := {| iter := elements; iter_perm X := reflexivity _ |}.

(** An administrator role, a team lead who has it, and an agent. *)
Definition demo_add (id : string) (k : PrincipalKind) (g : PermissionGraph) : PermissionGraph :=
  (add_principal 0 id k id g).2.

Definition demo_principals : PermissionGraph :=
  demo_add "agent" Agent (demo_add "lead" Agent (demo_add "admin" Role graph_new)).

Definition demo_perms : PermissionSet := {[VmStart]} ∪ {[VmStop]}.
Definition demo_scope : ResourceScope := Org "acme".
Definition demo_target : ResourceScope := Tenant "acme" "dev".

Definition demo_granted : PermissionGraph :=
  (grant 1 "lead" demo_perms demo_scope None 2 (Some 100) demo_principals).2.

Definition demo_constraint : DelegationConstraint := mkConstraint demo_perms demo_scope 5 (Some 50).

Definition demo_delegated : PermissionGraph :=
  (delegate 2 "lead" "agent" {[VmStart]} demo_target demo_constraint demo_granted).2.

Lemma demo_acyclic : acyclic (principals demo_principals).
Proof.
  apply (acyclic_mono ∅).
  - intros a b (p & Hp & Hb). exfalso.
    assert (roles p = ∅) as Hr; [|rewrite Hr in Hb; by apply elem_of_empty in Hb].
    cbn [demo_principals demo_add add_principal st_modify snd principals set_principals graph_new] in Hp.
    repeat (apply lookup_insert_Some in Hp as [[_ <-]|[_ Hp]]; [done|]). by rewrite lookup_empty in Hp.
  - intros a Hc. destruct Hc as [x y (p & ? & _)|x y z (p & ? & _) _]; done.
Qed.

Lemma demo_principals_wf : graph_wf demo_principals.
Proof.
  assert (forall k, grants_of demo_principals k = []) as Hno.
  { intros k. unfold grants_of. change (grants_by_grantee demo_principals) with (∅ : gmap PrincipalId (list GrantEdge)).
    by rewrite lookup_empty. }
  split; [exact demo_acyclic|reflexivity|intros k; rewrite Hno; constructor..|].
  intros k k' e e' He. rewrite Hno in He. by apply elem_of_nil in He.
Qed.

Lemma ok_pair {S E A} (r : Res E A * S) (a : A) : r.1 = Ok a -> r = (Ok a, r.2).
Proof. destruct r. simpl. congruence. Qed.

Lemma demo_grant_ok :
  grant 1 "lead" demo_perms demo_scope None 2 (Some 100) demo_principals = (Ok 1, demo_granted).
Proof. apply ok_pair. vm_compute. reflexivity. Qed.

Lemma demo_granted_wf : graph_wf demo_granted.
Proof.
  eapply grant_wf; [exact demo_principals_wf|reflexivity| |exact demo_grant_ok]. done.
Qed.

Lemma demo_delegate_ok :
  delegate 2 "lead" "agent" {[VmStart]} demo_target demo_constraint demo_granted = (Ok 2, demo_delegated).
Proof. apply ok_pair. vm_compute. reflexivity. Qed.

Lemma demo_revoke_ok : revoke 3 1 demo_delegated = (Ok tt, (revoke 3 1 demo_delegated).2).
Proof. apply ok_pair. vm_compute. reflexivity. Qed.

Lemma assign_role_spec_witness :
  (assign_role 5 "lead" "admin" demo_principals).1 = Ok tt /\
  acyclic (principals (assign_role 5 "lead" "admin" demo_principals).2).
Proof.
  assert ((assign_role 5 "lead" "admin" demo_principals).1 = Ok tt) as E by (vm_compute; reflexivity).
  split; [exact E|].
  pose proof (assign_role_spec 5 demo_principals "lead" "admin" demo_acyclic) as Hs.
  rewrite (ok_pair _ _ E) in Hs. apply Hs.
Defined.

Lemma revoke_spec_witness :
  (revoke 3 1 demo_granted).1 = Ok tt /\
  grants_of (revoke 3 1 demo_granted).2 "lead" = without 1 (grants_of demo_granted "lead").
Proof.
  assert ((revoke 3 1 demo_granted).1 = Ok tt) as E by (vm_compute; reflexivity).
  split; [exact E|].
  pose proof (revoke_spec 3 demo_granted 1 demo_granted_wf) as Hs.
  rewrite (ok_pair _ _ E) in Hs. apply Hs.
Defined.

Lemma delegate_attenuates_witness :
  exists par new, par ∈ grants_of demo_granted "lead" /\ new ∈ grants_of demo_delegated "agent" /\ gid new = 2 /\
    delegation_depth new < delegation_depth par /\
    forall time, is_expired time new = false -> covers_scope new demo_target = true ->
      allows (permissions new) VmStart = true -> time < 50.
Proof.
  destruct (delegate_attenuates 2 "lead" "agent" {[VmStart]} demo_target demo_constraint demo_granted
    2 demo_delegated demo_delegate_ok) as (par & new & Hp & Hn & _ & Hg & Hd & _ & Hr).
  exists par, new. split; [exact Hp|]. split.
  { rewrite Hg, decide_True by reflexivity. apply elem_of_app. right. apply list_elem_of_here. }
  split; [exact Hn|]. split; [exact Hd|]. intros time H1 H2 H3.
  destruct (Hr time demo_target VmStart H1 H2 H3) as (_ & _ & _ & _ & _ & Hl). exact (Hl 50 eq_refl).
Defined.

Lemma revoke_keeps_delegated_witness :
  exists e, e ∈ grants_of (revoke 3 1 demo_delegated).2 "agent" /\ gid e = 2.
Proof.
  destruct (revoke_keeps_delegated 2 3 "lead" "agent" {[VmStart]} demo_target demo_constraint
    demo_granted 2 demo_delegated 1 (revoke 3 1 demo_delegated).2 demo_granted_wf)
    as (e & He & Hi & _); [reflexivity|by split|exact demo_delegate_ok|discriminate|exact demo_revoke_ok|].
  exists e. exact (conj He Hi).
Defined.

Lemma demo_granted_reach : graph_reach demo_granted.
Proof.
  eapply (gr_grant 1 "lead" demo_perms demo_scope None 2 (Some 100) demo_principals (Ok 1));
    [|reflexivity|done|exact demo_grant_ok].
  repeat (eapply gr_add; [|reflexivity]). apply gr_new.
Qed.

Lemma demo_delegated_reach : graph_reach demo_delegated.
Proof.
  eapply gr_delegate; [exact demo_granted_reach|reflexivity| |exact demo_delegate_ok]. by split.
Qed.

Lemma graph_invariant_witness : graph_wf demo_delegated.
Proof. exact (graph_invariant demo_delegated demo_delegated_reach). Defined.

Lemma delegation_never_logged_witness :
  length (audit demo_delegated) = 2%nat /\
  forall e, e ∈ audit demo_delegated -> change e <> Delegated 2 "lead" "agent" demo_target.
Proof.
  split; [vm_compute; reflexivity|]. intros e. apply (delegation_never_logged demo_delegated demo_delegated_reach).
Defined.

(** The agent may start machines of the tenant, and not stop them. *)
Example demo_enforce :
  enforce 3 demo_delegated "agent" VmStart (Vm "acme" "dev" "p" "v") = Ok tt /\
  enforce 3 demo_delegated "agent" VmStop demo_target = Err (Denied VmStop "/acme/dev") /\
  enforce 100 demo_delegated "agent" VmStart demo_target = Err (Denied VmStart "/acme/dev") /\
  enforce 3 (revoke 3 1 demo_delegated).2 "agent" VmStart demo_target = Ok tt.
Proof. vm_compute. auto. Qed.
