(* ===== verification/Stage2.v ===== *)
(** * Stage-2 translation of the ARM back end ([hv1-arm/src/stage2.rs])

    Descriptors as 64-bit words, and the recorded mappings of one virtual
    machine from intermediate to host physical addresses. *)

From S2P Require Import Prelude.

Definition PAGE_SIZE : Z := 4096.
Definition LARGE_PAGE_SIZE : Z := 2 * 1024 * 1024.
Definition HUGE_PAGE_SIZE : Z := 1024 * 1024 * 1024.
Definition ENTRIES_PER_TABLE : Z := 512.
Definition OA_MASK : Z := 0x0000FFFFFFFFF000.

(** The errors of [hv1_arm::Error] this module returns. *)
Inductive ArmError := InvalidStage2Mapping | OverlappingMapping | InvalidParameter.

(** ** Attributes and descriptors *)

(** A value of the flags type: its bits. *)
Abbreviation Stage2Attrs := Z.

Definition VALID : Stage2Attrs := Z.shiftl 1 0.
Definition TABLE_OR_PAGE : Stage2Attrs := Z.shiftl 1 1.
Definition S2AP_READ : Stage2Attrs := Z.shiftl 1 6.
Definition S2AP_WRITE : Stage2Attrs := Z.shiftl 1 7.
Definition MEMATTR_DEVICE : Stage2Attrs := Z.shiftl 0 4.
Definition MEMATTR_NORMAL : Stage2Attrs := Z.shiftl 3 4.
Definition AF : Stage2Attrs := Z.shiftl 1 10.
Definition XN : Stage2Attrs := Z.shiftl 1 54.

Definition normal_ram : Stage2Attrs :=
  Z.lor (Z.lor (Z.lor (Z.lor (Z.lor VALID TABLE_OR_PAGE) S2AP_READ) S2AP_WRITE) MEMATTR_NORMAL) AF.
Definition device_mmio : Stage2Attrs :=
  Z.lor (Z.lor (Z.lor (Z.lor (Z.lor (Z.lor VALID TABLE_OR_PAGE) S2AP_READ) S2AP_WRITE)
    MEMATTR_DEVICE) AF) XN.
Definition normal_rom : Stage2Attrs :=
  Z.lor (Z.lor (Z.lor (Z.lor VALID TABLE_OR_PAGE) S2AP_READ) MEMATTR_NORMAL) AF.

Record Descriptor := mkDescriptor { raw : Z }.

Definition INVALID : Descriptor := mkDescriptor 0.
Definition table (next_table_phys : Z) : Descriptor :=
  mkDescriptor (Z.lor (Z.land next_table_phys OA_MASK) 3).
Definition block (output : Z) (attrs : Stage2Attrs) : Descriptor :=
  mkDescriptor (Z.lor (Z.lor (Z.land output OA_MASK) (Z.land attrs (bnot 64 2))) 1).
Definition page (output : Z) (attrs : Stage2Attrs) : Descriptor :=
  mkDescriptor (Z.lor (Z.land output OA_MASK) attrs).

Definition is_valid (d : Descriptor) : bool := negb (Z.land (raw d) 1 =? 0).
Definition is_table (d : Descriptor) : bool := Z.land (raw d) 3 =? 3.
Definition output_addr (d : Descriptor) : Z := Z.land (raw d) OA_MASK.

(** ** The mappings of a machine *)

Record Stage2Mapping := mkMapping { ipa : Z; hpa : Z; size : Z; attrs : Stage2Attrs }.

#[global] Instance Stage2Mapping_eq_dec : EqDecision Stage2Mapping.
Proof. solve_decision. Defined.

Record Stage2PageTable := mkTable { vmid : Z; mappings : list Stage2Mapping }.

Definition new (v : Z) : Stage2PageTable := mkTable v [].

Definition set_mappings (ms : list Stage2Mapping) (t : Stage2PageTable) : Stage2PageTable :=
  mkTable (vmid t) ms.

(** The loop over the existing mappings. *)
Fixpoint check_overlap (m : Stage2Mapping) (new_end : Z) (ms : list Stage2Mapping)
    : Res ArmError unit :=
  match ms with
  | [] => mret tt
  | e :: ms' =>
      existing_end ← add 64 (ipa e) (size e);
      if (ipa m <? existing_end) && (ipa e <? new_end) then Err OverlappingMapping
      else check_overlap m new_end ms'
  end.

Definition map_region (m : Stage2Mapping) : ST Stage2PageTable ArmError unit :=
  if negb (Z.land (ipa m) (PAGE_SIZE - 1) =? 0) then st_lift (Err InvalidStage2Mapping)
  else if negb (Z.land (hpa m) (PAGE_SIZE - 1) =? 0) then st_lift (Err InvalidStage2Mapping)
  else if (size m =? 0) || negb (Z.land (size m) (PAGE_SIZE - 1) =? 0)
  then st_lift (Err InvalidStage2Mapping)
  else
    new_end ← st_lift (ok_or (checked_add 64 (ipa m) (size m)) InvalidStage2Mapping);
    _ ← st_read (fun t => check_overlap m new_end (mappings t));
    st_modify (fun t => set_mappings (mappings t ++ [m]) t).

(** [Vec::retain] with a condition that may panic. *)
Fixpoint retain_apart (start end_ : Z) (ms : list Stage2Mapping)
    : Res ArmError (list Stage2Mapping) :=
  match ms with
  | [] => mret []
  | m :: ms' =>
      e ← add 64 (ipa m) (size m);
      rest ← retain_apart start end_ ms';
      mret (if (e <=? start) || (end_ <=? ipa m) then m :: rest else rest)
  end.

Definition unmap_region (start len : Z) : ST Stage2PageTable ArmError unit :=
  if len =? 0 then st_lift (Err InvalidParameter)
  else
    end_ ← st_lift (ok_or (checked_add 64 start len) InvalidParameter);
    ms ← st_read (fun t => retain_apart start end_ (mappings t));
    st_modify (set_mappings ms).

(** [Iterator::find]; the second half of the condition is evaluated only when
    the first holds. *)
Fixpoint lookup_loop (a : Z) (ms : list Stage2Mapping) : Res ArmError (option Stage2Mapping) :=
  match ms with
  | [] => mret None
  | m :: ms' =>
      if ipa m <=? a then
        e ← add 64 (ipa m) (size m);
        if a <? e then mret (Some m) else lookup_loop a ms'
      else lookup_loop a ms'
  end.

Definition lookup (t : Stage2PageTable) (a : Z) : Res ArmError (option Stage2Mapping) :=
  lookup_loop a (mappings t).

Definition translate (t : Stage2PageTable) (a : Z) : Res ArmError (option Z) :=
  lookup t a ≫= fun o : option Stage2Mapping =>
  match o with
  | Some m => off ← sub a (ipa m); h ← add 64 (hpa m) off; mret (Some h)
  | None => mret None
  end.

Definition mapping_count (t : Stage2PageTable) : Z := Z.of_nat (length (mappings t)).

(** ** Descriptors keep their fields apart *)

Lemma oa_bit i : 0 <= i -> Z.testbit OA_MASK i = (12 <=? i) && (i <? 48).
Proof.
  intros Hi. change OA_MASK with (Z.shiftl (Z.ones 36) 12). zcases.
  - rewrite Z.shiftl_spec by lia. apply Z.ones_spec_low. lia.
  - by apply Z.shiftl_spec_low.
  - rewrite Z.shiftl_spec by lia. apply Z.ones_spec_high. lia.
  - lia.
Qed.

Lemma is_valid_bit d : is_valid d = Z.testbit (raw d) 0.
Proof. exact (has_bit (raw d) 0 ltac:(lia)). Qed.

Lemma is_table_bits d : is_table d = Z.testbit (raw d) 0 && Z.testbit (raw d) 1.
Proof.
  unfold is_table. destruct (Z.eqb_spec (Z.land (raw d) 3) 3) as [E|E].
  - pose proof (f_equal (fun z => Z.testbit z 0) E) as H0. pose proof (f_equal (fun z => Z.testbit z 1) E) as H1.
    cbv beta in H0, H1. rewrite Z.land_spec in H0, H1. rewrite andb_true_r in H0, H1. by rewrite H0, H1.
  - symmetry. apply not_true_is_false. intros [H0 H1]%andb_true_iff. apply E. apply Z.bits_inj'. intros i Hi.
    rewrite Z.land_spec. destruct (decide (i = 0)) as [->|]; [by rewrite H0|].
    destruct (decide (i = 1)) as [->|]; [by rewrite H1|].
    change 3 with (Z.ones 2). rewrite Z.ones_spec_high by lia. apply andb_false_r.
Qed.

(** Page-aligned addresses of 48 bits. *)
Definition addr_ok (a : Z) : Prop := fits 48 a /\ a mod PAGE_SIZE = 0.

(** Attributes that leave the address field alone. *)
Definition plain_attrs (at_ : Stage2Attrs) : Prop := fits 64 at_ /\ Z.land at_ OA_MASK = 0.

Lemma addr_bit a i : addr_ok a -> 0 <= i -> Z.testbit a i = Z.testbit a i && ((12 <=? i) && (i <? 48)).
Proof.
  intros [Ha Hm] Hi. zcases; rewrite ?andb_true_r, ?andb_false_r; try done.
  - apply (Z.mod_divide a PAGE_SIZE) in Hm as [k ->]; [|done].
    change PAGE_SIZE with (2 ^ 12). rewrite <- Z.shiftl_mul_pow2 by lia. by apply Z.shiftl_spec_low.
  - apply (fits_testbit 48); [done|lia].
  - lia.
Qed.

Lemma attrs_bit at_ i :
  plain_attrs at_ -> 0 <= i -> Z.testbit at_ i = Z.testbit at_ i && negb ((12 <=? i) && (i <? 48)).
Proof.
  intros [_ Hp] Hi. apply (f_equal (fun z => Z.testbit z i)) in Hp.
  rewrite Z.land_spec, oa_bit, Z.bits_0 in Hp by done. destruct (Z.testbit at_ i), ((12 <=? i) && (i <? 48)); done.
Qed.

Lemma page_bit a at_ i : addr_ok a -> 0 <= i ->
  Z.testbit (raw (page a at_)) i = Z.testbit a i || Z.testbit at_ i.
Proof.
  intros Ha Hi. cbn [raw page]. rewrite Z.lor_spec, Z.land_spec, oa_bit by done. by rewrite <- addr_bit.
Qed.

Lemma block_bit a at_ i : addr_ok a -> fits 64 at_ -> 0 <= i ->
  Z.testbit (raw (block a at_)) i =
  Z.testbit a i || (Z.testbit at_ i && negb (i =? 1)) || (i =? 0).
Proof.
  intros Ha Hf Hi. cbn [raw block]. rewrite !Z.lor_spec, !Z.land_spec, oa_bit by done.
  rewrite <- addr_bit by done. rewrite (testbit_shift1 0 i : 0 <= 0 -> Z.testbit 1 i = (0 =? i)) by lia.
  rewrite (Z.eqb_sym i 0). f_equal. f_equal.
  destruct (Z.lt_ge_cases i 64).
  - rewrite testbit_bnot by (unfold fits; lia). rewrite (testbit_shift1 1 i : 0 <= 1 -> Z.testbit 2 i = (1 =? i)) by lia.
    by rewrite (Z.eqb_sym 1 i).
  - by rewrite (fits_testbit 64 at_ i Hf) by lia.
Qed.

Lemma table_bit a i : addr_ok a -> 0 <= i ->
  Z.testbit (raw (table a)) i = Z.testbit a i || (i <? 2).
Proof.
  intros Ha Hi. cbn [raw table]. rewrite Z.lor_spec, Z.land_spec, oa_bit by done. rewrite <- addr_bit by done.
  f_equal. change 3 with (Z.ones 2). zcases; [apply Z.ones_spec_low|apply Z.ones_spec_high]; lia.
Qed.

(** A page, block or table descriptor gives back the address it was built from,
    any page-aligned one of 48 bits.  Pages also give back their attributes; a
    block is valid and never taken for a table; a table is valid and a table. *)
Theorem descriptor_roundtrip a at_ :
  addr_ok a -> plain_attrs at_ ->
  output_addr (page a at_) = a /\ output_addr (block a at_) = a /\ output_addr (table a) = a /\
  Z.ldiff (raw (page a at_)) OA_MASK = at_ /\
  is_valid (page a at_) = Z.testbit at_ 0 /\
  is_valid (block a at_) = true /\ is_table (block a at_) = false /\
  is_valid (table a) = true /\ is_table (table a) = true.
Proof.
  intros Ha Hp. rewrite !is_valid_bit, !is_table_bits, !block_bit, !table_bit, !page_bit by (done || apply Hp).
  assert (Z.testbit a 0 = false /\ Z.testbit a 1 = false) as [-> ->].
  { rewrite (addr_bit a 0), (addr_bit a 1) by done. by rewrite !andb_false_r. }
  split_and!; try done; try (by rewrite ?orb_true_r, ?andb_false_r);
    apply Z.bits_inj'; intros i Hi; unfold output_addr; rewrite ?Z.land_spec, ?Z.ldiff_spec, oa_bit by done;
    rewrite ?page_bit, ?block_bit, ?table_bit by (done || apply Hp);
    rewrite (addr_bit a i Ha Hi); try rewrite (attrs_bit at_ i Hp Hi);
    destruct (Z.testbit a i); try destruct (Z.testbit at_ i); zcases; try done; lia.
Qed.

(** A page descriptor for ordinary memory is indistinguishable from a table: the
    two lowest bits are set in both. *)
Theorem page_is_table a : addr_ok a ->
  is_table (page a normal_ram) = true /\ is_table (page a device_mmio) = true.
Proof. intros Ha. rewrite !is_table_bits, !page_bit by done. by rewrite !orb_true_r. Qed.

(** ** The table as a partial function *)

Definition covers (m : Stage2Mapping) (a : Z) : Prop := ipa m <= a < ipa m + size m.
Definition coversb (a : Z) (m : Stage2Mapping) : bool := (ipa m <=? a) && (a <? ipa m + size m).

Lemma coversb_spec a m : coversb a m = true <-> covers m a.
Proof. unfold coversb, covers. rewrite andb_true_iff, Z.leb_le, Z.ltb_lt. lia. Qed.

(** Two ranges of guest addresses without a common address. *)
Definition apart (m m' : Stage2Mapping) : Prop :=
  ipa m + size m <= ipa m' \/ ipa m' + size m' <= ipa m.

Definition clashes (m e : Stage2Mapping) : bool :=
  (ipa m <? ipa e + size e) && (ipa e <? ipa m + size m).

Lemma clashes_apart m e : clashes m e = false <-> apart m e.
Proof. unfold clashes, apart. rewrite andb_false_iff, !Z.ltb_ge. lia. Qed.

Definition off_range (start end_ : Z) (m : Stage2Mapping) : bool :=
  (ipa m + size m <=? start) || (end_ <=? ipa m).

(** The values a caller can pass. *)
Definition arg_ok (m : Stage2Mapping) : Prop := fits 64 (ipa m) /\ fits 64 (hpa m) /\ fits 64 (size m).

(** What [map_region] asks of a mapping by itself. *)
Definition acceptable (m : Stage2Mapping) : Prop :=
  Z.land (ipa m) (PAGE_SIZE - 1) = 0 /\ Z.land (hpa m) (PAGE_SIZE - 1) = 0 /\
  0 < size m /\ Z.land (size m) (PAGE_SIZE - 1) = 0 /\ ipa m + size m < 2 ^ 64.

Record table_wf (t : Stage2PageTable) : Prop := {
  tw_each : Forall (fun m => arg_ok m /\ acceptable m) (mappings t);
  tw_apart : ForallOrdPairs apart (mappings t)
}.

Definition no_wrap (m : Stage2Mapping) : Prop := ipa m + size m < 2 ^ 64.

Lemma wf_no_wrap t : table_wf t -> Forall no_wrap (mappings t).
Proof. intros [Hm _]. eapply Forall_impl; [exact Hm|]. intros m [_ (_ & _ & _ & _ & Ha)]. exact Ha. Qed.

Lemma check_overlap_ok m ms :
  Forall no_wrap ms ->
  check_overlap m (ipa m + size m) ms = if existsb (clashes m) ms then Err OverlappingMapping else Ok tt.
Proof.
  induction 1 as [|e ms He _ IH]; [done|]. cbn [check_overlap existsb]. rewrite add_ok by done.
  cbn [mbind Res_bind]. unfold clashes at 1. destruct (_ && _); [done|]. apply IH.
Qed.

Lemma retain_apart_ok start end_ ms :
  Forall no_wrap ms -> retain_apart start end_ ms = Ok (List.filter (off_range start end_) ms).
Proof.
  induction 1 as [|e ms He _ IH]; [done|]. cbn [retain_apart List.filter]. rewrite add_ok by done.
  rewrite IH. done.
Qed.

Lemma lookup_loop_ok a ms : Forall no_wrap ms -> lookup_loop a ms = Ok (List.find (coversb a) ms).
Proof.
  induction 1 as [|e ms He _ IH]; [done|]. cbn [lookup_loop List.find]. rewrite add_ok by done.
  cbn [mbind Res_bind]. rewrite IH.
  change (coversb a e) with ((ipa e <=? a) && (a <? ipa e + size e)).
  by destruct (ipa e <=? a), (a <? ipa e + size e).
Qed.

Lemma apart_sym m m' : apart m m' -> apart m' m.
Proof. unfold apart. lia. Qed.

(** No address lies in two mappings. *)
Lemma covered_once ms a x y :
  ForallOrdPairs apart ms -> x ∈ ms -> y ∈ ms -> covers x a -> covers y a -> x = y.
Proof.
  induction 1 as [|e ms He _ IH]; [by intros ?%elem_of_nil|].
  assert (forall z, z ∈ ms -> covers z a -> covers e a -> False) as Hno.
  { intros z Hz. pose proof (proj1 (Forall_forall _ _) He z Hz) as Hap. unfold apart, covers in *. lia. }
  intros [->|Hx]%elem_of_cons [->|Hy]%elem_of_cons Cx Cy; [done|..|by apply IH]; exfalso; by eapply Hno.
Qed.

Lemma pairs_snoc (ms : list Stage2Mapping) m :
  ForallOrdPairs apart ms -> Forall (apart m) ms -> ForallOrdPairs apart (ms ++ [m]).
Proof.
  induction 1 as [|e ms He _ IH]; intros Hm; simpl; [repeat constructor|].
  apply Forall_cons in Hm as [Hme Hm]. constructor; [|by apply IH].
  apply Forall_app. split; [done|]. apply Forall_singleton. by apply apart_sym.
Qed.

Lemma pairs_filter (f : Stage2Mapping -> bool) ms :
  ForallOrdPairs apart ms -> ForallOrdPairs apart (List.filter f ms).
Proof.
  induction 1 as [|e ms He _ IH]; simpl; [constructor|]. destruct (f e); [|done].
  constructor; [|done]. apply Forall_forall. intros x Hx. apply list_elem_of_In, filter_In in Hx as [Hx _].
  apply (proj1 (Forall_forall _ _) He). by apply list_elem_of_In.
Qed.

Lemma find_filter_unique {A} (f g : A -> bool) (l : list A) :
  (forall x y, x ∈ l -> y ∈ l -> f x = true -> f y = true -> x = y) ->
  List.find f (List.filter g l) =
  match List.find f l with Some x => if g x then Some x else None | None => None end.
Proof.
  induction l as [|x l IH]; intros Hu; [done|]. simpl.
  assert (forall a b, a ∈ l -> b ∈ l -> f a = true -> f b = true -> a = b) as Hu'.
  { intros a b Ha Hb. apply Hu; by apply list_elem_of_further. }
  destruct (f x) eqn:Hf.
  - destruct (g x) eqn:Hg; simpl; [by rewrite Hf|]. rewrite IH by done.
    destruct (List.find f l) as [y|] eqn:Hy; [|done]. apply find_some in Hy as [Hin Hfy].
    apply list_elem_of_In in Hin.
    rewrite <- (Hu x y (list_elem_of_here _ _) (list_elem_of_further _ _ _ Hin) Hf Hfy). by rewrite Hg.
  - rewrite <- IH by done. destruct (g x); simpl; [by rewrite Hf|done].
Qed.

(** ** The operations *)

Lemma lookup_total t a : table_wf t -> lookup t a = Ok (List.find (coversb a) (mappings t)).
Proof. intros Ht. unfold lookup. by apply lookup_loop_ok, wf_no_wrap. Qed.

(** What the guards of [map_region] let through. *)
Lemma map_region_cases m t :
  arg_ok m -> Forall no_wrap (mappings t) ->
  match map_region m t with
  | (Ok _, t') => acceptable m /\ Forall (apart m) (mappings t) /\ t' = set_mappings (mappings t ++ [m]) t
  | (Err e, t') => t' = t /\
      (e = InvalidStage2Mapping /\ ~ acceptable m \/
       e = OverlappingMapping /\ acceptable m /\ Exists (fun m' => ~ apart m m') (mappings t))
  | (Panic _, _) => False
  end.
Proof.
  intros (_ & _ & Hs) Hn. unfold map_region, acceptable.
  destruct (Z.eqb_spec (Z.land (ipa m) (PAGE_SIZE - 1)) 0); [|simpl; tauto]. cbn [negb].
  destruct (Z.eqb_spec (Z.land (hpa m) (PAGE_SIZE - 1)) 0); [|simpl; tauto]. cbn [negb].
  destruct (Z.eqb_spec (size m) 0); [simpl; split; [done|left; split; [done|lia]]|].
  destruct (Z.eqb_spec (Z.land (size m) (PAGE_SIZE - 1)) 0); [|simpl; tauto]. cbn [negb orb].
  rewrite st_bind_lift. unfold checked_add.
  destruct (Z.ltb_spec (ipa m + size m) (2 ^ 64)); [|simpl; split; [done|left; split; [done|lia]]].
  cbn [ok_or]. rewrite st_bind_read, check_overlap_ok by done.
  assert (0 < size m) by (unfold fits in Hs; lia).
  destruct (existsb (clashes m) (mappings t)) eqn:Hc.
  - split; [done|]. right. split_and!; try done. apply existsb_exists in Hc as (x & Hin & He).
    apply Exists_exists. exists x. split; [by apply list_elem_of_In|]. rewrite <- clashes_apart. congruence.
  - simpl. split_and!; try done. apply Forall_forall. intros x Hx%list_elem_of_In. apply clashes_apart.
    apply not_true_is_false. intros Hcx. rewrite (proj2 (existsb_exists _ _)) in Hc; [done|by exists x].
Qed.

Lemma map_region_wf m t : table_wf t -> arg_ok m -> table_wf (map_region m t).2.
Proof.
  intros Ht Hm. pose proof (map_region_cases m t Hm (wf_no_wrap t Ht)) as Hc.
  destruct (map_region m t) as [[u|e|p] t']; [|by destruct Hc as [-> _]|done].
  destruct Hc as (Ha & Hap & ->), Ht as [He Hp]. split; simpl.
  - apply Forall_app. split; [done|]. by apply Forall_singleton.
  - by apply pairs_snoc.
Qed.

Lemma unmap_region_cases start len t :
  Forall no_wrap (mappings t) ->
  unmap_region start len t =
  if decide (len <> 0 /\ start + len < 2 ^ 64)
  then (Ok tt, set_mappings (List.filter (off_range start (start + len)) (mappings t)) t)
  else (Err InvalidParameter, t).
Proof.
  intros Hn. unfold unmap_region. destruct (Z.eqb_spec len 0); [by rewrite decide_False by lia|].
  rewrite st_bind_lift. unfold checked_add.
  destruct (Z.ltb_spec (start + len) (2 ^ 64)); [|by rewrite decide_False by lia].
  cbn [ok_or]. rewrite decide_True by lia. by rewrite st_bind_read, retain_apart_ok by done.
Qed.

Lemma unmap_region_wf start len t : table_wf t -> table_wf (unmap_region start len t).2.
Proof.
  intros Ht. rewrite unmap_region_cases by (by apply wf_no_wrap). destruct (decide _); [|done].
  destruct Ht as [He Hp]. split; simpl; [|by apply pairs_filter].
  apply Forall_forall. intros x Hx%list_elem_of_In%filter_In.
  apply (proj1 (Forall_forall _ _) He). apply list_elem_of_In, Hx.
Qed.

Inductive table_reach : Stage2PageTable -> Prop :=
| tr_new v : table_reach (new v)
| tr_map t m : table_reach t -> arg_ok m -> table_reach (map_region m t).2
| tr_unmap t start len : table_reach t -> table_reach (unmap_region start len t).2.

Lemma table_reach_wf t : table_reach t -> table_wf t.
Proof.
  induction 1; [by split; constructor|by apply map_region_wf|by apply unmap_region_wf].
Qed.

(** Mapping.  In every table that can come about the call returns; it takes a
    mapping exactly when it is page-aligned, not empty, ends within 64 bits and
    has no guest address in common with the mappings there; then the guest
    addresses of the range lead to the new mapping and all others to where they
    led; a refused mapping changes nothing. *)
Theorem map_region_spec t m :
  table_reach t -> arg_ok m ->
  match map_region m t with
  | (Ok _, t') => acceptable m /\ Forall (apart m) (mappings t) /\ vmid t' = vmid t /\
      forall a, lookup t' a = if coversb a m then Ok (Some m) else lookup t a
  | (Err e, t') => t' = t /\
      (e = InvalidStage2Mapping /\ ~ acceptable m \/
       e = OverlappingMapping /\ acceptable m /\ Exists (fun m' => ~ apart m m') (mappings t))
  | (Panic _, _) => False
  end.
Proof.
  intros Ht%table_reach_wf Hm. pose proof (map_region_cases m t Hm (wf_no_wrap t Ht)) as Hc.
  pose proof (map_region_wf m t Ht Hm) as Hw.
  destruct (map_region m t) as [[u|e|p] t']; [|done..]. destruct Hc as (Ha & Hap & ->).
  split_and!; try done. intros a. rewrite !lookup_total by done. simpl. rewrite find_app. simpl.
  destruct (List.find (coversb a) (mappings t)) as [x|] eqn:Hx; [|by destruct (coversb a m)].
  apply find_some in Hx as [Hin%list_elem_of_In Hcov]. destruct (coversb a m) eqn:Hcm; [|done].
  pose proof (proj1 (Forall_forall _ _) Hap x Hin). rewrite coversb_spec in Hcov, Hcm.
  unfold covers, apart in *. lia.
Qed.

(** Unmapping.  A range that is not empty and ends within 64 bits loses every
    mapping that meets it, and no other mapping: afterwards no address of the
    range is mapped, and an address whose mapping lies off the range leads where
    it led.  Any other range is an error that changes nothing. *)
Theorem unmap_region_spec t start len :
  table_reach t -> fits 64 start -> fits 64 len ->
  match unmap_region start len t with
  | (Ok _, t') => 0 < len /\ start + len < 2 ^ 64 /\
      (forall a, start <= a < start + len -> lookup t' a = Ok None) /\
      (forall a m, lookup t a = Ok (Some m) ->
         lookup t' a = Ok (if off_range start (start + len) m then Some m else None)) /\
      (forall a, lookup t a = Ok None -> lookup t' a = Ok None)
  | (Err e, t') => t' = t /\ e = InvalidParameter /\ (len = 0 \/ 2 ^ 64 <= start + len)
  | (Panic _, _) => False
  end.
Proof.
  intros Ht%table_reach_wf Hst Hln. pose proof (unmap_region_wf start len t Ht) as Hw.
  rewrite unmap_region_cases in * by (by apply wf_no_wrap).
  destruct (decide _) as [[Hl He]|Hn]; [|by split_and!; [..|unfold fits in *; lia]]. simpl in Hw.
  assert (forall a, lookup (set_mappings (List.filter (off_range start (start + len)) (mappings t)) t) a =
    Ok (match List.find (coversb a) (mappings t) with
        | Some m => if off_range start (start + len) m then Some m else None | None => None end)) as Hlk.
  { intros a. rewrite lookup_total by done. simpl. f_equal. apply find_filter_unique.
    intros x y Hx Hy. rewrite !coversb_spec. apply (covered_once (mappings t) a x y); [apply Ht|done..]. }
  split_and!; [unfold fits in *; lia|done|..].
  - intros a Ha. rewrite Hlk. destruct (List.find _ _) as [m|] eqn:Hm; [|done].
    apply find_some in Hm as [_ Hc%coversb_spec]. unfold off_range. unfold covers in Hc.
    zcases; try done; lia.
  - intros a m. rewrite Hlk, lookup_total by done. by intros [= ->].
  - intros a. rewrite Hlk, lookup_total by done. by intros [= ->].
Qed.

(** The mapping an address has. *)
Lemma translate_covered t a m :
  table_reach t -> m ∈ mappings t -> covers m a ->
  translate t a = (if hpa m + (a - ipa m) <? 2 ^ 64 then Ok (Some (hpa m + (a - ipa m))) else Panic ArithOverflow) /\
  forall m', m' ∈ mappings t -> covers m' a -> m' = m.
Proof.
  intros Ht%table_reach_wf Hin Hc.
  assert (forall m', m' ∈ mappings t -> covers m' a -> m' = m) as Hu.
  { intros m' Hin' Hc'. apply (covered_once (mappings t) a m' m); [apply Ht|done..]. }
  split; [|done]. unfold translate. rewrite lookup_total by done. destruct (List.find _ _) as [x|] eqn:Hx.
  - apply find_some in Hx as [Hx%list_elem_of_In Hcx%coversb_spec]. rewrite (Hu x Hx Hcx).
    unfold covers in Hc. cbn [mbind Res_bind]. rewrite sub_ok by lia. cbn [mbind Res_bind].
    unfold add. by destruct (_ <? _).
  - apply list_elem_of_In in Hin. apply (find_none _ _ Hx) in Hin. by rewrite (proj2 (coversb_spec a m)) in Hin.
Qed.

(** C14: Translation, in every table that can come about.  An address of a mapping
    translates to the same offset in the host range when that is an address of 64
    bits, and panics when it is not, since mapping does not check the host range; the
    mapping is the only one of the address; an address in no mapping translates to
    nothing. *)
Theorem translate_spec t a :
  table_reach t ->
  (forall m, m ∈ mappings t -> covers m a ->
     translate t a = (if hpa m + (a - ipa m) <? 2 ^ 64 then Ok (Some (hpa m + (a - ipa m))) else Panic ArithOverflow) /\
     forall m', m' ∈ mappings t -> covers m' a -> m' = m) /\
  ((forall m, m ∈ mappings t -> ~ covers m a) -> translate t a = Ok None).
Proof.
  intros Ht. split; [intros m; by apply translate_covered|].
  intros Hno. unfold translate. rewrite lookup_total by by apply table_reach_wf.
  destruct (List.find _ _) as [x|] eqn:Hx; [|done].
  apply find_some in Hx as [Hx%list_elem_of_In Hcx%coversb_spec]. by destruct (Hno x Hx).
Qed.

(** The host range is not checked: where it runs past 64 bits, translating an
    address there panics. *)
Theorem translate_host_overflow t a m :
  table_reach t -> m ∈ mappings t -> covers m a -> 2 ^ 64 <= hpa m + (a - ipa m) ->
  translate t a = Panic ArithOverflow.
Proof.
  intros Ht Hin Hc Hh. destruct (translate_covered t a m Ht Hin Hc) as [-> _].
  by rewrite (proj2 (Z.ltb_ge _ _)) by lia.
Qed.

(** ** Witnesses *)

Definition ram_mapping : Stage2Mapping := mkMapping 0x40000000 0x80000000 0x10000 normal_ram.
Definition uart_mapping : Stage2Mapping := mkMapping 0x09000000 0x09000000 0x1000 device_mmio.
Definition top_mapping : Stage2Mapping := mkMapping 0x1000 (2 ^ 64 - 4096) 0x2000 normal_ram.

Definition demo_table : Stage2PageTable := (map_region ram_mapping (new 1)).2.

Lemma demo_table_reach : table_reach demo_table.
Proof. apply tr_map; [apply tr_new|]. unfold arg_ok, fits. simpl. lia. Qed.

Lemma descriptor_roundtrip_witness :
  output_addr (page 0x80000000 normal_ram) = 0x80000000 /\
  Z.ldiff (raw (page 0x80000000 normal_ram)) OA_MASK = normal_ram.
Proof.
  destruct (descriptor_roundtrip 0x80000000 normal_ram) as (H1 & _ & _ & H4 & _).
  - split; [unfold fits; lia|reflexivity].
  - split; [unfold fits; vm_compute; split; congruence|reflexivity].
  - exact (conj H1 H4).
Defined.

Lemma page_is_table_witness : is_table (page 0x80000000 normal_ram) = true.
Proof. apply page_is_table. split; [unfold fits; lia|reflexivity]. Defined.

Lemma map_region_spec_witness :
  (map_region uart_mapping demo_table).1 = Ok tt /\
  lookup (map_region uart_mapping demo_table).2 0x09000010 = Ok (Some uart_mapping) /\
  (map_region uart_mapping (map_region uart_mapping demo_table).2).1 = Err OverlappingMapping.
Proof.
  split; [vm_compute; reflexivity|]. split; [|vm_compute; reflexivity].
  pose proof (map_region_spec demo_table uart_mapping demo_table_reach
    ltac:(unfold arg_ok, fits; simpl; lia)) as Hs.
  destruct (map_region uart_mapping demo_table) as [[u|e|p] t'] eqn:E;
    [|vm_compute in E; discriminate..].
  destruct Hs as (_ & _ & _ & Hl). exact (Hl 0x09000010).
Defined.

Lemma unmap_region_spec_witness :
  (unmap_region 0x40008000 0x1000 demo_table).1 = Ok tt /\
  lookup (unmap_region 0x40008000 0x1000 demo_table).2 0x40008010 = Ok None.
Proof.
  split; [vm_compute; reflexivity|].
  pose proof (unmap_region_spec demo_table 0x40008000 0x1000 demo_table_reach
    ltac:(unfold fits; lia) ltac:(unfold fits; lia)) as Hs.
  destruct (unmap_region 0x40008000 0x1000 demo_table) as [[u|e|p] t'] eqn:E;
    [|vm_compute in E; discriminate..].
  destruct Hs as (_ & _ & Hl & _). apply Hl. lia.
Defined.

Lemma translate_spec_witness : translate demo_table 0x40001234 = Ok (Some 0x80001234).
Proof.
  destruct (translate_spec demo_table 0x40001234 demo_table_reach) as [Ht _].
  apply (Ht ram_mapping); [apply list_elem_of_here|unfold covers; simpl; lia].
Defined.

Lemma translate_host_overflow_witness :
  translate (map_region top_mapping (new 1)).2 0x2000 = Panic ArithOverflow.
Proof.
  apply (translate_host_overflow _ _ top_mapping);
    [|apply list_elem_of_here|unfold covers; simpl; lia|simpl; lia].
  apply tr_map; [apply tr_new|]. unfold arg_ok, fits. simpl. lia.
Defined.
