(* ===== verification/Vgic.v ===== *)
(** * The virtual interrupt controller of the ARM back end ([hv1-arm/src/vgic.rs])

    The distributor with the state of every interrupt, the redistributors, and the
    injection of interrupts. *)

From S2P Require Import Prelude.

Definition MAX_SPI : Z := 988.
Definition MAX_INTID : Z := 1020.
Definition SGI_END : Z := 16.
Definition PPI_END : Z := 32.
Definition SPI_END : Z := 1020.

(** [hv1_arm::Error]. *)
Inductive GicError :=
  | AlreadyInitialized | El2NotAvailable | NoVirtualizationSupport | Stage2Fault | Stage2AllocationFailed
  | InvalidStage2Mapping | OverlappingMapping | VgicInitFailed | VgicDistributorError | VgicRedistributorError
  | InvalidInterruptId | VcpuCreateFailed | VcpuAlreadyRunning | InvalidVcpuState | SysregAccessFault
  | UnknownSysreg | HvcError | SmcTrapped | AllocationFailed | InvalidGuestState | VmExitError
  | InvalidParameter | OutOfMemory | NotSupported | Internal.

Inductive InterruptState := Inactive | Pending | Active | ActiveAndPending.
#[global] Instance InterruptState_eq_dec : EqDecision InterruptState.
Proof. solve_decision. Defined.

Inductive TriggerType := Level | Edge.

Record InterruptConfig := mkIrq {
  enabled : bool;
  state : InterruptState;
  trigger : TriggerType;
  priority : Z;
  target_cpus : Z;
  group : Z
}.

Definition default_irq : InterruptConfig := mkIrq false Inactive Level 0xFF 0x01 0.

Definition set_enabled (b : bool) (i : InterruptConfig) : InterruptConfig :=
  mkIrq b (state i) (trigger i) (priority i) (target_cpus i) (group i).
Definition set_state (s : InterruptState) (i : InterruptConfig) : InterruptConfig :=
  mkIrq (enabled i) s (trigger i) (priority i) (target_cpus i) (group i).
Definition set_trigger (t : TriggerType) (i : InterruptConfig) : InterruptConfig :=
  mkIrq (enabled i) (state i) t (priority i) (target_cpus i) (group i).
Definition set_prio (p : Z) (i : InterruptConfig) : InterruptConfig :=
  mkIrq (enabled i) (state i) (trigger i) p (target_cpus i) (group i).
Definition set_targets (m : Z) (i : InterruptConfig) : InterruptConfig :=
  mkIrq (enabled i) (state i) (trigger i) (priority i) m (group i).

(** A value of the flags type: its bits. *)
Abbreviation DistributorCtrl := Z (only parsing).
Definition ENABLE_GRP0 : DistributorCtrl := Z.shiftl 1 0.
Definition ENABLE_GRP1 : DistributorCtrl := Z.shiftl 1 1.
Definition ARE_S : DistributorCtrl := Z.shiftl 1 4.

Record VirtualDistributor := mkDist { d_ctrl : DistributorCtrl; irqs : list InterruptConfig; initialized : bool }.
Abbreviation Gic := (ST VirtualDistributor GicError).

Definition dist_new : VirtualDistributor := mkDist 0 (replicate (Z.to_nat MAX_INTID) default_irq) false.

Definition set_irqs (l : list InterruptConfig) (d : VirtualDistributor) : VirtualDistributor := mkDist (d_ctrl d) l (initialized d).
Definition update (idx : Z) (f : InterruptConfig -> InterruptConfig) (d : VirtualDistributor) : VirtualDistributor :=
  set_irqs (alter f (Z.to_nat idx) (irqs d)) d.

(** The loops over the software and the private interrupts. *)
Fixpoint update_range (n : nat) (i : Z) (f : InterruptConfig -> InterruptConfig) (d : VirtualDistributor) : VirtualDistributor :=
  match n with
  | O => d
  | S n' => update_range n' (i + 1) f (update i f d)
  end.

Definition dist_initialize : Gic unit :=
  b ← st_gets initialized;
  if b : bool then st_lift (Err AlreadyInitialized)
  else
    _ ← st_modify (update_range (Z.to_nat SGI_END) 0 (fun i => set_enabled true (set_trigger Edge i)));
    _ ← st_modify (update_range (Z.to_nat (PPI_END - SGI_END)) SGI_END (set_trigger Level));
    st_modify (fun d => mkDist (d_ctrl d) (irqs d) true).

Definition set_ctrl (c : DistributorCtrl) (d : VirtualDistributor) : VirtualDistributor := mkDist c (irqs d) (initialized d).
Definition ctrl (d : VirtualDistributor) : DistributorCtrl := d_ctrl d.

Definition enable_irq (intid : Z) : Gic unit :=
  if MAX_INTID <=? intid then st_lift (Err InvalidInterruptId) else st_modify (update intid (set_enabled true)).
Definition disable_irq (intid : Z) : Gic unit :=
  if MAX_INTID <=? intid then st_lift (Err InvalidInterruptId) else st_modify (update intid (set_enabled false)).
Definition set_priority (intid prio : Z) : Gic unit :=
  if MAX_INTID <=? intid then st_lift (Err InvalidInterruptId) else st_modify (update intid (set_prio prio)).
Definition set_target (intid mask : Z) : Gic unit :=
  if (intid <? PPI_END) || (MAX_INTID <=? intid) then st_lift (Err InvalidInterruptId) else st_modify (update intid (set_targets mask)).

(** An index out of range panics. *)
Definition irq_at (idx : Z) (d : VirtualDistributor) : Res GicError InterruptConfig :=
  match irqs d !! Z.to_nat idx with Some i => Ok i | None => Panic IndexOutOfBounds end.

Definition pend (s : InterruptState) : InterruptState :=
  match s with Inactive => Pending | Active => ActiveAndPending | other => other end.
Definition take_pending (s : InterruptState) : InterruptState :=
  match s with Pending => Active | ActiveAndPending => Active | other => other end.
Definition end_active (s : InterruptState) : InterruptState :=
  match s with Active => Inactive | ActiveAndPending => Pending | other => other end.

Definition set_pending (intid : Z) : Gic unit :=
  if MAX_INTID <=? intid then st_lift (Err InvalidInterruptId)
  else
    i ← st_read (irq_at intid);
    if negb (enabled i) then mret tt else st_modify (update intid (fun i => set_state (pend (state i)) i)).

(** The scan of [acknowledge] from number [i] on.  [1 << cpu_id] is computed in a byte;
    a shift by eight or more panics. *)
Fixpoint best_from (l : list InterruptConfig) (i cpu_id : Z) (best : option Z) (best_prio : Z) : Res GicError (option Z) :=
  match l with
  | [] => Ok best
  | irq :: l' =>
      let next := best_from l' (i + 1) cpu_id best best_prio in
      if negb (enabled irq) then next
      else if negb (bool_decide (state irq = Pending)) && negb (bool_decide (state irq = ActiveAndPending)) then next
      else
        skip ← (if PPI_END <=? i then
                  if 8 <=? cpu_id then Panic ArithOverflow else Ok (Z.land (target_cpus irq) (Z.shiftl 1 cpu_id) =? 0)
                else Ok false);
        if skip : bool then next
        else if priority irq <? best_prio then best_from l' (i + 1) cpu_id (Some i) (priority irq)
        else next
  end.

Definition acknowledge (cpu_id : Z) : Gic (option Z) :=
  best ← st_read (fun d => best_from (irqs d) 0 cpu_id None 0xFF);
  match best with
  | Some id => _ ← st_modify (update id (fun i => set_state (take_pending (state i)) i)); mret (Some id)
  | None => mret None
  end.

Definition eoi (intid : Z) : Gic unit :=
  if MAX_INTID <=? intid then st_lift (Err InvalidInterruptId)
  else st_modify (update intid (fun i => set_state (end_active (state i)) i)).

Definition irq_config (intid : Z) : Gic InterruptConfig :=
  if MAX_INTID <=? intid then st_lift (Err InvalidInterruptId) else st_read (irq_at intid).

(** ** Redistributors and the whole controller *)

Record VirtualRedistributor := mkRedist { cpu_id : Z; wake_pending : bool }.
Definition redist_new (c : Z) : VirtualRedistributor := mkRedist c false.
Definition wake (r : VirtualRedistributor) : VirtualRedistributor := mkRedist (cpu_id r) true.
Definition take_wake (r : VirtualRedistributor) : bool * VirtualRedistributor := (wake_pending r, mkRedist (cpu_id r) false).

Record VirtualGic := mkGic { distributor : VirtualDistributor; redistributors : list VirtualRedistributor }.

Definition gic_new (num_cpus : Z) : Res GicError VirtualGic :=
  if num_cpus =? 0 then Err InvalidParameter else Ok (mkGic dist_new (redist_new <$> seqZ 0 num_cpus)).

Definition on_dist {A} (f : Gic A) : ST VirtualGic GicError A := fun g =>
  let '(r, d) := f (distributor g) in (r, mkGic d (redistributors g)).

Definition gic_initialize : ST VirtualGic GicError unit := on_dist dist_initialize.
Definition inject_spi (intid : Z) : ST VirtualGic GicError unit :=
  if negb ((PPI_END <=? intid) && (intid <? SPI_END)) then st_lift (Err InvalidInterruptId) else on_dist (set_pending intid).
Definition inject_sgi (from_cpu to_cpu intid : Z) : ST VirtualGic GicError unit :=
  if SGI_END <=? intid then st_lift (Err InvalidInterruptId) else on_dist (set_pending intid).

(** ** The scan of [acknowledge] *)

Section Scan.
Context (c : Z).

(** An interrupt that may be taken by CPU [c]: enabled, pending, and, when it is shared,
    routed to [c]. *)
Definition pendingb (s : InterruptState) : bool :=
  match s with Pending | ActiveAndPending => true | _ => false end.
Definition activeb (s : InterruptState) : bool :=
  match s with Active | ActiveAndPending => true | _ => false end.
Definition eligible (i : Z) (irq : InterruptConfig) : bool :=
  enabled irq && pendingb (state irq) && ((i <? PPI_END) || Z.testbit (target_cpus irq) c).

(** [k] is the first interrupt of [l], numbered from [i], with the best priority below [bp]. *)
Definition first_best (l : list InterruptConfig) (i bp : Z) (k : nat) (irq : InterruptConfig) : Prop :=
  l !! k = Some irq /\ eligible (i + Z.of_nat k) irq = true /\ priority irq < bp /\
  forall j irq', l !! j = Some irq' -> eligible (i + Z.of_nat j) irq' = true ->
    priority irq <= priority irq' /\ ((j < k)%nat -> priority irq < priority irq').
Definition none_better (l : list InterruptConfig) (i bp : Z) : Prop :=
  forall j irq', l !! j = Some irq' -> eligible (i + Z.of_nat j) irq' = true -> bp <= priority irq'.

Lemma pendingb_decide s :
  negb (bool_decide (s = Pending)) && negb (bool_decide (s = ActiveAndPending)) = negb (pendingb s).
Proof. destruct s; reflexivity. Qed.

Lemma target_bit m : 0 <= c -> (Z.land m (Z.shiftl 1 c) =? 0) = negb (Z.testbit m c).
Proof.
  intros Hc. rewrite Z.shiftl_1_l. destruct (Z.testbit m c) eqn:E; simpl.
  - apply Z.eqb_neq. intros H. apply (f_equal (fun z => Z.testbit z c)) in H.
    rewrite Z.land_spec, Z.pow2_bits_true, Z.testbit_0_l, E in H by lia. discriminate.
  - apply Z.eqb_eq, Z.bits_inj_0. intros n. rewrite Z.land_spec, Z.pow2_bits_eqb by lia.
    destruct (Z.eqb_spec c n) as [<-|]; [rewrite E; reflexivity|apply andb_false_r].
Qed.

(** One turn of the scan, for a CPU whose mask bit exists. *)
Lemma best_from_cons irq l i best bp :
  0 <= c < 8 ->
  best_from (irq :: l) i c best bp =
  if eligible i irq && (priority irq <? bp) then best_from l (i + 1) c (Some i) (priority irq)
  else best_from l (i + 1) c best bp.
Proof.
  intros Hc. simpl. rewrite pendingb_decide. unfold eligible.
  destruct (enabled irq), (pendingb (state irq)); simpl; try reflexivity.
  rewrite target_bit by lia. rewrite (proj2 (Z.leb_gt 8 c)) by lia.
  unfold PPI_END. destruct (Z.leb_spec 32 i), (Z.ltb_spec i 32); try lia; simpl; [|reflexivity].
  destruct (Z.testbit (target_cpus irq) c); reflexivity.
Qed.

Lemma shift_index i j : i + Z.of_nat (S j) = i + 1 + Z.of_nat j.
Proof. lia. Qed.

Lemma none_better_cons irq l i bp :
  none_better (irq :: l) i bp <-> (eligible i irq = true -> bp <= priority irq) /\ none_better l (i + 1) bp.
Proof.
  split.
  - intros H. split; [intros He; apply (H 0%nat); [reflexivity|rewrite Z.add_0_r; exact He]|].
    intros j x Hj Hx. apply (H (S j)); [exact Hj|]. rewrite shift_index. exact Hx.
  - intros [H0 H] [|j] x Hj Hx; [injection Hj as <-; rewrite Z.add_0_r in Hx; auto|].
    apply (H j); [exact Hj|]. rewrite <- shift_index. exact Hx.
Qed.

Lemma first_best_here irq l i bp :
  eligible i irq = true -> priority irq < bp -> none_better l (i + 1) (priority irq) ->
  first_best (irq :: l) i bp 0 irq.
Proof.
  intros He Hp Hn. split; [reflexivity|]. rewrite Z.add_0_r. split; [exact He|]. split; [exact Hp|].
  intros j x Hj Hx. split; [|lia].
  apply (proj2 (none_better_cons irq l i (priority irq)) (conj (fun _ => Z.le_refl _) Hn) j x Hj Hx).
Qed.

Lemma first_best_later irq l i bp bp' k x :
  first_best l (i + 1) bp' k x -> bp' <= bp -> (eligible i irq = true -> bp' <= priority irq) ->
  first_best (irq :: l) i bp (S k) x.
Proof.
  intros (Hk & He & Hp & Hall) Hb Hi. split; [exact Hk|]. rewrite shift_index.
  split; [exact He|]. split; [lia|]. intros [|j] y Hj Hy.
  - injection Hj as <-. rewrite Z.add_0_r in Hy. specialize (Hi Hy). lia.
  - rewrite shift_index in Hy. destruct (Hall j y Hj Hy) as [H1 H2]. split; [exact H1|]. intros. apply H2. lia.
Qed.

(** What the whole scan finds. *)
Lemma best_from_spec l i best bp :
  0 <= c < 8 ->
  (best_from l i c best bp = Ok best /\ none_better l i bp) \/
  (exists k irq, best_from l i c best bp = Ok (Some (i + Z.of_nat k)) /\ first_best l i bp k irq).
Proof.
  intros Hc. revert i best bp. induction l as [|irq l IH]; intros i best bp.
  - left. split; [reflexivity|]. intros j x Hj. discriminate.
  - rewrite best_from_cons by exact Hc. destruct (eligible i irq) eqn:He; simpl.
    + destruct (Z.ltb_spec (priority irq) bp) as [Hp|Hp].
      * right. destruct (IH (i + 1) (Some i) (priority irq)) as [[-> Hn]|(k & x & -> & Hf)].
        -- exists 0%nat, irq. rewrite Z.add_0_r. split; [reflexivity|]. apply first_best_here; assumption.
        -- exists (S k), x. rewrite shift_index. split; [reflexivity|].
           apply (first_best_later _ _ _ _ (priority irq)); [exact Hf|lia..].
      * destruct (IH (i + 1) best bp) as [[-> Hn]|(k & x & -> & Hf)]; [left|right].
        -- split; [reflexivity|]. apply none_better_cons. auto.
        -- exists (S k), x. rewrite shift_index. split; [reflexivity|].
           apply (first_best_later _ _ _ _ bp); [exact Hf|lia..].
    + destruct (IH (i + 1) best bp) as [[-> Hn]|(k & x & -> & Hf)]; [left|right].
      * split; [reflexivity|]. apply none_better_cons. split; [congruence|exact Hn].
      * exists (S k), x. rewrite shift_index. split; [reflexivity|].
        apply (first_best_later _ _ _ _ bp); [exact Hf|lia|congruence].
Qed.

(** A CPU number of eight or more stops the scan at the first enabled pending shared interrupt. *)
Lemma best_from_panics l i best bp j irq :
  8 <= c -> l !! j = Some irq -> PPI_END <= i + Z.of_nat j -> enabled irq = true -> pendingb (state irq) = true ->
  best_from l i c best bp = Panic ArithOverflow.
Proof.
  intros Hc. revert i best bp j. induction l as [|x l IH]; intros i best bp j Hj Hi He Hp; [discriminate|].
  simpl. rewrite pendingb_decide. rewrite (proj2 (Z.leb_le 8 c)) by lia. destruct j as [|j].
  - injection Hj as ->. rewrite He, Hp. simpl. rewrite (proj2 (Z.leb_le PPI_END i)) by lia. reflexivity.
  - rewrite shift_index in Hi. specialize (IH (i + 1)).
    destruct (enabled x), (pendingb (state x)); simpl; try (eapply IH; eassumption).
    destruct (PPI_END <=? i); simpl; [reflexivity|].
    destruct (priority x <? bp); eapply IH; eassumption.
Qed.
End Scan.

(** ** Acknowledging *)

(** The number and the state of interrupt [id]. *)
Definition line (d : VirtualDistributor) (id : Z) (irq : InterruptConfig) : Prop :=
  0 <= id < MAX_INTID /\ irqs d !! Z.to_nat id = Some irq.
Definition better (id : Z) (irq : InterruptConfig) (id' : Z) (irq' : InterruptConfig) : Prop :=
  priority irq < priority irq' \/ (priority irq = priority irq' /\ id <= id').
Definition dist_wf (d : VirtualDistributor) : Prop := length (irqs d) = Z.to_nat MAX_INTID.
Definition taken (irq : InterruptConfig) : InterruptConfig := set_state (take_pending (state irq)) irq.

Lemma line_index d k irq : dist_wf d -> irqs d !! k = Some irq -> line d (Z.of_nat k) irq.
Proof.
  intros Hd Hk. pose proof (lookup_lt_Some _ _ _ Hk) as Hlt. unfold dist_wf in Hd. unfold line.
  rewrite Nat2Z.id. split; [lia|exact Hk].
Qed.

Lemma acknowledge_eq c d :
  acknowledge c d =
  match best_from (irqs d) 0 c None 0xFF with
  | Ok (Some id) => (Ok (Some id), update id taken d)
  | Ok None => (Ok None, d)
  | Err e => (Err e, d)
  | Panic p => (Panic p, d)
  end.
Proof.
  unfold acknowledge. rewrite st_bind_read. destruct (best_from (irqs d) 0 c None 0xFF) as [[id|]|e|p]; reflexivity.
Qed.

(** [acknowledge] on a CPU of the mask, by its result. *)
Lemma acknowledge_cases c d :
  dist_wf d -> 0 <= c < 8 ->
  (exists id irq, acknowledge c d = (Ok (Some id), update id taken d) /\
     line d id irq /\ eligible c id irq = true /\ priority irq < 0xFF /\
     forall id' irq', line d id' irq' -> eligible c id' irq' = true -> better id irq id' irq') \/
  (acknowledge c d = (Ok None, d) /\
     forall id irq, line d id irq -> eligible c id irq = true -> 0xFF <= priority irq).
Proof.
  intros Hd Hc. rewrite acknowledge_eq.
  destruct (best_from_spec c (irqs d) 0 None 0xFF Hc) as [[-> Hn]|(k & irq & -> & Hk & He & Hp & Hall)].
  - right. split; [reflexivity|]. intros id irq [Hid Hl] He. apply (Hn (Z.to_nat id)); [exact Hl|].
    rewrite Z2Nat.id by lia. exact He.
  - left. exists (Z.of_nat k), irq. split; [reflexivity|]. split; [apply line_index; assumption|].
    split; [exact He|]. split; [exact Hp|]. intros id' irq' [Hid Hl] He'.
    destruct (Hall (Z.to_nat id') irq' Hl) as [H1 H2]; [rewrite Z2Nat.id by lia; exact He'|].
    unfold better. destruct (Nat.lt_ge_cases (Z.to_nat id') k) as [Hlt|Hge]; [left; auto|].
    destruct (Z.eq_dec (priority irq) (priority irq')); [right; lia|left; lia].
Qed.

(** ** What each operation does to one interrupt *)

Definition at_id (d : VirtualDistributor) (id : Z) : option InterruptConfig := irqs d !! Z.to_nat id.

Lemma at_update id f d j : 0 <= id -> 0 <= j -> at_id (update id f d) j = if decide (id = j) then f <$> at_id d j else at_id d j.
Proof.
  intros Hi Hj. unfold at_id, update, set_irqs. simpl. case_decide as E; [subst; apply list_lookup_alter_eq|].
  apply list_lookup_alter_ne. lia.
Qed.

Lemma at_update_range n i f d j :
  0 <= i -> 0 <= j ->
  at_id (update_range n i f d) j = if decide (i <= j < i + Z.of_nat n) then f <$> at_id d j else at_id d j.
Proof.
  revert i d. induction n as [|n IH]; intros i d Hi Hj; simpl; [case_decide; [lia|reflexivity]|].
  rewrite IH, at_update by lia. repeat case_decide; try lia; reflexivity.
Qed.

Lemma update_wf id f d : dist_wf d -> dist_wf (update id f d).
Proof. unfold dist_wf, update, set_irqs. simpl. rewrite length_alter. auto. Qed.

Lemma update_range_wf n i f d : dist_wf d -> dist_wf (update_range n i f d).
Proof. revert i d. induction n as [|n IH]; intros i d Hd; [exact Hd|]. apply IH, update_wf, Hd. Qed.

Lemma at_some d id : dist_wf d -> 0 <= id < MAX_INTID -> exists irq, at_id d id = Some irq.
Proof. intros Hd Hid. apply lookup_lt_is_Some. unfold dist_wf in Hd. lia. Qed.

Lemma at_none d id : dist_wf d -> MAX_INTID <= id -> at_id d id = None.
Proof. intros Hd Hid. apply lookup_ge_None. unfold dist_wf in Hd. unfold MAX_INTID in *. lia. Qed.

(** C36: On a CPU that has a bit in the routing mask, [acknowledge] returns the enabled, pending
    interrupt routed to that CPU with the numerically least priority, the least number among
    equals, moves exactly that interrupt to the active state and touches nothing else; it
    returns nothing, and changes nothing, exactly when no such interrupt has a priority above
    the lowest. *)
Theorem acknowledge_spec c d :
  dist_wf d -> 0 <= c < 8 ->
  match acknowledge c d with
  | (Ok (Some id), d') =>
      exists irq, line d id irq /\ eligible c id irq = true /\ priority irq < 0xFF /\
        (forall id' irq', line d id' irq' -> eligible c id' irq' = true -> better id irq id' irq') /\
        line d' id (set_state Active irq) /\ (forall j, 0 <= j -> j <> id -> at_id d' j = at_id d j) /\ ctrl d' = ctrl d
  | (Ok None, d') => d' = d /\ forall id irq, line d id irq -> eligible c id irq = true -> 0xFF <= priority irq
  | _ => False
  end.
Proof.
  intros Hd Hc. destruct (acknowledge_cases c d Hd Hc) as [(id & irq & -> & Hl & He & Hp & Hall)|[-> Hn]].
  - exists irq. split; [exact Hl|]. split; [exact He|]. split; [exact Hp|]. split; [exact Hall|].
    destruct Hl as [Hid Hl]. split; [|split; [|reflexivity]].
    + split; [exact Hid|]. change (at_id (update id taken d) id = Some (set_state Active irq)).
      rewrite at_update, decide_True by (reflexivity || lia). unfold at_id. rewrite Hl. simpl. unfold taken.
      unfold eligible in He. destruct (state irq); simpl in *; rewrite ?andb_false_r in He; try discriminate; reflexivity.
    + intros j Hj Hne. rewrite at_update, decide_False by (congruence || lia). reflexivity.
  - exact (conj eq_refl Hn).
Qed.

(** ** Refinement of three sets of interrupts *)

Inductive gic_op :=
  | OpInit | OpSetCtrl (x : DistributorCtrl) | OpEnable (id : Z) | OpDisable (id : Z) | OpPriority (id p : Z)
  | OpTarget (id m : Z) | OpPending (id : Z) | OpAck (c : Z) | OpEoi (id : Z).

Definition discard (m : Gic unit) : Gic (option Z) := _ ← m; mret None.

Definition apply_gop (o : gic_op) : Gic (option Z) :=
  match o with
  | OpInit => discard dist_initialize
  | OpSetCtrl x => discard (st_modify (set_ctrl x))
  | OpEnable id => discard (enable_irq id)
  | OpDisable id => discard (disable_irq id)
  | OpPriority id p => discard (set_priority id p)
  | OpTarget id m => discard (set_target id m)
  | OpPending id => discard (set_pending id)
  | OpAck c => acknowledge c
  | OpEoi id => discard (eoi id)
  end.

(** The arguments have the width of their types, and the CPU a bit in the mask. *)
Definition gop_ok (o : gic_op) : Prop :=
  match o with
  | OpInit | OpSetCtrl _ => True
  | OpEnable id | OpDisable id | OpPriority id _ | OpTarget id _ | OpPending id | OpEoi id => fits 32 id
  | OpAck c => 0 <= c < 8
  end.

(** The abstract controller: which interrupts are enabled, pending and active. *)
Record GicSpec := mkSpec { sE : gset Z; sP : gset Z; sA : gset Z }.

(** What a call with a given result may do: a pending interrupt is latched when it is enabled,
    an acknowledge moves one enabled pending interrupt to the active set, an end of interrupt
    takes it out of there, and a call that fails does nothing. *)
Inductive spec_step : gic_op -> Res GicError (option Z) -> GicSpec -> GicSpec -> Prop :=
  | ss_fail o e s : spec_step o (Err e) s s
  | ss_init s : spec_step OpInit (Ok None) s (mkSpec (sE s ∪ list_to_set (seqZ 0 16)) (sP s) (sA s))
  | ss_ctrl x s : spec_step (OpSetCtrl x) (Ok None) s s
  | ss_priority id p s : spec_step (OpPriority id p) (Ok None) s s
  | ss_target id m s : spec_step (OpTarget id m) (Ok None) s s
  | ss_enable id s : spec_step (OpEnable id) (Ok None) s (mkSpec (sE s ∪ {[id]}) (sP s) (sA s))
  | ss_disable id s : spec_step (OpDisable id) (Ok None) s (mkSpec (sE s ∖ {[id]}) (sP s) (sA s))
  | ss_latch id s : id ∈ sE s -> spec_step (OpPending id) (Ok None) s (mkSpec (sE s) (sP s ∪ {[id]}) (sA s))
  | ss_ignore id s : id ∉ sE s -> spec_step (OpPending id) (Ok None) s s
  | ss_ack c id s : id ∈ sE s -> id ∈ sP s ->
      spec_step (OpAck c) (Ok (Some id)) s (mkSpec (sE s) (sP s ∖ {[id]}) (sA s ∪ {[id]}))
  | ss_idle c s : spec_step (OpAck c) (Ok None) s s
  | ss_eoi id s : spec_step (OpEoi id) (Ok None) s (mkSpec (sE s) (sP s) (sA s ∖ {[id]})).

Inductive spec_run : list gic_op -> list (Res GicError (option Z)) -> GicSpec -> GicSpec -> Prop :=
  | sr_nil s : spec_run [] [] s s
  | sr_cons o r os rs s s' s'' : spec_step o r s s' -> spec_run os rs s' s'' -> spec_run (o :: os) (r :: rs) s s''.

Fixpoint gic_run (os : list gic_op) (d : VirtualDistributor) : list (Res GicError (option Z)) * VirtualDistributor :=
  match os with
  | [] => ([], d)
  | o :: os' => let '(r, d1) := apply_gop o d in let '(rs, d2) := gic_run os' d1 in (r :: rs, d2)
  end.

Definition view (d : VirtualDistributor) (id : Z) : option (bool * bool * bool) :=
  (fun irq => (enabled irq, pendingb (state irq), activeb (state irq))) <$> at_id d id.
Definition flags (s : GicSpec) (id : Z) : option (bool * bool * bool) :=
  if id <? MAX_INTID then Some (bool_decide (id ∈ sE s), bool_decide (id ∈ sP s), bool_decide (id ∈ sA s)) else None.
Definition abs_rel (s : GicSpec) (d : VirtualDistributor) : Prop :=
  dist_wf d /\ forall id, 0 <= id -> view d id = flags s id.

Lemma view_update id f d j : 0 <= id -> 0 <= j ->
  view (update id f d) j = if decide (id = j) then (fun irq => (enabled (f irq), pendingb (state (f irq)), activeb (state (f irq)))) <$> at_id d j else view d j.
Proof.
  intros Hi Hj. unfold view. rewrite at_update by lia. case_decide; [|reflexivity].
  destruct (at_id d j); reflexivity.
Qed.

(** An update of one interrupt against a change of its three flags. *)
Lemma abs_update s s' id f d :
  abs_rel s d -> 0 <= id < MAX_INTID ->
  (forall irq, at_id d id = Some irq -> bool_decide (id ∈ sE s) = enabled irq -> bool_decide (id ∈ sP s) = pendingb (state irq) ->
     bool_decide (id ∈ sA s) = activeb (state irq) ->
     (enabled (f irq), pendingb (state (f irq)), activeb (state (f irq))) =
     (bool_decide (id ∈ sE s'), bool_decide (id ∈ sP s'), bool_decide (id ∈ sA s'))) ->
  (forall j, j <> id -> flags s' j = flags s j) ->
  abs_rel s' (update id f d).
Proof.
  intros [Hd Hv] Hid Hf Hj. split; [apply update_wf, Hd|]. intros j Hj0. rewrite view_update by lia.
  destruct (decide (id = j)) as [<-|Hne]; [|rewrite Hj by congruence; auto].
  destruct (at_some d id Hd Hid) as [irq Hirq]. specialize (Hv id Hj0). unfold view, flags in *.
  rewrite Hirq in *. rewrite (proj2 (Z.ltb_lt id MAX_INTID)) in * by lia. simpl in *.
  injection Hv as He Hp Ha. f_equal. apply Hf; congruence.
Qed.

Lemma flags_same s s' j :
  (j ∈ sE s' <-> j ∈ sE s) -> (j ∈ sP s' <-> j ∈ sP s) -> (j ∈ sA s' <-> j ∈ sA s) -> flags s' j = flags s j.
Proof. intros H1 H2 H3. unfold flags. rewrite (bool_decide_ext _ _ H1), (bool_decide_ext _ _ H2), (bool_decide_ext _ _ H3). reflexivity. Qed.

Lemma in_add (id : Z) (X : gset Z) : bool_decide (id ∈ X ∪ {[id]}) = true.
Proof. apply bool_decide_eq_true. set_solver. Qed.
Lemma in_del (id : Z) (X : gset Z) : bool_decide (id ∈ X ∖ {[id]}) = false.
Proof. apply bool_decide_eq_false. rewrite elem_of_difference, elem_of_singleton. tauto. Qed.

Ltac same_elsewhere := intros ?j ?Hne; apply flags_same; simpl;
  rewrite ?elem_of_union, ?elem_of_difference, ?elem_of_singleton; tauto.

Lemma discard_err (m : Gic unit) d e : m d = (Err e, d) -> discard m d = (Err e, d).
Proof. intros H. unfold discard. rewrite st_bind_eq, H. reflexivity. Qed.
Lemma discard_ok (m : Gic unit) d d' : m d = (Ok tt, d') -> discard m d = (Ok None, d').
Proof. intros H. unfold discard. rewrite st_bind_eq, H. reflexivity. Qed.

(** An operation of the form "refuse a bad number, else update it". *)
Lemma guarded_step (b : bool) o id f s s' d :
  abs_rel s d -> 0 <= id -> (b = false -> id < MAX_INTID) ->
  apply_gop o = discard (if b then st_lift (Err InvalidInterruptId) else st_modify (update id f)) ->
  spec_step o (Ok None) s s' ->
  (forall irq, at_id d id = Some irq -> bool_decide (id ∈ sE s) = enabled irq -> bool_decide (id ∈ sP s) = pendingb (state irq) ->
     bool_decide (id ∈ sA s) = activeb (state irq) ->
     (enabled (f irq), pendingb (state (f irq)), activeb (state (f irq))) =
     (bool_decide (id ∈ sE s'), bool_decide (id ∈ sP s'), bool_decide (id ∈ sA s'))) ->
  (forall j, j <> id -> flags s' j = flags s j) ->
  exists r d' s'', apply_gop o d = (r, d') /\ spec_step o r s s'' /\ abs_rel s'' d'.
Proof.
  intros Hr H0 Hb He Hs Hf Hj. rewrite He. destruct b.
  - exists (Err InvalidInterruptId), d, s. rewrite (discard_err _ d InvalidInterruptId) by reflexivity.
    split; [reflexivity|]. split; [constructor|exact Hr].
  - exists (Ok None), (update id f d), s'. rewrite (discard_ok _ d (update id f d)) by reflexivity.
    split; [reflexivity|]. split; [exact Hs|]. specialize (Hb eq_refl). eapply abs_update; eauto; lia.
Qed.

Lemma abs_irqs s d d' : irqs d' = irqs d -> abs_rel s d -> abs_rel s d'.
Proof. unfold abs_rel, dist_wf, view, at_id. intros ->. auto. Qed.

(** A loop over numbers that sets one flag to [true], or none. *)
Lemma abs_range s s' n i f d :
  abs_rel s d -> 0 <= i ->
  (forall irq, pendingb (state (f irq)) = pendingb (state irq) /\ activeb (state (f irq)) = activeb (state irq)) ->
  (forall irq id, at_id d id = Some irq -> i <= id < i + Z.of_nat n -> bool_decide (id ∈ sE s) = enabled irq ->
     enabled (f irq) = bool_decide (id ∈ sE s')) ->
  (forall id, ~ (i <= id < i + Z.of_nat n) -> (id ∈ sE s' <-> id ∈ sE s)) -> sP s' = sP s -> sA s' = sA s ->
  abs_rel s' (update_range n i f d).
Proof.
  intros [Hd Hv] Hi Hf He Hne HP HA. split; [apply update_range_wf, Hd|]. intros id Hid.
  specialize (Hv id Hid). unfold view, flags in *. rewrite at_update_range, HP, HA by lia.
  destruct (decide (i <= id < i + Z.of_nat n)) as [H|H].
  - destruct (at_id d id) as [irq|] eqn:E; simpl in *; [|destruct (id <? MAX_INTID); [discriminate|reflexivity]].
    destruct (id <? MAX_INTID); [|discriminate]. injection Hv as H1 H2 H3. destruct (Hf irq) as [-> ->].
    rewrite (He irq id E H) by congruence. congruence.
  - rewrite (bool_decide_ext _ _ (Hne id H)). exact Hv.
Qed.

Lemma initialize_eq d :
  dist_initialize d =
  if initialized d then (Err AlreadyInitialized, d)
  else let d2 := update_range 16 16 (set_trigger Level) (update_range 16 0 (fun i => set_enabled true (set_trigger Edge i)) d) in
       (Ok tt, mkDist (d_ctrl d2) (irqs d2) true).
Proof. unfold dist_initialize. rewrite st_bind_gets. destruct (initialized d); reflexivity. Qed.

Lemma init_step s d :
  abs_rel s d -> exists r d' s'', apply_gop OpInit d = (r, d') /\ spec_step OpInit r s s'' /\ abs_rel s'' d'.
Proof.
  intros Hr. simpl. unfold discard. rewrite st_bind_eq, initialize_eq. destruct (initialized d); cbv zeta.
  - exists (Err AlreadyInitialized), d, s. split; [reflexivity|]. split; [constructor|exact Hr].
  - eexists (Ok None), _, _. split; [reflexivity|]. split; [constructor|]. eapply abs_irqs; [reflexivity|].
    assert (Hin : forall id, id ∈ (list_to_set (seqZ 0 16) : gset Z) <-> 0 <= id < 0 + Z.of_nat 16)
      by (intros id; rewrite elem_of_list_to_set, elem_of_seqZ; lia).
    set (s1 := mkSpec _ _ _). apply (abs_range s1); [apply (abs_range s)|..]; simpl; try reflexivity; auto; try lia.
    + intros irq id _ Hid _. symmetry. apply bool_decide_eq_true. apply elem_of_union. right. apply Hin. exact Hid.
    + intros id Hid. rewrite elem_of_union, Hin. tauto.
Qed.

Lemma pending_step id s d :
  abs_rel s d -> fits 32 id ->
  exists r d' s'', apply_gop (OpPending id) d = (r, d') /\ spec_step (OpPending id) r s s'' /\ abs_rel s'' d'.
Proof.
  intros Hr Hid. simpl. unfold discard, set_pending. rewrite st_bind_eq. destruct (Z.leb_spec MAX_INTID id) as [Hge|Hlt].
  - exists (Err InvalidInterruptId), d, s. split; [reflexivity|]. split; [constructor|exact Hr].
  - destruct Hr as [Hd Hv]. assert (H0 : 0 <= id < MAX_INTID) by (unfold fits in Hid; lia).
    destruct (at_some d id Hd H0) as [irq Hirq]. rewrite st_bind_read. unfold irq_at.
    change (irqs d !! Z.to_nat id) with (at_id d id). rewrite Hirq.
    pose proof (Hv id (proj1 H0)) as Hi. unfold view, flags in Hi. rewrite Hirq, (proj2 (Z.ltb_lt id MAX_INTID)) in Hi by lia.
    simpl in Hi. injection Hi as He Hp Ha. destruct (enabled irq) eqn:Een; simpl.
    + eexists (Ok None), _, _. split; [reflexivity|]. split; [apply ss_latch; eapply bool_decide_eq_true_1; symmetry; exact He|].
      eapply abs_update; [split; eassumption|exact H0| |same_elsewhere]. simpl. intros x _ -> _ ->. rewrite in_add.
      destruct (state x); reflexivity.
    + eexists (Ok None), _, _. split; [reflexivity|]. split; [apply ss_ignore; eapply bool_decide_eq_false_1; symmetry; exact He|split; assumption].
Qed.

Lemma ack_step c s d :
  abs_rel s d -> 0 <= c < 8 ->
  exists r d' s'', apply_gop (OpAck c) d = (r, d') /\ spec_step (OpAck c) r s s'' /\ abs_rel s'' d'.
Proof.
  intros [Hd Hv] Hc. simpl. destruct (acknowledge_cases c d Hd Hc) as [(id & irq & -> & [Hid Hl] & He & _)|[-> _]].
  - pose proof (Hv id (proj1 Hid)) as Hi. unfold view, flags in Hi. change (irqs d !! Z.to_nat id) with (at_id d id) in Hl.
    rewrite Hl, (proj2 (Z.ltb_lt id MAX_INTID)) in Hi by lia. simpl in Hi. injection Hi as H1 H2 H3.
    unfold eligible in He. apply andb_true_iff in He as [He _]. apply andb_true_iff in He as [He Hp].
    eexists (Ok (Some id)), _, _. split; [reflexivity|].
    split; [apply ss_ack; eapply bool_decide_eq_true_1; [rewrite <- H1; exact He|rewrite <- H2; exact Hp]|].
    eapply abs_update; [split; eassumption|exact Hid| |same_elsewhere]. simpl. intros x Hx -> _ _.
    rewrite in_add, in_del. assert (x = irq) as -> by congruence. destruct (state irq); try discriminate; reflexivity.
  - eexists (Ok None), _, _. split; [reflexivity|]. split; [constructor|split; assumption].
Qed.

Lemma gop_step o s d :
  abs_rel s d -> gop_ok o -> exists r d' s', apply_gop o d = (r, d') /\ spec_step o r s s' /\ abs_rel s' d'.
Proof.
  intros Hr Ho. destruct o as [|x|id|id|id p|id m|id|c|id]; simpl in Ho; try (unfold fits in Ho).
  - apply init_step, Hr.
  - eexists (Ok None), _, _. split; [reflexivity|]. split; [constructor|]. eapply abs_irqs; [|exact Hr]. reflexivity.
  - eapply (guarded_step (MAX_INTID <=? id) _ id _ s _ d Hr); [lia|intros; zcases; lia|reflexivity|constructor| |same_elsewhere].
    simpl. intros irq _ _ -> ->. rewrite in_add. reflexivity.
  - eapply (guarded_step (MAX_INTID <=? id) _ id _ s _ d Hr); [lia|intros; zcases; lia|reflexivity|constructor| |same_elsewhere].
    simpl. intros irq _ _ -> ->. rewrite in_del. reflexivity.
  - eapply (guarded_step (MAX_INTID <=? id) _ id _ s _ d Hr); [lia|intros; zcases; lia|reflexivity|constructor| |same_elsewhere].
    simpl. intros irq _ -> -> ->. reflexivity.
  - eapply (guarded_step ((id <? PPI_END) || (MAX_INTID <=? id)) _ id _ s _ d Hr); [lia| |reflexivity|constructor| |same_elsewhere].
    + intros H. apply orb_false_iff in H as [_ H]. apply Z.leb_gt in H. exact H.
    + simpl. intros irq _ -> -> ->. reflexivity.
  - apply pending_step; assumption.
  - apply ack_step; assumption.
  - eapply (guarded_step (MAX_INTID <=? id) _ id _ s _ d Hr); [lia|intros; zcases; lia|reflexivity|constructor| |same_elsewhere].
    simpl. intros irq _ -> -> _. rewrite in_del. destruct (state irq); reflexivity.
Qed.

Lemma gic_run_refines os s d :
  abs_rel s d -> Forall gop_ok os ->
  exists s', spec_run os (gic_run os d).1 s s' /\ abs_rel s' (gic_run os d).2.
Proof.
  revert s d. induction os as [|o os IH]; intros s d Hr Hos; simpl; [exists s; split; [constructor|exact Hr]|].
  apply Forall_cons in Hos as [Ho Hos]. destruct (gop_step o s d Hr Ho) as (r & d1 & s1 & -> & Hs & Hr1).
  destruct (IH s1 d1 Hr1 Hos) as (s' & Hrun & Hr'). destruct (gic_run os d1) as [rs d2]. exists s'.
  split; [econstructor; eassumption|exact Hr'].
Qed.

Lemma abs_new : abs_rel (mkSpec ∅ ∅ ∅) dist_new.
Proof.
  split; [apply length_replicate|]. intros id Hid. unfold view, at_id, flags.
  change (irqs dist_new) with (replicate (Z.to_nat MAX_INTID) default_irq).
  destruct (Z.ltb_spec id MAX_INTID) as [H|H].
  - rewrite lookup_replicate_2 by (apply Z2Nat.inj_lt; [exact Hid|discriminate|exact H]). reflexivity.
  - rewrite lookup_ge_None_2; [reflexivity|]. rewrite length_replicate. apply Z2Nat.inj_le; [discriminate|exact Hid|exact H].
Qed.

(** C35: Every sequence of calls from a new distributor, on CPUs of the mask, behaves as three
    sets of interrupt numbers: no call panics, a pending request on an enabled interrupt
    latches it whatever its activity, an acknowledge returns an enabled latched interrupt and
    moves it from the pending to the active set, an end of interrupt removes it from the
    active set only, and a failing call changes nothing. *)
Theorem vgic_refines os :
  Forall gop_ok os ->
  exists s, spec_run os (gic_run os dist_new).1 (mkSpec ∅ ∅ ∅) s /\
    forall id, 0 <= id -> view (gic_run os dist_new).2 id = flags s id.
Proof.
  intros Hos. destruct (gic_run_refines os _ _ abs_new Hos) as (s & Hs & _ & Hv). exists s. auto.
Qed.

(** ** Every interrupt taken was raised *)

Definition is_raise (id : Z) (o : gic_op) : bool := match o with OpPending j => j =? id | _ => false end.
Definition is_take (id : Z) (r : Res GicError (option Z)) : bool := match r with Ok (Some j) => j =? id | _ => false end.
Fixpoint count {A} (p : A -> bool) (l : list A) : Z :=
  match l with [] => 0 | x :: l' => Z.b2z (p x) + count p l' end.

Lemma spec_step_count id o r s s' :
  spec_step o r s s' ->
  Z.b2z (is_take id r) + Z.b2z (bool_decide (id ∈ sP s')) <= Z.b2z (is_raise id o) + Z.b2z (bool_decide (id ∈ sP s)).
Proof.
  intros [o' e t|t|x t|j p t|j m t|j t|j t|j t Hin|j t Hin|c j t He Hp|c t|j t]; simpl; try lia.
  - destruct (is_raise id o'); simpl; lia.
  - destruct (Z.eqb_spec j id) as [->|Hne]; simpl; [destruct (bool_decide _), (bool_decide _); simpl; lia|].
    rewrite (bool_decide_ext (id ∈ sP t ∪ {[j]}) (id ∈ sP t)); [lia|].
    rewrite elem_of_union, elem_of_singleton. intuition congruence.
  - destruct (j =? id); simpl; lia.
  - destruct (Z.eqb_spec j id) as [->|Hne]; simpl; [rewrite in_del, bool_decide_eq_true_2 by assumption; simpl; lia|].
    rewrite (bool_decide_ext (id ∈ sP t ∖ {[j]}) (id ∈ sP t)); [lia|].
    rewrite elem_of_difference, elem_of_singleton. intuition congruence.
Qed.

Lemma spec_run_count id os rs s s' :
  spec_run os rs s s' ->
  count (is_take id) rs + Z.b2z (bool_decide (id ∈ sP s')) <= count (is_raise id) os + Z.b2z (bool_decide (id ∈ sP s)).
Proof.
  induction 1 as [|o r os rs s s1 s2 Hs _ IH]; simpl; [lia|]. pose proof (spec_step_count id _ _ _ _ Hs). lia.
Qed.

(** Over any sequence of calls from a new distributor no interrupt is taken more often than
    it was raised, and one that is still pending has a raise left over: there are no spurious
    interrupts. *)
Theorem no_spurious_interrupts os id :
  Forall gop_ok os -> 0 <= id < MAX_INTID ->
  let '(rs, d) := gic_run os dist_new in
  count (is_take id) rs + Z.b2z (match at_id d id with Some irq => pendingb (state irq) | None => false end)
  <= count (is_raise id) os.
Proof.
  intros Hos Hid. destruct (gic_run_refines os _ _ abs_new Hos) as (s & Hs & _ & Hv).
  destruct (gic_run os dist_new) as [rs d]. simpl in *. pose proof (spec_run_count id _ _ _ _ Hs) as Hc.
  specialize (Hv id (proj1 Hid)). unfold view, flags in Hv. rewrite (proj2 (Z.ltb_lt id MAX_INTID)) in Hv by lia.
  destruct (at_id d id) as [irq|]; [|discriminate]. injection Hv as _ Hp _. rewrite Hp.
  rewrite (bool_decide_eq_false_2 (id ∈ sP (mkSpec ∅ ∅ ∅))) in Hc by apply not_elem_of_empty. simpl in Hc. lia.
Qed.

(** ** Where the controller departs from its documentation *)

(** A CPU number of eight or more, which [VirtualGic::new] admits, panics in
    [acknowledge] as soon as any shared interrupt is enabled and pending: [1 << cpu_id] is
    computed in the eight bits of the mask. *)
Theorem acknowledge_cpu_panics c d id irq :
  8 <= c -> line d id irq -> PPI_END <= id -> enabled irq = true -> pendingb (state irq) = true ->
  acknowledge c d = (Panic ArithOverflow, d).
Proof.
  intros Hc [Hid Hl] Hge He Hp. rewrite acknowledge_eq.
  rewrite (best_from_panics c (irqs d) 0 None 0xFF (Z.to_nat id) irq); auto; lia.
Qed.

(** [inject_sgi] on an enabled interrupt. *)
Lemma inject_sgi_eq f t id g g' irq :
  0 <= id < SGI_END -> at_id (distributor g) id = Some irq -> enabled irq = true ->
  inject_sgi f t id g = (Ok tt, g') -> distributor g' = update id (fun i => set_state (pend (state i)) i) (distributor g).
Proof.
  intros Hid Hl He. unfold inject_sgi, on_dist, set_pending, SGI_END, MAX_INTID in *.
  rewrite (proj2 (Z.leb_gt 16 id)), (proj2 (Z.leb_gt 1020 id)), st_bind_read by lia. unfold irq_at.
  change (irqs (distributor g) !! Z.to_nat id) with (at_id (distributor g) id). rewrite Hl, He.
  simpl. intros [= <-]. reflexivity.
Qed.

(** With a single pending interrupt, an eligible one, [acknowledge] returns it on every CPU,
    and nothing after that. *)
Lemma single_pending d id irq c c' :
  dist_wf d -> 0 <= c < 8 -> 0 <= c' < 8 -> line d id irq -> eligible c id irq = true -> priority irq < 0xFF ->
  (forall j irq', j <> id -> line d j irq' -> pendingb (state irq') = false) ->
  exists d', acknowledge c d = (Ok (Some id), d') /\ acknowledge c' d' = (Ok None, d').
Proof.
  intros Hd Hc Hc' Hl He Hp Hoth. exists (update id taken d).
  assert (Hel : forall cpu j x, line d j x -> eligible cpu j x = true -> j = id).
  { intros cpu j x Hj Hx. destruct (Z.eq_dec j id) as [E|E]; [exact E|]. unfold eligible in Hx.
    rewrite (Hoth j x E Hj), andb_false_r in Hx. discriminate. }
  destruct (acknowledge_cases c d Hd Hc) as [(j & x & -> & Hlj & Hej & _ & _)|[_ Hn]];
    [|specialize (Hn id irq Hl He); lia].
  rewrite (Hel c j x Hlj Hej). split; [reflexivity|].
  destruct (acknowledge_cases c' _ (update_wf id taken _ Hd) Hc') as [(k & y & _ & [Hk Hy] & Hey & _)|[Hb _]]; [|exact Hb].
  exfalso. change (at_id (update id taken d) k = Some y) in Hy. destruct Hl as [Hid _]. rewrite at_update in Hy by lia.
  destruct (decide (id = k)) as [<-|Hne].
  - destruct (at_id d id) as [z|]; [|discriminate]. injection Hy as <-. unfold eligible, taken in Hey.
    destruct (state z); simpl in Hey; rewrite ?andb_false_r in Hey; discriminate.
  - apply Hne. symmetry. exact (Hel c' k y (conj Hk Hy) Hey).
Qed.

(** A software interrupt sent to one CPU is taken by whichever CPU asks first: with the
    interrupt enabled, idle and of better priority than every other, [acknowledge] on any
    CPU of the mask returns it, whatever target the sender named, and no CPU gets it
    again. *)
Theorem sgi_any_cpu g g' from_cpu to_cpu id irq c c' :
  dist_wf (distributor g) -> 0 <= id < SGI_END -> 0 <= c < 8 -> 0 <= c' < 8 ->
  line (distributor g) id irq -> enabled irq = true -> state irq = Inactive -> priority irq < 0xFF ->
  (forall j irq', j <> id -> line (distributor g) j irq' -> pendingb (state irq') = false) ->
  inject_sgi from_cpu to_cpu id g = (Ok tt, g') ->
  exists d', acknowledge c (distributor g') = (Ok (Some id), d') /\ acknowledge c' d' = (Ok None, d').
Proof.
  intros Hd Hid Hc Hc' [Hr Hl] He Hst Hp Hoth Hinj. change (at_id (distributor g) id = Some irq) in Hl.
  rewrite (inject_sgi_eq _ _ _ _ _ _ Hid Hl He Hinj). set (f := fun i => set_state (pend (state i)) i).
  assert (Hat : forall j, 0 <= j -> at_id (update id f (distributor g)) j = if decide (id = j) then f <$> at_id (distributor g) j else at_id (distributor g) j)
    by (intros j Hj; apply at_update; lia).
  apply (single_pending _ id (f irq)); auto using update_wf.
  - split; [exact Hr|]. change (at_id (update id f (distributor g)) id = Some (f irq)).
    rewrite Hat, decide_True, Hl by (reflexivity || lia). reflexivity.
  - unfold eligible, f, SGI_END, PPI_END in *. simpl. rewrite He, Hst, (proj2 (Z.ltb_lt id 32)) by lia. reflexivity.
  - intros j x Hne [Hj Hx]. change (at_id (update id f (distributor g)) j = Some x) in Hx.
    rewrite Hat, decide_False in Hx by (congruence || lia). apply (Hoth j x Hne). split; assumption.
Qed.

(** All priorities are the one an interrupt starts with. *)
Definition all_lowest (d : VirtualDistributor) : Prop := Forall (fun i => priority i = 0xFF) (irqs d).
Definition no_priority (o : gic_op) : bool := match o with OpPriority _ _ => false | _ => true end.

Lemma update_lowest id f d : (forall i, priority (f i) = priority i) -> all_lowest d -> all_lowest (update id f d).
Proof.
  intros Hf Hd. unfold all_lowest, update, set_irqs in *. simpl. apply Forall_alter; [exact Hd|].
  intros x _ Hx. rewrite Hf. exact Hx.
Qed.

Lemma update_range_lowest n i f d : (forall x, priority (f x) = priority x) -> all_lowest d -> all_lowest (update_range n i f d).
Proof. intros Hf. revert i d. induction n as [|n IH]; intros i d Hd; [exact Hd|]. apply IH, update_lowest; assumption. Qed.

Lemma lowest_idle c d : dist_wf d -> all_lowest d -> 0 <= c < 8 -> acknowledge c d = (Ok None, d).
Proof.
  intros Hd Ha Hc. destruct (acknowledge_cases c d Hd Hc) as [(id & irq & _ & [_ Hl] & _ & Hp & _)|[E _]]; [|exact E].
  pose proof (Forall_lookup_1 _ _ _ _ Ha Hl) as E. simpl in E. lia.
Qed.

Lemma discard_state (m : Gic unit) d : (discard m d).2 = (m d).2.
Proof. unfold discard. rewrite st_bind_eq. destruct (m d) as [[u|e|p] d']; reflexivity. Qed.

Lemma lowest_irqs d d' : irqs d' = irqs d -> all_lowest d -> all_lowest d'.
Proof. unfold all_lowest. intros ->. auto. Qed.

Lemma lowest_loops n i f n' i' f' d b :
  (forall x, priority (f x) = priority x) -> (forall x, priority (f' x) = priority x) -> all_lowest d ->
  let d2 := update_range n i f (update_range n' i' f' d) in all_lowest (mkDist (d_ctrl d2) (irqs d2) b).
Proof.
  intros Hf Hf' Ha d2. apply (lowest_irqs d2); [reflexivity|].
  apply update_range_lowest; [exact Hf|]. apply update_range_lowest; assumption.
Qed.

Lemma lowest_init d : all_lowest d -> all_lowest (dist_initialize d).2.
Proof.
  intros Ha. rewrite initialize_eq. destruct (initialized d); [exact Ha|].
  apply (lowest_loops 16 16 _ 16 0 _ d true); [reflexivity|reflexivity|exact Ha].
Qed.

(** An operation of the form "refuse, or update one interrupt and keep its priority". *)
Lemma lowest_guarded (b : bool) id f e d :
  all_lowest d -> (forall i, priority (f i) = priority i) ->
  all_lowest ((if b then st_lift (Err e) else st_modify (update id f) : Gic unit) d).2.
Proof. intros Ha Hf. destruct b; [exact Ha|]. apply update_lowest; assumption. Qed.

Lemma lowest_pending id d : all_lowest d -> all_lowest (set_pending id d).2.
Proof.
  intros Ha. unfold set_pending. destruct (MAX_INTID <=? id); [exact Ha|]. rewrite st_bind_read.
  destruct (irq_at id d) as [i|e|p]; [|exact Ha..]. destruct (enabled i); [|exact Ha].
  apply update_lowest; [reflexivity|exact Ha].
Qed.

Lemma lowest_step o d : dist_wf d -> all_lowest d -> gop_ok o -> no_priority o = true -> all_lowest (apply_gop o d).2.
Proof.
  intros Hd Ha Ho Hn. destruct o as [|x|id|id|id p|id m|id|c|id]; cbn [apply_gop]; rewrite ?discard_state.
  - apply lowest_init, Ha.
  - exact Ha.
  - apply lowest_guarded; auto.
  - apply lowest_guarded; auto.
  - discriminate.
  - apply lowest_guarded; auto.
  - apply lowest_pending, Ha.
  - rewrite lowest_idle by assumption. exact Ha.
  - apply lowest_guarded; auto.
Qed.

Lemma lowest_run os s d :
  abs_rel s d -> all_lowest d -> Forall gop_ok os -> forallb no_priority os = true ->
  all_lowest (gic_run os d).2 /\ Forall (fun r => forall id, r <> Ok (Some id)) (gic_run os d).1.
Proof.
  revert s d. induction os as [|o os IH]; intros s d Hr Ha Hos Hn; simpl; [auto|].
  apply Forall_cons in Hos as [Ho Hos]. simpl in Hn. apply andb_true_iff in Hn as [Hn Hns].
  pose proof (lowest_step o d (proj1 Hr) Ha Ho Hn) as Ha1.
  destruct (gop_step o s d Hr Ho) as (r & d1 & s1 & E & Hs & Hr1). rewrite E in Ha1 |- *. simpl in Ha1.
  destruct (IH s1 d1 Hr1 Ha1 Hos Hns) as [IH1 IH2]. destruct (gic_run os d1) as [rs d2]. split; [exact IH1|].
  constructor; [|exact IH2]. intros id ->. inversion Hs; subst. simpl in E, Ho.
  rewrite lowest_idle in E by (tauto || apply Hr). discriminate.
Qed.

(** The priority every interrupt starts with, documented as the lowest, is one at which it
    is never delivered: until some [set_priority] call is made, no [acknowledge] of any
    sequence of calls returns an interrupt, whatever is enabled and pending.  The software
    interrupts, enabled from the start, are lost this way too. *)
Theorem default_priority_silent os :
  Forall gop_ok os -> forallb no_priority os = true ->
  Forall (fun r => forall id, r <> Ok (Some id)) (gic_run os dist_new).1.
Proof.
  intros Hos Hn. apply (lowest_run os _ _ abs_new); try assumption.
  apply Forall_replicate. reflexivity.
Qed.

(** ** Examples *)

Definition demo_ops : list gic_op :=
  [OpInit; OpEnable 64; OpPriority 64 0x10; OpTarget 64 1; OpPending 64; OpAck 0; OpPending 64; OpEoi 64; OpAck 0; OpAck 0].
Definition quiet_ops : list gic_op := [OpInit; OpEnable 64; OpPending 64; OpPending 3; OpAck 0; OpAck 1].

Lemma demo_ops_ok : Forall gop_ok demo_ops.
Proof. unfold demo_ops. repeat constructor; unfold fits; lia. Qed.
Lemma quiet_ops_ok : Forall gop_ok quiet_ops.
Proof. unfold quiet_ops. repeat constructor; unfold fits; lia. Qed.

Definition demo_pending : VirtualDistributor := (gic_run (take 5 demo_ops) dist_new).2.
Definition demo_gic : VirtualGic := mkGic (gic_run [OpInit; OpPriority 3 0x20] dist_new).2 [redist_new 0; redist_new 1].

Lemma acknowledge_spec_witness :
  dist_wf demo_pending /\ (acknowledge 0 demo_pending).1 = Ok (Some 64) /\
  forall irq', line demo_pending 40 irq' -> eligible 0 40 irq' = true -> 0x10 < priority irq'.
Proof.
  assert (Hw : dist_wf demo_pending) by (vm_compute; reflexivity).
  split; [exact Hw|]. pose proof (acknowledge_spec 0 demo_pending Hw ltac:(lia)) as Hs.
  destruct (acknowledge 0 demo_pending) as [r d'] eqn:E.
  assert (r = Ok (Some 64)) as -> by (apply (f_equal fst) in E; vm_compute in E; congruence).
  split; [reflexivity|]. destruct Hs as (irq & [_ Hl] & _ & _ & Hall & _). intros irq' H1 H2.
  vm_compute in Hl. injection Hl as <-. destruct (Hall 40 irq' H1 H2) as [H|[_ H]]; [exact H|lia].
Defined.

Lemma vgic_refines_witness :
  Forall gop_ok demo_ops /\ exists s, spec_run demo_ops (gic_run demo_ops dist_new).1 (mkSpec ∅ ∅ ∅) s.
Proof.
  split; [exact demo_ops_ok|]. destruct (vgic_refines demo_ops demo_ops_ok) as (s & Hs & _). exists s. exact Hs.
Defined.

Lemma no_spurious_interrupts_witness :
  count (is_take 64) (gic_run demo_ops dist_new).1 = 2 /\ count (is_take 64) (gic_run demo_ops dist_new).1 <= count (is_raise 64) demo_ops.
Proof.
  split; [vm_compute; reflexivity|].
  pose proof (no_spurious_interrupts demo_ops 64 demo_ops_ok ltac:(unfold MAX_INTID; lia)) as H.
  destruct (gic_run demo_ops dist_new) as [rs d]. simpl fst. destruct (at_id d 64) as [i|]; [destruct (pendingb (state i))|]; cbn [Z.b2z] in H; lia.
Defined.

Lemma acknowledge_cpu_panics_witness : acknowledge 9 demo_pending = (Panic ArithOverflow, demo_pending).
Proof.
  apply (acknowledge_cpu_panics 9 demo_pending 64 (mkIrq true Pending Level 0x10 1 0));
    [lia|split; [unfold MAX_INTID; lia|vm_compute; reflexivity]|unfold PPI_END; lia|reflexivity|reflexivity].
Defined.

Lemma none_pending d : forallb (fun i => negb (pendingb (state i))) (irqs d) = true ->
  forall j irq, line d j irq -> pendingb (state irq) = false.
Proof.
  intros H j irq [_ Hl]. rewrite forallb_forall in H. apply negb_true_iff, H, list_elem_of_In, list_elem_of_lookup. eauto.
Qed.

Lemma sgi_any_cpu_witness :
  exists d', acknowledge 0 (distributor (inject_sgi 0 1 3 demo_gic).2) = (Ok (Some 3), d') /\ acknowledge 1 d' = (Ok None, d').
Proof.
  assert (Hok : (inject_sgi 0 1 3 demo_gic).1 = Ok tt) by (vm_compute; reflexivity).
  destruct (inject_sgi 0 1 3 demo_gic) as [r g'] eqn:E. simpl in Hok |- *. subst r.
  apply (sgi_any_cpu demo_gic g' 0 1 3 (mkIrq true Inactive Edge 0x20 1 0)).
  - vm_compute. reflexivity.
  - unfold SGI_END. lia.
  - lia.
  - lia.
  - split; [unfold MAX_INTID; lia|vm_compute; reflexivity].
  - reflexivity.
  - reflexivity.
  - simpl. lia.
  - intros j irq' _. apply none_pending. vm_compute. reflexivity.
  - exact E.
Defined.

Lemma default_priority_silent_witness :
  Forall gop_ok quiet_ops /\ Forall (fun r => forall id, r <> Ok (Some id)) (gic_run quiet_ops dist_new).1.
Proof. split; [exact quiet_ops_ok|]. apply default_priority_silent; [exact quiet_ops_ok|reflexivity]. Defined.
