(* ===== verification/AddressSpace.v ===== *)
(** * The guest address space ([hv2-core/src/address_space.rs])

    Regions of RAM, ROM, video memory and devices by guest address, the host
    memory behind them, page tracking, and the builder of the standard layout.
    Host memory is a map from host addresses to bytes (untouched memory reads
    zero); where the operating system places an anonymous mapping is a
    parameter.  Locks make each call one step; log messages are not modelled. *)

From S2P Require Import Prelude BTree.

Definition PAGE_SIZE : Z := 4096.
Definition LARGE_PAGE_SIZE : Z := 2 * 1024 * 1024.
Definition HUGE_PAGE_SIZE : Z := 1024 * 1024 * 1024.
Definition LOW_MEMORY_END : Z := 0x000A0000.
Definition VGA_MEMORY_START : Z := 0x000A0000.
Definition VGA_MEMORY_END : Z := 0x000C0000.
Definition ROM_START : Z := 0x000C0000.
Definition ROM_END : Z := 0x00100000.
Definition EXTENDED_MEMORY_START : Z := 0x00100000.
Definition LOCAL_APIC_BASE : Z := 0xFEE00000.
Definition IO_APIC_BASE : Z := 0xFEC00000.
Definition APIC_SIZE : Z := PAGE_SIZE.

(** ** Flags *)

Record MemoryFlags := from_bits { bits : Z }.

Definition READ : Z := Z.shiftl 1 0.
Definition WRITE : Z := Z.shiftl 1 1.
Definition EXECUTE : Z := Z.shiftl 1 2.
Definition USER : Z := Z.shiftl 1 3.
Definition MMIO : Z := Z.shiftl 1 4.
Definition ROM : Z := Z.shiftl 1 5.
Definition DIRTY : Z := Z.shiftl 1 6.
Definition ACCESSED : Z := Z.shiftl 1 7.
Definition PRESENT : Z := Z.shiftl 1 8.

Definition empty : MemoryFlags := from_bits 0.
Definition flags_ram : MemoryFlags := from_bits (Z.lor (Z.lor READ WRITE) PRESENT).
Definition flags_rom : MemoryFlags := from_bits (Z.lor (Z.lor READ ROM) PRESENT).
Definition flags_code : MemoryFlags := from_bits (Z.lor (Z.lor READ EXECUTE) PRESENT).
Definition flags_mmio : MemoryFlags := from_bits (Z.lor (Z.lor (Z.lor READ WRITE) MMIO) PRESENT).

Definition is_readable (f : MemoryFlags) : bool := has (bits f) READ.
Definition is_writable (f : MemoryFlags) : bool := has (bits f) WRITE && negb (has (bits f) ROM).
Definition is_executable (f : MemoryFlags) : bool := has (bits f) EXECUTE.
Definition flags_is_mmio (f : MemoryFlags) : bool := has (bits f) MMIO.
Definition is_present (f : MemoryFlags) : bool := has (bits f) PRESENT.
Definition is_dirty (f : MemoryFlags) : bool := has (bits f) DIRTY.
Definition set_dirty (f : MemoryFlags) : MemoryFlags := from_bits (Z.lor (bits f) DIRTY).
Definition clear_dirty (f : MemoryFlags) : MemoryFlags := from_bits (Z.land (bits f) (bnot 32 DIRTY)).
Definition set_accessed (f : MemoryFlags) : MemoryFlags := from_bits (Z.lor (bits f) ACCESSED).
Definition bitor (a b : MemoryFlags) : MemoryFlags := from_bits (Z.lor (bits a) (bits b)).
Definition bitand (a b : MemoryFlags) : MemoryFlags := from_bits (Z.land (bits a) (bits b)).

(** ** Regions *)

Inductive RegionType := Ram | Video | Rom | Mmio | Reserved.

#[global] Instance RegionType_eq_dec : EqDecision RegionType.
Proof. solve_decision. Defined.

Definition region_type_name (t : RegionType) : string :=
  match t with
  | Ram => "RAM" | Video => "VIDEO" | Rom => "ROM" | Mmio => "MMIO" | Reserved => "RESERVED"
  end.

Record AddressRegion := mkRegion {
  guest_base : Z;
  size : Z;
  host_base : option Z;
  flags : MemoryFlags;
  region_type : RegionType;
  name : string
}.

(** The digits of [{:x}], most significant first; 64 bits have at most 16. *)
Definition hex_digit (d : Z) : string := default "0"%string
  (["0"; "1"; "2"; "3"; "4"; "5"; "6"; "7"; "8"; "9"; "a"; "b"; "c"; "d"; "e"; "f"]%string
     !! Z.to_nat d).
Fixpoint hex_loop (fuel : nat) (z : Z) (acc : string) : string :=
  match fuel with
  | O => acc
  | S fuel' =>
      let acc := (hex_digit (z mod 16) +:+ acc)%string in
      if z <? 16 then acc else hex_loop fuel' (z / 16) acc
  end.
Definition hex (z : Z) : string := ("0x" +:+ hex_loop 16 z "")%string.

Definition region_ram (base sz host : Z) : AddressRegion :=
  mkRegion base sz (Some host) flags_ram Ram ("RAM@" +:+ hex base).
Definition region_mmio (base sz : Z) (nm : string) : AddressRegion :=
  mkRegion base sz None flags_mmio Mmio nm.
Definition region_rom (base sz host : Z) : AddressRegion :=
  mkRegion base sz (Some host) flags_rom Rom ("ROM@" +:+ hex base).
Definition region_video (base sz host : Z) : AddressRegion :=
  mkRegion base sz (Some host) flags_ram Video "VGA".

Definition contains (r : AddressRegion) (addr : Z) : Result bool :=
  if guest_base r <=? addr then
    e ← add 64 (guest_base r) (size r); mret (addr <? e)
  else mret false.

Definition overlaps (self other : AddressRegion) : Result bool :=
  self_end ← add 64 (guest_base self) (size self);
  other_end ← add 64 (guest_base other) (size other);
  mret ((guest_base self <? other_end) && (guest_base other <? self_end)).

Definition region_translate (r : AddressRegion) (addr : Z) : Result (option Z) :=
  contains r addr ≫= fun c : bool =>
  if negb c then mret None
  else match host_base r with
       | Some hva => off ← sub addr (guest_base r); h ← add 64 hva off; mret (Some h)
       | None => mret None
       end.

Definition region_end (r : AddressRegion) : Result Z := add 64 (guest_base r) (size r).

(** ** Host memory *)

Abbreviation HostMem := (gmap Z Z).

Definition peek (h : HostMem) (a : Z) (n : nat) : bytes :=
  (fun i => default 0 (h !! (a + i))) <$> seqZ 0 (Z.of_nat n).

Fixpoint poke (a : Z) (bs : bytes) (h : HostMem) : HostMem :=
  match bs with
  | [] => h
  | b :: bs' => <[a := b]> (poke (a + 1) bs' h)
  end.

(** ** The address space *)

Record PageInfo := mkPage { dirty : bool; accessed : bool; pinned : bool }.

Definition default_page : PageInfo := mkPage false false false.

Record MemoryAllocation := mkAlloc { host_addr : Z; alloc_size : Z }.

Record GuestAddressSpace := mkSpace {
  regions : list (Z * AddressRegion);
  total_ram : Z;
  page_tracking : list (Z * PageInfo);
  allocations : list MemoryAllocation;
  host : HostMem
}.

Definition space_new : GuestAddressSpace := mkSpace [] 0 [] [] ∅.

Definition set_regions (rs : list (Z * AddressRegion)) (s : GuestAddressSpace) : GuestAddressSpace :=
  mkSpace rs (total_ram s) (page_tracking s) (allocations s) (host s).
Definition set_total_ram (n : Z) (s : GuestAddressSpace) : GuestAddressSpace :=
  mkSpace (regions s) n (page_tracking s) (allocations s) (host s).
Definition set_tracking (ps : list (Z * PageInfo)) (s : GuestAddressSpace) : GuestAddressSpace :=
  mkSpace (regions s) (total_ram s) ps (allocations s) (host s).
Definition set_host (h : HostMem) (s : GuestAddressSpace) : GuestAddressSpace :=
  mkSpace (regions s) (total_ram s) (page_tracking s) (allocations s) h.
Definition push_allocation (a : MemoryAllocation) (s : GuestAddressSpace) : GuestAddressSpace :=
  mkSpace (regions s) (total_ram s) (page_tracking s) (allocations s ++ [a]) (host s).

(** Where the operating system puts an anonymous mapping, if it makes one. *)
Class HostAlloc := map_anon : list MemoryAllocation -> Z -> option Z.

Fixpoint check_overlaps (r : AddressRegion) (rs : list (Z * AddressRegion)) : Result unit :=
  match rs with
  | [] => mret tt
  | (_, existing) :: rs' =>
      overlaps r existing ≫= fun o : bool =>
      if o then
        e1 ← region_end r;
        e2 ← region_end existing;
        Err (Memory "Region '{}' [{:#x}-{:#x}) overlaps with '{}' [{:#x}-{:#x})"
               [guest_base r; e1; guest_base existing; e2])
      else check_overlaps r rs'
  end.

Definition add_region (r : AddressRegion) : ST GuestAddressSpace Error unit :=
  _ ← st_read (fun s => check_overlaps r (regions s));
  _ ← (if bool_decide (region_type r = Ram)
       then n ← st_read (fun s => add 64 (total_ram s) (size r)); st_modify (set_total_ram n)
       else mret tt);
  st_modify (fun s => set_regions (bt_insert (guest_base r) r (regions s)) s).

Definition remove_region (base : Z) : ST GuestAddressSpace Error AddressRegion :=
  r ← st_read (fun s => ok_or (bt_get base (regions s)) (Memory "No region at {:#x}" [base]));
  _ ← st_modify (fun s => set_regions (bt_remove base (regions s)) s);
  _ ← (if bool_decide (region_type r = Ram)
       then n ← st_read (fun s => sub (total_ram s) (size r)); st_modify (set_total_ram n)
       else mret tt);
  mret r.

Fixpoint find_loop (addr : Z) (rs : list (Z * AddressRegion)) : Result (option AddressRegion) :=
  match rs with
  | [] => mret None
  | (_, r) :: rs' =>
      contains r addr ≫= fun c : bool => if c then mret (Some r) else find_loop addr rs'
  end.

Definition find_region (s : GuestAddressSpace) (addr : Z) : Result (option AddressRegion) :=
  find_loop addr (regions s).

Definition translate (s : GuestAddressSpace) (addr : Z) : Result Z :=
  find_region s addr ≫= fun o : option AddressRegion =>
  t ← (match o with Some r => region_translate r addr | None => mret None end : Result (option Z));
  ok_or t (Memory "Unmapped guest address: {:#x}" [addr]).

Definition is_mapped (s : GuestAddressSpace) (addr : Z) : Result bool :=
  find_region s addr ≫= fun o : option AddressRegion =>
  mret (match o with Some _ => true | None => false end).

(** The loop of [is_range_mapped]: each turn leaves one region behind. *)
Fixpoint range_loop (fuel : nat) (s : GuestAddressSpace) (guest_addr len addr : Z) : Result bool :=
  match fuel with
  | O => Panic FuelExhausted
  | S fuel' =>
      limit ← add 64 guest_addr len;
      if addr <? limit then
        find_region s addr ≫= fun o : option AddressRegion =>
        match o with
        | Some r => e ← region_end r; range_loop fuel' s guest_addr len e
        | None => mret false
        end
      else mret true
  end.

Definition is_range_mapped (s : GuestAddressSpace) (guest_addr len : Z) : Result bool :=
  range_loop (length (regions s) + 2) s guest_addr len guest_addr.

Definition is_mmio (s : GuestAddressSpace) (addr : Z) : Result bool :=
  find_region s addr ≫= fun o : option AddressRegion =>
  mret (match o with Some r => flags_is_mmio (flags r) | None => false end).

Definition page_of (addr : Z) : Z := Z.land addr (bnot 64 (PAGE_SIZE - 1)).

Definition page_info (page : Z) (s : GuestAddressSpace) : PageInfo :=
  default default_page (bt_get page (page_tracking s)).

Definition mark_accessed (addr : Z) (s : GuestAddressSpace) : GuestAddressSpace :=
  let page := page_of addr in
  let i := page_info page s in
  set_tracking (bt_insert page (mkPage (dirty i) true (pinned i)) (page_tracking s)) s.

Definition mark_dirty (addr : Z) (s : GuestAddressSpace) : GuestAddressSpace :=
  let page := page_of addr in
  let i := page_info page s in
  set_tracking (bt_insert page (mkPage true true (pinned i)) (page_tracking s)) s.

(** The messages of [read] and of [write]. *)
Record access_text := mkText { t_unmapped : string; t_denied : string; t_mmio : string; t_cross : string }.

Definition read_text : access_text := mkText
  "Read from unmapped address: {:#x}" "Read from non-readable region at {:#x}"
  "MMIO read at {:#x} requires device handler" "Read crosses region boundary at {:#x}".
Definition write_text : access_text := mkText
  "Write to unmapped address: {:#x}" "Write to non-writable region at {:#x}"
  "MMIO write at {:#x} requires device handler" "Write crosses region boundary at {:#x}".

(** The checks [read] and [write] make alike: the region, its permission, the
    host address and the bound. *)
Definition resolve_access (allowed : MemoryFlags -> bool) (tx : access_text) (s : GuestAddressSpace)
    (addr : Z) (n : nat) : Result Z :=
  find_region s addr ≫= fun o : option AddressRegion =>
  r ← ok_or o (Memory (t_unmapped tx) [addr]);
  if negb (allowed (flags r)) then Err (Memory (t_denied tx) [addr])
  else if flags_is_mmio (flags r) then Err (Memory (t_mmio tx) [addr])
  else
    t ← region_translate r addr;
    ha ← ok_or t (Memory "Cannot translate {:#x}" [addr]);
    end_addr ← add 64 addr (Z.of_nat n);
    e ← region_end r;
    if e <? end_addr then Err (Memory (t_cross tx) [addr]) else mret ha.

Definition read (addr : Z) (n : nat) : ST GuestAddressSpace Error bytes :=
  ha ← st_read (fun s => resolve_access is_readable read_text s addr n);
  buf ← st_gets (fun s => peek (host s) ha n);
  _ ← st_modify (mark_accessed addr);
  mret buf.

Definition write (addr : Z) (buf : bytes) : ST GuestAddressSpace Error unit :=
  ha ← st_read (fun s => resolve_access is_writable write_text s addr (length buf));
  _ ← st_modify (fun s => set_host (poke ha buf (host s)) s);
  st_modify (mark_dirty addr).

Definition get_dirty_pages (s : GuestAddressSpace) : list Z :=
  fst <$> List.filter (fun kv : Z * PageInfo => dirty kv.2) (page_tracking s).

Definition clear_dirty_pages (s : GuestAddressSpace) : GuestAddressSpace :=
  set_tracking ((fun kv => (kv.1, mkPage false (accessed kv.2) (pinned kv.2))) <$> page_tracking s) s.

(** The host range a slice borrows; whether it lies in the region is left to
    the caller. *)
Definition get_slice (s : GuestAddressSpace) (addr : Z) (len : nat) : Result (Z * nat) :=
  h ← translate s addr; mret (h, len).
Definition get_slice_mut (s : GuestAddressSpace) (addr : Z) (len : nat) : Result (Z * nat) :=
  h ← translate s addr; mret (h, len).

Section Allocation.
Context `{HostAlloc}.

(** An anonymous mapping, kept in the list of allocations. *)
Definition host_alloc (fmt : string) (n : Z) : ST GuestAddressSpace Error Z :=
  h ← st_read (fun s => ok_or (map_anon (allocations s) n) (Memory fmt [n]));
  _ ← st_modify (push_allocation (mkAlloc h n));
  mret h.

Definition allocate_ram (base sz : Z) : ST GuestAddressSpace Error unit :=
  h ← host_alloc "Failed to allocate {} bytes: {}" sz;
  add_region (region_ram base sz h).

(** ** The builder *)

Record AddressSpaceBuilder := mkBuilder {
  low_memory : Z;
  extended_memory : Z;
  vga : bool;
  rom : bool;
  mmio_regions : list (Z * Z * string)
}.

Definition builder_new : AddressSpaceBuilder := mkBuilder LOW_MEMORY_END 0 true true [].

Definition with_total_ram (sz : Z) (b : AddressSpaceBuilder) : AddressSpaceBuilder :=
  if sz <=? LOW_MEMORY_END
  then mkBuilder sz 0 (vga b) (rom b) (mmio_regions b)
  else mkBuilder LOW_MEMORY_END (sz - LOW_MEMORY_END) (vga b) (rom b) (mmio_regions b).
Definition with_vga (e : bool) (b : AddressSpaceBuilder) : AddressSpaceBuilder :=
  mkBuilder (low_memory b) (extended_memory b) e (rom b) (mmio_regions b).
Definition with_rom (e : bool) (b : AddressSpaceBuilder) : AddressSpaceBuilder :=
  mkBuilder (low_memory b) (extended_memory b) (vga b) e (mmio_regions b).
Definition add_mmio (base sz : Z) (nm : string) (b : AddressSpaceBuilder) : AddressSpaceBuilder :=
  mkBuilder (low_memory b) (extended_memory b) (vga b) (rom b) (mmio_regions b ++ [(base, sz, nm)]).
Definition with_local_apic : AddressSpaceBuilder -> AddressSpaceBuilder :=
  add_mmio LOCAL_APIC_BASE APIC_SIZE "Local APIC".
Definition with_io_apic : AddressSpaceBuilder -> AddressSpaceBuilder :=
  add_mmio IO_APIC_BASE APIC_SIZE "I/O APIC".

Fixpoint add_mmio_regions (l : list (Z * Z * string)) : ST GuestAddressSpace Error unit :=
  match l with
  | [] => mret tt
  | (base, sz, nm) :: l' => _ ← add_region (region_mmio base sz nm); add_mmio_regions l'
  end.

Definition when (c : bool) (m : ST GuestAddressSpace Error unit) : ST GuestAddressSpace Error unit :=
  if c then m else mret tt.

Definition build_steps (b : AddressSpaceBuilder) : ST GuestAddressSpace Error unit :=
  _ ← when (0 <? low_memory b) (allocate_ram 0 (low_memory b));
  _ ← when (vga b)
        (n ← st_lift (sub VGA_MEMORY_END VGA_MEMORY_START);
         h ← host_alloc "Failed to allocate VGA memory: {}" n;
         add_region (region_video VGA_MEMORY_START n h));
  _ ← when (rom b)
        (n ← st_lift (sub ROM_END ROM_START);
         h ← host_alloc "Failed to allocate ROM: {}" n;
         add_region (region_rom ROM_START n h));
  _ ← when (0 <? extended_memory b) (allocate_ram EXTENDED_MEMORY_START (extended_memory b));
  add_mmio_regions (mmio_regions b).

Definition build (b : AddressSpaceBuilder) : Result GuestAddressSpace :=
  match build_steps b space_new with
  | (Ok _, s) => Ok s
  | (Err e, _) => Err e
  | (Panic p, _) => Panic p
  end.
End Allocation.

(** ** Regions as sets of addresses *)

Definition covers (r : AddressRegion) (a : Z) : Prop := guest_base r <= a < guest_base r + size r.
Definition coversb (a : Z) (r : AddressRegion) : bool :=
  (guest_base r <=? a) && (a <? guest_base r + size r).

Lemma region_coversb_spec a r : coversb a r = true <-> covers r a.
Proof. unfold coversb, covers. rewrite andb_true_iff, Z.leb_le, Z.ltb_lt. done. Qed.

(** Ranges without a common address. *)
Definition ranges_apart (a n b m : Z) : Prop := a + n <= b \/ b + m <= a.

Definition guest_apart (r r' : AddressRegion) : Prop :=
  ranges_apart (guest_base r) (size r) (guest_base r') (size r').

Definition host_apart (r r' : AddressRegion) : Prop :=
  match host_base r, host_base r' with
  | Some h, Some h' => ranges_apart h (size r) h' (size r')
  | _, _ => True
  end.

Definition clashes (r e : AddressRegion) : bool :=
  (guest_base r <? guest_base e + size e) && (guest_base e <? guest_base r + size r).

Lemma region_clash_apart r e : clashes r e = false <-> guest_apart r e.
Proof. unfold clashes, guest_apart, ranges_apart. rewrite andb_false_iff, !Z.ltb_ge. lia. Qed.

(** A region that is not empty and ends within 64 bits, on both sides. *)
Record region_ok (r : AddressRegion) : Prop := {
  ro_base : 0 <= guest_base r;
  ro_size : 0 < size r;
  ro_end : guest_base r + size r < 2 ^ 64;
  ro_host : forall h, host_base r = Some h -> 0 <= h /\ h + size r <= 2 ^ 64
}.

Lemma contains_ok r a : guest_base r + size r < 2 ^ 64 -> contains r a = Ok (coversb a r).
Proof.
  intros. unfold contains, coversb. rewrite add_ok by done. by destruct (_ <=? _).
Qed.

Lemma overlaps_ok r e :
  guest_base r + size r < 2 ^ 64 -> guest_base e + size e < 2 ^ 64 -> overlaps r e = Ok (clashes r e).
Proof. intros. unfold overlaps. by rewrite !add_ok by done. Qed.

Lemma region_end_ok r : guest_base r + size r < 2 ^ 64 -> region_end r = Ok (guest_base r + size r).
Proof. intros. unfold region_end. by rewrite add_ok by done. Qed.

Lemma region_translate_ok r a :
  region_ok r -> covers r a ->
  region_translate r a = Ok ((fun h => h + (a - guest_base r)) <$> host_base r).
Proof.
  intros Hr Hc. unfold region_translate. rewrite contains_ok, (proj2 (region_coversb_spec a r)) by (done || apply Hr). simpl.
  destruct (host_base r) as [h|] eqn:Hh; [|done]. destruct Hr as [? ? ? Hho]. specialize (Hho h Hh).
  unfold covers in Hc. rewrite sub_ok by lia. simpl. by rewrite add_ok by lia.
Qed.

(** The region found for an address. *)
Definition region_at (a : Z) (rs : list (Z * AddressRegion)) : option AddressRegion :=
  snd <$> List.find (fun kv => coversb a kv.2) rs.

Lemma find_loop_ok a rs :
  (forall kv, kv ∈ rs -> guest_base kv.2 + size kv.2 < 2 ^ 64) -> find_loop a rs = Ok (region_at a rs).
Proof.
  induction rs as [|[k r] rs IH]; intros Hok; [done|]. cbn [find_loop].
  rewrite contains_ok by exact (Hok (k, r) (list_elem_of_here _ _)). unfold region_at. simpl.
  destruct (coversb a r); [done|]. simpl. apply IH. intros kv Hin. apply Hok. by apply list_elem_of_further.
Qed.

Lemma check_overlaps_ok r rs :
  guest_base r + size r < 2 ^ 64 -> (forall kv, kv ∈ rs -> guest_base kv.2 + size kv.2 < 2 ^ 64) ->
  match check_overlaps r rs with
  | Ok _ => forall kv, kv ∈ rs -> guest_apart r kv.2
  | Err _ => exists kv, kv ∈ rs /\ ~ guest_apart r kv.2
  | Panic _ => False
  end.
Proof.
  intros Hr. induction rs as [|[k e] rs IH]; intros Hok; simpl; [by intros kv ?%elem_of_nil|].
  pose proof (Hok (k, e) (list_elem_of_here _ _)) as He. simpl in He. rewrite overlaps_ok by done. simpl.
  destruct (clashes r e) eqn:Hc.
  - rewrite !region_end_ok by done. simpl. exists (k, e). split; [apply list_elem_of_here|].
    simpl. rewrite <- region_clash_apart. congruence.
  - assert (forall kv, kv ∈ rs -> guest_base kv.2 + size kv.2 < 2 ^ 64) as Hok' by (intros ? ?; apply Hok; by apply list_elem_of_further).
    specialize (IH Hok'). destruct (check_overlaps r rs).
    + intros kv [->|?]%elem_of_cons; [by apply region_clash_apart|by apply IH].
    + destruct IH as (kv & ? & ?). exists kv. split; [by apply list_elem_of_further|done].
    + done.
Qed.

(** ** The invariant of an address space *)

Definition ram_size (r : AddressRegion) : Z := if bool_decide (region_type r = Ram) then size r else 0.

Definition ram_sum (rs : list (Z * AddressRegion)) : Z := foldr (fun kv n => ram_size kv.2 + n) 0 rs.

Lemma ram_sum_perm l k : l ≡ₚ k -> ram_sum l = ram_sum k.
Proof. unfold ram_sum. induction 1; simpl; lia. Qed.

Definition in_alloc (h n : Z) (a : MemoryAllocation) : Prop :=
  host_addr a <= h /\ h + n <= host_addr a + alloc_size a.

(** The guest side: regions in order, each under its base, none meeting
    another, and the RAM added up. *)
Record layout_wf (s : GuestAddressSpace) : Prop := {
  lw_sorted : bt_sorted (regions s);
  lw_keys : forall kv, kv ∈ regions s -> guest_base kv.2 = kv.1 /\ region_ok kv.2;
  lw_apart : forall x y, x ∈ regions s -> y ∈ regions s -> x <> y -> guest_apart x.2 y.2;
  lw_total : total_ram s = ram_sum (regions s)
}.

(** The host side as well: every region with host memory lies in an allocation,
    no two share a byte, and only allocated memory was ever written. *)
Record space_wf (s : GuestAddressSpace) : Prop := {
  sw_layout : layout_wf s;
  sw_apart : forall x y, x ∈ regions s -> y ∈ regions s -> x <> y -> host_apart x.2 y.2;
  sw_backed : forall kv h, kv ∈ regions s -> host_base kv.2 = Some h ->
    exists a, a ∈ allocations s /\ in_alloc h (size kv.2) a;
  sw_host : forall x, is_Some (host s !! x) -> exists a, a ∈ allocations s /\ in_alloc x 1 a;
  sw_tracking : bt_sorted (page_tracking s)
}.

Lemma wf_ends_ok s : layout_wf s -> forall kv, kv ∈ regions s -> guest_base kv.2 + size kv.2 < 2 ^ 64.
Proof. intros Hs kv Hin. by destruct (lw_keys s Hs kv Hin) as [_ []]. Qed.

Lemma find_region_ok s a : layout_wf s -> find_region s a = Ok (region_at a (regions s)).
Proof. intros Hs. by apply find_loop_ok, wf_ends_ok. Qed.

(** The region of an address is the one that covers it. *)
Lemma region_at_spec s a r :
  layout_wf s -> region_at a (regions s) = Some r <-> (guest_base r, r) ∈ regions s /\ covers r a.
Proof.
  intros Hs. unfold region_at. split.
  - intros ([k r'] & Hf & E)%fmap_Some. simpl in E. subst r'. apply find_some in Hf as [Hin%list_elem_of_In Hc%region_coversb_spec].
    destruct (lw_keys s Hs _ Hin) as [Hk _]. simpl in Hk. by rewrite Hk.
  - intros [Hin Hc]. destruct (List.find _ (regions s)) as [kv|] eqn:Hf.
    + apply find_some in Hf as [Hkv%list_elem_of_In Hckv%region_coversb_spec]. simpl. f_equal.
      destruct (decide (kv.1 = guest_base r)) as [E|E].
      * by rewrite (bt_sorted_inj (regions s) kv (guest_base r, r) (lw_sorted s Hs) Hkv Hin E).
      * assert (guest_apart kv.2 r) as Hap by (apply (lw_apart s Hs kv (guest_base r, r) Hkv Hin); intros ->; by apply E).
        unfold guest_apart, ranges_apart, covers in *. simpl in *. lia.
    + apply list_elem_of_In in Hin. apply (find_none _ _ Hf) in Hin. simpl in Hin.
      by rewrite (proj2 (region_coversb_spec a r) Hc) in Hin.
Qed.

Lemma region_at_None s a :
  layout_wf s -> region_at a (regions s) = None <-> forall kv, kv ∈ regions s -> ~ covers kv.2 a.
Proof.
  intros Hs. unfold region_at. split.
  - intros Hn kv Hin Hc. apply fmap_None in Hn. apply list_elem_of_In in Hin.
    apply (find_none _ _ Hn) in Hin. by rewrite (proj2 (region_coversb_spec a kv.2) Hc) in Hin.
  - intros Hno. apply fmap_None. destruct (List.find _ _) as [kv|] eqn:Hf; [|done].
    apply find_some in Hf as [Hkv%list_elem_of_In Hckv%region_coversb_spec]. by destruct (Hno kv Hkv).
Qed.

(** Disjoint regions of RAM cannot exceed the address space. *)
Lemma ram_sum_bound rs lo :
  bt_sorted rs -> (forall kv, kv ∈ rs -> guest_base kv.2 = kv.1 /\ region_ok kv.2 /\ lo <= guest_base kv.2) ->
  (forall x y, x ∈ rs -> y ∈ rs -> x <> y -> guest_apart x.2 y.2) -> lo < 2 ^ 64 ->
  lo + ram_sum rs < 2 ^ 64.
Proof.
  intros Hs. revert lo. induction Hs as [|[k r] rs Hs IH Hk]; intros lo Hok Hap Hlo; simpl; [lia|].
  destruct (Hok (k, r) (list_elem_of_here _ _)) as (E & [] & Hl). simpl in *. subst k.
  pose proof (proj1 (Forall_forall _ _) Hk) as Hlt. unfold key_lt in Hlt. simpl in Hlt.
  enough (guest_base r + size r + ram_sum rs < 2 ^ 64) by (unfold ram_size; case_bool_decide; lia).
  apply IH; [..|done].
  - intros kv Hin. destruct (Hok kv (list_elem_of_further _ _ _ Hin)) as (E & Hkv & _). split_and!; [done..|].
    specialize (Hlt kv Hin).
    assert (guest_apart r kv.2) as Hg.
    { apply (Hap (guest_base r, r) kv); [apply list_elem_of_here|by apply list_elem_of_further|].
      intros <-. simpl in Hlt. lia. }
    destruct Hkv. unfold guest_apart, ranges_apart in Hg. lia.
  - intros x y Hx Hy. apply Hap; by apply list_elem_of_further.
Qed.

(** ** Adding and removing regions *)

Definition with_region (r : AddressRegion) (s : GuestAddressSpace) : GuestAddressSpace :=
  mkSpace (bt_insert (guest_base r) r (regions s)) (total_ram s + ram_size r) (page_tracking s)
    (allocations s) (host s).

Lemma with_region_elem r s kv :
  layout_wf s -> region_ok r -> (forall x, x ∈ regions s -> guest_apart r x.2) ->
  kv ∈ regions (with_region r s) <-> kv = (guest_base r, r) \/ kv ∈ regions s.
Proof.
  intros Hs [] Hap. simpl. rewrite bt_insert_elem by apply Hs. split; [tauto|].
  intros [?|Hin]; [by left|]. right. split; [done|]. intros E. specialize (Hap kv Hin).
  destruct (lw_keys s Hs kv Hin) as [Hk []]. unfold guest_apart, ranges_apart in Hap. lia.
Qed.

Lemma with_region_layout r s :
  layout_wf s -> region_ok r -> (forall x, x ∈ regions s -> guest_apart r x.2) ->
  layout_wf (with_region r s) /\ total_ram s + ram_size r < 2 ^ 64.
Proof.
  intros Hs Hr Hap.
  assert (forall kv, kv ∈ regions (with_region r s) -> guest_base kv.2 = kv.1 /\ region_ok kv.2) as Hk.
  { intros kv [->|?]%with_region_elem; [done|by apply Hs|done..]. }
  assert (forall x y, x ∈ regions (with_region r s) -> y ∈ regions (with_region r s) -> x <> y ->
    guest_apart x.2 y.2) as Hap'.
  { intros x y [->|Hx]%with_region_elem [->|Hy]%with_region_elem Hne; try done; [by apply Hap| |by apply Hs].
    specialize (Hap x Hx). unfold guest_apart, ranges_apart in *. simpl. lia. }
  assert (bt_sorted (regions (with_region r s))) as Hsort by (apply bt_insert_sorted, Hs).
  assert (ram_sum (regions (with_region r s)) = total_ram s + ram_size r) as Hsum.
  { rewrite (lw_total s Hs). simpl.
    rewrite (ram_sum_perm _ ((guest_base r, r) :: regions s)); [simpl; lia|]. apply bt_insert_perm.
    intros x Hx E. destruct (lw_keys s Hs x Hx) as [Hkx []], Hr. specialize (Hap x Hx).
    unfold guest_apart, ranges_apart in Hap. lia. }
  split; [by split|]. rewrite <- Hsum.
  pose proof (ram_sum_bound (regions (with_region r s)) 0 Hsort) as Hb. rewrite Z.add_0_l in Hb.
  apply Hb; [|done|lia]. intros kv Hin. destruct (Hk kv Hin) as [? []]. by split_and!.
Qed.

(** Every outcome of adding a region. *)
Lemma add_region_cases r s :
  layout_wf s -> region_ok r ->
  match add_region r s with
  | (Ok _, s') => (forall kv, kv ∈ regions s -> guest_apart r kv.2) /\ s' = with_region r s
  | (Err _, s') => s' = s /\ exists kv, kv ∈ regions s /\ ~ guest_apart r kv.2
  | (Panic _, _) => False
  end.
Proof.
  intros Hs Hr. unfold add_region. rewrite st_bind_read.
  pose proof (check_overlaps_ok r (regions s) (ro_end r Hr) (wf_ends_ok s Hs)) as Hc.
  destruct (check_overlaps r (regions s)); [|done..].
  destruct (with_region_layout r s Hs Hr Hc) as [_ Hlt].
  rewrite st_bind_eq. unfold with_region, ram_size in *. case_bool_decide.
  - rewrite st_bind_read, add_ok by done. done.
  - rewrite Z.add_0_r. by destruct s.
Qed.

Lemma region_at_with r s a :
  layout_wf s -> region_ok r -> (forall x, x ∈ regions s -> guest_apart r x.2) ->
  region_at a (regions (with_region r s)) = if coversb a r then Some r else region_at a (regions s).
Proof.
  intros Hs Hr Hap. destruct (with_region_layout r s Hs Hr Hap) as [Hs' _].
  apply option_eq. intros x. rewrite (region_at_spec _ a x Hs'), with_region_elem by done.
  destruct (coversb a r) eqn:Hc.
  - apply region_coversb_spec in Hc. split.
    + intros [[[= _ ->]|Hin] Hx]; [done|]. specialize (Hap _ Hin). unfold guest_apart, ranges_apart, covers in *.
      simpl in Hap. lia.
    + intros [= <-]. split; [by left|done].
  - rewrite (region_at_spec s a x Hs). split; [|tauto].
    intros [[[= _ ->]|Hin] Hx]; [|done]. apply region_coversb_spec in Hx. congruence.
Qed.

(** Adding a region that is not empty and ends within 64 bits.  The call returns;
    it succeeds exactly when the region meets no other one, and then its
    addresses find it, every other address finds what it found, and RAM is
    counted; otherwise nothing changes. *)
Theorem add_region_spec r s :
  layout_wf s -> region_ok r ->
  match add_region r s with
  | (Ok _, s') => (forall kv, kv ∈ regions s -> guest_apart r kv.2) /\ layout_wf s' /\
      (forall a, find_region s' a = if coversb a r then Ok (Some r) else find_region s a) /\
      total_ram s' = total_ram s + ram_size r /\
      page_tracking s' = page_tracking s /\ allocations s' = allocations s /\ host s' = host s
  | (Err _, s') => s' = s /\ exists kv, kv ∈ regions s /\ ~ guest_apart r kv.2
  | (Panic _, _) => False
  end.
Proof.
  intros Hs Hr. pose proof (add_region_cases r s Hs Hr) as Hc.
  destruct (add_region r s) as [[u|e|p] s']; [|done..]. destruct Hc as [Hap ->].
  destruct (with_region_layout r s Hs Hr Hap) as [Hs' _]. split_and!; try done.
  intros a. rewrite !find_region_ok, region_at_with by done. by destruct (coversb a r).
Qed.

(** An empty region at the base of another one meets nothing, by the test the
    code makes; it takes the other one's place in the map, whose addresses are
    then unmapped while its RAM stays counted. *)
Theorem zero_size_replaces s r z :
  layout_wf s -> (guest_base r, r) ∈ regions s -> guest_base z = guest_base r -> size z = 0 ->
  exists s', add_region z s = (Ok tt, s') /\ total_ram s' = total_ram s /\
    forall a, covers r a -> find_region s' a = Ok None.
Proof.
  intros Hs Hin Hb Hz. destruct (lw_keys s Hs _ Hin) as [_ Hr]. simpl in Hr.
  assert (guest_base z + size z < 2 ^ 64) as Hez by (destruct Hr; lia).
  assert (forall kv, kv ∈ regions s -> kv = (guest_base r, r) \/ guest_apart r kv.2) as Hothers.
  { intros kv Hkv. destruct (decide (kv.1 = guest_base r)) as [E|E].
    - left. by apply (bt_sorted_inj (regions s) kv (guest_base r, r) (lw_sorted s Hs) Hkv Hin).
    - right. apply (lw_apart s Hs (guest_base r, r) kv Hin Hkv). intros <-. by apply E. }
  unfold add_region. rewrite st_bind_read.
  pose proof (check_overlaps_ok z (regions s) Hez (wf_ends_ok s Hs)) as Hc.
  destruct (check_overlaps z (regions s)) as [u|e|p]; [|exfalso|done].
  2:{ destruct Hc as (kv & Hkv & Hn). apply Hn. destruct Hr, (lw_keys s Hs kv Hkv) as [_ []].
      destruct (Hothers kv Hkv) as [->|Hap]; unfold guest_apart, ranges_apart in *; simpl; lia. }
  assert (forall kv, kv ∈ bt_insert (guest_base z) z (regions s) ->
    guest_base kv.2 + size kv.2 < 2 ^ 64 /\ forall a, covers r a -> ~ covers kv.2 a) as Hnew.
  { intros kv [->|[Hkv Hk]]%bt_insert_elem; [| |apply Hs].
    - simpl. split; [done|]. unfold covers. lia.
    - split; [by apply (wf_ends_ok s)|]. destruct (Hothers kv Hkv) as [->|Hap]; [simpl in Hk; lia|].
      unfold guest_apart, ranges_apart, covers in *. lia. }
  assert (total_ram s < 2 ^ 64) as Ht.
  { rewrite (lw_total s Hs). pose proof (ram_sum_bound (regions s) 0 (lw_sorted s Hs)) as Hsum.
    rewrite Z.add_0_l in Hsum. apply Hsum; [|apply Hs|lia].
    intros kv Hkv. destruct (lw_keys s Hs kv Hkv) as [? []]. by split_and!. }
  exists (set_regions (bt_insert (guest_base z) z (regions s)) s). split_and!; [|done|].
  - rewrite st_bind_eq. case_bool_decide; [|reflexivity].
    rewrite st_bind_read, add_ok, Hz, Z.add_0_r by lia. by destruct s.
  - intros a Ha. unfold find_region. cbn [regions set_regions].
    rewrite find_loop_ok by (intros kv Hkv; by apply Hnew). f_equal.
    unfold region_at. destruct (List.find _ _) as [kv|] eqn:E; [|done].
    apply find_some in E as [Hkv%list_elem_of_In Hckv%region_coversb_spec].
    by destruct (proj2 (Hnew kv Hkv) a Ha).
Qed.

Definition without_region (base : Z) (r : AddressRegion) (s : GuestAddressSpace) : GuestAddressSpace :=
  mkSpace (bt_remove base (regions s)) (total_ram s - ram_size r) (page_tracking s)
    (allocations s) (host s).

Lemma ram_sum_remove s base r :
  layout_wf s -> (base, r) ∈ regions s ->
  ram_sum (regions s) = ram_size r + ram_sum (bt_remove base (regions s)).
Proof. intros Hs Hin. rewrite (ram_sum_perm _ _ (bt_remove_perm base r _ (lw_sorted s Hs) Hin)). done. Qed.

Lemma ram_sum_nonneg rs : (forall kv, kv ∈ rs -> region_ok kv.2) -> 0 <= ram_sum rs.
Proof.
  induction rs as [|kv rs IH]; intros Hok; simpl; [done|].
  destruct (Hok kv (list_elem_of_here _ _)).
  assert (0 <= ram_sum rs) by (apply IH; intros; apply Hok; by apply list_elem_of_further).
  unfold ram_size. case_bool_decide; lia.
Qed.

(** Every outcome of removing a region. *)
Lemma remove_region_cases base s :
  layout_wf s ->
  match remove_region base s with
  | (Ok r, s') => (base, r) ∈ regions s /\ s' = without_region base r s
  | (Err _, s') => s' = s /\ forall kv, kv ∈ regions s -> kv.1 <> base
  | (Panic _, _) => False
  end.
Proof.
  intros Hs. unfold remove_region. rewrite st_bind_read.
  destruct (bt_get base (regions s)) as [r|] eqn:Hg; cbn [ok_or].
  - apply (bt_get_elem _ _ _ (lw_sorted s Hs)) in Hg. rewrite st_bind_modify.
    assert (0 <= ram_sum (bt_remove base (regions s))) as Hn.
    { apply ram_sum_nonneg. intros kv [Hkv _]%bt_remove_elem. by apply (lw_keys s Hs). }
    pose proof (ram_sum_remove s base r Hs Hg) as Hsum. rewrite <- (lw_total s Hs) in Hsum.
    destruct (bool_decide (region_type r = Ram)) eqn:Hram; unfold without_region; unfold ram_size in *;
      rewrite Hram in Hsum.
    + rewrite st_bind_eq, st_bind_read. simpl total_ram. rewrite sub_ok by lia. simpl. by rewrite Hram.
    + simpl. rewrite Hram, Z.sub_0_r. by destruct s.
  - split; [done|]. intros [k r] Hkv E. simpl in E. subst k.
    apply (bt_get_elem _ _ _ (lw_sorted s Hs)) in Hkv. congruence.
Qed.

Lemma without_region_layout base r s :
  layout_wf s -> (base, r) ∈ regions s -> layout_wf (without_region base r s).
Proof.
  intros Hs Hin. split; simpl.
  - apply bt_remove_sorted, Hs.
  - intros kv [Hkv _]%bt_remove_elem. by apply Hs.
  - intros x y [Hx _]%bt_remove_elem [Hy _]%bt_remove_elem. by apply Hs.
  - pose proof (ram_sum_remove s base r Hs Hin). rewrite (lw_total s Hs). lia.
Qed.

(** ** Host memory *)

Lemma poke_lookup a bs h x :
  poke a bs h !! x = if decide (a <= x < a + Z.of_nat (length bs)) then bs !! Z.to_nat (x - a) else h !! x.
Proof.
  revert a. induction bs as [|b bs IH]; intros a; cbn [poke length].
  { rewrite decide_False by lia. done. }
  destruct (decide (x = a)) as [->|Hne].
  - rewrite lookup_insert_eq, decide_True, Z.sub_diag by lia. done.
  - rewrite lookup_insert_ne, IH by done.
    destruct (decide (a <= x < a + Z.of_nat (S (length bs)))).
    + rewrite decide_True by lia. replace (Z.to_nat (x - a)) with (S (Z.to_nat (x - (a + 1)))) by lia. done.
    + by rewrite decide_False by lia.
Qed.

Lemma length_peek h a n : length (peek h a n) = n.
Proof. unfold peek. rewrite length_fmap, length_seqZ. lia. Qed.

Lemma peek_ext h h' a a' n :
  (forall i, 0 <= i < Z.of_nat n -> default 0 (h !! (a + i)) = default 0 (h' !! (a' + i))) ->
  peek h a n = peek h' a' n.
Proof.
  intros Hi. unfold peek. apply list_fmap_ext. intros k x Hx%lookup_seqZ. apply Hi. lia.
Qed.

Lemma peek_poke_same h a bs : peek (poke a bs h) a (length bs) = bs.
Proof.
  apply (list_eq_same_length _ _ (length bs)); [done|apply length_peek|].
  intros i x y Hi Hx Hy. unfold peek in Hx.
  rewrite list_lookup_fmap, lookup_seqZ_lt in Hx by lia. simpl in Hx.
  rewrite poke_lookup, decide_True in Hx by lia.
  replace (Z.to_nat (a + (0 + Z.of_nat i) - a)) with i in Hx by lia. rewrite Hy in Hx. simpl in Hx. congruence.
Qed.

Lemma peek_poke_apart h a bs b n :
  ranges_apart a (Z.of_nat (length bs)) b (Z.of_nat n) -> peek (poke a bs h) b n = peek h b n.
Proof.
  intros Hap. apply peek_ext. intros i Hi. rewrite poke_lookup, decide_False; [done|].
  unfold ranges_apart in Hap. lia.
Qed.

(** ** Reading and writing *)

(** A range of guest addresses within one region with host memory, and where
    that is. *)
Definition access (allowed : MemoryFlags -> bool) (s : GuestAddressSpace) (a n ha : Z) : Prop :=
  exists r h, (guest_base r, r) ∈ regions s /\ covers r a /\ a + n <= guest_base r + size r /\
    host_base r = Some h /\ ha = h + (a - guest_base r) /\
    allowed (flags r) = true /\ flags_is_mmio (flags r) = false.

Lemma resolve_access_ok allowed tx s a n ha :
  layout_wf s -> resolve_access allowed tx s a n = Ok ha <-> access allowed s a (Z.of_nat n) ha.
Proof.
  intros Hs. unfold resolve_access. rewrite find_region_ok by done. cbn [mbind Res_bind]. split.
  - destruct (region_at a (regions s)) as [r|] eqn:Hr; [|done]. cbn [ok_or mbind Res_bind].
    apply region_at_spec in Hr as [Hin Hc]; [|done]. destruct (lw_keys s Hs _ Hin) as [_ Hok]. simpl in Hok.
    destruct (allowed (flags r)) eqn:Ha; [|done]. destruct (flags_is_mmio (flags r)) eqn:Hm; [done|].
    cbn [negb]. rewrite region_translate_ok by done. cbn [mbind Res_bind].
    destruct (host_base r) as [h|] eqn:Hh; [|done]. cbn [fmap option_fmap option_map ok_or mbind Res_bind].
    rewrite region_end_ok by apply Hok. unfold add. destruct (Z.ltb_spec (a + Z.of_nat n) (2 ^ 64)); [|done].
    cbn [mbind Res_bind]. destruct (Z.ltb_spec (guest_base r + size r) (a + Z.of_nat n)); [done|].
    intros [= <-]. exists r, h. by split_and!.
  - intros (r & h & Hin & Hc & Hn & Hh & -> & Ha & Hm). destruct (lw_keys s Hs _ Hin) as [_ Hok]. simpl in Hok.
    rewrite (proj2 (region_at_spec s a r Hs)) by done. cbn [ok_or mbind Res_bind]. rewrite Ha, Hm. cbn [negb].
    rewrite region_translate_ok, Hh by done. cbn [fmap option_fmap option_map ok_or mbind Res_bind].
    destruct Hok. rewrite region_end_ok, add_ok by lia. cbn [mbind Res_bind].
    destruct (Z.ltb_spec (guest_base r + size r) (a + Z.of_nat n)); [lia|done].
Qed.

(** The only overflow an access can run into is that of its own end. *)
Lemma resolve_access_total allowed tx s a n :
  layout_wf s -> a + Z.of_nat n < 2 ^ 64 -> is_panic (resolve_access allowed tx s a n) = false.
Proof.
  intros Hs Hn. unfold resolve_access. rewrite find_region_ok by done. cbn [mbind Res_bind].
  destruct (region_at a (regions s)) as [r|] eqn:Hr; [|done]. cbn [ok_or mbind Res_bind].
  apply region_at_spec in Hr as [Hin Hc]; [|done]. destruct (lw_keys s Hs _ Hin) as [_ Hok]. simpl in Hok.
  destruct (allowed (flags r)); [|done]. destruct (flags_is_mmio (flags r)); [done|]. cbn [negb].
  rewrite region_translate_ok by done. cbn [mbind Res_bind].
  destruct (host_base r); [|done]. cbn [fmap option_fmap option_map ok_or mbind Res_bind].
  rewrite region_end_ok, add_ok by (done || apply Hok). cbn [mbind Res_bind]. by destruct (_ <? _).
Qed.

Lemma access_mono f s s' a n ha : regions s' = regions s -> access f s a n ha -> access f s' a n ha.
Proof. intros E (r & h & Hr). exists r, h. by rewrite E. Qed.

(** Disjoint guest ranges have disjoint host ranges. *)
Lemma access_apart f g s a n ha b m hb :
  space_wf s -> access f s a n ha -> access g s b m hb ->
  ranges_apart a n b m -> ranges_apart ha n hb m.
Proof.
  intros Hs (r & h & Hin & Hc & Hn & Hh & -> & _) (r' & h' & Hin' & Hc' & Hn' & Hh' & -> & _) Hap.
  destruct (decide (guest_base r = guest_base r')) as [E|E].
  - pose proof (bt_sorted_inj (regions s) _ _ (lw_sorted s (sw_layout s Hs)) Hin Hin' E) as [= _ <-].
    rewrite Hh in Hh'. injection Hh' as <-. unfold ranges_apart in *. lia.
  - assert (host_apart r r') as Ha.
    { apply (sw_apart s Hs (guest_base r, r) (guest_base r', r') Hin Hin'). intros [= ? _]. done. }
    unfold host_apart in Ha. rewrite Hh, Hh' in Ha. unfold ranges_apart, covers in *. lia.
Qed.

Lemma access_unique f g s a n ha m hb :
  layout_wf s -> access f s a n ha -> access g s a m hb -> ha = hb.
Proof.
  intros Hs (r & h & Hin & Hc & _ & Hh & -> & _) (r' & h' & Hin' & Hc' & _ & Hh' & -> & _).
  assert (Some r = Some r') as [= <-].
  { rewrite <- (proj2 (region_at_spec s a r Hs)) by done. by apply region_at_spec. }
  rewrite Hh in Hh'. by injection Hh' as <-.
Qed.

Lemma read_ok s a n : layout_wf s -> forall v,
  (read a n s).1 = Ok v <-> exists ha, access is_readable s a (Z.of_nat n) ha /\ v = peek (host s) ha n.
Proof.
  intros Hs v. unfold read. rewrite st_bind_read.
  pose proof (resolve_access_ok is_readable read_text s a n) as Hr.
  destruct (resolve_access is_readable read_text s a n) as [ha|e|p].
  - simpl. split.
    + intros [= <-]. exists ha. split; [by apply Hr|done].
    + intros (hb & Hb & ->). apply Hr in Hb; [|done]. by injection Hb as <-.
  - split; [done|]. intros (hb & Hb & _). by apply Hr in Hb.
  - split; [done|]. intros (hb & Hb & _). by apply Hr in Hb.
Qed.

Lemma dirty_elem s pg : pg ∈ get_dirty_pages s <-> exists i, (pg, i) ∈ page_tracking s /\ dirty i = true.
Proof.
  unfold get_dirty_pages. rewrite list_elem_of_fmap. split.
  - intros ([k i] & -> & Hin). exists i. apply list_elem_of_In, filter_In in Hin as [Hin Hd].
    split; [by apply list_elem_of_In|done].
  - intros (i & Hin & Hd). exists (pg, i). split; [done|]. apply list_elem_of_In, filter_In.
    split; [by apply list_elem_of_In|done].
Qed.

(** What a successful write leaves behind. *)
Lemma write_ok s a buf s' :
  layout_wf s -> write a buf s = (Ok tt, s') ->
  exists ha, access is_writable s a (Z.of_nat (length buf)) ha /\
    s' = mark_dirty a (set_host (poke ha buf (host s)) s).
Proof.
  intros Hs. unfold write. rewrite st_bind_read.
  destruct (resolve_access is_writable write_text s a (length buf)) as [ha|e|p] eqn:Hr; [|done..].
  apply resolve_access_ok in Hr; [|done]. rewrite st_bind_modify. intros [= <-]. by exists ha.
Qed.

Lemma mark_dirty_elem a s pg :
  bt_sorted (page_tracking s) ->
  pg ∈ get_dirty_pages (mark_dirty a s) <-> pg = page_of a \/ pg ∈ get_dirty_pages s.
Proof.
  intros Hs. rewrite !dirty_elem. cbn [mark_dirty page_tracking set_tracking].
  setoid_rewrite bt_insert_elem; [|done]. split.
  - intros (i & [[= -> _]|[Hin _]] & Hd); [by left|right; by exists i].
  - intros [->|(i & Hin & Hd)]; [eexists; split; [by left|done]|].
    destruct (decide (pg = page_of a)) as [->|]; [eexists; split; [by left|done]|].
    exists i. split; [by right|done].
Qed.

Lemma access_in_alloc f s a n ha :
  space_wf s -> 0 <= n -> access f s a n ha -> exists al, al ∈ allocations s /\ in_alloc ha n al.
Proof.
  intros Hs Hn (r & h & Hin & Hc & He & Hh & -> & _).
  destruct (sw_backed s Hs _ _ Hin Hh) as (al & Hal & Hi). exists al. split; [done|].
  unfold in_alloc, covers in *. simpl in Hi. lia.
Qed.

Lemma write_wf s a buf s' : space_wf s -> write a buf s = (Ok tt, s') -> space_wf s'.
Proof.
  intros Hs Hw. apply write_ok in Hw as (ha & Hacc & ->); [|apply Hs].
  pose proof (access_in_alloc _ _ _ _ _ Hs (Nat2Z.is_nonneg _) Hacc) as (al & Hal & Hi).
  destruct Hs as [[] ? ? Hho Ht]. split; try done.
  - intros x. cbn [mark_dirty set_tracking set_host host allocations]. rewrite poke_lookup.
    destruct (decide _); [|apply Hho]. intros _. exists al. split; [done|]. unfold in_alloc in *. lia.
  - by apply bt_insert_sorted.
Qed.

(** C15: Guest memory behaves as memory.  After a successful write the range reads
    back what was written, every range apart from it reads as before, wherever
    the two regions lie in host memory, and the regions are unchanged.  The page
    of the first address becomes dirty; no other page changes. *)
Theorem write_spec s a buf s' :
  space_wf s -> write a buf s = (Ok tt, s') ->
  (forall v, (read a (length buf) s).1 = Ok v -> (read a (length buf) s').1 = Ok buf) /\
  (forall b n v, ranges_apart a (Z.of_nat (length buf)) b (Z.of_nat n) ->
     (read b n s).1 = Ok v -> (read b n s').1 = Ok v) /\
  regions s' = regions s /\ space_wf s' /\
  forall pg, pg ∈ get_dirty_pages s' <-> pg = page_of a \/ pg ∈ get_dirty_pages s.
Proof.
  intros Hs Hw. pose proof (write_wf s a buf s' Hs Hw) as Hs'.
  apply write_ok in Hw as (ha & Hacc & ->); [|apply Hs].
  set (s' := mark_dirty _ _) in *. pose proof (sw_layout s Hs) as Hl. pose proof (sw_layout s' Hs') as Hl'.
  split_and!; [..|done|done|].
  - intros v (hb & Hb & _)%read_ok; [|done]. apply read_ok; [done|]. exists hb.
    split; [by eapply access_mono|]. rewrite <- (access_unique _ _ _ _ _ _ _ _ Hl Hacc Hb).
    symmetry. apply peek_poke_same.
  - intros b n v Hap (hb & Hb & ->)%read_ok; [|done]. apply read_ok; [done|]. exists hb.
    split; [by eapply access_mono|]. symmetry. apply peek_poke_apart.
    by apply (access_apart _ _ s a _ ha b _ hb Hs Hacc Hb).
  - intros pg. apply (mark_dirty_elem a (set_host (poke ha buf (host s)) s)), Hs.
Qed.

(** ** Whole ranges *)

Lemma filter_length_lt {A} (f g : A -> bool) l x :
  (forall y, f y = true -> g y = true) -> x ∈ l -> f x = false -> g x = true ->
  (length (List.filter f l) < length (List.filter g l))%nat.
Proof.
  intros Hfg. assert (forall k, length (List.filter f k) <= length (List.filter g k))%nat as Hle.
  { induction k as [|y k IH]; [done|]. simpl. specialize (Hfg y).
    destruct (f y); [rewrite Hfg by done; simpl; lia|destruct (g y); simpl; lia]. }
  induction l as [|y l IH]; [by intros ?%elem_of_nil|]. intros [->|Hin]%elem_of_cons Hf Hg; simpl.
  - rewrite Hf, Hg. simpl. specialize (Hle l). lia.
  - specialize (IH Hin Hf Hg). specialize (Hfg y).
    destruct (f y); [rewrite Hfg by done; simpl; lia|destruct (g y); simpl; lia].
Qed.

Definition ends_after (a : Z) (kv : Z * AddressRegion) : bool := a <? guest_base kv.2 + size kv.2.

Lemma range_loop_ok fuel s ga len addr :
  layout_wf s -> ga + len < 2 ^ 64 ->
  (length (List.filter (ends_after addr) (regions s)) < fuel)%nat ->
  exists b, range_loop fuel s ga len addr = Ok b /\
    (b = true <-> forall x, addr <= x < ga + len -> exists kv, kv ∈ regions s /\ covers kv.2 x).
Proof.
  intros Hs Hl. revert addr. induction fuel as [|fuel IH]; intros addr Hf; [lia|]. cbn [range_loop].
  rewrite add_ok by done. cbn [mbind Res_bind].
  destruct (Z.ltb_spec addr (ga + len)) as [Ha|Ha].
  2:{ exists true. split; [done|]. split; [intros _ x ?; lia|done]. }
  rewrite find_region_ok by done. cbn [mbind Res_bind].
  destruct (region_at addr (regions s)) as [r|] eqn:Hr.
  - apply region_at_spec in Hr as [Hin Hc]; [|done]. pose proof (wf_ends_ok s Hs _ Hin) as Hre. simpl in Hre.
    rewrite region_end_ok by done. cbn [mbind Res_bind]. unfold covers in Hc.
    destruct (IH (guest_base r + size r)) as (b & -> & Hb).
    { enough (length (List.filter (ends_after (guest_base r + size r)) (regions s)) <
        length (List.filter (ends_after addr) (regions s)))%nat by lia.
      apply (filter_length_lt _ _ _ (guest_base r, r)); [|done|unfold ends_after; simpl; lia..].
      intros y. unfold ends_after. rewrite !Z.ltb_lt. lia. }
    exists b. split; [done|]. rewrite Hb. split; intros Hx x ?; [|apply Hx; lia].
    destruct (Z.lt_ge_cases x (guest_base r + size r)); [|apply Hx; lia].
    exists (guest_base r, r). split; [done|]. unfold covers. simpl. lia.
  - exists false. split; [done|]. split; [done|]. intros Hx. destruct (Hx addr) as (kv & Hin & Hc); [lia|].
    by apply (proj1 (region_at_None s addr Hs) Hr kv Hin) in Hc.
Qed.

(** The test of a whole range ends, whatever the regions, and says exactly
    whether every address of the range is mapped, by one region or by several;
    a range that runs past 64 bits is an overflow. *)
Theorem is_range_mapped_spec s ga len :
  layout_wf s ->
  if ga + len <? 2 ^ 64
  then exists b, is_range_mapped s ga len = Ok b /\
    (b = true <-> forall x, ga <= x < ga + len -> exists r, find_region s x = Ok (Some r))
  else is_range_mapped s ga len = Panic ArithOverflow.
Proof.
  intros Hs. unfold is_range_mapped. destruct (Z.ltb_spec (ga + len) (2 ^ 64)) as [Hl|Hl].
  - destruct (range_loop_ok (length (regions s) + 2) s ga len ga Hs Hl) as (b & -> & Hb).
    { pose proof (filter_length_le (ends_after ga) (regions s)). lia. }
    exists b. split; [done|]. rewrite Hb. split; intros Hx x Hxr; destruct (Hx x Hxr) as [y Hy].
    + rewrite find_region_ok by done. destruct (region_at x (regions s)) as [r|] eqn:Hr; [by exists r|].
      destruct Hy as [Hin Hc]. by apply (proj1 (region_at_None s x Hs) Hr y Hin) in Hc.
    + rewrite find_region_ok in Hy by done. injection Hy as Hy. apply region_at_spec in Hy as [? ?]; [|done].
      by exists (guest_base y, y).
  - replace (length (regions s) + 2)%nat with (S (length (regions s) + 1)) by lia. simpl.
    unfold add. by rewrite (proj2 (Z.ltb_ge _ _)) by lia.
Qed.

(** ** Allocation *)

(** An anonymous mapping lies within the address space and apart from those
    made before. *)
Class HostAllocLaws `{HostAlloc} : Prop :=
  map_anon_fresh : forall al n h, map_anon al n = Some h ->
    0 <= h /\ h + n <= 2 ^ 64 /\ forall a, a ∈ al -> ranges_apart h n (host_addr a) (alloc_size a).

Section AllocationFacts.
Context `{HostAllocLaws}.

(** A mapping and the region it backs. *)
Definition alloc_region (fmt : string) (n : Z) (mk : Z -> AddressRegion) : ST GuestAddressSpace Error unit :=
  h ← host_alloc fmt n; add_region (mk h).

(** Regions of [n] bytes at [base] over the host memory given. *)
Record makes (base n : Z) (mk : Z -> AddressRegion) : Prop := {
  mk_base h : guest_base (mk h) = base;
  mk_size h : size (mk h) = n;
  mk_host h : host_base (mk h) = Some h
}.

Lemma push_wf a s : space_wf s -> space_wf (push_allocation a s).
Proof.
  intros [[] ? Hb Hh ?]. split; try done.
  - intros kv h Hin Hkv. destruct (Hb kv h Hin Hkv) as (al & ? & ?). exists al. split; [|done].
    simpl. apply elem_of_app. by left.
  - intros x Hx. destruct (Hh x Hx) as (al & ? & ?). exists al. split; [|done]. simpl. apply elem_of_app. by left.
Qed.

Lemma with_region_wf r s :
  space_wf s -> region_ok r -> (forall x, x ∈ regions s -> guest_apart r x.2 /\ host_apart r x.2) ->
  (forall h, host_base r = Some h -> exists a, a ∈ allocations s /\ in_alloc h (size r) a) ->
  space_wf (with_region r s).
Proof.
  intros [Hl Ha Hb Hh Ht] Hr Hap Hback.
  destruct (with_region_layout r s Hl Hr (fun x Hx => proj1 (Hap x Hx))) as [Hl' _].
  assert (forall kv, kv ∈ regions (with_region r s) -> kv = (guest_base r, r) \/ kv ∈ regions s) as Hel.
  { intros kv. rewrite with_region_elem; [tauto|done..|]. intros x Hx. by apply Hap. }
  split; try done.
  - intros x y [->|Hx]%Hel [->|Hy]%Hel Hne; [done|by apply Hap| |by apply Ha].
    destruct (Hap x Hx) as [_ Hx']. unfold host_apart, ranges_apart in *. simpl.
    destruct (host_base x.2), (host_base r); try done; lia.
  - intros kv h [->|Hin]%Hel; [apply Hback|by apply Hb].
Qed.

Lemma alloc_region_cases fmt base n mk s :
  space_wf s -> makes base n mk -> 0 <= base -> 0 < n -> base + n < 2 ^ 64 ->
  match alloc_region fmt n mk s with
  | (Ok _, s') => exists h, s' = with_region (mk h) (push_allocation (mkAlloc h n) s) /\
      map_anon (allocations s) n = Some h /\ region_ok (mk h) /\ space_wf s' /\
      forall kv, kv ∈ regions s -> guest_apart (mk h) kv.2
  | (Err _, s') => space_wf s' /\ regions s' = regions s /\
      (map_anon (allocations s) n = None \/
       exists kv, kv ∈ regions s /\ ~ ranges_apart base n (guest_base kv.2) (size kv.2))
  | (Panic _, _) => False
  end.
Proof.
  intros Hs [Eb Es Eh] Hb Hn He. unfold alloc_region, host_alloc. rewrite !st_bind_eq.
  unfold st_read at 1. destruct (map_anon (allocations s) n) as [h|] eqn:Hm; [|simpl; auto]. cbn [ok_or].
  rewrite st_bind_modify. cbn [mret ST_ret].
  destruct (map_anon_fresh _ _ _ Hm) as (Hh0 & Hh1 & Hfresh).
  assert (region_ok (mk h)) as Hr.
  { split; rewrite ?Eb, ?Es; try lia. rewrite Eh. intros h' [= <-]. lia. }
  pose proof (push_wf (mkAlloc h n) s Hs) as Hp.
  pose proof (add_region_cases (mk h) _ (sw_layout _ Hp) Hr) as Hc.
  destruct (add_region (mk h) (push_allocation (mkAlloc h n) s)) as [[u|e|p] s']; [|simpl|done].
  - destruct Hc as [Hap ->]. exists h. split_and!; try done. apply with_region_wf; [done..| |].
    + intros x Hx. split; [by apply Hap|]. unfold host_apart. rewrite Eh, Es.
      destruct (host_base x.2) as [h'|] eqn:Hx'; [|done].
      destruct (sw_backed s Hs x h' Hx Hx') as (al & Hal & Hi). specialize (Hfresh al Hal).
      unfold ranges_apart, in_alloc in *. lia.
    + rewrite Eh. intros h' [= <-]. exists (mkAlloc h n). split; [simpl; apply elem_of_app; right; apply list_elem_of_here|].
      unfold in_alloc. rewrite Es. simpl. lia.
  - destruct Hc as (-> & kv & Hin & Hn'). split_and!; [done..|]. right. exists kv. split; [done|].
    unfold guest_apart in Hn'. by rewrite Eb, Es in Hn'.
Qed.

(** ** Every space that can come about *)

Inductive space_reach : GuestAddressSpace -> Prop :=
| sr_new : space_reach space_new
| sr_alloc s fmt base n mk :
    space_reach s -> makes base n mk -> 0 <= base -> 0 < n -> base + n < 2 ^ 64 ->
    space_reach (alloc_region fmt n mk s).2
| sr_mmio s base n nm :
    space_reach s -> 0 <= base -> 0 < n -> base + n < 2 ^ 64 ->
    space_reach (add_region (region_mmio base n nm) s).2
| sr_remove s base : space_reach s -> space_reach (remove_region base s).2
| sr_read s a n : space_reach s -> space_reach (read a n s).2
| sr_write s a buf : space_reach s -> space_reach (write a buf s).2
| sr_clear s : space_reach s -> space_reach (clear_dirty_pages s).

Lemma mmio_ok base n nm : 0 <= base -> 0 < n -> base + n < 2 ^ 64 -> region_ok (region_mmio base n nm).
Proof. by split. Qed.

Lemma mmio_wf s base n nm :
  space_wf s -> 0 <= base -> 0 < n -> base + n < 2 ^ 64 ->
  space_wf (add_region (region_mmio base n nm) s).2.
Proof.
  intros Hs Hb Hn He. pose proof (mmio_ok base n nm Hb Hn He) as Hr.
  pose proof (add_region_cases _ s (sw_layout s Hs) Hr) as Hc.
  destruct (add_region _ s) as [[u|e|p] s']; [|by destruct Hc as [-> _]|done].
  destruct Hc as [Hap ->]. apply with_region_wf; [done..| |done]. intros x Hx. split; [by apply Hap|done].
Qed.

Lemma remove_wf s base : space_wf s -> space_wf (remove_region base s).2.
Proof.
  intros Hs. pose proof (remove_region_cases base s (sw_layout s Hs)) as Hc.
  destruct (remove_region base s) as [[r|e|p] s']; [|by destruct Hc as [-> _]|done].
  destruct Hc as [Hin ->], Hs as [Hl Ha Hb Hh Ht]. split; try done; [by apply without_region_layout|..].
  - intros x y [Hx _]%bt_remove_elem [Hy _]%bt_remove_elem. by apply Ha.
  - intros kv h [Hkv _]%bt_remove_elem. by apply Hb.
Qed.

Lemma tracking_wf s ps : space_wf s -> bt_sorted ps -> space_wf (set_tracking ps s).
Proof. intros [[] ? ? ? ?] ?. by split. Qed.

Lemma read_wf s a n : space_wf s -> space_wf (read a n s).2.
Proof.
  intros Hs. unfold read. rewrite st_bind_read.
  destruct (resolve_access is_readable read_text s a n); [|done..]. simpl.
  apply tracking_wf; [done|]. apply bt_insert_sorted, Hs.
Qed.

Lemma sorted_fmap {V W} (f : Z * V -> Z * W) l :
  (forall kv, (f kv).1 = kv.1) -> bt_sorted l -> bt_sorted (f <$> l).
Proof.
  intros Hf. induction 1 as [|x l Hs IH Hk]; simpl; [constructor|]. constructor; [done|].
  apply Forall_fmap. eapply Forall_impl; [exact Hk|]. intros y. unfold key_lt. simpl. by rewrite !Hf.
Qed.

Lemma empty_wf : space_wf space_new.
Proof.
  split; [split|..]; simpl.
  - apply SSorted_nil.
  - by intros kv ?%elem_of_nil.
  - by intros x y ?%elem_of_nil.
  - done.
  - by intros x y ?%elem_of_nil.
  - by intros kv h ?%elem_of_nil.
  - intros x [v Hv]. by rewrite lookup_empty in Hv.
  - apply SSorted_nil.
Qed.

(** In every space built by allocating, adding device windows, removing,
    reading and writing, regions stay ordered and apart on the guest side and on
    the host side, RAM is counted exactly, and no write has left the memory
    allocated for the guest. *)
Theorem address_space_invariant s : space_reach s -> space_wf s.
Proof.
  induction 1 as [|s fmt base n mk _ IH Hmk Hb Hn He|s base n nm _ IH Hb Hn He|s base _ IH|s a n _ IH
    |s a buf _ IH|s _ IH].
  - exact empty_wf.
  - pose proof (alloc_region_cases fmt base n mk s IH Hmk Hb Hn He) as Hc.
    destruct (alloc_region fmt n mk s) as [[u|e|p] s']; [|by apply Hc|done].
    by destruct Hc as (h & _ & _ & _ & ? & _).
  - by apply mmio_wf.
  - by apply remove_wf.
  - by apply read_wf.
  - destruct (write a buf s) as [[[]|e|p] s'] eqn:E; [by eapply write_wf| |];
      unfold write in E; rewrite st_bind_read in E;
      destruct (resolve_access is_writable write_text s a (length buf)); simplify_eq; exact IH.
  - apply tracking_wf; [done|]. apply sorted_fmap; [done|apply IH].
Qed.

(** Memory just allocated reads as zeros: it cannot hold what another region
    held. *)
Lemma fresh_region_zero fmt base n mk s s' a k :
  space_wf s -> makes base n mk -> 0 <= base -> 0 < n -> base + n < 2 ^ 64 ->
  alloc_region fmt n mk s = (Ok tt, s') ->
  (forall h, is_readable (flags (mk h)) = true /\ flags_is_mmio (flags (mk h)) = false) ->
  base <= a < base + n -> a + Z.of_nat k <= base + n ->
  (read a k s').1 = Ok (replicate k 0).
Proof.
  intros Hs Hmk Hb Hn He E Hfl Ha Hk. pose proof (alloc_region_cases fmt base n mk s Hs Hmk Hb Hn He) as Hc.
  rewrite E in Hc. destruct Hc as (h & -> & Hm & Hr & Hwf & Hap), Hmk as [Eb Es Eh].
  apply read_ok; [apply Hwf|]. exists (h + (a - base)). split.
  - exists (mk h), h. rewrite Eb, Es, Eh. destruct (Hfl h). unfold covers. rewrite Eb, Es. split_and!; try done; try lia.
    apply (with_region_elem (mk h) _ (base, mk h) (sw_layout _ (push_wf (mkAlloc h n) s Hs)) Hr Hap). left. by rewrite Eb.
  - symmetry. apply list_eq. intros i. unfold peek. cbn [with_region host push_allocation].
    rewrite list_lookup_fmap. destruct (Nat.lt_ge_cases i k) as [Hi|Hi].
    + rewrite lookup_seqZ_lt, lookup_replicate_2, Z.add_0_l by lia. cbn [fmap option_fmap option_map].
      destruct (host s !! (h + (a - base) + Z.of_nat i)) as [v|] eqn:Hv; [|done].
      destruct (sw_host s Hs _ (mk_is_Some _ _ Hv)) as (al & Hal & Hin).
      destruct (map_anon_fresh _ _ _ Hm) as (_ & _ & Hf). specialize (Hf al Hal).
      unfold ranges_apart, in_alloc in *. lia.
    + rewrite lookup_seqZ_ge by lia. symmetry. by apply lookup_replicate_None.
Qed.

(** ** The standard layout *)

Definition below (top : Z) (s : GuestAddressSpace) : Prop :=
  forall kv, kv ∈ regions s -> guest_base kv.2 + size kv.2 <= top.

(** What the builder keeps: a sound space below an address, with so much RAM and
    the given kind of region at each address. *)
Record laid_out (top ram : Z) (kind : Z -> option RegionType) (s : GuestAddressSpace) : Prop := {
  lo_wf : space_wf s;
  lo_below : below top s;
  lo_ram : total_ram s = ram;
  lo_kind : forall a, region_type <$> region_at a (regions s) = kind a
}.

Definition kind_with (base n : Z) (t : RegionType) (kind : Z -> option RegionType) (a : Z)
    : option RegionType :=
  if (base <=? a) && (a <? base + n) then Some t else kind a.

(** One more backed region above all the others. *)
Lemma lay_region fmt base n mk t top ram kind s :
  laid_out top ram kind s -> makes base n mk -> (forall h, region_type (mk h) = t) ->
  0 <= base -> top <= base -> 0 < n -> base + n < 2 ^ 64 ->
  match alloc_region fmt n mk s with
  | (Ok _, s') =>
      laid_out (base + n) (ram + if bool_decide (t = Ram) then n else 0) (kind_with base n t kind) s'
  | (Err _, _) => exists al m, map_anon al m = None
  | (Panic _, _) => False
  end.
Proof.
  intros [Hs Hbelow Hram Hkind] Hmk Ht Hb Htop Hn He.
  pose proof (alloc_region_cases fmt base n mk s Hs Hmk Hb Hn He) as Hc.
  destruct (alloc_region fmt n mk s) as [[u|e|p] s']; [| |done].
  - destruct Hc as (h & -> & Hm & Hr & Hwf & Hap), Hmk as [Eb Es Eh]. split; [done|..].
    + intros kv [->|Hin]%with_region_elem; [simpl; rewrite Eb, Es; lia| |apply push_wf, Hs|done..].
      specialize (Hbelow kv Hin). lia.
    + simpl. unfold ram_size. by rewrite Hram, Ht, Es.
    + intros a. rewrite region_at_with; [|apply push_wf, Hs|done..]. unfold coversb, kind_with. rewrite Eb, Es.
      destruct (_ && _); [simpl; by rewrite Ht|apply Hkind].
  - destruct Hc as (_ & _ & [?|(kv & Hin & Hno)]); [by eexists _, _|]. exfalso. apply Hno. right.
    by specialize (Hbelow kv Hin); lia.
Qed.

Lemma lay_nothing top top' ram kind s : top <= top' -> laid_out top ram kind s -> laid_out top' ram kind s.
Proof. intros Hle [? Hb ? ?]. split; [done| |done..]. intros kv Hin. specialize (Hb kv Hin). lia. Qed.

Lemma laid_out_ext top ram ram' kind kind' s :
  ram = ram' -> (forall a, kind a = kind' a) -> laid_out top ram kind s -> laid_out top ram' kind' s.
Proof. intros <- Hk []. split; try done. intros a. by rewrite <- Hk. Qed.

(** The kind of region at an address of the standard layout with [sz] bytes of
    RAM: up to 640 KiB low, the rest from 1 MiB. *)
Definition standard_kind (sz a : Z) : option RegionType :=
  if (0 <=? a) && (a <? Z.min sz LOW_MEMORY_END) then Some Ram
  else if (VGA_MEMORY_START <=? a) && (a <? VGA_MEMORY_END) then Some Video
  else if (ROM_START <=? a) && (a <? ROM_END) then Some Rom
  else if (EXTENDED_MEMORY_START <=? a) && (a <? EXTENDED_MEMORY_START + (sz - LOW_MEMORY_END))
  then Some Ram else None.

(** A step of the builder: from a state to a state, unless the host refuses
    memory. *)
Definition step_ok (m : ST GuestAddressSpace Error unit) (P Q : GuestAddressSpace -> Prop) : Prop :=
  forall s, P s -> match m s with
                   | (Ok _, s') => Q s'
                   | (Err _, _) => exists al n, map_anon al n = None
                   | (Panic _, _) => False
                   end.

Lemma step_bind m k P Q R : step_ok m P Q -> step_ok k Q R -> step_ok (_ ← m; k) P R.
Proof.
  intros Hm Hk s Hs. rewrite st_bind_eq. specialize (Hm s Hs). destruct (m s) as [[u|e|p] s']; [by apply Hk|done..].
Qed.

Lemma makes_ram base n : makes base n (region_ram base n).
Proof. by split. Qed.
Lemma makes_video base n : makes base n (region_video base n).
Proof. by split. Qed.
Lemma makes_rom base n : makes base n (region_rom base n).
Proof. by split. Qed.

(** RAM of any size, none included. *)
Lemma lay_ram base n top ram kind :
  0 <= base -> top <= base -> 0 <= n -> base + n < 2 ^ 64 ->
  step_ok (when (0 <? n) (allocate_ram base n)) (laid_out top ram kind)
    (laid_out (base + n) (ram + n) (kind_with base n Ram kind)).
Proof.
  intros Hb Htop Hn He s Hs. destruct (Z.ltb_spec 0 n); cbn [when].
  - pose proof (lay_region "Failed to allocate {} bytes: {}" base n _ Ram top ram kind s Hs (makes_ram base n)
      (fun h => eq_refl) Hb Htop ltac:(done) He) as Hl. rewrite bool_decide_true in Hl by done. exact Hl.
  - assert (n = 0) as -> by lia. rewrite !Z.add_0_r. destruct Hs as [? Hbe ? Hk]. split; [done| |done|].
    + intros kv Hin. specialize (Hbe kv Hin). lia.
    + intros a. rewrite Hk. unfold kind_with. by zcases; [lia|..].
Qed.

(** Video memory and ROM. *)
Lemma lay_other fmt base top mk t below_ ram kind :
  (forall n, makes base n (mk n)) -> (forall n h, region_type (mk n h) = t) -> t <> Ram ->
  0 <= base -> below_ <= base -> base < top -> top < 2 ^ 64 ->
  step_ok (n ← st_lift (sub top base); h ← host_alloc fmt n; add_region (mk n h)) (laid_out below_ ram kind)
    (laid_out top ram (kind_with base (top - base) t kind)).
Proof.
  intros Hmk Ht Hr Hb Hlow Hlt Htop s Hs. rewrite st_bind_lift, sub_ok by lia.
  pose proof (lay_region fmt base (top - base) (mk (top - base)) t below_ ram kind s Hs (Hmk _) (Ht _) Hb Hlow
    ltac:(lia) ltac:(lia)) as Hl.
  rewrite bool_decide_false, Z.add_0_r in Hl by done. replace (base + (top - base)) with top in Hl by lia. exact Hl.
Qed.

Definition no_kind (a : Z) : option RegionType := None.

Lemma laid_out_new : laid_out 0 0 no_kind space_new.
Proof. split; [exact empty_wf|by intros kv ?%elem_of_nil|done|done]. Qed.

(** The builder's split of the RAM asked for. *)
Definition low_part (sz : Z) : Z := Z.min sz LOW_MEMORY_END.
Definition extended_part (sz : Z) : Z := Z.max 0 (sz - LOW_MEMORY_END).

Lemma builder_split sz :
  with_total_ram sz builder_new = mkBuilder (low_part sz) (extended_part sz) true true [].
Proof.
  unfold with_total_ram, low_part, extended_part.
  destruct (Z.leb_spec sz LOW_MEMORY_END); cbn [builder_new vga rom mmio_regions].
  - by rewrite Z.min_l, Z.max_l by lia.
  - by rewrite Z.min_r, Z.max_r by lia.
Qed.

Lemma standard_kinds sz a :
  kind_with EXTENDED_MEMORY_START (extended_part sz) Ram (kind_with ROM_START 0x40000 Rom
    (kind_with VGA_MEMORY_START 0x20000 Video (kind_with 0 (low_part sz) Ram no_kind))) a = standard_kind sz a.
Proof.
  unfold kind_with, standard_kind, no_kind, extended_part, low_part, EXTENDED_MEMORY_START, ROM_START, ROM_END,
    VGA_MEMORY_START, VGA_MEMORY_END, LOW_MEMORY_END.
  zcases; try reflexivity; lia.
Qed.

(** The standard layout, for every amount of RAM the address space can hold.
    Building returns a space unless the host refuses memory; the space is sound,
    counts exactly the RAM asked for, and each guest address belongs to RAM, video
    memory, ROM or nothing as the layout says. *)
Theorem build_standard sz :
  0 <= sz -> EXTENDED_MEMORY_START + sz < 2 ^ 64 ->
  match build (with_total_ram sz builder_new) with
  | Ok s => space_wf s /\ total_ram s = sz /\
      (forall a, region_type <$> region_at a (regions s) = standard_kind sz a)
  | Err _ => exists al n, map_anon al n = None
  | Panic _ => False
  end.
Proof.
  intros Hsz Htop. rewrite builder_split. unfold build, build_steps.
  cbn [low_memory extended_memory vga rom mmio_regions when add_mmio_regions].
  assert (low_part sz + extended_part sz = sz) as Hsum by (unfold low_part, extended_part; lia).
  assert (0 <= low_part sz <= LOW_MEMORY_END) as Hlow by (unfold low_part, LOW_MEMORY_END in *; lia).
  assert (0 <= extended_part sz <= sz) as Hext by (unfold extended_part, LOW_MEMORY_END; lia).
  match goal with |- match match ?m _ with _ => _ end with _ => _ end =>
    assert (step_ok m (laid_out 0 0 no_kind) (laid_out (EXTENDED_MEMORY_START + extended_part sz) sz
      (standard_kind sz))) as Hsteps end.
  - eapply step_bind; [apply lay_ram; unfold LOW_MEMORY_END in *; lia|].
    eapply step_bind; [apply (lay_other _ _ _ _ Video); [by intros; apply makes_video|done..| |done|done];
      unfold LOW_MEMORY_END, VGA_MEMORY_START in *; lia|].
    eapply step_bind; [apply (lay_other _ _ _ _ Rom); [by intros; apply makes_rom|done..]|].
    eapply step_bind; [apply lay_ram; unfold ROM_END, EXTENDED_MEMORY_START in *; lia|].
    intros s Hs. simpl. eapply laid_out_ext; [|apply standard_kinds|exact Hs]. lia.
  - specialize (Hsteps space_new laid_out_new).
    match goal with |- match match ?r with _ => _ end with _ => _ end => destruct r as [[u|e|p] s'] end; [|done..].
    by destruct Hsteps.
Qed.
End AllocationFacts.

(** ** Witnesses *)

(** Mappings handed out one above the other. *)
Definition alloc_top (al : list MemoryAllocation) : Z :=
  foldr (fun a t => Z.max (host_addr a + alloc_size a) t) 0x7f0000000000 al.

#[local] Instance bump_alloc : HostAlloc :=
  fun al n => if alloc_top al + n <=? 2 ^ 64 then Some (alloc_top al) else None.

#[local] Instance bump_alloc_laws : HostAllocLaws.
Proof.
  intros al n h. unfold map_anon, bump_alloc. destruct (Z.leb_spec (alloc_top al + n) (2 ^ 64)); [|done].
  intros [= <-].
  assert (0 <= alloc_top al /\ forall a, a ∈ al -> host_addr a + alloc_size a <= alloc_top al) as [H0 Ht].
  { clear. unfold alloc_top. induction al as [|b al [IH0 IH]]; simpl; [split; [done|by intros a ?%elem_of_nil]|].
    split; [lia|]. intros a [->|Hin]%elem_of_cons; [lia|]. specialize (IH a Hin). lia. }
  split_and!; [done..|]. intros a Ha. right. by apply Ht.
Qed.

(** Three pages of RAM with a device window above them. *)
Definition demo_ram : GuestAddressSpace := (allocate_ram 0x1000 0x3000 space_new).2.
Definition demo_space : GuestAddressSpace := (add_region (region_mmio 0x10000 0x1000 "uart") demo_ram).2.

Lemma demo_ram_wf : space_wf demo_ram.
Proof.
  pose proof (alloc_region_cases "Failed to allocate {} bytes: {}" 0x1000 0x3000 _ space_new empty_wf
    (makes_ram 0x1000 0x3000) ltac:(lia) ltac:(lia) ltac:(lia)) as Hc.
  change (alloc_region _ 0x3000 _) with (allocate_ram 0x1000 0x3000) in Hc. unfold demo_ram.
  destruct (allocate_ram 0x1000 0x3000 space_new) as [[u|e|p] s'] eqn:E;
    [|apply (f_equal fst) in E; vm_compute in E; discriminate..].
  by destruct Hc as (h & _ & _ & _ & ? & _).
Qed.

Lemma demo_space_wf : space_wf demo_space.
Proof. apply mmio_wf; [exact demo_ram_wf|lia..]. Qed.

Lemma demo_space_reach : space_reach demo_space.
Proof.
  apply sr_mmio; [|lia..]. apply (sr_alloc space_new _ 0x1000 0x3000 _ sr_new (makes_ram _ _)); lia.
Qed.

Lemma address_space_invariant_witness : space_wf demo_space.
Proof. exact (address_space_invariant demo_space demo_space_reach). Defined.

Lemma add_region_spec_witness :
  (add_region (region_mmio 0x20000 0x1000 "rtc") demo_space).1 = Ok tt /\
  find_region (add_region (region_mmio 0x20000 0x1000 "rtc") demo_space).2 0x20010 =
    Ok (Some (region_mmio 0x20000 0x1000 "rtc")).
Proof.
  assert ((add_region (region_mmio 0x20000 0x1000 "rtc") demo_space).1 = Ok tt) as E by (vm_compute; reflexivity).
  split; [exact E|].
  pose proof (add_region_spec (region_mmio 0x20000 0x1000 "rtc") demo_space (sw_layout _ demo_space_wf)
    (mmio_ok 0x20000 0x1000 "rtc" ltac:(lia) ltac:(lia) ltac:(lia))) as Hs.
  destruct (add_region (region_mmio 0x20000 0x1000 "rtc") demo_space) as [r s']. simpl in E. subst r.
  destruct Hs as (_ & _ & Hf & _). exact (Hf 0x20010).
Defined.

(** Thirty-two bytes across the end of a page. *)
Definition demo_buf : bytes := replicate 32 0xAB.
Definition demo_written : GuestAddressSpace := (write 0x1FF0 demo_buf demo_space).2.

Lemma demo_write_ok : write 0x1FF0 demo_buf demo_space = (Ok tt, demo_written).
Proof.
  unfold demo_written. destruct (write 0x1FF0 demo_buf demo_space) as [r s'] eqn:E.
  apply (f_equal fst) in E. vm_compute in E. by rewrite <- E.
Qed.

Lemma write_spec_witness :
  (read 0x1FF0 32 demo_written).1 = Ok demo_buf /\
  (forall pg, pg ∈ get_dirty_pages demo_written <-> pg = 0x1000 \/ pg ∈ get_dirty_pages demo_space).
Proof.
  destruct (write_spec demo_space 0x1FF0 demo_buf demo_written demo_space_wf demo_write_ok)
    as (Hr & _ & _ & _ & Hd).
  split; [|exact Hd]. apply (Hr (replicate 32 0)). vm_compute. reflexivity.
Defined.

(** The bytes in the second page were written and the page is not dirty. *)
Example second_page_not_dirty :
  (read 0x2000 4 demo_written).1 = Ok [0xAB; 0xAB; 0xAB; 0xAB] /\ get_dirty_pages demo_written = [0x1000].
Proof. vm_compute. auto. Qed.

Lemma is_range_mapped_spec_witness :
  is_range_mapped demo_space 0x1000 0x3000 = Ok true /\ is_range_mapped demo_space 0x3000 0x2000 = Ok false.
Proof.
  split.
  - destruct (is_range_mapped_spec demo_space 0x1000 0x3000 (sw_layout _ demo_space_wf)) as (b & E & _).
    rewrite E. vm_compute in E. congruence.
  - destruct (is_range_mapped_spec demo_space 0x3000 0x2000 (sw_layout _ demo_space_wf)) as (b & E & _).
    rewrite E. vm_compute in E. congruence.
Defined.

Lemma zero_size_replaces_witness :
  exists s', add_region (region_mmio 0x10000 0 "empty") demo_space = (Ok tt, s') /\
    find_region s' 0x10004 = Ok None.
Proof.
  destruct (zero_size_replaces demo_space (region_mmio 0x10000 0x1000 "uart") (region_mmio 0x10000 0 "empty")
    (sw_layout _ demo_space_wf)) as (s' & E & _ & Hf); [|reflexivity..|].
  - apply (bt_get_elem _ _ _ (lw_sorted _ (sw_layout _ demo_space_wf))). vm_compute. reflexivity.
  - exists s'. split; [exact E|]. apply Hf. unfold covers. simpl. lia.
Defined.

Lemma build_standard_witness :
  is_ok (build (with_total_ram 0x8000000 builder_new)) = true /\
  match build (with_total_ram 0x8000000 builder_new) with
  | Ok s => total_ram s = 0x8000000
  | _ => False
  end.
Proof.
  assert (is_ok (build (with_total_ram 0x8000000 builder_new)) = true) as E by (vm_compute; reflexivity).
  split; [exact E|].
  pose proof (build_standard 0x8000000 ltac:(lia) ltac:(reflexivity)) as Hs.
  destruct (build (with_total_ram 0x8000000 builder_new)) as [s|e|p]; [apply Hs|discriminate E..].
Defined.
