(* ===== verification/DirtyTracking.v ===== *)
(** * Dirty page tracking ([hv2-core/src/migration/dirty_tracking.rs])

    A bitmap of 64-bit words per memory region, one bit a page, and the tracker
    over several regions.  The words are atomics; a method is one step here, and
    [Migration] considers what happens between two steps. *)

From S2P Require Import Prelude F64.

Definition PAGE_SIZE : Z := 4096.
Definition PAGES_PER_WORD : Z := 64.

Record DirtyBitmap := mkBitmap {
  base_gpa : Z;
  size : Z;
  num_pages : Z;
  bitmap : list Z;
  generation : Z
}.

Definition bitmap_new (base sz : Z) : DirtyBitmap :=
  let pages := div_ceil sz PAGE_SIZE in
  let words := div_ceil pages PAGES_PER_WORD in
  mkBitmap base sz pages (replicate (Z.to_nat words) 0) 0.

Definition set_bitmap (ws : list Z) (b : DirtyBitmap) : DirtyBitmap :=
  mkBitmap (base_gpa b) (size b) (num_pages b) ws (generation b).
Definition next_generation (b : DirtyBitmap) : DirtyBitmap :=
  mkBitmap (base_gpa b) (size b) (num_pages b) (bitmap b) (wrapping_add 64 (generation b) 1).

(** Whether the region holds an address: [gpa < base || gpa >= base + size]
    refuses it. *)
Definition outside (b : DirtyBitmap) (gpa : Z) : Result bool :=
  if gpa <? base_gpa b then mret true
  else e ← add 64 (base_gpa b) (size b); mret (e <=? gpa).

Definition word_of (page : Z) : nat := Z.to_nat (page / PAGES_PER_WORD).
Definition bit_of (page : Z) : Z := page mod PAGES_PER_WORD.

(** [fetch_or] and [fetch_and] of one bit of one word; nothing beyond the last
    word. *)
Definition or_page (page : Z) (ws : list Z) : list Z :=
  alter (fun w => Z.lor w (Z.shiftl 1 (bit_of page))) (word_of page) ws.
Definition and_not_page (page : Z) (ws : list Z) : list Z :=
  alter (fun w => Z.land w (bnot 64 (Z.shiftl 1 (bit_of page)))) (word_of page) ws.

Definition page_num (b : DirtyBitmap) (gpa : Z) : Result Z :=
  off ← sub gpa (base_gpa b); mret (off / PAGE_SIZE).

Definition bm_mark_dirty (gpa : Z) : ST DirtyBitmap Error bool :=
  st_read (fun b => outside b gpa) ≫= fun out : bool =>
  if out then mret false
  else
    page ← st_read (fun b => page_num b gpa);
    st_gets (fun b => bool_decide (word_of page < length (bitmap b))%nat) ≫= fun ok : bool =>
    if ok then _ ← st_modify (fun b => set_bitmap (or_page page (bitmap b)) b); mret true
    else mret false.

(** The pages a range touches, first and one past the last. *)
Definition start_page (b : DirtyBitmap) (gpa : Z) : Z := saturating_sub gpa (base_gpa b) / PAGE_SIZE.
Definition end_page (b : DirtyBitmap) (gpa sz : Z) : Z :=
  saturating_add 64 (saturating_sub (saturating_add 64 gpa sz) (base_gpa b)) (PAGE_SIZE - 1) / PAGE_SIZE.

(** The loop over the pages; a page beyond the last word is skipped. *)
Definition or_pages (pages : list Z) (ws : list Z) : list Z :=
  foldl (fun ws page => or_page page ws) ws pages.

Definition bm_mark_range_dirty (gpa sz : Z) (b : DirtyBitmap) : DirtyBitmap :=
  let s := start_page b gpa in
  let e := Z.min (end_page b gpa sz) (num_pages b) in
  set_bitmap (or_pages (seqZ s (e - s)) (bitmap b)) b.

Definition bm_is_dirty (b : DirtyBitmap) (gpa : Z) : Result bool :=
  outside b gpa ≫= fun out : bool =>
  if out then mret false
  else
    page ← page_num b gpa;
    mret (match bitmap b !! word_of page with
          | Some w => has w (Z.shiftl 1 (bit_of page))
          | None => false
          end).

Definition bm_clear_dirty (gpa : Z) : ST DirtyBitmap Error bool :=
  st_read (fun b => outside b gpa) ≫= fun out : bool =>
  if out then mret false
  else
    page ← st_read (fun b => page_num b gpa);
    old ← st_gets (fun b => bitmap b !! word_of page);
    match old with
    | Some w =>
        _ ← st_modify (fun b => set_bitmap (and_not_page page (bitmap b)) b);
        mret (has w (Z.shiftl 1 (bit_of page)))
    | None => mret false
    end.

Definition bm_clear_all (b : DirtyBitmap) : DirtyBitmap :=
  next_generation (set_bitmap ((fun _ => 0) <$> bitmap b) b).

Definition bm_collect_and_clear (b : DirtyBitmap) : list Z * DirtyBitmap :=
  (bitmap b, bm_clear_all b).

(** The set bits of a word, in order, and [count_ones]. *)
Definition word_bits (w : Z) : list Z := List.filter (Z.testbit w) (seqZ 0 64).
Definition count_ones (w : Z) : Z := Z.of_nat (length (word_bits w)).

(** [Iterator::sum] of machine words. *)
Fixpoint sum_from (acc : Z) (l : list Z) : Result Z :=
  match l with
  | [] => mret acc
  | x :: l' => acc' ← add 64 acc x; sum_from acc' l'
  end.

Definition bm_count_dirty (b : DirtyBitmap) : Result Z := sum_from 0 (count_ones <$> bitmap b).

(** ** The iterator *)

Record DirtyPageIterator := mkIter { word_idx : nat; current_word : Z }.

Definition iter_new (b : DirtyBitmap) : DirtyPageIterator :=
  mkIter 0 (match bitmap b !! 0%nat with Some w => w | None => 0 end).

(** [next]; each turn of its loop moves to another word, so one more turn than
    there are words is enough. *)
Fixpoint iter_next (fuel : nat) (b : DirtyBitmap) (i : DirtyPageIterator)
    : Result (option (Z * DirtyPageIterator)) :=
  match fuel with
  | O => Panic FuelExhausted
  | S fuel' =>
      let w := current_word i in
      let advance (i : DirtyPageIterator) :=
        let k := S (word_idx i) in
        match bitmap b !! k with
        | None => mret None
        | Some w' => iter_next fuel' b (mkIter k w')
        end in
      if negb (w =? 0) then
        let bit := trailing_zeros_from 64 0 w in
        less ← sub w 1;
        let i' := mkIter (word_idx i) (Z.land w less) in
        scaled ← mul 64 (Z.of_nat (word_idx i)) PAGES_PER_WORD;
        page ← add 64 scaled bit;
        if page <? num_pages b then
          off ← mul 64 page PAGE_SIZE;
          gpa ← add 64 (base_gpa b) off;
          mret (Some (gpa, i'))
        else advance i'
      else advance i
  end.

(** [collect]: at most one page a bit. *)
Fixpoint iter_collect (fuel : nat) (b : DirtyBitmap) (i : DirtyPageIterator) : Result (list Z) :=
  match fuel with
  | O => Panic FuelExhausted
  | S fuel' =>
      iter_next (length (bitmap b) + 1) b i ≫= fun o : option (Z * DirtyPageIterator) =>
      match o with
      | None => mret []
      | Some (gpa, i') => rest ← iter_collect fuel' b i'; mret (gpa :: rest)
      end
  end.

Definition bm_dirty_page_list (b : DirtyBitmap) : Result (list Z) :=
  iter_collect (64 * length (bitmap b) + 1) b (iter_new b).

(** [mark_all_dirty]; [store] on an index past the end would panic. *)
Definition store_words (n : nat) (w : Z) (ws : list Z) : Result (list Z) :=
  if bool_decide (n <= length ws)%nat then mret (replicate n w ++ drop n ws)
  else Panic IndexOutOfBounds.

Definition bm_mark_all_dirty : ST DirtyBitmap Error unit :=
  b ← st_gets (fun b : DirtyBitmap => b);
  let full := Z.to_nat (num_pages b / PAGES_PER_WORD) in
  let remaining := num_pages b mod PAGES_PER_WORD in
  ws ← st_lift (store_words full (2 ^ 64 - 1) (bitmap b));
  if (0 <? remaining) && bool_decide (full < length ws)%nat then
    mask ← st_lift (sub (Z.shiftl 1 remaining) 1);
    st_modify (set_bitmap (<[full := mask]> ws))
  else st_modify (set_bitmap ws).

(** ** The tracker *)

Record DirtyStats := mkStats {
  total_pages : Z;
  dirty_pages_count : Z;
  pages_dirtied : Z;
  clear_count : Z;
  dirty_rate : f64
}.

Definition default_stats : DirtyStats := mkStats 0 0 0 0 f64_zero.

Record DirtyTracker := mkTracker {
  regions : list DirtyBitmap;
  enabled : bool;
  stats : DirtyStats;
  last_sample_time : Z;
  last_dirty_count : Z
}.

Definition tracker_new : DirtyTracker := mkTracker [] false default_stats 0 0.

Definition set_regions (rs : list DirtyBitmap) (t : DirtyTracker) : DirtyTracker :=
  mkTracker rs (enabled t) (stats t) (last_sample_time t) (last_dirty_count t).
Definition set_stats (s : DirtyStats) (t : DirtyTracker) : DirtyTracker :=
  mkTracker (regions t) (enabled t) s (last_sample_time t) (last_dirty_count t).
Definition set_enabled (e : bool) (t : DirtyTracker) : DirtyTracker :=
  mkTracker (regions t) e (stats t) (last_sample_time t) (last_dirty_count t).

Definition add_region (base sz : Z) (t : DirtyTracker) : DirtyTracker :=
  set_regions (regions t ++ [bitmap_new base sz]) t.

(** [position] and [remove] of the first region at an address. *)
Fixpoint remove_at (base : Z) (rs : list DirtyBitmap) : bool * list DirtyBitmap :=
  match rs with
  | [] => (false, [])
  | r :: rs' =>
      if base_gpa r =? base then (true, rs')
      else let '(ok, k) := remove_at base rs' in (ok, r :: k)
  end.
Definition remove_region (base : Z) (t : DirtyTracker) : bool * DirtyTracker :=
  let '(ok, rs) := remove_at base (regions t) in (ok, set_regions rs t).

Definition enable (t : DirtyTracker) : DirtyTracker := set_enabled true t.
Definition disable (t : DirtyTracker) : DirtyTracker := set_enabled false t.

(** The loop of [mark_dirty] stops at the first region that takes the page. *)
Fixpoint mark_first (gpa : Z) (rs : list DirtyBitmap) : Result (list DirtyBitmap) :=
  match rs with
  | [] => mret []
  | r :: rs' =>
      match bm_mark_dirty gpa r with
      | (Ok true, r') => mret (r' :: rs')
      | (Ok false, r') => k ← mark_first gpa rs'; mret (r' :: k)
      | (Err e, _) => Err e
      | (Panic p, _) => Panic p
      end
  end.

Definition mark_dirty (gpa : Z) : ST DirtyTracker Error unit :=
  st_gets enabled ≫= fun e : bool =>
  if negb e then mret tt
  else rs ← st_read (fun t => mark_first gpa (regions t)); st_modify (set_regions rs).

Definition mark_range_dirty (gpa sz : Z) (t : DirtyTracker) : DirtyTracker :=
  if negb (enabled t) then t
  else set_regions (bm_mark_range_dirty gpa sz <$> regions t) t.

Fixpoint any_dirty (gpa : Z) (rs : list DirtyBitmap) : Result bool :=
  match rs with
  | [] => mret false
  | r :: rs' => bm_is_dirty r gpa ≫= fun d : bool => if d then mret true else any_dirty gpa rs'
  end.
Definition is_dirty (t : DirtyTracker) (gpa : Z) : Result bool := any_dirty gpa (regions t).

(** A fallible function over a list, in order. *)
Fixpoint traverse {A B} (f : A -> Result B) (l : list A) : Result (list B) :=
  match l with
  | [] => mret []
  | x :: l' => y ← f x; k ← traverse f l'; mret (y :: k)
  end.

Definition count_dirty (t : DirtyTracker) : Result Z :=
  cs ← traverse bm_count_dirty (regions t); sum_from 0 cs.

Definition dirty_pages (t : DirtyTracker) : Result (list Z) :=
  ls ← traverse bm_dirty_page_list (regions t); mret (concat ls).

Definition clear_all : ST DirtyTracker Error unit :=
  _ ← st_modify (fun t => set_regions (bm_clear_all <$> regions t) t);
  n ← st_read (fun t => add 64 (clear_count (stats t)) 1);
  st_modify (fun t => set_stats (mkStats (total_pages (stats t)) (dirty_pages_count (stats t))
                                   (pages_dirtied (stats t)) n (dirty_rate (stats t))) t).

Definition collect_dirty (t : DirtyTracker) : Result (list (Z * list Z)) :=
  ls ← traverse (fun r => l ← bm_dirty_page_list r; mret (base_gpa r, l)) (regions t);
  mret (List.filter (fun bl => match bl.2 with [] => false | _ => true end) ls).

Definition tracker_stats (t : DirtyTracker) : Result DirtyStats :=
  dirty ← count_dirty t;
  total ← sum_from 0 (num_pages <$> regions t);
  mret (mkStats total dirty dirty (clear_count (stats t)) f64_zero).

Definition update_rate (now : Z) : ST DirtyTracker Error unit :=
  last_time ← st_gets last_sample_time;
  _ ← st_modify (fun t => mkTracker (regions t) (enabled t) (stats t) now (last_dirty_count t));
  current ← st_read count_dirty;
  last_count ← st_gets last_dirty_count;
  _ ← st_modify (fun t => mkTracker (regions t) (enabled t) (stats t) (last_sample_time t) current);
  if (0 <? last_time) && (last_time <? now) then
    elapsed ← st_lift (sub now last_time);
    let rate := f64_div (f64_of (saturating_sub current last_count))
                  (f64_div (f64_of elapsed) (f64_of 1000000000)) in
    st_modify (fun t => set_stats (mkStats (total_pages (stats t)) (dirty_pages_count (stats t))
                                     (pages_dirtied (stats t)) (clear_count (stats t)) rate) t)
  else mret tt.

Definition region_count (t : DirtyTracker) : nat := length (regions t).
Definition region_infos (t : DirtyTracker) : list (Z * Z) :=
  (fun r => (base_gpa r, size r)) <$> regions t.

(** ** Pages as a set *)

(** The bit of a page in the words. *)
Definition set_in (ws : list Z) (page : Z) : bool :=
  match ws !! word_of page with Some w => Z.testbit w (bit_of page) | None => false end.

Definition page_dirty (b : DirtyBitmap) (page : Z) : bool := set_in (bitmap b) page.

Lemma page_split p q :
  0 <= p -> 0 <= q -> p = q <-> word_of p = word_of q /\ bit_of p = bit_of q.
Proof.
  intros Hp Hq. split; [by intros ->|]. unfold word_of, bit_of, PAGES_PER_WORD. intros [Hw Hb].
  pose proof (Z.div_mod p 64 ltac:(lia)). pose proof (Z.div_mod q 64 ltac:(lia)).
  pose proof (Z.div_pos p 64 Hp ltac:(lia)). pose proof (Z.div_pos q 64 Hq ltac:(lia)). lia.
Qed.

Lemma bit_of_range p : 0 <= bit_of p < 64.
Proof. apply Z.mod_pos_bound. done. Qed.

Lemma fits_bit q : fits 64 (Z.shiftl 1 (bit_of q)).
Proof. apply fits_shift1, bit_of_range. Qed.

Lemma set_in_alter f page ws p :
  0 <= p -> 0 <= page -> (forall w, Z.testbit (f w) (bit_of p) = if bit_of p =? bit_of page
    then Z.testbit (f w) (bit_of page) else Z.testbit w (bit_of p)) ->
  set_in (alter f (word_of page) ws) p =
  if p =? page then match ws !! word_of page with Some w => Z.testbit (f w) (bit_of page) | None => false end
  else set_in ws p.
Proof.
  intros Hp Hq Hf. unfold set_in. destruct (Z.eqb_spec p page) as [->|Hne].
  - rewrite list_lookup_alter_eq. by destruct (ws !! word_of page).
  - destruct (decide (word_of p = word_of page)) as [E|E].
    + rewrite E, list_lookup_alter_eq. destruct (ws !! word_of page) as [w|]; [|done]. simpl. rewrite Hf.
      destruct (Z.eqb_spec (bit_of p) (bit_of page)); [|done]. exfalso. apply Hne. by apply page_split.
    + by rewrite list_lookup_alter_ne.
Qed.

Lemma or_page_set q ws p :
  0 <= p -> 0 <= q ->
  set_in (or_page q ws) p = set_in ws p || ((p =? q) && bool_decide (word_of q < length ws)%nat).
Proof.
  intros Hp Hq. pose proof (bit_of_range p). pose proof (bit_of_range q). unfold or_page.
  rewrite set_in_alter; [|done..|].
  - destruct (Z.eqb_spec p q) as [->|]; [|by rewrite orb_false_r]. unfold set_in. simpl.
    destruct (ws !! word_of q) as [w|] eqn:E.
    + rewrite bool_decide_true by (by eapply lookup_lt_Some). rewrite Z.lor_spec, testbit_shift1, Z.eqb_refl by lia.
      by rewrite !orb_true_r.
    + rewrite bool_decide_false; [done|]. apply lookup_ge_None in E. lia.
  - intros w. rewrite !Z.lor_spec, !testbit_shift1 by lia. rewrite (Z.eqb_sym (bit_of q) (bit_of p)).
    destruct (Z.eqb_spec (bit_of p) (bit_of q)) as [->|]; [by rewrite Z.eqb_refl|by rewrite orb_false_r].
Qed.

Lemma and_not_page_set q ws p :
  0 <= p -> 0 <= q -> Forall (fits 64) ws ->
  set_in (and_not_page q ws) p = set_in ws p && negb (p =? q).
Proof.
  intros Hp Hq Hw. pose proof (bit_of_range p). pose proof (bit_of_range q).
  pose proof (fits_bit q) as Hfit.
  unfold and_not_page. rewrite set_in_alter; [|done..|].
  - destruct (Z.eqb_spec p q) as [->|]; [|by rewrite andb_true_r]. rewrite andb_false_r.
    destruct (ws !! word_of q) as [w|]; [|done].
    rewrite Z.land_spec, testbit_bnot, testbit_shift1, Z.eqb_refl by (done || lia). apply andb_false_r.
  - intros w. rewrite !Z.land_spec, !testbit_bnot, !testbit_shift1 by (done || lia).
    rewrite (Z.eqb_sym (bit_of q) (bit_of p)).
    destruct (Z.eqb_spec (bit_of p) (bit_of q)) as [->|]; [by rewrite Z.eqb_refl|by rewrite andb_true_r].
Qed.

Lemma length_or_page q ws : length (or_page q ws) = length ws.
Proof. apply length_alter. Qed.

Lemma length_or_pages l ws : length (or_pages l ws) = length ws.
Proof.
  unfold or_pages. revert ws. induction l as [|q l IH]; intros ws; simpl; [done|]. by rewrite IH, length_or_page.
Qed.

Lemma or_pages_set l ws p :
  0 <= p -> Forall (fun q => 0 <= q) l ->
  set_in (or_pages l ws) p = set_in ws p || (bool_decide (p ∈ l) && bool_decide (word_of p < length ws)%nat).
Proof.
  intros Hp. unfold or_pages. revert ws. induction l as [|q l IH]; intros ws Hl; cbn [foldl].
  { rewrite (bool_decide_false (p ∈ [])) by apply not_elem_of_nil. by rewrite orb_false_r. }
  apply Forall_cons in Hl as [Hq Hl]. rewrite IH, or_page_set, length_or_page by done.
  destruct (Z.eqb_spec p q) as [->|Hne].
  - rewrite (bool_decide_true (q ∈ q :: l)) by apply list_elem_of_here. cbn [andb].
    destruct (set_in ws q), (bool_decide (word_of q < length ws)%nat), (bool_decide (q ∈ l)); done.
  - cbn [andb]. rewrite orb_false_r. f_equal. f_equal. apply bool_decide_ext. rewrite elem_of_cons.
    split; [by right|]. by intros [?|?].
Qed.

Lemma fits_or_page q ws : Forall (fits 64) ws -> Forall (fits 64) (or_page q ws).
Proof.
  intros Hw. apply Forall_alter; [done|]. intros w _ Hf. apply fits_lor; [lia|done|apply fits_bit].
Qed.

Lemma fits_or_pages l ws : Forall (fits 64) ws -> Forall (fits 64) (or_pages l ws).
Proof.
  unfold or_pages. revert ws. induction l as [|q l IH]; intros ws Hw; simpl; [done|]. by apply IH, fits_or_page.
Qed.

Record bitmap_wf (b : DirtyBitmap) : Prop := {
  bw_base : 0 <= base_gpa b;
  bw_size : 0 <= size b <= 2 ^ 63;
  bw_end : base_gpa b + size b < 2 ^ 64;
  bw_pages : num_pages b = div_ceil (size b) PAGE_SIZE;
  bw_len : Z.of_nat (length (bitmap b)) = div_ceil (num_pages b) PAGES_PER_WORD;
  bw_words : Forall (fits 64) (bitmap b);
  bw_clear : forall p, num_pages b <= p -> page_dirty b p = false
}.

Lemma num_pages_bound b : bitmap_wf b -> 0 <= num_pages b /\ size b <= num_pages b * 4096 < size b + 4096.
Proof.
  intros []. pose proof (div_ceil_spec (size b) PAGE_SIZE ltac:(done)) as Hd. rewrite <- bw_pages0 in Hd.
  unfold PAGE_SIZE in Hd. lia.
Qed.

Lemma page_in_words b p : bitmap_wf b -> 0 <= p < num_pages b -> (word_of p < length (bitmap b))%nat.
Proof.
  intros Hb Hp. pose proof (num_pages_bound b Hb). destruct Hb.
  pose proof (div_ceil_spec (num_pages b) PAGES_PER_WORD ltac:(done)) as Hd. rewrite <- bw_len0 in Hd.
  unfold word_of, PAGES_PER_WORD in *. pose proof (Z.div_pos p 64 ltac:(lia) ltac:(lia)).
  pose proof (Z.div_mod p 64 ltac:(lia)). pose proof (Z.mod_pos_bound p 64 ltac:(lia)). lia.
Qed.

Lemma bitmap_new_wf base sz :
  0 <= base -> 0 <= sz <= 2 ^ 63 -> base + sz < 2 ^ 64 ->
  bitmap_wf (bitmap_new base sz) /\ forall p, page_dirty (bitmap_new base sz) p = false.
Proof.
  intros Hb Hs He.
  assert (forall p, page_dirty (bitmap_new base sz) p = false) as Hclear.
  { intros p. unfold page_dirty, set_in. cbn [bitmap bitmap_new].
    destruct (replicate _ 0 !! word_of p) as [w|] eqn:E; [|done].
    apply lookup_replicate in E as [-> _]. apply Z.bits_0. }
  split; [|done]. split; try done; cbn [bitmap_new bitmap num_pages].
  - rewrite length_replicate. pose proof (div_ceil_spec sz PAGE_SIZE ltac:(done)).
    pose proof (div_ceil_spec (div_ceil sz PAGE_SIZE) PAGES_PER_WORD ltac:(done)).
    unfold PAGE_SIZE, PAGES_PER_WORD in *. lia.
  - apply Forall_replicate. by split.
Qed.

(** ** The iterator against a scan of all pages *)

(** The pages of some words, the first of which is word [k]. *)
Fixpoint pages_from (k : Z) (ws : list Z) : list Z :=
  match ws with
  | [] => []
  | w :: ws' => ((fun i => k * PAGES_PER_WORD + i) <$> word_bits w) ++ pages_from (k + 1) ws'
  end.

Lemma filter_seqZ_ext (f g : Z -> bool) a n :
  (forall j, a <= j < a + n -> f j = g j) -> List.filter f (seqZ a n) = List.filter g (seqZ a n).
Proof.
  intros Hfg. apply filter_ext_in. intros j Hj%list_elem_of_In%elem_of_seqZ. by apply Hfg.
Qed.

Lemma filter_seqZ_none (f : Z -> bool) a n :
  (forall j, a <= j < a + n -> f j = false) -> List.filter f (seqZ a n) = [].
Proof. intros Hf. rewrite (filter_seqZ_ext f (fun _ => false)) by done. apply filter_false. Qed.

Lemma filter_first (f g : Z -> bool) a n t :
  a <= t < a + n -> f t = true -> (forall j, a <= j < t -> f j = false) ->
  (forall j, a <= j < a + n -> g j = f j && negb (j =? t)) ->
  List.filter f (seqZ a n) = t :: List.filter g (seqZ a n).
Proof.
  intros Ht Hf Hlow Hg. replace n with ((t - a) + (1 + (n - (t - a) - 1))) by lia.
  rewrite !seqZ_app, !List.filter_app by lia. replace (a + (t - a)) with t by lia.
  rewrite (filter_seqZ_none f a), (filter_seqZ_none g a); [|intros j ?..]; [|rewrite Hg, Hlow by lia; done|apply Hlow; lia].
  change (seqZ t 1) with [t]. simpl. rewrite Hf, Hg, Z.eqb_refl, andb_false_r by lia. simpl. f_equal.
  apply filter_seqZ_ext. intros j ?. rewrite Hg by lia. rewrite (proj2 (Z.eqb_neq _ _)) by lia. by rewrite andb_true_r.
Qed.

Lemma word_bits_next w :
  fits 64 w -> w <> 0 ->
  word_bits w = trailing_zeros_from 64 0 w :: word_bits (Z.land w (w - 1)) /\ fits 64 (Z.land w (w - 1)).
Proof.
  intros Hw Hn. destruct (first_bit 64 w Hw Hn) as (Hr & Ht & Hlow). split.
  - apply filter_first; [lia|done|done|]. intros j Hj. apply clear_lowest_bit; done || lia.
  - apply fits_land; [done|]. unfold fits in Hw. lia.
Qed.

Lemma word_bits_zero : word_bits 0 = [].
Proof. apply filter_seqZ_none. intros. apply Z.bits_0. Qed.

Lemma word_bits_range w i : i ∈ word_bits w -> 0 <= i < 64 /\ Z.testbit w i = true.
Proof.
  unfold word_bits. intros [Hi Ht]%list_elem_of_In%filter_In. apply list_elem_of_In, elem_of_seqZ in Hi.
  split; [lia|done].
Qed.

#[local] Opaque word_bits trailing_zeros_from.

(** The iterator's state holds the pages from its word on. *)
Definition pages_left (b : DirtyBitmap) (i : DirtyPageIterator) : list Z :=
  ((fun j => Z.of_nat (word_idx i) * PAGES_PER_WORD + j) <$> word_bits (current_word i)) ++
  pages_from (Z.of_nat (word_idx i) + 1) (drop (S (word_idx i)) (bitmap b)).

Definition gpa_of (b : DirtyBitmap) (p : Z) : Z := base_gpa b + p * PAGE_SIZE.

Lemma pages_from_drop b k w :
  bitmap b !! k = Some w ->
  pages_from (Z.of_nat k) (drop k (bitmap b)) = pages_left b (mkIter k w).
Proof. intros Hk. rewrite (drop_S _ _ _ Hk). reflexivity. Qed.

(** One call of [next] yields the first page left. *)
Lemma iter_next_spec b i fuel :
  bitmap_wf b -> fits 64 (current_word i) -> (forall p, p ∈ pages_left b i -> 0 <= p < num_pages b) ->
  (length (drop (S (word_idx i)) (bitmap b)) < fuel)%nat ->
  match pages_left b i with
  | [] => iter_next fuel b i = Ok None
  | p :: rest => exists i', iter_next fuel b i = Ok (Some (gpa_of b p, i')) /\
      pages_left b i' = rest /\ fits 64 (current_word i')
  end.
Proof.
  intros Hb. revert i. induction fuel as [|fuel IH]; intros [k w] Hw Hp Hf; [lia|]. cbn [iter_next current_word word_idx] in *.
  destruct (Z.eqb_spec w 0) as [->|Hn]; cbn [negb].
  - unfold pages_left in *. cbn [current_word word_idx] in *. rewrite word_bits_zero in *. cbn [fmap list_fmap app] in *.
    destruct (bitmap b !! S k) as [w'|] eqn:Hk.
    + replace (Z.of_nat k + 1) with (Z.of_nat (S k)) in * by lia. rewrite (pages_from_drop b _ w' Hk) in *.
      apply IH; [|done|].
      * exact (proj1 (Forall_lookup _ _) (bw_words b Hb) _ _ Hk).
      * rewrite (drop_S _ _ _ Hk) in Hf. simpl in *. lia.
    + rewrite drop_ge by (by apply lookup_ge_None). done.
  - destruct (word_bits_next w Hw Hn) as [Hbits Hfit]. unfold pages_left in *. cbn [current_word word_idx] in *.
    rewrite Hbits in *. cbn [fmap list_fmap app] in *.
    set (p := Z.of_nat k * PAGES_PER_WORD + trailing_zeros_from 64 0 w) in *.
    assert (0 <= p < num_pages b) as Hpr by (apply Hp, list_elem_of_here).
    pose proof (num_pages_bound b Hb). destruct (first_bit 64 w Hw Hn) as (Ht & _).
    destruct Hb. unfold PAGES_PER_WORD in p. unfold fits in Hw.
    rewrite sub_ok by lia. cbn [mbind Res_bind]. rewrite mul_ok by (unfold PAGES_PER_WORD; lia). cbn [mbind Res_bind].
    rewrite add_ok by (unfold PAGES_PER_WORD; lia). cbn [mbind Res_bind]. fold p. fold PAGES_PER_WORD in p.
    change (Z.of_nat k * PAGES_PER_WORD + trailing_zeros_from 64 0 w) with p.
    rewrite (proj2 (Z.ltb_lt _ _)) by lia. rewrite mul_ok by (unfold PAGE_SIZE; lia). cbn [mbind Res_bind].
    rewrite add_ok by (unfold PAGE_SIZE; lia). eexists. by split_and!.
Qed.

Lemma iter_collect_spec b fuel i :
  bitmap_wf b -> fits 64 (current_word i) -> (forall p, p ∈ pages_left b i -> 0 <= p < num_pages b) ->
  (length (pages_left b i) < fuel)%nat -> iter_collect fuel b i = Ok (gpa_of b <$> pages_left b i).
Proof.
  intros Hb. revert i. induction fuel as [|fuel IH]; intros i Hw Hp Hf; [lia|]. cbn [iter_collect].
  pose proof (iter_next_spec b i (length (bitmap b) + 1) Hb Hw Hp ltac:(rewrite length_drop; lia)) as Hn.
  destruct (pages_left b i) as [|p rest] eqn:E; [by rewrite Hn|].
  destruct Hn as (i' & -> & Hl & Hw'). cbn [mbind Res_bind]. rewrite IH; [by rewrite Hl|done|..].
  - intros q Hq. rewrite Hl in Hq. apply Hp. by apply list_elem_of_further.
  - rewrite Hl. simpl in Hf. lia.
Qed.

Lemma filter_shift (f : Z -> bool) a n :
  List.filter f (seqZ a n) = (fun i => a + i) <$> List.filter (fun i => f (a + i)) (seqZ 0 n).
Proof.
  rewrite <- (Z.add_0_r a) at 1. rewrite <- fmap_add_seqZ. generalize (seqZ 0 n) as l. intros l.
  induction l as [|x l IH]; [done|]. rewrite fmap_cons. cbn [List.filter]. rewrite IH.
  by destruct (f (a + x)).
Qed.

Definition set_from (k : Z) (ws : list Z) (p : Z) : bool :=
  match ws !! Z.to_nat (p / PAGES_PER_WORD - k) with Some w => Z.testbit w (bit_of p) | None => false end.

Lemma word_page k i : 0 <= i < 64 ->
  (k * PAGES_PER_WORD + i) / PAGES_PER_WORD = k /\ bit_of (k * PAGES_PER_WORD + i) = i.
Proof.
  intros Hi. unfold bit_of, PAGES_PER_WORD. rewrite Z.div_add_l, Z.div_small, Z.add_0_r by lia. split; [done|].
  rewrite Z.add_comm, Z_mod_plus_full. by apply Z.mod_small.
Qed.

#[local] Transparent word_bits.

Lemma pages_from_filter k ws :
  pages_from k ws = List.filter (set_from k ws) (seqZ (k * PAGES_PER_WORD) (PAGES_PER_WORD * Z.of_nat (length ws))).
Proof.
  revert k. induction ws as [|w ws IH]; intros k; cbn [pages_from length].
  { replace (PAGES_PER_WORD * Z.of_nat 0) with 0 by lia. done. }
  replace (PAGES_PER_WORD * Z.of_nat (S (length ws))) with (64 + PAGES_PER_WORD * Z.of_nat (length ws))
    by (unfold PAGES_PER_WORD; lia).
  rewrite seqZ_app, List.filter_app by (unfold PAGES_PER_WORD; lia). f_equal.
  - rewrite (filter_shift (set_from k (w :: ws))). f_equal. apply filter_seqZ_ext. intros i Hi.
    destruct (word_page k i) as [E1 E2]; [lia|]. unfold set_from. by rewrite E1, E2, Z.sub_diag.
  - rewrite IH. replace (k * PAGES_PER_WORD + 64) with ((k + 1) * PAGES_PER_WORD) by (unfold PAGES_PER_WORD; lia).
    apply filter_seqZ_ext. intros p Hp. unfold set_from.
    assert (k + 1 <= p / PAGES_PER_WORD) by (apply Z.div_le_lower_bound; unfold PAGES_PER_WORD in *; lia).
    replace (Z.to_nat (p / PAGES_PER_WORD - k)) with (S (Z.to_nat (p / PAGES_PER_WORD - (k + 1)))) by lia. done.
Qed.

#[local] Opaque word_bits.

(** The pages that are dirty, by a scan. *)
Definition dirty_set (b : DirtyBitmap) : list Z := List.filter (page_dirty b) (seqZ 0 (num_pages b)).

Lemma pages_from_dirty b : bitmap_wf b -> pages_from 0 (bitmap b) = dirty_set b.
Proof.
  intros Hb. pose proof (num_pages_bound b Hb) as [Hn _]. rewrite pages_from_filter.
  pose proof (div_ceil_spec (num_pages b) PAGES_PER_WORD ltac:(done)) as Hd. rewrite <- (bw_len b Hb) in Hd.
  replace (PAGES_PER_WORD * Z.of_nat (length (bitmap b)))
    with (num_pages b + (PAGES_PER_WORD * Z.of_nat (length (bitmap b)) - num_pages b)) by lia.
  rewrite seqZ_app, List.filter_app by lia.
  assert (forall p, 0 <= p -> set_from 0 (bitmap b) p = page_dirty b p) as Hs.
  { intros p Hp. unfold set_from, page_dirty, set_in, word_of. by rewrite Z.sub_0_r. }
  rewrite (filter_seqZ_none _ (0 * PAGES_PER_WORD + num_pages b)).
  - rewrite app_nil_r. apply filter_seqZ_ext. intros p Hp. apply Hs. lia.
  - intros p Hp. rewrite Hs by lia. apply Hb. lia.
Qed.

Lemma dirty_set_elem b p : p ∈ dirty_set b <-> 0 <= p < num_pages b /\ page_dirty b p = true.
Proof.
  unfold dirty_set. rewrite list_elem_of_In, filter_In, <- list_elem_of_In, elem_of_seqZ, Z.add_0_l. done.
Qed.

Lemma dirty_page_list_scan b : bitmap_wf b -> bm_dirty_page_list b = Ok (gpa_of b <$> dirty_set b).
Proof.
  intros Hb. unfold bm_dirty_page_list.
  assert (pages_left b (iter_new b) = dirty_set b) as Hl.
  { rewrite <- pages_from_dirty by done. unfold pages_left, iter_new. cbn [word_idx current_word].
    destruct (bitmap b) as [|w ws]; simpl; [by rewrite word_bits_zero|done]. }
  rewrite iter_collect_spec, Hl; [done|done|..].
  - unfold iter_new. cbn [current_word]. destruct (bitmap b !! 0%nat) as [w|] eqn:E; [|by split].
    exact (proj1 (Forall_lookup _ _) (bw_words b Hb) _ _ E).
  - intros p. rewrite Hl. intros [? _]%dirty_set_elem. done.
  - rewrite Hl, <- pages_from_dirty, pages_from_filter by done.
    pose proof (filter_length_le (set_from 0 (bitmap b)) (seqZ (0 * PAGES_PER_WORD)
      (PAGES_PER_WORD * Z.of_nat (length (bitmap b))))) as Hle. rewrite length_seqZ in Hle.
    unfold PAGES_PER_WORD in *. lia.
Qed.

Lemma sum_from_ok l acc :
  0 <= acc -> Forall (fun x => 0 <= x) l -> acc + foldr Z.add 0 l < 2 ^ 64 ->
  sum_from acc l = Ok (acc + foldr Z.add 0 l).
Proof.
  intros Ha Hl. revert acc Ha. induction Hl as [|x l Hx Hl IH]; intros acc Ha Hs; simpl in *; [by rewrite Z.add_0_r|].
  assert (0 <= foldr Z.add 0 l) by (clear -Hl; induction Hl; simpl; lia).
  rewrite add_ok by lia. cbn [mbind Res_bind]. rewrite IH by lia. f_equal. lia.
Qed.

Lemma count_ones_sum k ws : foldr Z.add 0 (count_ones <$> ws) = Z.of_nat (length (pages_from k ws)).
Proof.
  revert k. induction ws as [|w ws IH]; intros k; [done|]. rewrite fmap_cons. cbn [foldr pages_from].
  rewrite (IH (k + 1)), length_app, length_fmap. unfold count_ones. lia.
Qed.

(** The iterator that clears the lowest set bit of a word at a time yields what a
    scan of all pages does: exactly the dirty pages, each once, in order of
    address; and the population count is their number. *)
Theorem dirty_page_list_spec b :
  bitmap_wf b ->
  bm_dirty_page_list b = Ok (gpa_of b <$> dirty_set b) /\
  bm_count_dirty b = Ok (Z.of_nat (length (dirty_set b))).
Proof.
  intros Hb. split; [by apply dirty_page_list_scan|]. unfold bm_count_dirty.
  rewrite sum_from_ok; rewrite ?(count_ones_sum 0), ?pages_from_dirty by done; [done|lia|..].
  - apply Forall_fmap, Forall_true. intros w. unfold count_ones. simpl. lia.
  - pose proof (filter_length_le (page_dirty b) (seqZ 0 (num_pages b))) as Hle. rewrite length_seqZ in Hle.
    pose proof (num_pages_bound b Hb). destruct Hb. unfold dirty_set. lia.
Qed.

(** ** Marking *)

Definition same_region (b b' : DirtyBitmap) : Prop :=
  base_gpa b' = base_gpa b /\ size b' = size b /\ num_pages b' = num_pages b.

(** Whether the bytes [gpa, gpa + sz) meet a page. *)
Definition touches (b : DirtyBitmap) (gpa sz p : Z) : bool :=
  (gpa_of b p <? gpa + sz) && (gpa <? gpa_of b p + PAGE_SIZE).

Lemma end_page_spec b gpa sz p :
  bitmap_wf b -> 0 <= gpa -> 0 < sz -> 0 <= p < num_pages b ->
  (start_page b gpa <= p < Z.min (end_page b gpa sz) (num_pages b)) <-> touches b gpa sz p = true.
Proof.
  intros Hb Hg Hs Hp. pose proof (num_pages_bound b Hb) as [_ Hn]. destruct Hb. clear bw_pages0 bw_len0 bw_words0 bw_clear0.
  unfold touches, start_page, end_page, gpa_of, saturating_sub, saturating_add, PAGE_SIZE.
  rewrite andb_true_iff, !Z.ltb_lt. change (4096 - 1) with 4095.
  set (x := Z.max (gpa - base_gpa b) 0). set (y := Z.max (Z.min (gpa + sz) (2 ^ 64 - 1) - base_gpa b) 0).
  set (z := Z.min (y + 4095) (2 ^ 64 - 1)).
  pose proof (Z.div_mod x 4096 ltac:(lia)). pose proof (Z.mod_pos_bound x 4096 ltac:(lia)).
  pose proof (Z.div_mod z 4096 ltac:(lia)). pose proof (Z.mod_pos_bound z 4096 ltac:(lia)). lia.
Qed.

Lemma start_page_pos b gpa : 0 <= start_page b gpa.
Proof. unfold start_page, saturating_sub. apply Z.div_pos; [lia|done]. Qed.

Lemma mark_range_pages b gpa sz p :
  bitmap_wf b -> 0 <= gpa -> 0 < sz -> 0 <= p < num_pages b ->
  page_dirty (bm_mark_range_dirty gpa sz b) p = page_dirty b p || touches b gpa sz p.
Proof.
  intros Hb Hg Hs Hp. unfold page_dirty, bm_mark_range_dirty. cbn [set_bitmap bitmap].
  pose proof (start_page_pos b gpa). rewrite or_pages_set; [|lia|].
  - f_equal. rewrite (bool_decide_true (word_of p < _)%nat) by by apply page_in_words. rewrite andb_true_r.
    apply eq_bool_prop_intro. rewrite !Is_true_true, bool_decide_eq_true, elem_of_seqZ, <- (end_page_spec b gpa sz p) by done.
    lia.
  - apply Forall_forall. intros q Hq%elem_of_seqZ. lia.
Qed.

Lemma mark_range_wf b gpa sz :
  bitmap_wf b -> bitmap_wf (bm_mark_range_dirty gpa sz b) /\ same_region b (bm_mark_range_dirty gpa sz b).
Proof.
  intros Hb. split; [|done]. pose proof Hb as []. split; try done; cbn [bm_mark_range_dirty set_bitmap bitmap num_pages].
  - by rewrite length_or_pages.
  - by apply fits_or_pages.
  - intros p Hp. unfold page_dirty. cbn [bm_mark_range_dirty set_bitmap bitmap]. pose proof (num_pages_bound b Hb).
    pose proof (start_page_pos b gpa). rewrite or_pages_set; [|lia|].
    + fold (page_dirty b p). rewrite bw_clear0 by done. rewrite bool_decide_false; [done|]. rewrite elem_of_seqZ. lia.
    + apply Forall_forall. intros q Hq%elem_of_seqZ. lia.
Qed.

Lemma clear_all_wf b :
  bitmap_wf b -> bitmap_wf (bm_clear_all b) /\ same_region b (bm_clear_all b) /\
  forall p, page_dirty (bm_clear_all b) p = false.
Proof.
  intros Hb. assert (forall p, page_dirty (bm_clear_all b) p = false) as Hz.
  { intros p. unfold page_dirty, set_in. cbn [bm_clear_all next_generation set_bitmap bitmap].
    rewrite list_lookup_fmap. destruct (bitmap b !! word_of p); [apply Z.bits_0|done]. }
  split_and!; [|done..]. pose proof Hb as []. split; try done; cbn [bm_clear_all next_generation set_bitmap bitmap num_pages].
  - by rewrite length_fmap.
  - apply Forall_fmap, Forall_true. intros. by split.
Qed.

(** ** The tracker *)

Definition tracker_wf (t : DirtyTracker) : Prop := Forall bitmap_wf (regions t).

(** The dirty pages of a tracker, region by region. *)
Definition tracker_dirty (t : DirtyTracker) : list Z :=
  concat ((fun b => gpa_of b <$> dirty_set b) <$> regions t).

Lemma traverse_ok {A B} (f : A -> Result B) (g : A -> B) l :
  Forall (fun x => f x = Ok (g x)) l -> traverse f l = Ok (g <$> l).
Proof. induction 1 as [|x l Hx Hl IH]; simpl; [done|]. by rewrite Hx, IH. Qed.

Lemma dirty_pages_ok t : tracker_wf t -> dirty_pages t = Ok (tracker_dirty t).
Proof.
  intros Ht. unfold dirty_pages. rewrite (traverse_ok _ (fun b => gpa_of b <$> dirty_set b)); [done|].
  eapply Forall_impl; [exact Ht|]. intros b Hb. by apply dirty_page_list_scan.
Qed.

Lemma tracker_dirty_elem t a :
  a ∈ tracker_dirty t <->
  exists b p, b ∈ regions t /\ 0 <= p < num_pages b /\ a = gpa_of b p /\ page_dirty b p = true.
Proof.
  unfold tracker_dirty. rewrite list_elem_of_In, in_concat. setoid_rewrite <- list_elem_of_In. split.
  - intros (l & (b & -> & Hb)%list_elem_of_fmap & (p & -> & [? ?]%dirty_set_elem)%list_elem_of_fmap). by exists b, p.
  - intros (b & p & Hb & Hp & -> & Hd). exists (gpa_of b <$> dirty_set b). split.
    + apply list_elem_of_fmap. by exists b.
    + apply list_elem_of_fmap. exists p. by rewrite dirty_set_elem.
Qed.

Lemma mark_range_regions t gpa sz :
  tracker_wf t -> tracker_wf (mark_range_dirty gpa sz t).
Proof.
  unfold mark_range_dirty, tracker_wf. intros Ht. destruct (enabled t); cbn [negb set_regions regions]; [|done].
  apply Forall_fmap. eapply Forall_impl; [exact Ht|]. intros b Hb. by apply mark_range_wf.
Qed.

Lemma mark_range_elem t gpa sz a :
  tracker_wf t -> enabled t = true -> 0 <= gpa -> 0 < sz ->
  a ∈ tracker_dirty (mark_range_dirty gpa sz t) <->
  a ∈ tracker_dirty t \/
  exists b p, b ∈ regions t /\ 0 <= p < num_pages b /\ a = gpa_of b p /\ touches b gpa sz p = true.
Proof.
  intros Ht He Hg Hs. rewrite !tracker_dirty_elem. unfold mark_range_dirty. rewrite He. cbn [negb set_regions regions]. split.
  - intros (b' & p & (b & -> & Hb)%list_elem_of_fmap & Hp & -> & Hd). change (num_pages (bm_mark_range_dirty gpa sz b)) with (num_pages b) in Hp.
    pose proof (proj1 (Forall_forall _ _) Ht b Hb) as Hwf. rewrite mark_range_pages in Hd by done.
    apply orb_true_iff in Hd as [Hd|Hd]; [left|right]; by exists b, p.
  - intros [(b & p & Hb & Hp & -> & Hd)|(b & p & Hb & Hp & -> & Hd)];
      exists (bm_mark_range_dirty gpa sz b), p; (split_and!; [by apply list_elem_of_fmap_2|exact (proj1 Hp)|exact (proj2 Hp)|reflexivity|]);
      pose proof (proj1 (Forall_forall _ _) Ht b Hb) as Hwf; rewrite mark_range_pages, Hd by done; [done|apply orb_true_r].
Qed.

Lemma clear_all_ok t :
  tracker_wf t -> clear_count (stats t) + 1 < 2 ^ 64 -> 0 <= clear_count (stats t) ->
  exists t', clear_all t = (Ok tt, t') /\ tracker_wf t' /\ tracker_dirty t' = [] /\
    regions t' = bm_clear_all <$> regions t /\ enabled t' = enabled t /\
    clear_count (stats t') = clear_count (stats t) + 1.
Proof.
  intros Ht Hc Hc0. unfold clear_all. rewrite st_bind_modify, st_bind_read. cbn [set_regions stats].
  rewrite add_ok by lia. eexists. split; [reflexivity|]. cbn [set_stats set_regions regions stats enabled clear_count].
  assert (tracker_wf (set_regions (bm_clear_all <$> regions t) t)) as Hw.
  { apply Forall_fmap. eapply Forall_impl; [exact Ht|]. intros b Hb. by apply clear_all_wf. }
  split_and!; try done. apply elem_of_nil_inv. intros a (b' & p & (b & -> & Hb)%list_elem_of_fmap & Hp & -> & Hd)%tracker_dirty_elem.
  rewrite (proj2 (proj2 (clear_all_wf b (proj1 (Forall_forall _ _) Ht b Hb)))) in Hd. done.
Qed.

(** Marking a range makes dirty exactly the pages, of any region, that the range
    meets, whatever the alignment of its ends and even where it saturates at the
    end of the address space; a page dirty before stays dirty, and a tracker that
    is not enabled does not change. *)
Theorem mark_range_dirty_spec t gpa sz :
  tracker_wf t -> 0 <= gpa -> 0 < sz ->
  exists l l', dirty_pages t = Ok l /\ dirty_pages (mark_range_dirty gpa sz t) = Ok l' /\
    if enabled t
    then forall a, a ∈ l' <-> a ∈ l \/
           exists b p, b ∈ regions t /\ 0 <= p < num_pages b /\ a = gpa_of b p /\ touches b gpa sz p = true
    else l' = l.
Proof.
  intros Ht Hg Hs. exists (tracker_dirty t), (tracker_dirty (mark_range_dirty gpa sz t)).
  rewrite !dirty_pages_ok by (done || by apply mark_range_regions). split_and!; [done..|].
  destruct (enabled t) eqn:He; [intros a; by apply mark_range_elem|]. unfold mark_range_dirty. by rewrite He.
Qed.

(** ** One page *)

Definition in_region (b : DirtyBitmap) (gpa : Z) : bool :=
  (base_gpa b <=? gpa) && (gpa <? base_gpa b + size b).

Definition page_at (b : DirtyBitmap) (gpa : Z) : Z := (gpa - base_gpa b) / PAGE_SIZE.

Lemma outside_ok b gpa : bitmap_wf b -> outside b gpa = Ok (negb (in_region b gpa)).
Proof.
  intros []. unfold outside, in_region. destruct (Z.ltb_spec gpa (base_gpa b)); [by rewrite (proj2 (Z.leb_gt _ _))|].
  rewrite add_ok, (proj2 (Z.leb_le _ _)) by lia. cbn [mbind Res_bind andb]. by rewrite Z.leb_antisym.
Qed.

Lemma page_at_range b gpa :
  bitmap_wf b -> in_region b gpa = true -> 0 <= page_at b gpa < num_pages b.
Proof.
  intros Hb [H1%Z.leb_le H2%Z.ltb_lt]%andb_true_iff. pose proof (num_pages_bound b Hb). unfold page_at.
  split; [apply Z.div_pos; [lia|done]|]. apply Z.div_lt_upper_bound; [done|]. unfold PAGE_SIZE. lia.
Qed.

Lemma page_num_ok b gpa : in_region b gpa = true -> page_num b gpa = Ok (page_at b gpa).
Proof. intros [H1%Z.leb_le _]%andb_true_iff. unfold page_num. by rewrite sub_ok. Qed.

Lemma set_bitmap_wf b ws :
  bitmap_wf b -> length ws = length (bitmap b) -> Forall (fits 64) ws ->
  (forall p, num_pages b <= p -> set_in ws p = false) -> bitmap_wf (set_bitmap ws b).
Proof. intros [] Hl Hf Hs. split; try done. cbn [set_bitmap bitmap num_pages]. by rewrite Hl. Qed.

Lemma fits_and_not_page q ws : Forall (fits 64) ws -> Forall (fits 64) (and_not_page q ws).
Proof.
  intros Hw. apply Forall_alter; [done|]. intros w _ Hf. apply fits_land; [done|]. unfold bnot.
  pose proof (fits_bit q) as Hb. unfold fits in Hb. lia.
Qed.

(** The three methods on one address are the operations on a set of pages: add,
    test and remove the address's page, and nothing outside the region. *)
Theorem page_methods_spec b gpa :
  bitmap_wf b ->
  if in_region b gpa then
    let page := page_at b gpa in
    0 <= page < num_pages b /\
    bm_is_dirty b gpa = Ok (page_dirty b page) /\
    (exists b', bm_mark_dirty gpa b = (Ok true, b') /\ bitmap_wf b' /\ same_region b b' /\
       forall p, 0 <= p -> page_dirty b' p = page_dirty b p || (p =? page)) /\
    (exists b', bm_clear_dirty gpa b = (Ok (page_dirty b page), b') /\ bitmap_wf b' /\ same_region b b' /\
       forall p, 0 <= p -> page_dirty b' p = page_dirty b p && negb (p =? page))
  else bm_is_dirty b gpa = Ok false /\ bm_mark_dirty gpa b = (Ok false, b) /\ bm_clear_dirty gpa b = (Ok false, b).
Proof.
  intros Hb. unfold bm_is_dirty, bm_mark_dirty, bm_clear_dirty. rewrite !st_bind_read, outside_ok by done.
  destruct (in_region b gpa) eqn:Hin; [|done]. cbn [negb mbind Res_bind]. rewrite !st_bind_read, page_num_ok by done.
  cbn [mbind Res_bind]. rewrite !st_bind_gets. pose proof (page_at_range b gpa Hb Hin) as Hp. cbv zeta.
  pose proof (page_in_words b _ Hb Hp) as Hw. set (page := page_at b gpa) in *. clearbody page.
  destruct (lookup_lt_is_Some_2 _ _ Hw) as [w Hlk]. pose proof (bit_of_range page).
  assert (page_dirty b page = has w (Z.shiftl 1 (bit_of page))) as Hd.
  { unfold page_dirty, set_in. rewrite Hlk, has_bit by lia. done. }
  rewrite (bool_decide_true _ Hw), !Hlk, !st_bind_modify, <- Hd.
  split; [done|]. split; [done|]. pose proof Hb as [_ _ _ _ _ Hf Hc]. split; (eexists; split; [reflexivity|]).
  - assert (forall p, 0 <= p -> set_in (or_page page (bitmap b)) p = page_dirty b p || (p =? page)) as Hs.
    { intros p Hp0. rewrite or_page_set by lia. f_equal. destruct (Z.eqb_spec p page) as [->|]; [|done].
      by rewrite bool_decide_true. }
    split_and!; [|done..|by intros; apply Hs]. apply set_bitmap_wf; [done|apply length_or_page|by apply fits_or_page|].
    intros p Hge. rewrite Hs, Hc by lia. by apply Z.eqb_neq; lia.
  - assert (forall p, 0 <= p -> set_in (and_not_page page (bitmap b)) p = page_dirty b p && negb (p =? page)) as Hs.
    { intros p Hp0. rewrite and_not_page_set by (done || lia). done. }
    split_and!; [|done..|by intros; apply Hs]. apply set_bitmap_wf; [done|apply length_alter|by apply fits_and_not_page|].
    intros p Hge. rewrite Hs, Hc by lia. done.
Qed.

(** ** The initial transfer *)

Lemma ones_bit n i : 0 <= n -> 0 <= i -> Z.testbit (2 ^ n - 1) i = (i <? n).
Proof. intros Hn Hi. rewrite Z.sub_1_r, <- Z.ones_equiv. by apply Z.testbit_ones_nonneg. Qed.

(** Full words and then a mask: the first [64 n + r] bits. *)
Lemma set_in_full n r p :
  0 <= p -> 0 <= r < 64 ->
  set_in (replicate n (2 ^ 64 - 1) ++ [2 ^ r - 1]) p = (p <? 64 * Z.of_nat n + r).
Proof.
  intros Hp Hr. unfold set_in, word_of. pose proof (bit_of_range p) as Hbit.
  pose proof (Z.div_mod p PAGES_PER_WORD ltac:(done)) as Hdm. fold (bit_of p) in Hdm.
  pose proof (Z.div_pos p PAGES_PER_WORD Hp ltac:(done)). unfold PAGES_PER_WORD in *.
  destruct (decide (p / 64 < Z.of_nat n)).
  - rewrite lookup_app_l by (rewrite length_replicate; lia). rewrite lookup_replicate_2 by lia.
    rewrite ones_bit by lia. zcases; lia || done.
  - rewrite lookup_app_r; rewrite length_replicate; [|lia].
    destruct (Z.to_nat (p / 64) - n)%nat eqn:E; simpl; [rewrite ones_bit by lia|]; zcases; lia || done.
Qed.

Lemma set_in_full_words n p :
  0 <= p -> set_in (replicate n (2 ^ 64 - 1)) p = (p <? 64 * Z.of_nat n).
Proof.
  intros Hp. rewrite <- (Z.add_0_r (64 * _)), <- set_in_full by lia. unfold set_in.
  destruct (decide (word_of p < n)%nat).
  - by rewrite lookup_app_l by (rewrite length_replicate; lia).
  - rewrite lookup_app_r, (proj2 (lookup_ge_None (replicate _ _) _)) by (rewrite length_replicate; lia).
    rewrite length_replicate. destruct (word_of p - n)%nat; [|done]. simpl. by rewrite Z.bits_0.
Qed.

(** What [mark_all_dirty] leaves in the words. *)
Lemma mark_all_words b :
  bitmap_wf b ->
  exists ws, bm_mark_all_dirty b = (Ok tt, set_bitmap ws b) /\
    length ws = length (bitmap b) /\ Forall (fits 64) ws /\
    forall p, 0 <= p -> set_in ws p = (p <? num_pages b).
Proof.
  intros Hb. pose proof (num_pages_bound b Hb) as [Hn _].
  pose proof (div_ceil_spec (num_pages b) PAGES_PER_WORD ltac:(done)) as Hw. rewrite <- (bw_len b Hb) in Hw.
  unfold bm_mark_all_dirty. rewrite st_bind_gets. cbv zeta. rewrite st_bind_lift. unfold store_words, PAGES_PER_WORD in *.
  pose proof (Z.div_mod (num_pages b) 64 ltac:(done)) as Hdm. pose proof (Z.mod_pos_bound (num_pages b) 64 ltac:(done)) as Hr.
  pose proof (Z.div_pos (num_pages b) 64 Hn ltac:(done)) as Hq. clear Hb.
  set (r := num_pages b mod 64) in *. set (full := Z.to_nat (num_pages b / 64)).
  assert (num_pages b = 64 * Z.of_nat full + r) as Hnp by lia.
  rewrite bool_decide_true by lia. cbn [mret Res_ret].
  assert (length (drop full (bitmap b)) = (length (bitmap b) - full)%nat) as El by apply length_drop.
  destruct (Z.ltb_spec 0 r) as [Hpos|Hz].
  - destruct (drop full (bitmap b)) as [|m [|]] eqn:Ed; simpl in El; try lia.
    rewrite bool_decide_true by (rewrite length_app, length_replicate; simpl; lia). cbn [andb].
    rewrite st_bind_lift, Z.shiftl_mul_pow2, Z.mul_1_l by lia.
    assert (1 <= 2 ^ r < 2 ^ 64) as Hpow by (pose proof (Z.pow_pos_nonneg 2 r); pose proof (Z.pow_lt_mono_r 2 r 64); lia).
    rewrite sub_ok by lia. eexists. split; [reflexivity|].
    assert (<[full := 2 ^ r - 1]> (replicate full (2 ^ 64 - 1) ++ [m]) = replicate full (2 ^ 64 - 1) ++ [2 ^ r - 1]) as ->.
    { rewrite insert_app_r_alt; rewrite length_replicate; [|done]. by rewrite Nat.sub_diag. }
    split_and!; [rewrite length_app, length_replicate; simpl; lia| |intros p Hp; by rewrite Hnp, set_in_full by lia].
    apply Forall_app. split; [by apply Forall_replicate|]. apply Forall_singleton. unfold fits. lia.
  - cbn [andb]. rewrite drop_ge, app_nil_r by lia. eexists. split; [reflexivity|].
    split_and!; [rewrite length_replicate; lia|by apply Forall_replicate|].
    intros p Hp. rewrite set_in_full_words by done. f_equal. lia.
Qed.

(** [mark_all_dirty], which starts a migration, makes every page of the region
    dirty and, in a last word that is only partly used, no bit that is not a
    page. *)
Theorem mark_all_dirty_spec b :
  bitmap_wf b ->
  exists b', bm_mark_all_dirty b = (Ok tt, b') /\ bitmap_wf b' /\ same_region b b' /\
    bm_dirty_page_list b' = Ok (gpa_of b <$> seqZ 0 (num_pages b)).
Proof.
  intros Hb. pose proof (num_pages_bound b Hb) as [Hn _]. destruct (mark_all_words b Hb) as (ws & He & Hl & Hf & Hd).
  assert (bitmap_wf (set_bitmap ws b)) as Hb'.
  { apply set_bitmap_wf; [done..|]. intros p Hp. rewrite Hd by lia. apply Z.ltb_ge. lia. }
  exists (set_bitmap ws b). split_and!; [done..|]. rewrite dirty_page_list_scan by done. unfold dirty_set.
  rewrite (filter_seqZ_ext _ (fun _ => true)), filter_true; [done|].
  intros p Hp. unfold page_dirty. cbn [set_bitmap bitmap num_pages] in *. rewrite Hd by lia. apply Z.ltb_lt. lia.
Qed.

(** ** Examples *)

(** A region of three pages and a half at 8 KiB, its second page dirty. *)
Definition example_bitmap : DirtyBitmap := bm_mark_range_dirty 12300 8 (bitmap_new 8192 14336).
Definition example_tracker : DirtyTracker := mkTracker [example_bitmap] true default_stats 0 0.

Lemma example_bitmap_wf : bitmap_wf example_bitmap.
Proof. apply mark_range_wf, bitmap_new_wf; lia. Qed.

Lemma example_tracker_wf : tracker_wf example_tracker.
Proof. apply Forall_singleton, example_bitmap_wf. Qed.

Lemma dirty_page_list_spec_witness : bm_dirty_page_list example_bitmap = Ok [12288].
Proof. exact (proj1 (dirty_page_list_spec example_bitmap example_bitmap_wf)). Defined.

Lemma mark_range_dirty_spec_witness :
  exists l l', dirty_pages example_tracker = Ok l /\ dirty_pages (mark_range_dirty 16000 1000 example_tracker) = Ok l' /\
    if enabled example_tracker
    then forall a, a ∈ l' <-> a ∈ l \/ exists b p, b ∈ regions example_tracker /\ 0 <= p < num_pages b /\
           a = gpa_of b p /\ touches b 16000 1000 p = true
    else l' = l.
Proof. apply (mark_range_dirty_spec example_tracker 16000 1000 example_tracker_wf); lia. Defined.

Lemma page_methods_spec_witness : bm_is_dirty example_bitmap 12290 = Ok true /\ bm_is_dirty example_bitmap 9000 = Ok false.
Proof.
  split; [exact (proj1 (proj2 (page_methods_spec example_bitmap 12290 example_bitmap_wf)))|].
  exact (proj1 (proj2 (page_methods_spec example_bitmap 9000 example_bitmap_wf))).
Defined.

Lemma mark_all_dirty_spec_witness :
  exists b', bm_mark_all_dirty example_bitmap = (Ok tt, b') /\ bitmap_wf b' /\ same_region example_bitmap b' /\
    bm_dirty_page_list b' = Ok [8192; 12288; 16384; 20480].
Proof. exact (mark_all_dirty_spec example_bitmap example_bitmap_wf). Defined.
