(* ===== verification/Utf8.v ===== *)
(** * UTF-8 strings

    A [String] is the list of its bytes.  [String::from_utf8_lossy] of the Standard
    Library of the source's language: the input is cut into well-formed sequences
    and maximal ill-formed ones, and each of the latter becomes U+FFFD. *)

From S2P Require Import Prelude.

Definition in_range (lo hi b : Z) : bool := (lo <=? b) && (b <=? hi).
Definition is_cont (b : Z) : bool := in_range 128 191 b.

(** The second byte a first byte admits, for sequences of three and of four. *)
Definition second_of_3 (b0 b1 : Z) : bool :=
  if b0 =? 224 then in_range 160 191 b1
  else if b0 =? 237 then in_range 128 159 b1
  else in_range 225 239 b0 && is_cont b1.
Definition second_of_4 (b0 b1 : Z) : bool :=
  if b0 =? 240 then in_range 144 191 b1
  else if b0 =? 244 then in_range 128 143 b1
  else in_range 241 243 b0 && is_cont b1.

(** The sequences of a string and whether each is well-formed. *)
Fixpoint utf8_chunks (bs : bytes) : list (bytes * bool) :=
  match bs with
  | [] => []
  | b0 :: r0 =>
      if b0 <? 128 then ([b0], true) :: utf8_chunks r0
      else if in_range 194 223 b0 then
        match r0 with
        | b1 :: r1 => if is_cont b1 then ([b0; b1], true) :: utf8_chunks r1 else ([b0], false) :: utf8_chunks r0
        | [] => [([b0], false)]
        end
      else if in_range 224 239 b0 then
        match r0 with
        | b1 :: r1 =>
            if second_of_3 b0 b1 then
              match r1 with
              | b2 :: r2 =>
                  if is_cont b2 then ([b0; b1; b2], true) :: utf8_chunks r2
                  else ([b0; b1], false) :: utf8_chunks r1
              | [] => [([b0; b1], false)]
              end
            else ([b0], false) :: utf8_chunks r0
        | [] => [([b0], false)]
        end
      else if in_range 240 244 b0 then
        match r0 with
        | b1 :: r1 =>
            if second_of_4 b0 b1 then
              match r1 with
              | b2 :: r2 =>
                  if is_cont b2 then
                    match r2 with
                    | b3 :: r3 =>
                        if is_cont b3 then ([b0; b1; b2; b3], true) :: utf8_chunks r3
                        else ([b0; b1; b2], false) :: utf8_chunks r2
                    | [] => [([b0; b1; b2], false)]
                    end
                  else ([b0; b1], false) :: utf8_chunks r1
              | [] => [([b0; b1], false)]
              end
            else ([b0], false) :: utf8_chunks r0
        | [] => [([b0], false)]
        end
      else ([b0], false) :: utf8_chunks r0
  end.

Definition REPLACEMENT : bytes := [239; 191; 189].

Definition from_utf8_lossy (bs : bytes) : bytes :=
  concat ((fun c : bytes * bool => if c.2 then c.1 else REPLACEMENT) <$> utf8_chunks bs).

(** What [str] guarantees of its bytes. *)
Definition utf8_valid (bs : bytes) : bool := forallb snd (utf8_chunks bs).

(** Nothing of the input is lost between the chunks. *)
Lemma utf8_chunks_concat bs : concat (utf8_chunks bs).*1 = bs.
Proof.
  assert (forall n bs, (length bs <= n)%nat -> concat (utf8_chunks bs).*1 = bs) as H; [|exact (H _ bs ltac:(reflexivity))].
  clear bs. induction n as [|n IH]; intros [|b0 r0] Hl; simpl in Hl; try done; [lia|]. cbn [utf8_chunks].
  repeat match goal with
  | |- context [if ?c then _ else _] => destruct c
  | |- context [match ?r with [] => _ | _ :: _ => _ end] => is_var r; destruct r
  end; rewrite ?fmap_cons; cbn [concat fst app]; try done; rewrite IH by (simpl in *; lia); done.
Qed.

Lemma from_utf8_lossy_valid bs : utf8_valid bs = true -> from_utf8_lossy bs = bs.
Proof.
  unfold utf8_valid, from_utf8_lossy. intros Hv. rewrite <- (utf8_chunks_concat bs) at 2. f_equal.
  apply list_fmap_ext. intros i c Hc. rewrite forallb_forall in Hv. rewrite Hv; [done|].
  by apply list_elem_of_In, list_elem_of_lookup_2 with i.
Qed.

(** ASCII text is well-formed. *)
Lemma ascii_valid bs : Forall (fun b => b < 128) bs -> utf8_valid bs = true.
Proof.
  unfold utf8_valid. induction 1 as [|b bs Hb Hbs IH]; [done|]. cbn [utf8_chunks].
  by rewrite (proj2 (Z.ltb_lt _ _) Hb).
Qed.

Example lossy_truncated : from_utf8_lossy [97; 226; 130; 98] = [97; 239; 191; 189; 98].
Proof. reflexivity. Qed.
Example lossy_surrogate : from_utf8_lossy [237; 160; 128] = REPLACEMENT ++ REPLACEMENT ++ REPLACEMENT.
Proof. reflexivity. Qed.
Example lossy_valid : from_utf8_lossy [240; 159; 166; 128] = [240; 159; 166; 128].
Proof. reflexivity. Qed.

(** Text of the source as bytes. *)
Definition str (s : string) : bytes := (fun a => Z.of_N (Ascii.N_of_ascii a)) <$> String.list_ascii_of_string s.

(** [{}] of an unsigned integer and [{:016x}] of one of 64 bits. *)
Fixpoint dec_digits (fuel : nat) (z : Z) (acc : bytes) : bytes :=
  match fuel with
  | O => acc
  | S fuel' => if z <? 10 then 48 + z :: acc else dec_digits fuel' (z / 10) (48 + z mod 10 :: acc)
  end.
Definition format_dec (z : Z) : bytes := dec_digits 20 z [].

Definition hex_digit (d : Z) : Z := if d <? 10 then 48 + d else 87 + d.
Definition format_hex16 (z : Z) : bytes :=
  (fun i => hex_digit (Z.land (Z.shiftr z (4 * (15 - i))) 15)) <$> seqZ 0 16.

Example format_dec_ex : format_dec 4294967295 = str "4294967295".
Proof. reflexivity. Qed.
Example format_hex16_ex : format_hex16 (2 ^ 32 + 0xAB) = str "00000001000000ab".
Proof. reflexivity. Qed.

Lemma dec_digits_ascii fuel z acc :
  0 <= z -> Forall (fun b => 0 <= b < 128) acc -> Forall (fun b => 0 <= b < 128) (dec_digits fuel z acc).
Proof.
  revert z acc. induction fuel as [|fuel IH]; intros z acc Hz Ha; cbn [dec_digits]; [done|].
  destruct (Z.ltb_spec z 10); [apply Forall_cons; split; [lia|done]|].
  pose proof (Z.mod_pos_bound z 10 ltac:(done)). pose proof (Z.div_pos z 10 Hz ltac:(done)).
  apply IH; [done|]. apply Forall_cons. split; [lia|done].
Qed.

Lemma format_hex16_ascii z : 0 <= z -> Forall (fun b => 0 <= b < 128) (format_hex16 z).
Proof.
  intros Hz. unfold format_hex16. apply Forall_fmap, Forall_true. intros i. unfold compose. set (d := Z.land _ _).
  assert (0 <= d < 16) by (unfold d; rewrite (Z.land_ones _ 4) by done; by apply Z.mod_pos_bound).
  unfold hex_digit. destruct (Z.ltb_spec d 10); lia.
Qed.

(** ** Cutting a string in two: [str::split_once] *)

Fixpoint split_once (sep : Z) (s : bytes) : option (bytes * bytes) :=
  match s with
  | [] => None
  | c :: s' =>
      if c =? sep then Some ([], s')
      else match split_once sep s' with Some (a, b) => Some (c :: a, b) | None => None end
  end.

Lemma split_once_app sep a b : sep ∉ a -> split_once sep (a ++ sep :: b) = Some (a, b).
Proof.
  induction a as [|c a IH]; intros Hn; cbn [app split_once]; [by rewrite Z.eqb_refl|]. apply not_elem_of_cons in Hn as [Hc Hn].
  rewrite (proj2 (Z.eqb_neq c sep)) by done. by rewrite IH.
Qed.

Lemma split_once_none sep a : sep ∉ a -> split_once sep a = None.
Proof.
  induction a as [|c a IH]; intros Hn; cbn [split_once]; [done|]. apply not_elem_of_cons in Hn as [Hc Hn].
  rewrite (proj2 (Z.eqb_neq c sep)) by done. by rewrite IH.
Qed.
