(* ===== verification/Cron.v ===== *)
(** * Cron expressions ([hv2-jobs/src/cron.rs])

    The parser of five-field expressions, and the search for the minutes they select,
    in UTC and in a time zone.  The calendar and the time zones are of other crates:
    a date is its number of days from 1970-01-01, and the year, month, day and weekday
    of a date and the rules of a zone are parameters. *)

From Stdlib Require Import Sorted.
From stdpp Require Import sorting.
From S2P Require Import Prelude Utf8.

Inductive JobError := InvalidSpec (msg : string).
Abbreviation Job := (Res JobError).

Definition invalid : JobError :=
  InvalidSpec "cron requires five numeric fields with valid lists, ranges or positive wildcard/range steps".
Definition invalid_time : JobError := InvalidSpec "timezone cron timestamp is outside supported years 1970-9999".

Record CronExpression := mkCron {
  masks : list Z;
  day_of_month_wildcard : bool;
  day_of_week_wildcard : bool
}.

(** ** Strings *)

(** [str::split] at a byte. *)
Fixpoint split (sep : Z) (s : bytes) : list bytes :=
  match s with
  | [] => [[]]
  | c :: s' =>
      if c =? sep then [] :: split sep s'
      else match split sep s' with [] => [[c]] | w :: ws => (c :: w) :: ws end
  end.

Definition contains (c : Z) (s : bytes) : bool := bool_decide (c ∈ s).

(** [split_ascii_whitespace]: the runs without whitespace. *)
Definition is_space (c : Z) : bool := (c =? 32) || (c =? 9) || (c =? 10) || (c =? 12) || (c =? 13).
Fixpoint words (cur : bytes) (s : bytes) : list bytes :=
  let flush := match cur with [] => [] | _ => [cur] end in
  match s with
  | [] => flush
  | c :: s' => if is_space c then flush ++ words [] s' else words (cur ++ [c]) s'
  end.
Definition split_ascii_whitespace (s : bytes) : list bytes := words [] s.

Definition is_digit (c : Z) : bool := (48 <=? c) && (c <=? 57).

(** [parse::<u8>] of digits. *)
Definition parse_u8 (s : bytes) : option Z :=
  foldl (fun acc c => n ← acc; let n' := n * 10 + (c - 48) in if n' <? 256 then Some n' else None) (Some 0) s.

Definition number (value : bytes) : Job Z :=
  if bool_decide (value = []) || negb (forallb is_digit value) then Err invalid
  else ok_or (parse_u8 value) invalid.

(** ** Fields *)

(** The first and last value and the step of an item of a list. *)
Definition item_range (item : bytes) (min max : Z) : Job (Z * Z * Z) :=
  '(base, step) ← (match split_once 47 item with
                   | Some (base, st) => n ← number st; mret (base, n)
                   | None => mret (item, 1)
                   end);
  if step =? 0 then Err invalid
  else
    '(start, stop) ← (if bool_decide (base = [42]) then mret (min, max)
                      else match split_once 45 base with
                           | Some (a, b) => x ← number a; y ← number b; mret (x, y)
                           | None => if contains 47 item then Err invalid else n ← number base; mret (n, n)
                           end);
    if (start <? min) || (max <? stop) || (stop <? start) then Err invalid else mret (start, stop, step).

(** [(start..=end).step_by(step)]: every [step]-th value. *)
Definition step_by (start stop step : Z) : list Z :=
  (fun k => start + k * step) <$> seqZ 0 ((stop - start) / step + 1).

Fixpoint field_items (items : list bytes) (min max mask : Z) : Job Z :=
  match items with
  | [] => mret mask
  | item :: items' =>
      '(start, stop, step) ← item_range item min max;
      field_items items' min max (foldl (fun m n => Z.lor m (Z.shiftl 1 n)) mask (step_by start stop step))
  end.

Definition field (value : bytes) (min max : Z) : Job Z :=
  mask ← field_items (split 44 value) min max 0;
  if mask =? 0 then Err invalid else mret mask.

Definition BOUNDS : list (Z * Z) := [(0, 59); (0, 23); (1, 31); (1, 12); (0, 6)].

Fixpoint fields (values : list bytes) (bounds : list (Z * Z)) {struct bounds} : Job (list Z) :=
  match bounds with
  | [] => mret []
  | (min, max) :: bounds' =>
      match values with
      | [] => Panic IndexOutOfBounds
      | v :: values' => m ← field v min max; ms ← fields values' bounds'; mret (m :: ms)
      end
  end.

Definition from_str (expression : bytes) : Job CronExpression :=
  if 256 <? Z.of_nat (length expression) then Err invalid
  else
    let fs := split_ascii_whitespace expression in
    if negb (Z.of_nat (length fs) =? 5) then Err invalid
    else
      ms ← fields fs BOUNDS;
      mret (mkCron ms (contains 42 (default [] (fs !! 2%nat))) (contains 42 (default [] (fs !! 4%nat)))).

(** ** Dates *)

Class Calendar := {
  year : Z -> Z;
  month : Z -> Z;
  day : Z -> Z;
  num_days_from_sunday : Z -> Z;
  MIN_DATE : Z;
  MAX_DATE : Z
}.

Definition DAY : Z := 86400000.

Section dates.
Context `{Calendar}.

Definition succ_opt (d : Z) : option Z := if d <? MAX_DATE then Some (d + 1) else None.
Definition pred_opt (d : Z) : option Z := if MIN_DATE <? d then Some (d - 1) else None.

(** The date of a number of milliseconds from the epoch. *)
Definition from_timestamp_millis (ms : Z) : option Z :=
  if (MIN_DATE <=? ms / DAY) && (ms / DAY <=? MAX_DATE) then Some (ms / DAY) else None.

(** [and_hms_opt(hour, minute, 0)], [and_utc], [timestamp_millis]. *)
Definition millis (d hour minute : Z) : Z := d * DAY + hour * 3600000 + minute * 60000.

Definition selected (e : CronExpression) (f : nat) (value : Z) : bool :=
  has (default 0 (masks e !! f)) (Z.shiftl 1 value).

Definition matches_date (e : CronExpression) (d : Z) : bool :=
  let dom := selected e 2 (day d) in
  let dow := selected e 4 (num_days_from_sunday d) in
  let on_day := if negb (day_of_month_wildcard e) && negb (day_of_week_wildcard e) then dom || dow else dom && dow in
  selected e 3 (month d) && on_day.

(** The hours and minutes of the two inner loops, in order. *)
Definition clock (e : CronExpression) : list (Z * Z) :=
  concat ((fun h => (fun m => (h, m)) <$> List.filter (selected e 0) (seqZ 0 60)) <$> List.filter (selected e 1) (seqZ 0 24)).

(** ** UTC *)

Fixpoint first_of_day (start d : Z) (l : list (Z * Z)) : Job (option Z) :=
  match l with
  | [] => mret None
  | (h, m) :: l' =>
      let candidate := millis d h m in
      if candidate <? 0 then Panic ExpectFailed
      else if start <=? candidate then mret (Some candidate) else first_of_day start d l'
  end.

Fixpoint utc_days (n : nat) (e : CronExpression) (start d : Z) : Job (option Z) :=
  match n with
  | O => mret None
  | S n' =>
      found ← (if matches_date e d then first_of_day start d (clock e) else mret None);
      match found with
      | Some v => mret (Some v)
      | None => match succ_opt d with Some next => utc_days n' e start next | None => mret None end
      end
  end.

Definition outside : JobError := InvalidSpec "cron timestamp is outside calendar range".

Definition search_utc (e : CronExpression) (start : Z) : Job (option Z) :=
  if 2 ^ 63 <=? start then Err outside
  else d ← ok_or (from_timestamp_millis start) outside; utc_days (Z.to_nat 146098) e start d.

Definition at_or_after_utc (e : CronExpression) (time_ms : Z) : Job (option Z) :=
  let remainder := time_ms mod 60000 in
  if remainder =? 0 then search_utc e time_ms
  else match checked_add 64 time_ms (60000 - remainder) with
       | Some start => search_utc e start
       | None => mret None
       end.
End dates.

(** ** Time zones *)

Inductive LocalResult := Single (v : Z) | Ambiguous (a b : Z) | NoLocal.

(** What the source uses of the time-zone crate: the parser of names, the local date
    of a moment, and the moments of a local date, hour and minute. *)
Class TimeZones := {
  Tz : Type;
  parse_tz : bytes -> option Tz;
  is_utc : Tz -> bool;
  local_date : Tz -> Z -> Z;
  from_local_datetime : Tz -> Z -> Z -> Z -> LocalResult
}.

Definition candidates (r : LocalResult) : list Z :=
  match r with Single v => [v] | Ambiguous a b => [a; b] | NoLocal => [] end.

Section zones.
Context `{Calendar} `{TimeZones}.

Definition unknown_zone : JobError := InvalidSpec "unknown cron timezone".

Definition in_years (lo d : Z) : bool := (lo <=? year d) && (year d <=? 9999).

(** One candidate of the search. *)
Definition improve (forward : bool) (time_ms : Z) (best : option Z) (v : Z) : option Z :=
  if v <? 0 then best
  else
    let eligible := if forward then time_ms <=? v else v <=? time_ms in
    let better := match best with None => true | Some p => if forward then v <? p else p <? v end in
    if eligible && better then Some v else best.

Definition search_day (e : CronExpression) (tz : Tz) (time_ms : Z) (forward : bool) (d : Z) (best : option Z) : option Z :=
  if in_years 1969 d && matches_date e d then
    foldl (fun b hm => foldl (improve forward time_ms) b (candidates (from_local_datetime tz d hm.1 hm.2))) best (clock e)
  else best.

Fixpoint search_days (n : nat) (e : CronExpression) (tz : Tz) (time_ms : Z) (forward : bool) (d : Z) (best : option Z) : option Z :=
  match n with
  | O => best
  | S n' =>
      let boundary := millis d 0 0 in
      let done := match best with
                  | Some c => if forward then c <? boundary - 86400000 else boundary + 172800000 <? c
                  | None => false
                  end in
      if done then best
      else if (forward && (9999 <? year d)) || (negb forward && (year d <? 1969)) then best
      else
        let best' := search_day e tz time_ms forward d best in
        match (if forward then succ_opt d else pred_opt d) with
        | Some next => search_days n' e tz time_ms forward next best'
        | None => best'
        end
  end.

Definition twice (f : Z -> option Z) (d : Z) : option Z := x ← f d; f x.

Definition search_timezone (e : CronExpression) (time_ms : Z) (timezone : bytes) (forward : bool) : Job (option Z) :=
  tz ← ok_or (parse_tz timezone) unknown_zone;
  if 2 ^ 63 <=? time_ms then Err invalid_time
  else
    start ← ok_or (from_timestamp_millis time_ms) invalid_time;
    if negb (in_years 1970 start) then Err invalid_time
    else if forward && is_utc tz then
      r ← at_or_after_utc e time_ms;
      mret (match r with
            | Some c => match from_timestamp_millis c with
                        | Some d => if year d <=? 9999 then Some c else None
                        | None => None
                        end
            | None => None
            end)
    else
      let ld := local_date tz time_ms in
      d ← ok_or (if forward then twice pred_opt ld else twice succ_opt ld) invalid_time;
      mret (search_days (Z.to_nat 146103) e tz time_ms forward d None).

Definition at_or_after_in_timezone (e : CronExpression) (time_ms : Z) (timezone : bytes) : Job (option Z) :=
  search_timezone e time_ms timezone true.
Definition at_or_before_in_timezone (e : CronExpression) (time_ms : Z) (timezone : bytes) : Job (option Z) :=
  search_timezone e time_ms timezone false.

(** *** A batch of occurrences *)

(** [BTreeSet::insert] on the list of a set in order; [pop_last]. *)
Fixpoint set_insert (v : Z) (l : list Z) : list Z :=
  match l with
  | [] => [v]
  | x :: l' => if v <? x then v :: l else if v =? x then l else x :: set_insert v l'
  end.

Definition collect (time_ms through_ms limit : Z) (best : list Z) (v : Z) : list Z :=
  if v <? 0 then best
  else if (time_ms <=? v) && (v <=? through_ms) then
    let b := set_insert v best in
    if limit <? Z.of_nat (length b) then removelast b else b
  else best.

Definition collect_day (e : CronExpression) (tz : Tz) (time_ms through_ms limit d : Z) (best : list Z) : list Z :=
  if in_years 1969 d && matches_date e d then
    foldl (fun b hm => foldl (collect time_ms through_ms limit) b (candidates (from_local_datetime tz d hm.1 hm.2))) best (clock e)
  else best.

Fixpoint batch_days (n : nat) (k : Z) (e : CronExpression) (tz : Tz) (time_ms through_ms limit d : Z) (best : list Z) : list Z :=
  match n with
  | O => best
  | S n' =>
      if (146102 <? k) && bool_decide (best = []) then best
      else
        let earliest := millis d 0 0 - 86400000 in
        let full := (Z.of_nat (length best) =? limit) && match last best with Some l => l <? earliest | None => false end in
        if (9999 <? year d) || ((0 <=? earliest) && ((through_ms <? earliest) || full)) then best
        else
          let best' := collect_day e tz time_ms through_ms limit d best in
          match succ_opt d with
          | Some next => batch_days n' (k + 1) e tz time_ms through_ms limit next best'
          | None => best'
          end
  end.

(** The loop of the UTC branch, one turn for each place left. *)
Fixpoint utc_batch (n : nat) (e : CronExpression) (cursor through_ms : Z) (timezone : bytes) : Job (list Z) :=
  match n with
  | O => mret []
  | S n' =>
      r ← at_or_after_in_timezone e cursor timezone;
      match r with
      | None => mret []
      | Some v =>
          if through_ms <? v then mret []
          else match checked_add 64 v 1 with
               | Some next => rest ← utc_batch n' e next through_ms timezone; mret (v :: rest)
               | None => mret [v]
               end
      end
  end.

Definition bounded_occurrences (e : CronExpression) (time_ms through_ms : Z) (timezone_name : bytes) (limit : Z) : Job (list Z) :=
  if negb ((1 <=? limit) && (limit <=? 1024)) then Err (InvalidSpec "occurrence batch limit must be 1-1024")
  else
    tz ← ok_or (parse_tz timezone_name) unknown_zone;
    if 2 ^ 63 <=? time_ms then Err invalid_time
    else
      start ← ok_or (from_timestamp_millis time_ms) invalid_time;
      if negb (in_years 1970 start) then Err invalid_time
      else if is_utc tz then utc_batch (Z.to_nat limit) e time_ms through_ms timezone_name
      else
        d ← ok_or (twice pred_opt (local_date tz time_ms)) invalid_time;
        mret (batch_days (Z.to_nat 3000001) 0 e tz time_ms through_ms limit d []).
End zones.

(** ** Masks *)

Lemma foldl_lor_testbit l mask i :
  Forall (fun n => 0 <= n) l -> 0 <= i ->
  Z.testbit (foldl (fun m n => Z.lor m (Z.shiftl 1 n)) mask l) i = Z.testbit mask i || existsb (Z.eqb i) l.
Proof.
  intros Hl Hi. revert mask. induction Hl as [|n l Hn _ IH]; intros mask; cbn [foldl existsb]; [by rewrite orb_false_r|].
  rewrite IH, Z.lor_spec, testbit_shift1, (Z.eqb_sym n i) by done. by rewrite orb_assoc.
Qed.

Lemma step_by_elem start stop step n :
  start <= stop -> 1 <= step -> n ∈ step_by start stop step <-> start <= n <= stop /\ (n - start) mod step = 0.
Proof.
  intros Hs Hp. unfold step_by. rewrite list_elem_of_fmap. split.
  - intros (k & -> & Hk). rewrite elem_of_seqZ in Hk. replace (start + k * step - start) with (k * step) by lia.
    split; [|by rewrite Z.mod_mul by lia]. pose proof (Z.mul_div_le (stop - start) step ltac:(lia)). nia.
  - intros [Hn Hm]. exists ((n - start) / step). pose proof (Z.div_mod (n - start) step ltac:(lia)). split; [lia|].
    rewrite elem_of_seqZ. split; [apply Z.div_pos; lia|]. pose proof (Z.div_le_mono (n - start) (stop - start) step ltac:(lia) ltac:(lia)). lia.
Qed.

Lemma existsb_elem i l : existsb (Z.eqb i) l = bool_decide (i ∈ l).
Proof.
  apply eq_true_iff_eq. rewrite existsb_exists, bool_decide_eq_true. split.
  - intros (x & Hx & ->%Z.eqb_eq). by apply list_elem_of_In.
  - intros Hx%list_elem_of_In. exists i. by rewrite Z.eqb_refl.
Qed.

Definition item_bits (min max : Z) (item : bytes) (n : Z) : Prop :=
  exists start stop step, item_range item min max = Ok (start, stop, step) /\ start <= n <= stop /\ (n - start) mod step = 0.

Lemma item_range_ok item min max start stop step :
  item_range item min max = Ok (start, stop, step) -> 0 <= min ->
  min <= start <= stop /\ stop <= max /\ 1 <= step.
Proof.
  unfold item_range. intros H Hm. apply bind_Ok in H as ([base st] & Hst & H).
  assert (0 <= st) as Hnn.
  { assert (forall v n, number v = Ok n -> 0 <= n) as Hnum.
    { intros v n. unfold number. destruct (_ || _) eqn:E; [done|]. apply orb_false_iff in E as [_ E]. apply negb_false_iff in E.
      unfold parse_u8. assert (forall acc, 0 <= acc -> forall m, foldl (fun acc c => n0 ← acc; let n' := n0 * 10 + (c - 48) in if n' <? 256 then Some n' else None) (Some acc) v = Some m -> 0 <= m) as Hf.
      { induction v as [|c v IH]; intros acc Ha m; cbn [foldl]; [by intros [= <-]|]. cbn [forallb] in E. apply andb_true_iff in E as [Ec E].
        unfold is_digit in Ec. apply andb_true_iff in Ec as [Ec%Z.leb_le _]. cbn [mbind option_bind]. destruct (_ <? 256); [apply IH; [done|lia]|].
        assert (forall l, foldl (fun acc c => n0 ← acc; let n' := n0 * 10 + (c - 48) in if n' <? 256 then Some n' else None) None l = None) as Hn by (induction l; done).
        by rewrite Hn. }
      destruct (foldl _ _ v) as [m|] eqn:Ef; [|done]. intros [= <-]. by eapply Hf in Ef. }
    destruct (split_once 47 item) as [[b s]|]; [|by injection Hst as _ <-]. apply bind_Ok in Hst as (n & Hn & Hr). injection Hr as _ <-. by eapply Hnum. }
  destruct (Z.eqb_spec st 0); [done|]. apply bind_Ok in H as ([x y] & _ & H).
  destruct ((x <? min) || (max <? y) || (y <? x)) eqn:E; [done|]. apply orb_false_iff in E as [[E1 E2]%orb_false_iff E3].
  apply Z.ltb_ge in E1, E2, E3. injection H as <- <- <-. lia.
Qed.

Lemma field_items_spec items min max mask m :
  0 <= min -> 0 <= mask -> field_items items min max mask = Ok m ->
  0 <= m /\ forall i, 0 <= i -> Z.testbit m i = true <-> Z.testbit mask i = true \/ Exists (fun it => item_bits min max it i) items.
Proof.
  intros Hmin. revert mask. induction items as [|it items IH]; intros mask Hmask; cbn [field_items].
  { intros [= <-]. split; [done|]. intros i _. split; [by left|]. intros [?|Hx]; [done|by apply Exists_nil in Hx]. }
  intros H. apply bind_Ok in H as ([[start stop] step] & Hr & H). destruct (item_range_ok _ _ _ _ _ _ Hr Hmin) as (Hs1 & Hs2 & Hs3).
  assert (Forall (fun n => 0 <= n) (step_by start stop step)) as Hpos.
  { apply Forall_forall. intros n Hn. apply step_by_elem in Hn; lia. }
  assert (0 <= foldl (fun m n => Z.lor m (Z.shiftl 1 n)) mask (step_by start stop step)) as Hnn.
  { clear -Hpos Hmask. revert mask Hmask. induction Hpos as [|n l Hn _ IH]; intros mask Hm; cbn [foldl]; [done|]. apply IH, Z.lor_nonneg.
    split; [done|]. by apply Z.shiftl_nonneg. }
  destruct (IH _ Hnn H) as [Hm0 Hm]. split; [done|]. intros i Hi. rewrite (Hm i Hi), foldl_lor_testbit, orb_true_iff, existsb_elem, bool_decide_eq_true, step_by_elem by (done || lia).
  rewrite Exists_cons. unfold item_bits at 2. split.
  - intros [[?|Hb]|?]; [by left|right; left; by exists start, stop, step|by right; right].
  - intros [?|[(a & b & c & Hr' & Hb)|?]]; [by left; left| |by right]. rewrite Hr in Hr'. injection Hr' as <- <- <-. by left; right.
Qed.

Lemma field_spec value min max m :
  0 <= min -> field value min max = Ok m ->
  m <> 0 /\ forall i, 0 <= i -> (Z.testbit m i = true <-> Exists (fun it => item_bits min max it i) (split 44 value)) /\ (Z.testbit m i = true -> min <= i <= max).
Proof.
  intros Hmin H. apply bind_Ok in H as (m' & Hf & H). destruct (Z.eqb_spec m' 0); [done|]. injection H as <-.
  destruct (field_items_spec _ _ _ 0 _ Hmin (Z.le_refl 0) Hf) as [_ Hb]. split; [done|]. intros i Hi.
  assert (Z.testbit m' i = true <-> Exists (fun it => item_bits min max it i) (split 44 value)) as Heq.
  { rewrite (Hb i Hi), Z.bits_0. split; [by intros [?|?]|by right]. }
  split; [done|]. rewrite Heq. intros (it & _ & start & stop & step & Hr & Hn & _)%Exists_exists.
  destruct (item_range_ok _ _ _ _ _ _ Hr Hmin). lia.
Qed.

Lemma fields_spec values bounds ms :
  fields values bounds = Ok ms ->
  length ms = length bounds /\ forall k min max, bounds !! k = Some (min, max) ->
    exists v m, values !! k = Some v /\ ms !! k = Some m /\ field v min max = Ok m.
Proof.
  revert values ms. induction bounds as [|[mn mx] bounds IH]; intros values ms; cbn [fields].
  { intros H. injection H as <-. done. }
  destruct values as [|v values]; [done|]. intros H. apply bind_Ok in H as (m & Hm & H). apply bind_Ok in H as (ms' & Hms & H). injection H as <-.
  destruct (IH _ _ Hms) as [Hl Hk]. split; [cbn; by rewrite Hl|]. intros [|k] min max; cbn [lookup list_lookup]; [|by apply Hk].
  intros [= -> ->]. by exists v, m.
Qed.

(** Every expression the parser accepts has five masks, none of them empty, whose bits
    lie within the bounds of their fields: no value outside them is ever selected. *)
Theorem parsed_masks s e :
  from_str s = Ok e ->
  length (masks e) = 5%nat /\ forall k min max, BOUNDS !! k = Some (min, max) ->
    (exists n, selected e k n = true /\ min <= n <= max) /\ forall n, 0 <= n -> selected e k n = true -> min <= n <= max.
Proof.
  unfold from_str. destruct (256 <? _); [done|]. cbv zeta. destruct (negb _); [done|]. intros H. apply bind_Ok in H as (ms & Hms & H). injection H as <-.
  destruct (fields_spec _ _ _ Hms) as [Hl Hk]. split; [done|]. intros k min max Hb. destruct (Hk k min max Hb) as (v & m & _ & Hm & Hf).
  assert (0 <= min) as Hmin. { do 5 (destruct k as [|k]; [injection Hb as <- _; lia|]). done. }
  destruct (field_spec v min max m Hmin Hf) as [Hnz Hbits].
  assert (forall n, 0 <= n -> selected (mkCron ms (contains 42 (default [] (split_ascii_whitespace s !! 2%nat))) (contains 42 (default [] (split_ascii_whitespace s !! 4%nat)))) k n = Z.testbit m n) as Hsel.
  { intros n Hn. unfold selected. cbn [masks]. rewrite Hm. cbn [default]. by apply has_bit. }
  split; [|intros n Hn; rewrite Hsel by done; by apply Hbits].
  assert (0 <= m) as Hm0.
  { apply bind_Ok in Hf as (m' & Hi & Hr). destruct (m' =? 0); [done|]. injection Hr as <-. by apply (field_items_spec _ _ _ 0 _ Hmin (Z.le_refl 0) Hi). }
  exists (Z.log2 m). pose proof (Z.log2_nonneg m). rewrite Hsel by done. assert (Z.testbit m (Z.log2 m) = true) as Ht by (apply Z.bit_log2; lia).
  split; [done|]. by apply Hbits.
Qed.

(** ** Expressions and their text *)

Inductive Item := Star | StarStep (s : Z) | Value (n : Z) | Range (a b : Z) | RangeStep (a b s : Z).

Definition print_item (it : Item) : bytes :=
  match it with
  | Star => [42]
  | StarStep s => [42] ++ 47 :: format_dec s
  | Value n => format_dec n
  | Range a b => format_dec a ++ 45 :: format_dec b
  | RangeStep a b s => (format_dec a ++ 45 :: format_dec b) ++ 47 :: format_dec s
  end.

Definition item_ok (min max : Z) (it : Item) : Prop :=
  match it with
  | Star => min <= max
  | StarStep s => min <= max /\ 1 <= s <= 255
  | Value n => min <= n <= max
  | Range a b => min <= a <= b /\ b <= max
  | RangeStep a b s => min <= a <= b /\ b <= max /\ 1 <= s <= 255
  end.

(** The values an item names. *)
Definition item_names (min : Z) (it : Item) (n : Z) : bool :=
  match it with
  | Star => true
  | StarStep s => (n - min) mod s =? 0
  | Value v => n =? v
  | Range a b => (a <=? n) && (n <=? b)
  | RangeStep a b s => (a <=? n) && (n <=? b) && ((n - a) mod s =? 0)
  end.

Definition is_star (it : Item) : bool := match it with Star | StarStep _ => true | _ => false end.

Fixpoint join (sep : Z) (l : list bytes) : bytes :=
  match l with [] => [] | [x] => x | x :: l' => x ++ sep :: join sep l' end.

Definition print_field (f : list Item) : bytes := join 44 (print_item <$> f).
Definition print (fs : list (list Item)) : bytes := join 32 (print_field <$> fs).

Definition digits_ok (n : Z) : bool :=
  match number (format_dec n) with Ok m => m =? n | _ => false end && forallb is_digit (format_dec n) && negb (bool_decide (format_dec n = [])).

Lemma format_ok n : 0 <= n < 256 -> number (format_dec n) = Ok n /\ Forall (fun c => 48 <= c <= 57) (format_dec n) /\ format_dec n <> [].
Proof.
  intros Hn. assert (forallb digits_ok (seqZ 0 256) = true) as H by (vm_compute; reflexivity).
  rewrite forallb_forall in H. specialize (H n). rewrite <- list_elem_of_In, elem_of_seqZ in H. specialize (H ltac:(lia)).
  unfold digits_ok in H. apply andb_true_iff in H as [[H1 H2]%andb_true_iff H3]. split_and!.
  - destruct (number (format_dec n)) as [m|?|?]; [|done..]. by apply Z.eqb_eq in H1 as ->.
  - apply Forall_forall. intros c Hc%list_elem_of_In. rewrite forallb_forall in H2. specialize (H2 c Hc). unfold is_digit in H2.
    apply andb_true_iff in H2 as [?%Z.leb_le ?%Z.leb_le]. done.
  - intros E. rewrite E in H3. done.
Qed.

Lemma split_none sep a : sep ∉ a -> split sep a = [a].
Proof.
  induction a as [|c a IH]; intros Hn; cbn [split]; [done|]. apply not_elem_of_cons in Hn as [Hc Hn].
  rewrite (proj2 (Z.eqb_neq c sep)) by done. by rewrite IH.
Qed.

Lemma split_app sep a b : sep ∉ a -> split sep (a ++ sep :: b) = a :: split sep b.
Proof.
  induction a as [|c a IH]; intros Hn; cbn [app split]; [by rewrite Z.eqb_refl|]. apply not_elem_of_cons in Hn as [Hc Hn].
  rewrite (proj2 (Z.eqb_neq c sep)) by done. by rewrite IH.
Qed.

Lemma split_join sep l : l <> [] -> Forall (fun a => sep ∉ a) l -> split sep (join sep l) = l.
Proof.
  intros Hl. induction 1 as [|a l Ha Hf IH]; [done|]. cbn [join]. destruct l as [|b l]; [by apply split_none|].
  rewrite split_app by done. by rewrite IH.
Qed.

Lemma words_app cur a b : Forall (fun c => is_space c = false) a -> words cur (a ++ b) = words (cur ++ a) b.
Proof.
  revert cur. induction a as [|c a IH]; intros cur; cbn [app words]; [by rewrite app_nil_r|]. intros [-> Ha]%Forall_cons.
  rewrite IH by done. by rewrite <- app_assoc.
Qed.

Lemma words_join l :
  Forall (fun a => a <> [] /\ Forall (fun c => is_space c = false) a) l -> split_ascii_whitespace (join 32 l) = l.
Proof.
  unfold split_ascii_whitespace. induction 1 as [|a l [Hne Ha] Hf IH]; [done|]. cbn [join]. destruct l as [|b l].
  - rewrite <- (app_nil_r a) at 1. rewrite words_app by done. cbn [app words]. by destruct a.
  - rewrite words_app by done. cbn [app words]. change (is_space 32) with true. cbn iota. destruct a as [|c a]; [done|]. cbn [app]. by rewrite IH.
Qed.

(** The characters of items. *)
Definition item_char (c : Z) : Prop := 48 <= c <= 57 \/ c = 42 \/ c = 45 \/ c = 47.

Lemma print_item_chars min max it : 0 <= min -> max < 256 -> item_ok min max it -> print_item it <> [] /\ Forall item_char (print_item it).
Proof.
  intros Hmin Hmax Hok. assert (forall n, 0 <= n < 256 -> Forall item_char (format_dec n) /\ format_dec n <> []) as Hd.
  { intros n Hn. destruct (format_ok n Hn) as (_ & Hf & Hne). split; [|done]. eapply Forall_impl; [exact Hf|]. intros c Hc. by left. }
  destruct it as [|s|n|a b|a b s]; cbn [item_ok print_item] in *.
  - split; [done|]. by apply Forall_singleton; right; left.
  - destruct (Hd s) as [H1 _]; [lia|]. split; [done|]. cbn [app]. apply Forall_cons. split; [by right; left|]. apply Forall_cons. split; [by right; right; right|done].
  - destruct (Hd n) as [H1 H2]; [lia|]. done.
  - destruct (Hd a) as [H1 H2]; [lia|]. destruct (Hd b) as [H3 _]; [lia|]. split; [by destruct (format_dec a)|].
    apply Forall_app. split; [done|]. apply Forall_cons. split; [by right; right; left|done].
  - destruct (Hd a) as [H1 H2]; [lia|]. destruct (Hd b) as [H3 _]; [lia|]. destruct (Hd s) as [H5 _]; [lia|]. split; [by destruct (format_dec a)|].
    rewrite !Forall_app, !Forall_cons. split_and!; try done; [by right; right; left|by right; right; right].
Qed.

Lemma digits_no n c : 0 <= n < 256 -> ~ 48 <= c <= 57 -> c ∉ format_dec n.
Proof. intros Hn Hc Hin. destruct (format_ok n Hn) as (_ & Hf & _). rewrite Forall_forall in Hf. by apply Hc, Hf. Qed.

(** The range the code reads from the text of an item names what the item does. *)
Lemma item_range_print min max it :
  0 <= min -> max < 256 -> item_ok min max it ->
  exists start stop step, item_range (print_item it) min max = Ok (start, stop, step) /\
    forall n, min <= n <= max -> start <= n <= stop /\ (n - start) mod step = 0 <-> item_names min it n = true.
Proof.
  intros Hmin Hmax Hok. unfold item_range. pose proof (fun n H => proj1 (format_ok n H)) as Hnum.
  assert (forall n c, 0 <= n < 256 -> ~ 48 <= c <= 57 -> c ∉ format_dec n) as Hno by apply digits_no.
  destruct it as [|s|v|a b|a b s]; cbn [item_ok print_item] in *.
  - rewrite (split_once_none 47 [42]) by (by rewrite list_elem_of_singleton). cbn [mbind Res_bind mret Res_ret]. change (1 =? 0) with false. cbn iota. rewrite bool_decide_true by done. cbn [mbind Res_bind mret Res_ret].
    rewrite !(proj2 (Z.ltb_ge _ _)) by lia. exists min, max, 1. split; [done|]. intros n Hn. rewrite Z.mod_1_r. cbn [item_names]. by split; [|split].
  - rewrite split_once_app by (by rewrite list_elem_of_singleton). rewrite Hnum by lia. cbn [mbind Res_bind mret Res_ret]. rewrite (proj2 (Z.eqb_neq s 0)) by lia.
    rewrite bool_decide_true by done. cbn [mbind Res_bind mret Res_ret]. rewrite !(proj2 (Z.ltb_ge _ _)) by lia. exists min, max, s. split; [done|].
    intros n Hn. cbn [item_names]. rewrite Z.eqb_eq. tauto.
  - rewrite split_once_none by (apply Hno; lia). cbn [mbind Res_bind mret Res_ret]. change (1 =? 0) with false. cbn iota.
    rewrite bool_decide_false by (intros E; apply (Hno v 42); [lia|lia|rewrite E; apply list_elem_of_here]).
    rewrite split_once_none by (apply Hno; lia). unfold contains. rewrite bool_decide_false by (apply Hno; lia). rewrite Hnum by lia. cbn [mbind Res_bind mret Res_ret].
    rewrite !(proj2 (Z.ltb_ge _ _)) by lia. exists v, v, 1. split; [done|]. intros n Hn. rewrite Z.mod_1_r. cbn [item_names]. rewrite Z.eqb_eq. split; [lia|]. intros ->. lia.
  - assert (47 ∉ format_dec a ++ 45 :: format_dec b) as Hs by (rewrite elem_of_app, elem_of_cons; intros [?|[?|?]]; [by eapply Hno; [| |done]; lia|done|by eapply Hno; [| |done]; lia]).
    rewrite split_once_none by done. cbn [mbind Res_bind mret Res_ret]. change (1 =? 0) with false. cbn iota.
    rewrite bool_decide_false by (intros E; apply (Hno a 42); [lia|lia|destruct (format_dec a); [done|injection E as -> _; apply list_elem_of_here]]).
    rewrite split_once_app by (apply Hno; lia). rewrite !Hnum by lia. cbn [mbind Res_bind mret Res_ret]. rewrite !(proj2 (Z.ltb_ge _ _)) by lia.
    exists a, b, 1. split; [done|]. intros n Hn. rewrite Z.mod_1_r. cbn [item_names]. rewrite andb_true_iff, !Z.leb_le. tauto.
  - assert (47 ∉ format_dec a ++ 45 :: format_dec b) as Hs by (rewrite elem_of_app, elem_of_cons; intros [?|[?|?]]; [by eapply Hno; [| |done]; lia|done|by eapply Hno; [| |done]; lia]).
    rewrite split_once_app by done. rewrite Hnum by lia. cbn [mbind Res_bind mret Res_ret]. rewrite (proj2 (Z.eqb_neq s 0)) by lia.
    rewrite bool_decide_false by (intros E; apply (Hno a 42); [lia|lia|destruct (format_dec a); [done|injection E as -> _; apply list_elem_of_here]]).
    rewrite split_once_app by (apply Hno; lia). rewrite !Hnum by lia. cbn [mbind Res_bind mret Res_ret]. rewrite !(proj2 (Z.ltb_ge _ _)) by lia.
    exists a, b, s. split; [done|]. intros n Hn. cbn [item_names]. rewrite !andb_true_iff, !Z.leb_le, Z.eqb_eq. tauto.
Qed.

Lemma field_items_print min max f mask :
  0 <= min -> max < 256 -> Forall (item_ok min max) f -> 0 <= mask ->
  exists m, field_items (print_item <$> f) min max mask = Ok m /\ 0 <= m /\
    forall n, min <= n <= max -> Z.testbit m n = Z.testbit mask n || existsb (fun it => item_names min it n) f.
Proof.
  intros Hmin Hmax Hf. revert mask. induction Hf as [|it f Hit _ IH]; intros mask Hmask; rewrite ?fmap_cons; cbn [fmap list_fmap field_items].
  { exists mask. split_and!; [done|done|]. intros n _. by rewrite orb_false_r. }
  destruct (item_range_print min max it Hmin Hmax Hit) as (start & stop & step & Hr & Hn). rewrite Hr. cbn [mbind Res_bind].
  destruct (item_range_ok _ _ _ _ _ _ Hr Hmin) as (Hs1 & Hs2 & Hs3).
  assert (Forall (fun n => 0 <= n) (step_by start stop step)) as Hpos.
  { apply Forall_forall. intros n H. apply step_by_elem in H; lia. }
  destruct (IH (foldl (fun m n => Z.lor m (Z.shiftl 1 n)) mask (step_by start stop step))) as (m & Hm & Hm0 & Hb).
  { clear -Hpos Hmask. revert mask Hmask. induction Hpos as [|n l Hn _ IH]; intros mask Hm; cbn [foldl]; [done|]. apply IH, Z.lor_nonneg.
    split; [done|]. by apply Z.shiftl_nonneg. }
  exists m. split_and!; [done|done|]. intros n Hin. rewrite Hb, foldl_lor_testbit by (done || lia). cbn [existsb]. rewrite orb_assoc. f_equal. f_equal.
  rewrite existsb_elem. apply eq_true_iff_eq. rewrite bool_decide_eq_true, step_by_elem by lia. by apply Hn.
Qed.

Lemma field_print min max f :
  0 <= min -> max < 256 -> f <> [] -> Forall (item_ok min max) f ->
  exists m, field (print_field f) min max = Ok m /\ 0 <= m /\
    forall n, min <= n <= max -> Z.testbit m n = existsb (fun it => item_names min it n) f.
Proof.
  intros Hmin Hmax Hne Hf. unfold field, print_field. rewrite split_join; [| |].
  - destruct (field_items_print min max f 0 Hmin Hmax Hf ltac:(lia)) as (m & Hm & Hm0 & Hb). rewrite Hm. cbn [mbind Res_bind].
    destruct (Z.eqb_spec m 0) as [E|Hnz]; [|exists m; split_and!; [done|done|]; intros n Hn; by rewrite Hb, Z.bits_0].
    exfalso. destruct f as [|it f]; [done|]. apply Forall_cons in Hf as [Hit _].
    assert (exists n, min <= n <= max /\ item_names min it n = true) as (n & Hn & Hin).
    { destruct it as [|s|v|a b|a b s]; cbn [item_ok item_names] in *.
      - exists min. by split; [lia|].
      - exists min. split; [lia|]. by rewrite Z.sub_diag, Z.mod_0_l by lia.
      - exists v. split; [lia|]. apply Z.eqb_refl.
      - exists a. split; [lia|]. by rewrite !(proj2 (Z.leb_le _ _)) by lia.
      - exists a. split; [lia|]. by rewrite !(proj2 (Z.leb_le _ _)), Z.sub_diag, Z.mod_0_l by lia. }
    specialize (Hb n Hn). rewrite E, Z.bits_0 in Hb. cbn [existsb orb] in Hb. by rewrite Hin in Hb.
  - by destruct f.
  - apply Forall_fmap. eapply Forall_impl; [exact Hf|]. intros it Hit H44. destruct (print_item_chars min max it Hmin Hmax Hit) as [_ Hc].
    rewrite Forall_forall in Hc. specialize (Hc 44 H44). destruct Hc as [?|[?|[?|?]]]; lia.
Qed.

Definition field_ok (b : Z * Z) (f : list Item) : Prop := f <> [] /\ Forall (item_ok b.1 b.2) f.

Lemma fields_print bounds fs :
  Forall (fun b => 0 <= b.1 /\ b.2 < 256) bounds -> Forall2 field_ok bounds fs ->
  exists ms, fields (print_field <$> fs) bounds = Ok ms /\
    forall k f min max, fs !! k = Some f -> bounds !! k = Some (min, max) -> exists m, ms !! k = Some m /\ 0 <= m /\
      forall n, min <= n <= max -> Z.testbit m n = existsb (fun it => item_names min it n) f.
Proof.
  intros Hb H. induction H as [|[mn mx] f bounds fs [Hne Hf] _ IH]; rewrite ?fmap_cons; cbn [fields fmap list_fmap].
  { by exists []. }
  apply Forall_cons in Hb as [[H0 H1] Hb]. cbn [fst snd] in *. destruct (field_print mn mx f H0 H1 Hne Hf) as (m & Hm & Hm0 & Hbits). rewrite Hm.
  destruct (IH Hb) as (ms & Hms & Hk). cbn [mbind Res_bind]. rewrite Hms. exists (m :: ms). split; [done|].
  intros [|k] f' min max; cbn [lookup list_lookup]; [|by apply Hk]. intros [= <-] [= <- <-]. by exists m.
Qed.

Lemma star_in_field min max f : 0 <= min -> max < 256 -> Forall (item_ok min max) f -> contains 42 (print_field f) = existsb is_star f.
Proof.
  intros Hmin Hmax Hf. unfold contains, print_field.
  assert (forall it, item_ok min max it -> bool_decide (42 ∈ print_item it) = is_star it) as Hit.
  { intros it Hok. pose proof digits_no as Hno. destruct it as [|s|v|a b|a b s]; cbn [item_ok print_item is_star] in *.
    - by rewrite bool_decide_true by apply list_elem_of_here.
    - by rewrite bool_decide_true by apply list_elem_of_here.
    - rewrite bool_decide_false; [done|]. apply Hno; lia.
    - rewrite bool_decide_false; [done|]. rewrite elem_of_app, elem_of_cons. intros [?|[?|?]]; [by apply (Hno a 42); [lia|lia|]|done|by apply (Hno b 42); [lia|lia|]].
    - rewrite bool_decide_false; [done|]. rewrite !elem_of_app, !elem_of_cons.
      intros [[?|[?|?]]|[?|?]]; [by apply (Hno a 42); [lia|lia|]|done|by apply (Hno b 42); [lia|lia|]|done|by apply (Hno s 42); [lia|lia|]]. }
  induction Hf as [|it f Hok Hf IH]; [done|]. rewrite fmap_cons. cbn [existsb]. rewrite <- Hit by done. destruct f as [|it' f].
  { cbn. by rewrite orb_false_r. }
  rewrite <- IH. change (join 44 (print_item it :: (print_item <$> it' :: f))) with (print_item it ++ 44 :: join 44 (print_item <$> it' :: f)).
  apply eq_true_iff_eq. rewrite orb_true_iff, !bool_decide_eq_true, elem_of_app, elem_of_cons. split; [intros [?|[?|?]]; by auto|intros [?|?]; by auto].
Qed.

Lemma print_field_word b f : 0 <= b.1 -> b.2 < 256 -> field_ok b f -> print_field f <> [] /\ Forall (fun c => is_space c = false) (print_field f).
Proof.
  intros H0 H1 [Hne Hf]. unfold print_field. assert (Forall (fun s => s <> [] /\ Forall item_char s) (print_item <$> f)) as Hs.
  { apply Forall_fmap. eapply Forall_impl; [exact Hf|]. intros it Hit. by apply (print_item_chars b.1 b.2). }
  assert (print_item <$> f <> []) as Hn by by destruct f. revert Hs Hn. generalize (print_item <$> f). intros l Hs Hn.
  assert (forall c, item_char c -> is_space c = false) as Hc.
  { intros c Hc. unfold is_space. rewrite !orb_false_iff, !Z.eqb_neq. unfold item_char in Hc. lia. }
  clear Hf Hne. induction Hs as [|s l [Hsn Hsf] Hs IH]; [done|]. cbn [join]. assert (Forall (fun c => is_space c = false) s) as Hsp by (eapply Forall_impl; [exact Hsf|exact Hc]).
  destruct l as [|s' l]; [done|]. destruct (IH ltac:(done)) as [_ Hj]. split; [by destruct s|]. apply Forall_app. split; [done|]. apply Forall_cons. by split.
Qed.

(** C29: Text and meaning: the text of any five lists of items, each within the bounds of
    its field, is accepted if it has at most 256 characters, and the expression then
    selects exactly the values the items name; a day field counts as a wildcard when one
    of its items is a star.  A longer text is refused. *)
Theorem parse_print fs :
  Forall2 field_ok BOUNDS fs ->
  (256 < Z.of_nat (length (print fs)) -> from_str (print fs) = Err invalid) /\
  (Z.of_nat (length (print fs)) <= 256 ->
   exists e, from_str (print fs) = Ok e /\
    (forall k f min max n, fs !! k = Some f -> BOUNDS !! k = Some (min, max) -> min <= n <= max ->
       selected e k n = existsb (fun it => item_names min it n) f) /\
    (forall f, fs !! 2%nat = Some f -> day_of_month_wildcard e = existsb is_star f) /\
    (forall f, fs !! 4%nat = Some f -> day_of_week_wildcard e = existsb is_star f)).
Proof.
  intros Hfs. split; [intros Hlen; unfold from_str; by rewrite (proj2 (Z.ltb_lt _ _)) by done|].
  intros Hlen. assert (Forall (fun b => 0 <= b.1 /\ b.2 < 256) BOUNDS) as Hbounds by (repeat constructor; cbn; lia).
  assert (split_ascii_whitespace (print fs) = print_field <$> fs) as Hw.
  { apply words_join. apply Forall_fmap, Forall_forall. intros f Hf. apply list_elem_of_lookup in Hf as [k Hk].
    destruct (Forall2_lookup_r _ _ _ _ _ Hfs Hk) as (b & Hb & Hok). destruct (Forall_lookup_1 _ _ _ _ Hbounds Hb). by apply (print_field_word b). }
  destruct (fields_print BOUNDS fs Hbounds Hfs) as (ms & Hms & Hk). pose proof (Forall2_length _ _ _ Hfs) as Hl.
  unfold from_str. rewrite (proj2 (Z.ltb_ge _ _)) by done. rewrite Hw, length_fmap, <- Hl. change (negb (Z.of_nat (length BOUNDS) =? 5)) with false. cbn iota.
  rewrite Hms. cbn [mbind Res_bind]. eexists. split; [reflexivity|]. split_and!.
  - intros k f min max n Hf Hb Hn. destruct (Hk k f min max Hf Hb) as (m & Hm & _ & Hbits). unfold selected. cbn [masks]. rewrite Hm. cbn [default].
    rewrite has_bit; [by apply Hbits|]. destruct (Forall_lookup_1 _ _ _ _ Hbounds Hb). cbn [fst] in *. lia.
  - intros f Hf. cbn [day_of_month_wildcard]. rewrite list_lookup_fmap, Hf. cbn [fmap option_fmap option_map default].
    destruct (Forall2_lookup_r _ _ _ _ _ Hfs Hf) as (b & Hb & _ & Hok). destruct (Forall_lookup_1 _ _ _ _ Hbounds Hb). by apply (star_in_field b.1 b.2).
  - intros f Hf. cbn [day_of_week_wildcard]. rewrite list_lookup_fmap, Hf. cbn [fmap option_fmap option_map default].
    destruct (Forall2_lookup_r _ _ _ _ _ Hfs Hf) as (b & Hb & _ & Hok). destruct (Forall_lookup_1 _ _ _ _ Hbounds Hb). by apply (star_in_field b.1 b.2).
Qed.

(** ** The calendar

    What the search relies on: fields within their bounds, and the Gregorian cycle of
    146097 days, which is 400 years and a whole number of weeks. *)
Class CalendarLaws `{Calendar} : Prop := {
  day_range d : 1 <= day d <= 31;
  month_range d : 1 <= month d <= 12;
  weekday_range d : 0 <= num_days_from_sunday d <= 6;
  cycle_day d : day (d + 146097) = day d;
  cycle_month d : month (d + 146097) = month d;
  cycle_weekday d : num_days_from_sunday (d + 146097) = num_days_from_sunday d;
  year_mono d d' : d <= d' -> year d <= year d';
  dates_cover : MIN_DATE <= 0 <= MAX_DATE;
  dates_fit : (MAX_DATE + 1) * DAY <= 2 ^ 63
}.

Section utc.
Context {Cal : Calendar} {Laws : CalendarLaws}.

Lemma clock_elem e h m : (h, m) ∈ clock e <-> 0 <= h < 24 /\ 0 <= m < 60 /\ selected e 1 h = true /\ selected e 0 m = true.
Proof.
  unfold clock. rewrite list_elem_of_In, in_concat. split.
  - intros (l & Hl & Hin). apply in_map_iff in Hl as (h' & <- & Hh). apply in_map_iff in Hin as (m' & [= -> ->] & Hm).
    apply List.filter_In in Hh as [Hh Hs], Hm as [Hm Hs']. apply list_elem_of_In, elem_of_seqZ in Hh, Hm. split_and!; done || lia.
  - intros (Hh & Hm & H1 & H0). exists ((fun m => (h, m)) <$> List.filter (selected e 0) (seqZ 0 60)). split.
    + apply in_map_iff. exists h. split; [done|]. apply List.filter_In. split; [|done]. apply list_elem_of_In, elem_of_seqZ. lia.
    + apply in_map_iff. exists m. split; [done|]. apply List.filter_In. split; [|done]. apply list_elem_of_In, elem_of_seqZ. lia.
Qed.

Lemma millis_day d h m : 0 <= h < 24 -> 0 <= m < 60 -> d * DAY <= millis d h m < (d + 1) * DAY.
Proof. unfold millis, DAY. lia. Qed.

(** The minutes of the clock come in order. *)
Definition later (x y : Z * Z) : Prop := x.1 * 60 + x.2 < y.1 * 60 + y.2.

Lemma seqZ_filter_sorted f s n : StronglySorted Z.lt (List.filter f (seqZ s n)).
Proof.
  assert (forall k s, StronglySorted Z.lt (List.filter f (seqZ s (Z.of_nat k)))) as Hk.
  { induction k as [|k IH]; intros s0; [constructor|]. rewrite Nat2Z.inj_succ, seqZ_cons by lia. cbn [List.filter]. rewrite Z.pred_succ.
    destruct (f s0); [|apply IH]. constructor; [apply IH|]. apply Forall_forall. intros x Hx%list_elem_of_In.
    apply List.filter_In in Hx as [Hx _]. apply list_elem_of_In, elem_of_seqZ in Hx. lia. }
  destruct (Z.le_gt_cases 0 n) as [Hn|Hn]; [rewrite <- (Z2Nat.id n) by done; apply Hk|]. rewrite seqZ_nil by lia. constructor.
Qed.

Lemma clock_sorted e : StronglySorted later (clock e).
Proof.
  unfold clock. pose proof (seqZ_filter_sorted (selected e 1) 0 24) as Hs.
  assert (forall m, m ∈ List.filter (selected e 0) (seqZ 0 60) -> 0 <= m < 60) as Hm.
  { intros m Hm%list_elem_of_In. apply List.filter_In in Hm as [Hm _]. apply list_elem_of_In, elem_of_seqZ in Hm. lia. }
  pose proof (seqZ_filter_sorted (selected e 0) 0 60) as Hs0. revert Hm Hs0. generalize (List.filter (selected e 0) (seqZ 0 60)). intros ms Hm Hs0.
  assert (StronglySorted later (concat ((fun h => (fun m => (h, m)) <$> ms) <$> List.filter (selected e 1) (seqZ 0 24)))) as Hc; [|exact Hc].
  induction Hs as [|h hs Hs IH Hh]; [constructor|]. rewrite fmap_cons. cbn [concat]. apply StronglySorted_app_2; [| |done].
  - intros [h1 m1] [h2 m2] H1 H2. apply list_elem_of_fmap in H1 as (m & [= -> ->] & H1). apply list_elem_of_In, in_concat in H2 as (l & Hl & Hin).
    apply in_map_iff in Hl as (h' & <- & Hh'). apply in_map_iff in Hin as (m' & [= <- <-] & Hin). rewrite Forall_forall in Hh.
    specialize (Hh h' (proj2 (list_elem_of_In _ _) Hh')). pose proof (Hm m H1). pose proof (Hm m' (proj2 (list_elem_of_In _ _) Hin)). unfold later. cbn. lia.
  - clear -Hs0. induction Hs0 as [|m ms Hs0 IH Hm]; [constructor|]. rewrite fmap_cons. constructor; [done|]. apply Forall_fmap.
    eapply Forall_impl; [exact Hm|]. intros m' Hlt. unfold later. cbn. lia.
Qed.

(** A minute of UTC the expression selects. *)
Definition utc_occurs (e : CronExpression) (w : Z) : Prop :=
  exists d h m, 0 <= d <= MAX_DATE /\ matches_date e d = true /\ (h, m) ∈ clock e /\ w = millis d h m.

Lemma first_of_day_spec start d l :
  0 <= d -> Forall (fun x => 0 <= x.1 < 24 /\ 0 <= x.2 < 60) l -> StronglySorted later l ->
  match first_of_day start d l with
  | Ok (Some v) => exists h m, (h, m) ∈ l /\ v = millis d h m /\ start <= v /\ forall h' m', (h', m') ∈ l -> start <= millis d h' m' -> v <= millis d h' m'
  | Ok None => forall h m, (h, m) ∈ l -> millis d h m < start
  | _ => False
  end.
Proof.
  intros Hd Hl Hs. induction Hs as [|[h m] l Hs IH Hlt]; cbn [first_of_day].
  { intros h m Hx. by apply not_elem_of_nil in Hx. }
  apply Forall_cons in Hl as [[Hh Hm] Hl]. cbn [fst snd] in *. pose proof (millis_day d h m Hh Hm) as Hday. rewrite (proj2 (Z.ltb_ge _ 0)) by (unfold DAY in *; lia).
  destruct (Z.leb_spec start (millis d h m)).
  - exists h, m. split_and!; [apply list_elem_of_here|done|done|]. intros h' m' [[= -> ->]|Hx]%elem_of_cons _; [done|].
    rewrite Forall_forall in Hlt. specialize (Hlt (h', m') Hx). unfold later, millis in *. cbn in Hlt. lia.
  - specialize (IH Hl). destruct (first_of_day start d l) as [[v|]|?|?]; [|..]; try done.
    + destruct IH as (h' & m' & Hx & -> & Hle & Hmin). exists h', m'. split_and!; [by apply list_elem_of_further|done|done|].
      intros h2 m2 [[= -> ->]|Hx2]%elem_of_cons Hle2; [lia|by apply Hmin].
    + intros h' m' [[= -> ->]|Hx]%elem_of_cons; [done|by apply IH].
Qed.

Lemma clock_ranges e : Forall (fun x => 0 <= x.1 < 24 /\ 0 <= x.2 < 60) (clock e).
Proof. apply Forall_forall. intros [h m] Hx%clock_elem. cbn. split; apply Hx. Qed.

Lemma utc_days_spec n e start d :
  0 <= d <= MAX_DATE ->
  match utc_days n e start d with
  | Ok (Some v) => utc_occurs e v /\ start <= v /\
      forall d' h m, d <= d' -> matches_date e d' = true -> (h, m) ∈ clock e -> start <= millis d' h m -> v <= millis d' h m
  | Ok None => forall d' h m, d <= d' <= MAX_DATE -> d' < d + Z.of_nat n -> matches_date e d' = true -> (h, m) ∈ clock e -> millis d' h m < start
  | _ => False
  end.
Proof.
  revert d. induction n as [|n IH]; intros d Hd; cbn [utc_days]; [cbn [mret Res_ret]; intros; lia|].
  assert (match (if matches_date e d then first_of_day start d (clock e) else mret None) with
    | Ok (Some v) => matches_date e d = true /\ exists h m, (h, m) ∈ clock e /\ v = millis d h m /\ start <= v /\ forall h' m', (h', m') ∈ clock e -> start <= millis d h' m' -> v <= millis d h' m'
    | Ok None => matches_date e d = true -> forall h m, (h, m) ∈ clock e -> millis d h m < start
    | _ => False end) as Hf.
  { destruct (matches_date e d) eqn:Em; [|done]. pose proof (first_of_day_spec start d (clock e) ltac:(lia) (clock_ranges e) (clock_sorted e)) as Hf.
    destruct (first_of_day start d (clock e)) as [[v|]|?|?]; by auto. }
  destruct (if matches_date e d then _ else _) as [[v|]|?|?]; cbn [mbind Res_bind mret Res_ret]; try done.
  - destruct Hf as (Hm & h & m & Hx & -> & Hle & Hmin). split_and!; [by exists d, h, m|done|]. intros d' h' m' Hd' Hm' Hx' Hle'.
    destruct (decide (d' = d)) as [->|Hne]; [by apply Hmin|]. apply clock_elem in Hx as (? & ? & _). apply clock_elem in Hx' as (? & ? & _).
    pose proof (millis_day d h m). pose proof (millis_day d' h' m'). unfold DAY in *. lia.
  - unfold succ_opt. destruct (Z.ltb_spec d MAX_DATE).
    + specialize (IH (d + 1) ltac:(lia)). destruct (utc_days n e start (d + 1)) as [[v|]|?|?]; try done.
      * destruct IH as (Ho & Hle & Hmin). split_and!; [done|done|]. intros d' h m Hd' Hm Hx Hs.
        destruct (decide (d' = d)) as [->|Hne]; [pose proof (Hf Hm h m Hx); lia|]. apply (Hmin d' h m); done || lia.
      * intros d' h m Hd' Hn Hm Hx. destruct (decide (d' = d)) as [->|Hne]; [by apply Hf|]. apply (IH d' h m); done || lia.
    + intros d' h m Hd' Hn Hm Hx. assert (d' = d) as -> by lia. by apply Hf.
Qed.

Lemma matches_cycle e d k : 0 <= k -> matches_date e (d + k * 146097) = matches_date e d.
Proof.
  intros Hk. revert k Hk. apply (natlike_ind (fun k => matches_date e (d + k * 146097) = matches_date e d)); [by rewrite Z.mul_0_l, Z.add_0_r|].
  intros k Hk IH. replace (d + Z.succ k * 146097) with (d + k * 146097 + 146097) by lia. rewrite <- IH.
  unfold matches_date. by rewrite cycle_day, cycle_month, cycle_weekday.
Qed.

(** A search that finds nothing within one Gregorian cycle would never find anything. *)
Lemma search_utc_spec e start :
  0 <= start ->
  match search_utc e start with
  | Ok (Some v) => utc_occurs e v /\ start <= v /\ forall w, utc_occurs e w -> start <= w -> v <= w
  | Ok None => forall w, utc_occurs e w -> w < start
  | Err _ => (MAX_DATE + 1) * DAY <= start
  | Panic _ => False
  end.
Proof.
  intros Hs. pose proof dates_fit as Hfit. pose proof dates_cover as Hcov. unfold search_utc. destruct (Z.leb_spec (2 ^ 63) start); [lia|].
  unfold from_timestamp_millis. set (d := start / DAY). assert (0 <= d) as Hd0 by (apply Z.div_pos; unfold DAY; lia).
  assert (d * DAY <= start < (d + 1) * DAY) as Hday.
  { unfold d. pose proof (Z.div_mod start DAY ltac:(done)). pose proof (Z.mod_pos_bound start DAY ltac:(done)). lia. }
  rewrite (proj2 (Z.leb_le MIN_DATE d)) by lia. destruct (Z.leb_spec d MAX_DATE); cbn [andb ok_or mbind Res_bind]; [|unfold DAY in *; lia].
  pose proof (utc_days_spec (Z.to_nat 146098) e start d ltac:(lia)) as Hu.
  destruct (utc_days (Z.to_nat 146098) e start d) as [[v|]|?|?]; try done.
  - destruct Hu as (Ho & Hle & Hmin). split_and!; [done|done|]. intros w (d' & h & m & Hd' & Hm & Hx & ->) Hw. apply (Hmin d' h m); try done.
    apply clock_elem in Hx as (? & ? & _). pose proof (millis_day d' h m). unfold DAY in *. lia.
  - rewrite Z2Nat.id in Hu by lia. intros w (d' & h & m & Hd' & Hm & Hx & ->). pose proof Hx as (Hh & Hmm & _)%clock_elem. pose proof (millis_day d' h m Hh Hmm) as Hmd.
    destruct (Z.le_gt_cases d' d) as [Hle|Hgt].
    { destruct (decide (d' = d)) as [->|]; [apply (Hu d h m); done || lia|unfold DAY in *; lia]. }
    exfalso. set (k := (d' - d - 1) / 146097). set (d2 := d' - k * 146097).
    pose proof (Z.div_mod (d' - d - 1) 146097 ltac:(lia)) as Hdm. pose proof (Z.mod_pos_bound (d' - d - 1) 146097 ltac:(lia)). fold k in Hdm.
    assert (0 <= k) as Hk by (apply Z.div_pos; lia). assert (d + 1 <= d2 <= d + 146097) as Hd2 by (unfold d2; lia).
    assert (matches_date e d2 = true) as Hm2. { rewrite <- (matches_cycle e d2 k Hk). unfold d2. by replace (d' - k * 146097 + k * 146097) with d' by lia. }
    pose proof (millis_day d2 h m Hh Hmm). specialize (Hu d2 h m ltac:(unfold d2 in *; lia) ltac:(lia) Hm2 Hx). unfold DAY in *. lia.
Qed.

(** C27: The search in UTC is exact.  It returns the earliest selected minute that is not
    before the time given; when it returns none there is none, now or later: its bound
    of one Gregorian cycle of days is enough.  It reports an error only beyond the
    calendar, and never panics. *)
Theorem at_or_after_utc_spec e t :
  0 <= t < 2 ^ 64 ->
  match at_or_after_utc e t with
  | Ok (Some v) => utc_occurs e v /\ t <= v /\ forall w, utc_occurs e w -> t <= w -> v <= w
  | Ok None => forall w, utc_occurs e w -> w < t
  | Err _ => (MAX_DATE + 1) * DAY < t + 60000
  | Panic _ => False
  end.
Proof.
  intros Ht. pose proof (Z.div_mod t 60000 ltac:(lia)) as Hdm. pose proof (Z.mod_pos_bound t 60000 ltac:(lia)) as Hmod.
  assert (forall w, utc_occurs e w -> t <= w -> t mod 60000 <> 0 -> t + (60000 - t mod 60000) <= w) as Hround.
  { intros w (d & h & m & _ & _ & _ & ->) Hw Hne. unfold millis, DAY in *.
    assert (exists q, d * 86400000 + h * 3600000 + m * 60000 = q * 60000) as [q Hq] by (exists (d * 1440 + h * 60 + m); lia). lia. }
  unfold at_or_after_utc. cbv zeta. destruct (Z.eqb_spec (t mod 60000) 0) as [E|Hne].
  { pose proof (search_utc_spec e t ltac:(lia)) as Hs. destruct (search_utc e t) as [[v|]|?|?]; try done. lia. }
  unfold checked_add. destruct (Z.ltb_spec (t + (60000 - t mod 60000)) (2 ^ 64)).
  - pose proof (search_utc_spec e (t + (60000 - t mod 60000)) ltac:(lia)) as Hs. destruct (search_utc e _) as [[v|]|?|?]; try done; [| |lia].
    + destruct Hs as (Ho & Hle & Hmin). split_and!; [done|lia|]. intros w Hw Hle'. by apply Hmin, Hround.
    + intros w Hw. specialize (Hs w Hw). destruct (Z.lt_ge_cases w t) as [|Hge]; [done|]. pose proof (Hround w Hw Hge Hne). lia.
  - intros w (d & h & m & Hd & _ & Hx & ->). apply clock_elem in Hx as (Hh & Hm & _). pose proof (millis_day d h m Hh Hm). pose proof dates_fit. unfold DAY in *. lia.
Qed.
End utc.

(** ** Searching a time zone

    What the search relies on: an offset from UTC is less than a day.  And the
    calendar goes well beyond the years the search admits. *)
Class TimeZoneLaws `{Calendar} `{TimeZones} : Prop := {
  local_near tz t : local_date tz t * DAY - DAY < t < (local_date tz t + 1) * DAY + DAY;
  moment_near tz d h m v : 0 <= h < 24 -> 0 <= m < 60 -> v ∈ candidates (from_local_datetime tz d h m) ->
    millis d h m - DAY < v < millis d h m + DAY;
  dates_wide d : 1970 <= year d <= 9999 -> MIN_DATE + 3 < d < MAX_DATE - 3;
  year_10000 : year 2932897 = 10000
}.

Section zone_search.
Context {Cal : Calendar} {Laws : CalendarLaws} {Zones : TimeZones} {ZLaws : TimeZoneLaws}.

(** A moment whose local date and minute in the zone the expression selects. *)
Definition moment_on (e : CronExpression) (tz : Tz) (d w : Z) : Prop :=
  in_years 1969 d = true /\ matches_date e d = true /\
  (exists h m, (h, m) ∈ clock e /\ w ∈ candidates (from_local_datetime tz d h m)) /\ 0 <= w.

Lemma moment_day e tz d w : moment_on e tz d w -> d * DAY - DAY < w < (d + 1) * DAY + DAY.
Proof.
  intros (_ & _ & (h & m & Hx & Hw) & _). apply clock_elem in Hx as (Hh & Hm & _). pose proof (moment_near tz d h m w Hh Hm Hw).
  pose proof (millis_day d h m Hh Hm). unfold DAY in *. lia.
Qed.

(** At or after a time, or at or before it; earlier in the direction of the search. *)
Definition eligible (fw : bool) (t w : Z) : Prop := if fw then t <= w else w <= t.
Definition ahead (fw : bool) (v w : Z) : Prop := if fw then v <= w else w <= v.

(** The first of a set in the direction of the search, if there is one. *)
Definition best_of (fw : bool) (t : Z) (S : Z -> Prop) (b : option Z) : Prop :=
  match b with
  | Some v => S v /\ eligible fw t v /\ forall w, S w -> eligible fw t w -> ahead fw v w
  | None => forall w, S w -> ~ eligible fw t w
  end.

Lemma best_of_ext fw t (S S' : Z -> Prop) b : (forall w, S w <-> S' w) -> best_of fw t S b -> best_of fw t S' b.
Proof.
  intros HS. destruct b as [v|]; cbn; [|intros Hb w Hw; by apply Hb, HS].
  intros (Hv & He & Hm). split_and!; [by apply HS|done|]. intros w Hw. by apply Hm, HS.
Qed.

(** Adding what is not eligible, or behind the best, changes nothing. *)
Lemma best_of_more fw t (S T : Z -> Prop) b :
  best_of fw t S b -> (forall w, T w -> eligible fw t w -> exists v, b = Some v /\ ahead fw v w) -> best_of fw t (fun w => S w \/ T w) b.
Proof.
  intros Hb HT. destruct b as [v|]; cbn in *.
  - destruct Hb as (Hv & He & Hm). split_and!; [by left|done|]. intros w [Hw|Hw] Hw'; [by apply Hm|]. by destruct (HT w Hw Hw') as (? & [= <-] & ?).
  - intros w [Hw|Hw] Hw'; [by eapply Hb|]. by destruct (HT w Hw Hw') as (? & ? & ?).
Qed.

Lemma improve_best fw t (S : Z -> Prop) b v : best_of fw t S b -> best_of fw t (fun w => S w \/ (w = v /\ 0 <= w)) (improve fw t b v).
Proof.
  intros Hb. unfold improve. destruct (Z.ltb_spec v 0); [apply best_of_more; [done|]; intros w [-> ?]; lia|].
  assert ((if fw then t <=? v else v <=? t) = true <-> eligible fw t v) as He by (destruct fw; cbn; by rewrite Z.leb_le).
  cbv zeta. destruct (if fw then t <=? v else v <=? t).
  - cbn [andb]. assert (eligible fw t v) as Hv by by apply He. destruct b as [p|].
    + destruct Hb as (Hp & Hpe & Hm). destruct (if fw then v <? p else p <? v) eqn:E.
      * split_and!; [by right|done|]. intros w [Hw|[-> _]] Hwe; [|by destruct fw; cbn].
        specialize (Hm w Hw Hwe). destruct fw; cbn in *; apply Z.ltb_lt in E; lia.
      * apply best_of_more; [by split_and!|]. intros w [-> _] _. exists p. split; [done|]. destruct fw; cbn; apply Z.ltb_ge in E; lia.
    + split_and!; [by right|done|]. intros w [Hw|[-> _]] Hwe; [by eapply Hb in Hwe|by destruct fw; cbn].
  - cbn [andb]. apply best_of_more; [done|]. intros w [-> _] Hw. by apply He in Hw.
Qed.

Lemma foldl_improve fw t (S : Z -> Prop) b l :
  best_of fw t S b -> best_of fw t (fun w => S w \/ (w ∈ l /\ 0 <= w)) (foldl (improve fw t) b l).
Proof.
  revert S b. induction l as [|v l IH]; intros S b Hb; cbn [foldl].
  - eapply best_of_ext; [|exact Hb]. intros w. split; [by left|]. intros [?|[Hw _]]; [done|by apply not_elem_of_nil in Hw].
  - apply (improve_best fw t S b v) in Hb. apply IH in Hb. eapply best_of_ext; [|exact Hb]. intros w. cbn beta. rewrite elem_of_cons. tauto.
Qed.

Lemma search_day_best e tz t fw d (S : Z -> Prop) b :
  best_of fw t S b -> best_of fw t (fun w => S w \/ moment_on e tz d w) (search_day e tz t fw d b).
Proof.
  intros Hb. unfold search_day. destruct (in_years 1969 d && matches_date e d) eqn:Ed.
  - apply andb_true_iff in Ed as [Hy Hm].
    assert (forall l b (S : Z -> Prop), best_of fw t S b ->
      best_of fw t (fun w => S w \/ ((exists h m, (h, m) ∈ l /\ w ∈ candidates (from_local_datetime tz d h m)) /\ 0 <= w))
        (foldl (fun b hm => foldl (improve fw t) b (candidates (from_local_datetime tz d hm.1 hm.2))) b l)) as Hl.
    { induction l as [|[h m] l IH]; intros b0 S0 Hb0; cbn [foldl].
      - eapply best_of_ext; [|exact Hb0]. intros w. split; [by left|]. intros [?|[(h & m & Hx & _) _]]; [done|by apply not_elem_of_nil in Hx].
      - apply (foldl_improve fw t S0 b0 (candidates (from_local_datetime tz d h m))) in Hb0. apply IH in Hb0. eapply best_of_ext; [|exact Hb0]. intros w. cbn beta. split.
        + intros [[?|[? ?]]|[(h' & m' & Hx & Hw) ?]]; [by left|right; split; [exists h, m; split; [apply list_elem_of_here|done]|done]|].
          right. split; [exists h', m'; split; [by apply list_elem_of_further|done]|done].
        + intros [?|[(h' & m' & [[= -> ->]|Hx]%elem_of_cons & Hw) ?]]; [by left; left|by left; right|]. right. split; [by exists h', m'|done]. }
    apply (Hl (clock e)) in Hb. eapply best_of_ext; [|exact Hb]. intros w. cbn beta. unfold moment_on. tauto.
  - apply best_of_more; [done|]. intros w (Hy & Hm & _). by rewrite Hy, Hm in Ed.
Qed.

(** The dates of [n] steps from [d]. *)
Definition inside (fw : bool) (d : Z) (n : nat) (x : Z) : Prop :=
  MIN_DATE <= x <= MAX_DATE /\ if fw then d <= x < d + Z.of_nat n else d - Z.of_nat n < x <= d.

Lemma search_days_best n e tz t fw d (S : Z -> Prop) b :
  MIN_DATE <= d <= MAX_DATE -> best_of fw t S b ->
  best_of fw t (fun w => S w \/ exists x, inside fw d n x /\ moment_on e tz x w) (search_days n e tz t fw d b).
Proof.
  revert d S b. induction n as [|n IH]; intros d S b Hd Hb; cbn [search_days].
  { apply best_of_more; [done|]. intros w (x & [_ Hx] & _). destruct fw; lia. }
  cbv zeta. assert (millis d 0 0 = d * DAY) as -> by (unfold millis; lia).
  destruct (match b with Some c => _ | None => _ end) eqn:Edone.
  { apply best_of_more; [done|]. intros w (x & [_ Hx] & Hw%moment_day) _. destruct b as [c|]; [|done]. exists c. split; [done|].
    destruct fw; apply Z.ltb_lt in Edone; cbn; unfold DAY in *; lia. }
  destruct (fw && (9999 <? year d) || negb fw && (year d <? 1969)) eqn:Ey.
  { apply best_of_more; [done|]. intros w (x & [_ Hx] & (Hy & _)) _. exfalso. unfold in_years in Hy. apply andb_true_iff in Hy as [Hy1%Z.leb_le Hy2%Z.leb_le].
    destruct fw; cbn in Ey.
    - rewrite orb_false_r in Ey. apply Z.ltb_lt in Ey. pose proof (year_mono d x ltac:(lia)). lia.
    - apply Z.ltb_lt in Ey. pose proof (year_mono x d ltac:(lia)). lia. }
  apply (search_day_best e tz t fw d S b) in Hb.
  destruct (if fw then succ_opt d else pred_opt d) as [next|] eqn:En.
  - assert (MIN_DATE <= next <= MAX_DATE /\ next = if fw then d + 1 else d - 1) as [Hn ->].
    { destruct fw; [unfold succ_opt in En; destruct (Z.ltb_spec d MAX_DATE)|unfold pred_opt in En; destruct (Z.ltb_spec MIN_DATE d)]; simplify_eq; lia. }
    apply (IH _ _ _ Hn) in Hb. eapply best_of_ext; [|exact Hb]. intros w. cbn beta. split.
    + intros [[?|Hw]|(x & [Hr Hx] & Hw)]; [by left|right; exists d; split; [split; [done|destruct fw; lia]|done]|].
      right. exists x. split; [split; [done|destruct fw; lia]|done].
    + intros [?|(x & [Hr Hx] & Hw)]; [by left; left|]. destruct (decide (x = d)) as [->|Hne]; [by left; right|].
      right. exists x. split; [split; [done|destruct fw; lia]|done].
  - eapply best_of_ext; [|exact Hb]. intros w. cbn beta. split.
    + intros [?|Hw]; [by left|]. right. exists d. split; [split; [done|destruct fw; lia]|done].
    + intros [?|(x & [Hr Hx] & Hw)]; [by left|]. right. assert (x = d) as ->; [|done].
      destruct fw; [unfold succ_opt in En; destruct (Z.ltb_spec d MAX_DATE)|unfold pred_opt in En; destruct (Z.ltb_spec MIN_DATE d)]; simplify_eq; lia.
Qed.

Lemma local_inside tz t start : from_timestamp_millis t = Some start -> in_years 1970 start = true ->
  MIN_DATE + 2 < local_date tz t < MAX_DATE - 2.
Proof.
  unfold from_timestamp_millis. destruct (_ && _); [|done]. intros [= <-] Hy. unfold in_years in Hy.
  apply andb_true_iff in Hy as [Hy1%Z.leb_le Hy2%Z.leb_le]. assert (MIN_DATE + 3 < t / DAY < MAX_DATE - 3) as Hw by (apply dates_wide; lia). pose proof (local_near tz t) as Hl.
  pose proof (Z.div_mod t DAY ltac:(done)). pose proof (Z.mod_pos_bound t DAY ltac:(done)). unfold DAY in *. lia.
Qed.

Lemma pred_twice d : MIN_DATE + 2 < d -> twice pred_opt d = Some (d - 2).
Proof.
  intros Hd. unfold twice, pred_opt. rewrite (proj2 (Z.ltb_lt MIN_DATE d)) by lia. cbn [mbind option_bind].
  rewrite (proj2 (Z.ltb_lt MIN_DATE (d - 1))) by lia. f_equal. lia.
Qed.
Lemma succ_twice d : d < MAX_DATE - 2 -> twice succ_opt d = Some (d + 2).
Proof.
  intros Hd. unfold twice, succ_opt. rewrite (proj2 (Z.ltb_lt d MAX_DATE)) by lia. cbn [mbind option_bind].
  rewrite (proj2 (Z.ltb_lt (d + 1) MAX_DATE)) by lia. f_equal. lia.
Qed.

(** Within the years of the search. *)
Definition admitted (t : Z) : Prop := t < 2 ^ 63 /\ exists d, from_timestamp_millis t = Some d /\ in_years 1970 d = true.

(** C28: The search in a time zone, forwards and backwards, is exact over its horizon of
    146103 local dates: it returns the first moment, in the direction of the search,
    whose local minute is selected, whatever gaps and folds the zone has; it starts
    early enough and does not stop too early. *)
Theorem search_timezone_spec e t zone tz fw :
  parse_tz zone = Some tz -> fw && is_utc tz = false -> admitted t ->
  exists r, search_timezone e t zone fw = Ok r /\
    best_of fw t (fun w => exists d, MIN_DATE <= d <= MAX_DATE /\
      (if fw then d <= local_date tz t + 146100 else local_date tz t - 146100 <= d) /\ moment_on e tz d w) r.
Proof.
  intros Hz Hu (Ht & start & Hs & Hy). unfold search_timezone. rewrite Hz. cbn [ok_or mbind Res_bind]. rewrite (proj2 (Z.leb_gt _ _)) by done.
  rewrite Hs. cbn [ok_or mbind Res_bind]. rewrite Hy. cbn [negb]. rewrite Hu. cbv zeta. set (ld := local_date tz t). pose proof (local_inside tz t start Hs Hy) as Hl. fold ld in Hl.
  pose proof (local_near tz t) as Hn. fold ld in Hn.
  assert (exists d, (if fw then twice pred_opt ld else twice succ_opt ld) = Some d /\ MIN_DATE <= d <= MAX_DATE /\ d = if fw then ld - 2 else ld + 2) as (d & -> & Hd & Ed).
  { destruct fw; [rewrite pred_twice by lia|rewrite succ_twice by lia]; eexists; (split; [reflexivity|]); lia. }
  cbn [ok_or mbind Res_bind]. eexists. split; [reflexivity|].
  assert (best_of fw t (fun _ => False) None) as H0 by (intros w []).
  apply (search_days_best (Z.to_nat 146103) e tz t fw d _ _ Hd) in H0.
  apply (best_of_more fw t _ (fun w => exists x, MIN_DATE <= x <= MAX_DATE /\ (if fw then x < ld - 2 else ld + 2 < x) /\ moment_on e tz x w)) in H0.
  - eapply best_of_ext; [|exact H0]. intros w. cbn beta. unfold inside. rewrite Z2Nat.id by lia. split.
    + intros [[[]|(x & [Hr Hx] & Hw)]|(x & Hr & Hx & Hw)]; exists x; (split; [done|]); (split; [|done]); destruct fw; lia.
    + intros (x & Hr & Hx & Hw). assert ((if fw then x < ld - 2 else ld + 2 < x) \/ ~ (if fw then x < ld - 2 else ld + 2 < x)) as [Hc|Hc] by (destruct fw; lia); [right; by exists x|].
      left. right. exists x. split; [split; [done|]|done]. destruct fw; lia.
  - intros w (x & _ & Hx & Hw%moment_day) He. exfalso. destruct fw; cbn in He; unfold DAY in *; lia.
Qed.
End zone_search.

(** ** Batches *)

(** The first [limit] members of a set, in order, or all of them. *)
Record batch_of (limit : Z) (S : Z -> Prop) (l : list Z) : Prop := {
  ba_sorted : StronglySorted Z.lt l;
  ba_length : Z.of_nat (length l) <= limit;
  ba_sound v : v ∈ l -> S v;
  ba_complete w : S w -> w ∈ l \/ (Z.of_nat (length l) = limit /\ forall v, v ∈ l -> v < w)
}.

Lemma batch_of_ext limit (S S' : Z -> Prop) l : (forall w, S w <-> S' w) -> batch_of limit S l -> batch_of limit S' l.
Proof. intros HS [H1 H2 H3 H4]. split; [done|done|intros v Hv; by apply HS, H3|intros w Hw; by apply H4, HS]. Qed.

(** Members past a full batch, and no others, can be left out. *)
Lemma batch_of_more limit (S T : Z -> Prop) l :
  batch_of limit S l -> (forall w, T w -> Z.of_nat (length l) = limit /\ forall v, v ∈ l -> v < w) -> batch_of limit (fun w => S w \/ T w) l.
Proof. intros [H1 H2 H3 H4] HT. split; [done|done|intros v Hv; left; by apply H3|]. intros w [Hw|Hw]; [by apply H4|right; by apply HT]. Qed.

Lemma set_insert_elem v l x : x ∈ set_insert v l <-> x = v \/ x ∈ l.
Proof.
  induction l as [|y l IH]; cbn [set_insert]; [by rewrite list_elem_of_singleton, elem_of_nil; tauto|].
  destruct (v <? y); [by rewrite !elem_of_cons|]. destruct (Z.eqb_spec v y) as [->|]; rewrite ?elem_of_cons, ?IH; tauto.
Qed.

Lemma set_insert_sorted v l : StronglySorted Z.lt l -> StronglySorted Z.lt (set_insert v l).
Proof.
  induction 1 as [|y l Hs IH Hy]; cbn [set_insert]; [repeat constructor|]. destruct (Z.ltb_spec v y).
  - constructor; [by constructor|]. apply Forall_cons. split; [done|]. eapply Forall_impl; [exact Hy|]. cbn. lia.
  - destruct (Z.eqb_spec v y) as [->|Hne]; [by constructor|]. constructor; [done|]. apply Forall_forall. intros x [->|Hx]%set_insert_elem; [lia|].
    rewrite Forall_forall in Hy. by apply Hy.
Qed.

Lemma set_insert_length v l : (length (set_insert v l) = length l /\ v ∈ l) \/ length (set_insert v l) = S (length l).
Proof.
  induction l as [|y l IH]; cbn [set_insert]; [by right|]. destruct (v <? y); [by right|]. destruct (Z.eqb_spec v y) as [->|Hne]; [left; split; [done|apply list_elem_of_here]|].
  cbn [length]. destruct IH as [[-> Hv]| ->]; [left; split; [done|by apply list_elem_of_further]|by right].
Qed.

(** Dropping the last of a sorted list. *)
Lemma removelast_sorted l :
  StronglySorted Z.lt l -> l <> [] ->
  exists x, l = removelast l ++ [x] /\ StronglySorted Z.lt (removelast l) /\ forall v, v ∈ removelast l -> v < x.
Proof.
  intros Hs Hne. destruct l as [|x l _] using rev_ind; [done|]. rewrite removelast_last. exists x. split; [done|].
  apply StronglySorted_app in Hs as (Hlt & Hs & _). split; [done|]. intros v Hv. apply Hlt; [done|apply list_elem_of_here].
Qed.

Lemma collect_batch t th limit (S : Z -> Prop) l v :
  1 <= limit -> batch_of limit S l -> batch_of limit (fun w => S w \/ (w = v /\ 0 <= w /\ t <= w <= th)) (collect t th limit l v).
Proof.
  intros Hlim Hb. unfold collect. destruct (Z.ltb_spec v 0).
  { eapply batch_of_more; [done|]. intros w (-> & ? & _). lia. }
  destruct ((t <=? v) && (v <=? th)) eqn:Er.
  2: { eapply batch_of_more; [done|]. intros w (-> & _ & Hr). apply andb_false_iff in Er. rewrite !Z.leb_gt in Er. lia. }
  apply andb_true_iff in Er as [Er1%Z.leb_le Er2%Z.leb_le]. cbv zeta. destruct Hb as [H1 H2 H3 H4].
  pose proof (set_insert_sorted v l H1) as Hs. assert (forall w, S w \/ (w = v /\ 0 <= w /\ t <= w <= th) <-> S w \/ w = v) as Hset by (intros w; split; [tauto|intros [?| ->]; [by left|right; lia]]).
  assert (forall x, x ∈ set_insert v l -> S x \/ x = v) as Hsound by (intros x [->|Hx]%set_insert_elem; [by right|left; by apply H3]).
  apply (batch_of_ext limit (fun w => S w \/ w = v)); [intros w; by rewrite Hset|].
  destruct (Z.ltb_spec limit (Z.of_nat (length (set_insert v l)))).
  - destruct (set_insert_length v l) as [[El _]|El]; [lia|]. assert (Z.of_nat (length l) = limit) as Hfull by lia.
    destruct (removelast_sorted (set_insert v l) Hs) as (x & Ex & Hrs & Hlast); [intros E; rewrite E in El; done|].
    assert (Z.of_nat (length (removelast (set_insert v l))) = limit) as Hrl by (rewrite Ex, length_app in El; cbn in El; lia).
    assert (forall w, w ∈ set_insert v l -> w ∈ removelast (set_insert v l) \/ w = x) as Hsplit.
    { intros w Hw. rewrite Ex, elem_of_app, list_elem_of_singleton in Hw. tauto. }
    split; [done|lia| |].
    + intros y Hy. apply Hsound. rewrite Ex, elem_of_app. by left.
    + assert (forall w, w ∈ set_insert v l -> w ∈ removelast (set_insert v l) \/ (Z.of_nat (length (removelast (set_insert v l))) = limit /\ forall y, y ∈ removelast (set_insert v l) -> y < w)) as Hin.
      { intros w Hw. destruct (Hsplit w Hw) as [?| ->]; [by left|by right]. }
      intros w [Hw| ->]; [|apply Hin, set_insert_elem; by left]. destruct (H4 w Hw) as [Hwl|[_ Hlt]]; [apply Hin, set_insert_elem; by right|].
      right. split; [done|]. intros y Hy. assert (exists z, z ∈ l /\ y <= z) as (z & Hz & Hyz); [|pose proof (Hlt z Hz); lia].
      assert (y ∈ set_insert v l) as Hy' by (rewrite Ex, elem_of_app; by left). apply set_insert_elem in Hy' as [->|Hy']; [|by exists y].
      assert (x ∈ set_insert v l) as [->|Hx]%set_insert_elem by (rewrite Ex, elem_of_app; right; apply list_elem_of_here); [pose proof (Hlast v Hy); lia|].
      exists x. split; [done|]. pose proof (Hlast v Hy). lia.
  - split; [done|lia|done|]. intros w [Hw| ->]; [|left; apply set_insert_elem; by left]. destruct (H4 w Hw) as [Hwl|[Hfull Hlt]]; [left; apply set_insert_elem; by right|].
    destruct (set_insert_length v l) as [[El Hvl]|El]; [|lia]. right. split; [lia|]. intros y [->|Hy]%set_insert_elem; by apply Hlt.
Qed.

Section batches.
Context {Cal : Calendar} {Laws : CalendarLaws} {Zones : TimeZones} {ZLaws : TimeZoneLaws}.

Lemma foldl_collect t th limit (S : Z -> Prop) b l :
  1 <= limit -> batch_of limit S b -> batch_of limit (fun w => S w \/ (w ∈ l /\ 0 <= w /\ t <= w <= th)) (foldl (collect t th limit) b l).
Proof.
  intros Hlim. revert S b. induction l as [|v l IH]; intros S b Hb; cbn [foldl].
  - eapply batch_of_ext; [|exact Hb]. intros w. split; [by left|]. intros [?|[Hw _]]; [done|by apply not_elem_of_nil in Hw].
  - apply (collect_batch t th limit S b v Hlim) in Hb. apply IH in Hb. eapply batch_of_ext; [|exact Hb]. intros w. cbn beta. rewrite elem_of_cons. tauto.
Qed.

Lemma collect_day_batch e tz t th limit d (S : Z -> Prop) b :
  1 <= limit -> batch_of limit S b ->
  batch_of limit (fun w => S w \/ (moment_on e tz d w /\ t <= w <= th)) (collect_day e tz t th limit d b).
Proof.
  intros Hlim Hb. unfold collect_day. destruct (in_years 1969 d && matches_date e d) eqn:Ed.
  - apply andb_true_iff in Ed as [Hy Hm].
    assert (forall l b (S : Z -> Prop), batch_of limit S b ->
      batch_of limit (fun w => S w \/ ((exists h m, (h, m) ∈ l /\ w ∈ candidates (from_local_datetime tz d h m)) /\ 0 <= w /\ t <= w <= th))
        (foldl (fun b hm => foldl (collect t th limit) b (candidates (from_local_datetime tz d hm.1 hm.2))) b l)) as Hl.
    { induction l as [|[h m] l IH]; intros b0 S0 Hb0; cbn [foldl].
      - eapply batch_of_ext; [|exact Hb0]. intros w. split; [by left|]. intros [?|[(h & m & Hx & _) _]]; [done|by apply not_elem_of_nil in Hx].
      - apply (foldl_collect t th limit S0 b0 (candidates (from_local_datetime tz d h m)) Hlim) in Hb0. apply IH in Hb0. eapply batch_of_ext; [|exact Hb0]. intros w. cbn beta. split.
        + intros [[?|[? ?]]|[(h' & m' & Hx & Hw) ?]]; [by left|right; split; [exists h, m; split; [apply list_elem_of_here|done]|done]|].
          right. split; [exists h', m'; split; [by apply list_elem_of_further|done]|done].
        + intros [?|[(h' & m' & [[= -> ->]|Hx]%elem_of_cons & Hw) ?]]; [by left; left|by left; right|]. right. split; [by exists h', m'|done]. }
    apply (Hl (clock e)) in Hb. eapply batch_of_ext; [|exact Hb]. intros w. cbn beta. unfold moment_on. tauto.
  - eapply batch_of_more; [done|]. intros w [(Hy & Hm & _) _]. by rewrite Hy, Hm in Ed.
Qed.

(** A selected moment of the window. *)
Definition in_window (e : CronExpression) (tz : Tz) (t th w : Z) (P : Z -> Prop) : Prop :=
  exists d, d <= MAX_DATE /\ P d /\ moment_on e tz d w /\ t <= w <= th.

Lemma last_max l x : StronglySorted Z.lt l -> last l = Some x -> forall v, v ∈ l -> v <= x.
Proof.
  intros Hs Hx v Hv. destruct l as [|y l _] using rev_ind; [done|]. rewrite last_snoc in Hx. injection Hx as ->.
  apply StronglySorted_app in Hs as (Hlt & _ & _). rewrite elem_of_app, list_elem_of_singleton in Hv. destruct Hv as [Hv| ->]; [|lia].
  pose proof (Hlt v x Hv (list_elem_of_here _ _)). lia.
Qed.

(** From date [d], the [k]-th of the loop, with what the dates before gave. *)
Lemma batch_days_spec n k e tz t th limit d b :
  1 <= limit -> 0 <= t -> d <= MAX_DATE -> 2932897 < d + Z.of_nat n -> 0 <= k ->
  batch_of limit (fun w => in_window e tz t th w (fun x => x < d)) b ->
  let r := batch_days n k e tz t th limit d b in
  batch_of limit (fun w => in_window e tz t th w (fun _ => True)) r \/
  (r = [] /\ forall w, ~ in_window e tz t th w (fun x => x < d + (146103 - k))).
Proof.
  intros Hlim Ht. revert k d b. induction n as [|n IH]; intros k d b Hd Hfuel Hk Hb; cbn [batch_days].
  { left. eapply batch_of_ext; [|exact Hb]. intros w. split; intros (x & Hx & HP & Hw); exists x; split_and!; try done; try apply Hw.
    destruct Hw as [(Hy & _) _]. unfold in_years in Hy. apply andb_true_iff in Hy as [_ Hy%Z.leb_le]. pose proof year_10000 as Hten.
    destruct (Z.lt_ge_cases x d) as [|Hge]; [done|]. pose proof (year_mono 2932897 x ltac:(lia)). lia. }
  destruct ((146102 <? k) && bool_decide (b = [])) eqn:Ek.
  { right. apply andb_true_iff in Ek as [Ek%Z.ltb_lt Ee%bool_decide_eq_true]. subst b. split; [done|]. intros w (x & Hx & HP & Hw).
    destruct (ba_complete _ _ _ Hb w) as [Hin|[Hl _]]; [exists x; split_and!; try done; [lia|apply Hw..]|by apply not_elem_of_nil in Hin|cbn in Hl; lia]. }
  cbv zeta. assert (millis d 0 0 - 86400000 = d * DAY - DAY) as -> by (unfold millis, DAY; lia).
  destruct ((9999 <? year d) || _) eqn:Estop.
  { left. eapply batch_of_ext; [|eapply (batch_of_more _ _ (fun w => in_window e tz t th w (fun x => d <= x)) _ Hb)].
    - intros w. split.
      + intros [(x & ? & ? & ?)|(x & ? & ? & ?)]; by exists x.
      + intros (x & Hx & _ & Hw). destruct (Z.lt_ge_cases x d); [left|right]; by exists x.
    - intros w (x & Hx & Hge & Hm & Hr). pose proof (moment_day e tz x w Hm) as Hday. apply orb_true_iff in Estop as [Ey|Es].
      + exfalso. apply Z.ltb_lt in Ey. pose proof (year_mono d x Hge). destruct Hm as (Hy & _). unfold in_years in Hy. apply andb_true_iff in Hy as [_ Hy%Z.leb_le]. lia.
      + apply andb_true_iff in Es as [_ [Eth|Efull]%orb_true_iff]; [apply Z.ltb_lt in Eth; unfold DAY in *; lia|].
        apply andb_true_iff in Efull as [El%Z.eqb_eq Elast]. split; [done|]. intros v Hv. destruct (last b) as [y|] eqn:Ey; [|done]. apply Z.ltb_lt in Elast.
        pose proof (last_max b y (ba_sorted _ _ _ Hb) Ey v Hv). unfold DAY in *. lia. }
  apply (collect_day_batch e tz t th limit d _ b Hlim) in Hb.
  assert (batch_of limit (fun w => in_window e tz t th w (fun x => x < d + 1)) (collect_day e tz t th limit d b)) as Hb'.
  { eapply batch_of_ext; [|exact Hb]. intros w. cbn beta. split.
    - intros [(x & ? & ? & ?)|?]; [exists x; split_and!; done || lia || apply H1|]. exists d. split_and!; done || lia || apply H.
    - intros (x & Hx & Hlt & Hw). destruct (decide (x = d)) as [->|Hne]; [by right|]. left. exists x. split_and!; try done; [lia|apply Hw..]. }
  unfold succ_opt. destruct (Z.ltb_spec d MAX_DATE).
  - destruct (IH (k + 1) (d + 1) _ ltac:(lia) ltac:(lia) ltac:(lia) Hb') as [Hl|[Hr Hn]]; [by left|]. right. split; [done|].
    intros w (x & Hx & Hlt & Hw). apply (Hn w). exists x. split_and!; try done; [lia|apply Hw..].
  - left. eapply batch_of_ext; [|exact Hb']. intros w. cbn beta. split; intros (x & Hx & HP & Hw); exists x; split_and!; try done; try apply Hw. lia.
Qed.

(** A batch in a zone other than UTC: the first [limit] selected moments of the window,
    in order and each once; an empty batch says that no local date of the 400 years
    ahead has one. *)
Theorem bounded_occurrences_zone e t th zone tz limit :
  parse_tz zone = Some tz -> is_utc tz = false -> 1 <= limit <= 1024 -> 0 <= t -> admitted t ->
  exists r, bounded_occurrences e t th zone limit = Ok r /\
    (batch_of limit (fun w => in_window e tz t th w (fun _ => True)) r \/
     (r = [] /\ forall w, ~ in_window e tz t th w (fun x => x <= local_date tz t + 146100))).
Proof.
  intros Hz Hu Hlim Ht (Ht' & start & Hs & Hy). unfold bounded_occurrences. rewrite !(proj2 (Z.leb_le _ _)) by lia. cbn [andb negb].
  rewrite Hz. cbn [ok_or mbind Res_bind]. rewrite (proj2 (Z.leb_gt _ _)) by done. rewrite Hs. cbn [ok_or mbind Res_bind]. rewrite Hy, Hu. cbn [negb].
  pose proof (local_inside tz t start Hs Hy) as Hl. pose proof (local_near tz t) as Hn. rewrite pred_twice by lia. cbn [ok_or mbind Res_bind].
  eexists. split; [reflexivity|].
  assert (batch_of limit (fun w => in_window e tz t th w (fun x => x < local_date tz t - 2)) []) as H0.
  { split; [constructor|cbn; lia|intros v Hv; by apply not_elem_of_nil in Hv|]. intros w (x & Hx & Hlt & Hm%moment_day & Hr). unfold DAY in *. lia. }
  destruct (batch_days_spec (Z.to_nat 3000001) 0 e tz t th limit (local_date tz t - 2) [] ltac:(lia) Ht ltac:(lia)) as [Hb|[Hb He]]; [| |done|by left|].
  - rewrite Z2Nat.id by lia. unfold DAY in *. lia.
  - lia.
  - right. split; [done|]. intros w (x & Hx & Hle & Hw). apply (He w). exists x. split_and!; try done; [lia|apply Hw..].
Qed.
End batches.

Section utc_batches.
Context {Cal : Calendar} {Laws : CalendarLaws} {Zones : TimeZones} {ZLaws : TimeZoneLaws}.

(** A selected minute of UTC within the years and a window. *)
Definition utc_window (e : CronExpression) (t th w : Z) : Prop := utc_occurs e w /\ year (w / DAY) <= 9999 /\ t <= w <= th.

Lemma occurs_day e w : utc_occurs e w -> exists d, 0 <= d <= MAX_DATE /\ w / DAY = d /\ (w + 1) / DAY = d /\ d * DAY <= w < (d + 1) * DAY - 1.
Proof.
  intros (d & h & m & Hd & _ & Hx & ->). apply clock_elem in Hx as (Hh & Hm & _). pose proof (millis_day d h m Hh Hm) as Hr.
  assert (millis d h m < (d + 1) * DAY - 1) as Hlt by (unfold millis, DAY; lia). exists d. split_and!; try done; try lia; symmetry.
  - apply Z.div_unique_pos with (millis d h m - d * DAY); unfold DAY in *; lia.
  - apply Z.div_unique_pos with (millis d h m + 1 - d * DAY); unfold DAY in *; lia.
Qed.

Lemma admitted_day t : admitted t -> 1970 <= year (t / DAY) <= 9999 /\ MIN_DATE + 3 < t / DAY < MAX_DATE - 3.
Proof.
  intros (_ & d & Hs & Hy). unfold from_timestamp_millis in Hs. destruct (_ && _); [|done]. injection Hs as <-.
  unfold in_years in Hy. apply andb_true_iff in Hy as [Hy1%Z.leb_le Hy2%Z.leb_le]. split; [done|]. by apply dates_wide.
Qed.

Lemma admitted_intro t : 0 <= t -> 1970 <= year (t / DAY) <= 9999 -> admitted t.
Proof.
  intros Ht Hy. assert (MIN_DATE + 3 < t / DAY < MAX_DATE - 3) as Hw by by apply dates_wide. pose proof dates_fit.
  pose proof (Z.div_mod t DAY ltac:(done)). pose proof (Z.mod_pos_bound t DAY ltac:(done)). split; [unfold DAY in *; lia|]. exists (t / DAY).
  unfold from_timestamp_millis, in_years. by rewrite !(proj2 (Z.leb_le _ _)) by lia.
Qed.

(** The search by name in UTC: the earliest selected minute within the years. *)
Lemma named_utc_spec e t zone tz :
  parse_tz zone = Some tz -> is_utc tz = true -> 0 <= t -> admitted t ->
  exists r, at_or_after_in_timezone e t zone = Ok r /\
    match r with
    | Some v => utc_occurs e v /\ year (v / DAY) <= 9999 /\ t <= v /\ forall w, utc_occurs e w -> t <= w -> v <= w
    | None => forall w, utc_occurs e w -> t <= w -> 9999 < year (w / DAY)
    end.
Proof.
  intros Hz Hu Ht Ha. destruct (admitted_day t Ha) as [Hyear Hdates]. pose proof Ha as (Ht' & start & Hs & Hy).
  unfold at_or_after_in_timezone, search_timezone. rewrite Hz. cbn [ok_or mbind Res_bind]. rewrite (proj2 (Z.leb_gt _ _)) by done.
  rewrite Hs. cbn [ok_or mbind Res_bind]. rewrite Hy, Hu. cbn [negb andb]. pose proof dates_fit as Hfit.
  pose proof (Z.div_mod t DAY ltac:(done)) as Hdm. pose proof (Z.mod_pos_bound t DAY ltac:(done)) as Hmod.
  pose proof (at_or_after_utc_spec e t ltac:(lia)) as Hr. destruct (at_or_after_utc e t) as [[v|]|?|?]; cbn [mbind Res_bind mret Res_ret]; try done; [| |unfold DAY in *; lia].
  - destruct Hr as (Ho & Hle & Hmin). destruct (occurs_day e v Ho) as (d & Hd & Ed & _ & _). unfold from_timestamp_millis. rewrite Ed. pose proof dates_cover.
    rewrite !(proj2 (Z.leb_le _ _)) by lia. cbn [andb]. eexists. split; [reflexivity|]. destruct (Z.leb_spec (year d) 9999); [by rewrite Ed|].
    intros w Hw Htw. destruct (occurs_day e w Hw) as (d' & Hd' & Ed' & _ & Hd2). rewrite Ed'. pose proof (Hmin w Hw Htw) as Hvw.
    pose proof (year_mono (v / DAY) (w / DAY) (Z.div_le_mono v w DAY ltac:(done) Hvw)). rewrite Ed, Ed' in *. lia.
  - eexists. split; [reflexivity|]. intros w Hw Htw. pose proof (Hr w Hw). lia.
Qed.

Lemma utc_batch_spec n e t th zone tz :
  parse_tz zone = Some tz -> is_utc tz = true -> 0 <= t -> admitted t ->
  exists l, utc_batch n e t th zone = Ok l /\ batch_of (Z.of_nat n) (utc_window e t th) l.
Proof.
  intros Hz Hu. revert t. induction n as [|n IH]; intros t Ht Ha; cbn [utc_batch].
  { exists []. split; [done|]. split; [constructor|done|intros v Hv; by apply not_elem_of_nil in Hv|]. intros w _. right. split; [done|]. intros v Hv. by apply not_elem_of_nil in Hv. }
  assert (forall P : Z -> Prop, (forall w, ~ P w) -> batch_of (Z.of_nat (S n)) P []) as Hempty.
  { intros P HP. split; [constructor|cbn; lia|intros v Hv; by apply not_elem_of_nil in Hv|]. intros w Hw. by apply HP in Hw. }
  destruct (named_utc_spec e t zone tz Hz Hu Ht Ha) as (r & Hr & Hspec). rewrite Hr. cbn [mbind Res_bind]. destruct r as [v|].
  2: { exists []. split; [done|]. apply Hempty. intros w (Hw & Hy & Hle & _). specialize (Hspec w Hw Hle). lia. }
  destruct Hspec as (Ho & Hy & Hle & Hmin). destruct (Z.ltb_spec th v).
  { exists []. split; [done|]. apply Hempty. intros w (Hw & _ & Hr1 & Hr2). specialize (Hmin w Hw Hr1). lia. }
  destruct (occurs_day e v Ho) as (d & Hd & Ed & Ed1 & Hday). pose proof dates_fit as Hfit. unfold checked_add.
  rewrite (proj2 (Z.ltb_lt (v + 1) (2 ^ 64))) by (unfold DAY in *; lia). destruct (admitted_day t Ha) as [Hyear _].
  pose proof (year_mono (t / DAY) (v / DAY) (Z.div_le_mono t v DAY ltac:(done) Hle)) as Hmono.
  destruct (IH (v + 1)) as (l & Hl & [B1 B2 B3 B4]); [lia|apply admitted_intro; [lia|rewrite Ed1, <- Ed; lia]|]. rewrite Hl. exists (v :: l). split; [done|].
  assert (forall x, x ∈ l -> v + 1 <= x) as Hge by (intros x Hx; apply (B3 x Hx)).
  split.
  - constructor; [done|]. apply Forall_forall. intros x Hx. specialize (Hge x Hx). lia.
  - cbn [length]. lia.
  - intros x [->|Hx]%elem_of_cons; [split_and!; done|]. destruct (B3 x Hx) as (Hx1 & Hx2 & Hx3). split_and!; done || lia.
  - intros w (Hw & Hwy & Hr1 & Hr2). pose proof (Hmin w Hw Hr1) as Hvw. destruct (decide (w = v)) as [->|Hne]; [left; apply list_elem_of_here|].
    destruct (B4 w) as [Hin|[Hlen Hlt]]; [split_and!; done || lia|left; by apply list_elem_of_further|]. right. split; [cbn [length]; lia|].
    intros x [->|Hx]%elem_of_cons; [lia|by apply Hlt].
Qed.

(** A batch in UTC: the first [limit] selected minutes of the window up to the year
    9999, in order and each once. *)
Theorem bounded_occurrences_utc e t th zone tz limit :
  parse_tz zone = Some tz -> is_utc tz = true -> 1 <= limit <= 1024 -> 0 <= t -> admitted t ->
  exists r, bounded_occurrences e t th zone limit = Ok r /\ batch_of limit (utc_window e t th) r.
Proof.
  intros Hz Hu Hlim Ht Ha. pose proof Ha as (Ht' & start & Hs & Hy). unfold bounded_occurrences. rewrite !(proj2 (Z.leb_le _ _)) by lia. cbn [andb negb].
  rewrite Hz. cbn [ok_or mbind Res_bind]. rewrite (proj2 (Z.leb_gt _ _)) by done. rewrite Hs. cbn [ok_or mbind Res_bind]. rewrite Hy, Hu. cbn [negb].
  destruct (utc_batch_spec (Z.to_nat limit) e t th zone tz Hz Hu Ht Ha) as (l & Hl & Hb). rewrite Z2Nat.id in Hb by lia. by exists l.
Qed.
End utc_batches.

(** ** A calendar and zones

    The proleptic Gregorian calendar, from the days of a 400-year cycle that starts on
    the first of March, and two zones: UTC, and one eight hours behind it that turns its
    clock back at two o'clock on the date 20758, 2026-11-01. *)
Module Gregorian.

Definition century (doe : Z) : Z := Z.min 3 (doe / 36524).
Definition day_of_century (doe : Z) : Z := doe - 36524 * century doe.
Definition quad (doe : Z) : Z := day_of_century doe / 1461.
Definition day_of_quad (doe : Z) : Z := day_of_century doe - 1461 * quad doe.
Definition year_of_quad (doe : Z) : Z := Z.min 3 (day_of_quad doe / 365).
Definition year_of_era (doe : Z) : Z := 100 * century doe + 4 * quad doe + year_of_quad doe.
Definition day_of_year (doe : Z) : Z := day_of_quad doe - 365 * year_of_quad doe.

(** The months of a year that starts in March, of 31, 30, 31, 30 and 31 days. *)
Definition shifted_month (doy : Z) : Z := (5 * doy + 2) / 153.
Definition day_in (doy : Z) : Z := doy - (153 * shifted_month doy + 2) / 5 + 1.
Definition month_in (doy : Z) : Z := if shifted_month doy <? 10 then shifted_month doy + 3 else shifted_month doy - 9.
Definition new_year (doy : Z) : Z := if month_in doy <=? 2 then 1 else 0.
Definition year_in (doe : Z) : Z := year_of_era doe + new_year (day_of_year doe).

Definition era (d : Z) : Z := (d + 719468) / 146097.
Definition day_of_era (d : Z) : Z := (d + 719468) mod 146097.

#[global] Instance calendar : Calendar := {
  year d := era d * 400 + year_in (day_of_era d);
  month d := month_in (day_of_year (day_of_era d));
  day d := day_in (day_of_year (day_of_era d));
  num_days_from_sunday d := (d + 4) mod 7;
  MIN_DATE := -96465292;
  MAX_DATE := 95026236
}.

Definition in_month (doy : Z) : bool :=
  (1 <=? day_in doy) && (day_in doy <=? 31) && (1 <=? month_in doy) && (month_in doy <=? 12) &&
  ((doy =? 365) || (new_year doy <=? new_year (doy + 1))).

Lemma months_checked doy : 0 <= doy <= 365 -> in_month doy = true.
Proof.
  intros Hd. assert (forallb in_month (seqZ 0 366) = true) as H by (vm_compute; reflexivity). rewrite forallb_forall in H.
  apply H, list_elem_of_In, elem_of_seqZ. lia.
Qed.

(** The parts of a day of the cycle. *)
Lemma era_parts doe :
  0 <= doe < 146097 ->
  0 <= century doe <= 3 /\ 0 <= quad doe <= 24 /\ 0 <= year_of_quad doe <= 3 /\ 0 <= day_of_year doe <= 365.
Proof.
  intros Hd. unfold day_of_year, year_of_quad, day_of_quad, quad, day_of_century, century.
  assert (0 <= doe / 36524 <= 4 /\ 36524 * (doe / 36524) <= doe < 36524 * (doe / 36524) + 36524) as [Hc1 Hc2].
  { pose proof (Z.div_mod doe 36524 ltac:(lia)). pose proof (Z.mod_pos_bound doe 36524 ltac:(lia)). lia. }
  set (c := Z.min 3 (doe / 36524)). assert (0 <= c <= 3 /\ 0 <= doe - 36524 * c <= 36524) as [Hc Hr] by lia.
  generalize dependent (doe - 36524 * c). intros r Hr. clearbody c. clear doe Hd Hc1 Hc2.
  pose proof (Z.div_mod r 1461 ltac:(lia)) as H1. pose proof (Z.mod_pos_bound r 1461 ltac:(lia)) as H2.
  pose proof (Z.div_mod (r - 1461 * (r / 1461)) 365 ltac:(lia)). pose proof (Z.mod_pos_bound (r - 1461 * (r / 1461)) 365 ltac:(lia)). lia.
Qed.

(** The next day is in the same year of the cycle, or in a later one. *)
Lemma era_step doe :
  0 <= doe < 146096 ->
  year_of_era doe < year_of_era (doe + 1) \/
  (year_of_era (doe + 1) = year_of_era doe /\ day_of_year (doe + 1) = day_of_year doe + 1).
Proof.
  intros Hd. pose proof (era_parts doe ltac:(lia)) as H1. pose proof (era_parts (doe + 1) ltac:(lia)) as H2.
  assert (century doe <= century (doe + 1)) as Hc.
  { unfold century. pose proof (Z.div_le_mono doe (doe + 1) 36524 ltac:(lia) ltac:(lia)). lia. }
  destruct (Z.eq_dec (century (doe + 1)) (century doe)) as [Ec|]; [|left; unfold year_of_era; lia].
  assert (day_of_century (doe + 1) = day_of_century doe + 1) as Er by (unfold day_of_century; lia).
  assert (quad doe <= quad (doe + 1)) as Hq by (unfold quad; rewrite Er; apply Z.div_le_mono; lia).
  destruct (Z.eq_dec (quad (doe + 1)) (quad doe)) as [Eq|]; [|left; unfold year_of_era; lia].
  assert (day_of_quad (doe + 1) = day_of_quad doe + 1) as Es by (unfold day_of_quad; lia).
  assert (year_of_quad doe <= year_of_quad (doe + 1)) as Hy.
  { unfold year_of_quad. rewrite Es. pose proof (Z.div_le_mono (day_of_quad doe) (day_of_quad doe + 1) 365 ltac:(lia) ltac:(lia)). lia. }
  unfold year_of_era, day_of_year. lia.
Qed.

Lemma year_in_step doe : 0 <= doe < 146096 -> year_in doe <= year_in (doe + 1).
Proof.
  intros Hd. pose proof (era_parts doe ltac:(lia)) as (_ & _ & _ & H1). pose proof (era_parts (doe + 1) ltac:(lia)) as (_ & _ & _ & H2).
  assert (forall y, 0 <= new_year y <= 1) as Hn by (intros y; unfold new_year; destruct (_ <=? _); lia). unfold year_in.
  pose proof (Hn (day_of_year doe)). pose proof (Hn (day_of_year (doe + 1))). destruct (era_step doe Hd) as [|[E1 E2]]; [lia|].
  pose proof (months_checked _ H1) as Hm. unfold in_month in Hm. apply andb_true_iff in Hm as [_ [Hm%Z.eqb_eq|Hm%Z.leb_le]%orb_true_iff]; [lia|]. rewrite E1, E2. lia.
Qed.

Lemma doe_range d : 0 <= day_of_era d < 146097.
Proof. apply Z.mod_pos_bound. lia. Qed.

Lemma next_day d : year d <= year (d + 1).
Proof.
  cbn [year calendar]. pose proof (Z.div_mod (d + 719468) 146097 ltac:(lia)) as Hdm. pose proof (doe_range d) as Hmod. unfold era, day_of_era in *.
  set (q := (d + 719468) / 146097) in *. set (r := (d + 719468) mod 146097) in *. destruct (Z.eqb_spec r 146096) as [Er|Hne].
  - assert ((d + 1 + 719468) / 146097 = q + 1 /\ (d + 1 + 719468) mod 146097 = 0) as [-> ->].
    { split; symmetry; [apply Z.div_unique_pos with 0|apply Z.mod_unique_pos with (q + 1)]; lia. }
    rewrite Er. change (year_in 0) with 0. change (year_in 146096) with 400. lia.
  - assert ((d + 1 + 719468) / 146097 = q /\ (d + 1 + 719468) mod 146097 = r + 1) as [-> ->].
    { split; symmetry; [apply Z.div_unique_pos with (r + 1)|apply Z.mod_unique_pos with q]; lia. }
    pose proof (year_in_step r ltac:(lia)). lia.
Qed.

Lemma era_cycle d : day_of_era (d + 146097) = day_of_era d.
Proof. unfold day_of_era. replace (d + 146097 + 719468) with (d + 719468 + 1 * 146097) by lia. apply Z.mod_add. lia. Qed.

Lemma years_rise d d' : d <= d' -> year d <= year d'.
Proof.
  intros Hd. replace d' with (d + (d' - d)) by lia. assert (0 <= d' - d) as Hn by lia. revert Hn. generalize (d' - d).
  apply (natlike_ind (fun k => year d <= year (d + k))); [rewrite Z.add_0_r; lia|]. intros k _ IH. pose proof (next_day (d + k)).
  replace (d + Z.succ k) with (d + k + 1) by lia. lia.
Qed.

#[global] Instance laws : CalendarLaws.
Proof.
  assert (forall d, (1 <= day d <= 31) /\ 1 <= month d <= 12) as Hr.
  { intros d. destruct (era_parts _ (doe_range d)) as (_ & _ & _ & Hc%months_checked). unfold in_month in Hc. rewrite !andb_true_iff, !Z.leb_le in Hc. cbn [day month calendar]. tauto. }
  split.
  - intros d. apply Hr.
  - intros d. apply Hr.
  - intros d. cbn [num_days_from_sunday calendar]. pose proof (Z.mod_pos_bound (d + 4) 7 ltac:(lia)). lia.
  - intros d. cbn [day calendar]. by rewrite era_cycle.
  - intros d. cbn [month calendar]. by rewrite era_cycle.
  - intros d. cbn [num_days_from_sunday calendar]. replace (d + 146097 + 4) with (d + 4 + 20871 * 7) by lia. by rewrite Z.mod_add.
  - apply years_rise.
  - cbn. lia.
  - cbn. unfold DAY. lia.
Qed.

Definition HOUR : Z := 3600000.
Inductive Zone := Utc | West.

#[global] Instance zones : TimeZones := {
  Tz := Zone;
  parse_tz name := if bool_decide (name = str "UTC") then Some Utc else if bool_decide (name = str "West") then Some West else None;
  is_utc z := match z with Utc => true | West => false end;
  local_date z t := match z with Utc => t / DAY | West => (t - 8 * HOUR) / DAY end;
  from_local_datetime z d h m :=
    match z with
    | Utc => Single (millis d h m)
    | West =>
        if (d =? 20758) && (h =? 1) then Ambiguous (millis d h m + 7 * HOUR) (millis d h m + 8 * HOUR)
        else if (d <? 20758) || ((d =? 20758) && (h =? 0)) then Single (millis d h m + 7 * HOUR)
        else Single (millis d h m + 8 * HOUR)
    end
}.

#[global] Instance zone_laws : TimeZoneLaws.
Proof.
  split.
  - intros z t. cbn [local_date zones]. unfold HOUR, DAY. destruct z.
    + pose proof (Z.div_mod t 86400000 ltac:(lia)). pose proof (Z.mod_pos_bound t 86400000 ltac:(lia)). lia.
    + pose proof (Z.div_mod (t - 8 * 3600000) 86400000 ltac:(lia)). pose proof (Z.mod_pos_bound (t - 8 * 3600000) 86400000 ltac:(lia)). lia.
  - intros z d h m v _ _. cbn [from_local_datetime zones]. unfold HOUR, DAY. destruct z; [cbn [candidates]; rewrite list_elem_of_singleton; lia|].
    destruct (_ && _); [cbn [candidates]; rewrite elem_of_cons, list_elem_of_singleton; lia|].
    destruct (_ || _); cbn [candidates]; rewrite list_elem_of_singleton; lia.
  - intros d Hd. assert (year (-96465289) < 1970 /\ 9999 < year 95026233) as [Hlo Hhi] by (split; vm_compute; reflexivity).
    split; apply Z.lt_nge; intros Hc; apply years_rise in Hc; [change (MIN_DATE + 3) with (-96465289) in Hc|change (MAX_DATE - 3) with 95026233 in Hc]; lia.
  - vm_compute. reflexivity.
Qed.
End Gregorian.

(** ** Witnesses

    Half past one every day, and the minutes of a working week; the day 20758 is the one
    on which the zone [West] turns its clock back, so that half past one occurs twice. *)

Definition half_past_one : CronExpression := mkCron [2 ^ 30; 2; 2 ^ 32 - 2; 2 ^ 13 - 2; 2 ^ 7 - 1] true true.
Definition west : @Tz Gregorian.zones := Gregorian.West.
Definition utc : @Tz Gregorian.zones := Gregorian.Utc.
Definition work_items : list (list Item) := [[StarStep 15]; [Range 9 17]; [Star]; [Value 1; RangeStep 3 12 3]; [Range 1 5]].

Lemma parsed_masks_witness :
  exists e, from_str (str "*/15 9-17 * 1,3-12/3 1-5") = Ok e /\ length (masks e) = 5%nat /\ forall n, 0 <= n -> selected e 4 n = true -> 0 <= n <= 6.
Proof.
  destruct (from_str (str "*/15 9-17 * 1,3-12/3 1-5")) as [e|?|?] eqn:H; [|vm_compute in H; discriminate H..]. exists e.
  destruct (parsed_masks _ e H) as [Hl Hk]. split_and!; [reflexivity|exact Hl|]. exact (proj2 (Hk 4%nat 0 6 eq_refl)).
Defined.

Lemma parse_print_witness : print work_items = str "*/15 9-17 * 1,3-12/3 1-5" /\ exists e, from_str (print work_items) = Ok e /\ day_of_month_wildcard e = true.
Proof.
  split; [vm_compute; reflexivity|].
  assert (Forall2 field_ok BOUNDS work_items) as Hw by (repeat constructor; cbn; try discriminate; lia).
  destruct (proj2 (parse_print work_items Hw) ltac:(vm_compute; discriminate)) as (e & He & _ & Hd & _).
  exists e. split; [exact He|]. exact (Hd _ eq_refl).
Defined.

Lemma at_or_after_utc_spec_witness :
  at_or_after_utc half_past_one (20758 * DAY) = Ok (Some (millis 20758 1 30)) /\
  forall w, utc_occurs half_past_one w -> 20758 * DAY <= w -> millis 20758 1 30 <= w.
Proof.
  assert (at_or_after_utc half_past_one (20758 * DAY) = Ok (Some (millis 20758 1 30))) as E by (vm_compute; reflexivity).
  split; [exact E|]. pose proof (at_or_after_utc_spec half_past_one (20758 * DAY) ltac:(unfold DAY; lia)) as H. rewrite E in H. apply H.
Defined.

Lemma day_admitted : admitted (20758 * DAY).
Proof. split; [unfold DAY; lia|]. exists 20758. split; vm_compute; reflexivity. Qed.

Lemma search_timezone_spec_witness :
  search_timezone half_past_one (20758 * DAY) (str "West") false = Ok (Some (millis 20757 1 30 + 7 * Gregorian.HOUR)) /\
  exists r, search_timezone half_past_one (20758 * DAY) (str "West") true = Ok r /\
    best_of true (20758 * DAY) (fun w => exists d, MIN_DATE <= d <= MAX_DATE /\
      d <= local_date west (20758 * DAY) + 146100 /\ moment_on half_past_one west d w) r.
Proof.
  split; [vm_compute; reflexivity|].
  exact (search_timezone_spec half_past_one (20758 * DAY) (str "West") west true eq_refl eq_refl day_admitted).
Defined.

Lemma bounded_occurrences_zone_witness :
  exists r, bounded_occurrences half_past_one (20758 * DAY) (20759 * DAY) (str "West") 3 = Ok r /\
    (batch_of 3 (fun w => in_window half_past_one west (20758 * DAY) (20759 * DAY) w (fun _ => True)) r \/
     (r = [] /\ forall w, ~ in_window half_past_one west (20758 * DAY) (20759 * DAY) w
       (fun x => x <= local_date west (20758 * DAY) + 146100))).
Proof.
  apply (bounded_occurrences_zone half_past_one (20758 * DAY) (20759 * DAY) (str "West") west 3); [reflexivity|reflexivity|lia|unfold DAY; lia|exact day_admitted].
Defined.

Lemma bounded_occurrences_utc_witness :
  exists r, bounded_occurrences half_past_one (20758 * DAY) (20760 * DAY) (str "UTC") 3 = Ok r /\
    batch_of 3 (utc_window half_past_one (20758 * DAY) (20760 * DAY)) r.
Proof.
  apply (bounded_occurrences_utc half_past_one (20758 * DAY) (20760 * DAY) (str "UTC") utc 3); [reflexivity|reflexivity|lia|unfold DAY; lia|exact day_admitted].
Defined.
