(* ===== verification/NatTable.v ===== *)
(** * Address translation ([hv2-net/src/nat.rs])

    The table of guest endpoints and external ports, the allocation of ports, and the
    rewriting of packets in both directions with their checksums.  A packet is the
    buffer the caller passes; it keeps what was written before an error.  A moment is a
    number of nanoseconds. *)

From S2P Require Import Prelude.

Inductive Protocol := Tcp | Udp.

#[global] Instance Protocol_eq_dec : EqDecision Protocol.
Proof. solve_decision. Defined.
#[global] Instance Protocol_countable : Countable Protocol.
Proof.
  refine (inj_countable' (fun p => match p with Tcp => true | Udp => false end) (fun b : bool => if b then Tcp else Udp) _).
  by intros [].
Defined.

Definition from_ip_proto (byte : Z) : option Protocol :=
  match byte with 6 => Some Tcp | 17 => Some Udp | _ => None end.

(** [Ipv4Addr]: its four octets. *)
Abbreviation Ipv4Addr := (Z * Z * Z * Z)%type.
Definition octets (a : Ipv4Addr) : bytes := let '(o0, o1, o2, o3) := a in [o0; o1; o2; o3].

Record InternalEndpoint := mkEndpoint { protocol : Protocol; guest_ip : Ipv4Addr; guest_port : Z }.

#[global] Instance InternalEndpoint_eq_dec : EqDecision InternalEndpoint.
Proof. solve_decision. Defined.
#[global] Instance InternalEndpoint_countable : Countable InternalEndpoint.
Proof.
  refine (inj_countable' (fun e => (protocol e, guest_ip e, guest_port e)) (fun '(p, i, n) => mkEndpoint p i n) _).
  by intros [].
Defined.

Record PortForward := mkForward { f_protocol : Protocol; host_port : Z; f_guest_ip : Ipv4Addr; f_guest_port : Z }.
Record NatEntry := mkEntry { internal : InternalEndpoint; last_seen : Z }.
Record NatConfig := mkConfig { external_ip : Ipv4Addr; port_range : Z * Z; idle_timeout : Z }.

Definition default_config : NatConfig := mkConfig (10, 0, 2, 2) (49152, 65535) 300000000000.

Record NatStats := mkStats {
  outbound_translated : Z;
  inbound_translated : Z;
  inbound_no_mapping : Z;
  mappings_created : Z;
  mappings_aged : Z;
  rejected_unsupported : Z
}.

Inductive NatError := Unsupported | Truncated | NoMapping | PortsExhausted.
Abbreviation Nat_ := (Res NatError).

Record NatTable := mkNat {
  config : NatConfig;
  by_internal : gmap InternalEndpoint Z;
  by_external : gmap (Protocol * Z) NatEntry;
  forwards : list PortForward;
  next_port : Z;
  stats : NatStats
}.

(** [assert!] fails on a reversed range. *)
Definition nat_new (c : NatConfig) : Nat_ NatTable :=
  if (port_range c).1 <=? (port_range c).2 then Ok (mkNat c ∅ ∅ [] (port_range c).1 (mkStats 0 0 0 0 0 0))
  else Panic ExpectFailed.
Definition with_defaults : Nat_ NatTable := nat_new default_config.

Definition set_mappings (bi : gmap InternalEndpoint Z) (be : gmap (Protocol * Z) NatEntry) (t : NatTable) : NatTable :=
  mkNat (config t) bi be (forwards t) (next_port t) (stats t).
Definition set_forwards (l : list PortForward) (t : NatTable) : NatTable :=
  mkNat (config t) (by_internal t) (by_external t) l (next_port t) (stats t).
Definition set_next_port (n : Z) (t : NatTable) : NatTable :=
  mkNat (config t) (by_internal t) (by_external t) (forwards t) n (stats t).
Definition set_stats (s : NatStats) (t : NatTable) : NatTable :=
  mkNat (config t) (by_internal t) (by_external t) (forwards t) (next_port t) s.

(** The counters, [+= n] on one of them. *)
Inductive Counter := COutbound | CInbound | CNoMapping | CCreated | CAged | CRejected.
Definition counter (k : Counter) (s : NatStats) : Z :=
  match k with
  | COutbound => outbound_translated s | CInbound => inbound_translated s | CNoMapping => inbound_no_mapping s
  | CCreated => mappings_created s | CAged => mappings_aged s | CRejected => rejected_unsupported s
  end.
Definition set_count (k : Counter) (n : Z) (s : NatStats) : NatStats :=
  let '(mkStats a b c d e f) := s in
  match k with
  | COutbound => mkStats n b c d e f | CInbound => mkStats a n c d e f | CNoMapping => mkStats a b n d e f
  | CCreated => mkStats a b c n e f | CAged => mkStats a b c d n f | CRejected => mkStats a b c d e n
  end.
Definition bump (k : Counter) (n : Z) : ST NatTable NatError unit :=
  v ← st_read (fun t => add 64 (counter k (stats t)) n);
  st_modify (fun t => set_stats (set_count k v (stats t)) t).

Definition add_port_forward (rule : PortForward) (t : NatTable) : NatTable := set_forwards (forwards t ++ [rule]) t.
Definition on_port (p : Protocol) (port : Z) (r : PortForward) : bool := bool_decide (f_protocol r = p) && (host_port r =? port).
Definition remove_port_forward (p : Protocol) (port : Z) (t : NatTable) : NatTable :=
  set_forwards (List.filter (fun r => negb (on_port p port r)) (forwards t)) t.

(** ** Allocation *)

(** The scan of the range, from [offset] on. *)
Fixpoint find_port (n : nat) (offset : Z) (p : Protocol) (t : NatTable) : Nat_ Z :=
  match n with
  | O => Err PortsExhausted
  | S n' =>
      let '(lo, hi) := port_range (config t) in
      w ← sub hi lo;
      span ← add 32 w 1;
      d ← sub (next_port t) lo;
      x ← add 32 d offset;
      candidate ← add 16 lo (trunc 16 (x mod span));
      let forwarded := existsb (on_port p candidate) (forwards t) in
      if negb forwarded && bool_decide (by_external t !! (p, candidate) = None) then mret candidate
      else find_port n' (offset + 1) p t
  end.

Definition external_port_for (now : Z) (i : InternalEndpoint) : ST NatTable NatError Z :=
  known ← st_gets (fun t => by_internal t !! i);
  match known with
  | Some port => mret port
  | None =>
      range ← st_gets (fun t => port_range (config t));
      let '(lo, hi) := range in
      w ← st_lift (sub hi lo);
      span ← st_lift (add 32 w 1);
      candidate ← st_read (find_port (Z.to_nat span) 0 (protocol i));
      next ← (if candidate =? hi then mret lo else st_lift (add 16 candidate 1));
      _ ← st_modify (set_next_port next);
      _ ← st_modify (fun t => set_mappings (<[i := candidate]> (by_internal t))
                                (<[(protocol i, candidate) := mkEntry i now]> (by_external t)) t);
      _ ← bump CCreated 1;
      mret candidate
  end.

(** ** Packets *)

Definition u16_be (hi lo : Z) : Z := Z.lor (Z.shiftl hi 8) lo.
Definition to_be_bytes (z : Z) : bytes := [Z.shiftr z 8; Z.land z 255].

Definition at_byte (frame : bytes) (i : Z) : Nat_ Z :=
  match frame !! Z.to_nat i with Some b => Ok b | None => Panic IndexOutOfBounds end.

Record Ipv4HeaderView := mkView { ihl : Z; v_protocol : Z; src : Ipv4Addr }.

Definition parse (frame : bytes) : Nat_ Ipv4HeaderView :=
  let len := Z.of_nat (length frame) in
  if len <? 20 then Err Truncated
  else
    b0 ← at_byte frame 0;
    let version := Z.shiftr b0 4 in
    h ← mul 8 (Z.land b0 0x0F) 4;
    if negb (version =? 4) || negb (h =? 20) then Err Unsupported
    else
      b6 ← at_byte frame 6;
      b7 ← at_byte frame 7;
      let flags_frag := u16_be b6 b7 in
      if has flags_frag 0x2000 || negb (Z.land flags_frag 0x1FFF =? 0) then Err Unsupported
      else if len <? h + 4 then Err Truncated
      else
        p ← at_byte frame 9;
        a ← at_byte frame 12;
        b ← at_byte frame 13;
        c ← at_byte frame 14;
        d ← at_byte frame 15;
        mret (mkView h p (a, b, c, d)).

(** [get(offset..offset + 2)]. *)
Definition read_u16 (frame : bytes) (offset : Z) : Nat_ Z :=
  match slice_ck (E := NatError) frame offset 2 with
  | Ok [a; b] => Ok (u16_be a b)
  | _ => Err Truncated
  end.

Definition write_u16 (offset value : Z) : ST bytes NatError unit := fun frame =>
  match splice_ck (E := NatError) frame offset (to_be_bytes value) with
  | Ok f => (Ok tt, f)
  | _ => (Err Truncated, frame)
  end.

(** [frame\[off..off + d.len()\].copy_from_slice(d)]. *)
Definition put (offset : Z) (d : bytes) : ST bytes NatError unit := fun frame =>
  match splice_ck (E := NatError) frame offset d with
  | Ok f => (Ok tt, f)
  | Err e => (Err e, frame)
  | Panic p => (Panic p, frame)
  end.
Definition write_ipv4_addr (offset : Z) (a : Ipv4Addr) : ST bytes NatError unit := put offset (octets a).

(** *** Checksums *)

(** The sum of the words, an odd byte at the end being the high half of one. *)
Fixpoint sum_words (sum : Z) (data : bytes) : Nat_ Z :=
  match data with
  | [] => mret sum
  | [last] => add 32 sum (Z.shiftl last 8)
  | a :: b :: data' => s ← add 32 sum (u16_be a b); sum_words s data'
  end.

Fixpoint fold_carries (fuel : nat) (sum : Z) : Nat_ Z :=
  if Z.shiftr sum 16 =? 0 then mret sum
  else match fuel with
       | O => Panic FuelExhausted
       | S fuel' => s ← add 32 (Z.land sum 0xFFFF) (Z.shiftr sum 16); fold_carries fuel' s
       end.

Definition internet_checksum (data : bytes) : Nat_ Z :=
  s ← sum_words 0 data;
  f ← fold_carries 2 s;
  mret (bnot 16 (trunc 16 f)).

Definition transport_checksum (frame : bytes) (ihl l4_len proto : Z) : Nat_ Z :=
  s ← slice_ck frame 12 4;
  d ← slice_ck frame 16 4;
  body ← slice_ck frame ihl l4_len;
  internet_checksum (s ++ d ++ [0; proto] ++ to_be_bytes (trunc 16 l4_len) ++ body).

(** The field at [field] of the segment: zeroed, computed, written. *)
Definition segment_checksum (ihl l4_len proto field : Z) : ST bytes NatError unit :=
  _ ← put (ihl + field) [0];
  _ ← put (ihl + field + 1) [0];
  csum ← st_read (fun f => transport_checksum f ihl l4_len proto);
  put (ihl + field) (to_be_bytes csum).

Definition recompute_checksums (p : Protocol) (ihl : Z) : ST bytes NatError unit :=
  _ ← put 10 [0];
  _ ← put 11 [0];
  ip_csum ← st_read (fun f => h ← slice_ck f 0 ihl; internet_checksum h);
  _ ← put 10 (to_be_bytes ip_csum);
  total_len ← st_read (fun f => read_u16 f 2);
  len ← st_gets (fun f : bytes => Z.of_nat (length f));
  if (len <? total_len) || (total_len <? ihl) then st_lift (Err Truncated)
  else
    l4_len ← st_lift (sub total_len ihl);
    match p with
    | Udp =>
        if l4_len <? 8 then st_lift (Err Truncated)
        else
          existing ← st_read (fun f => read_u16 f (ihl + 6));
          if existing =? 0 then mret tt else segment_checksum ihl l4_len 17 6
    | Tcp => if l4_len <? 20 then st_lift (Err Truncated) else segment_checksum ihl l4_len 6 16
    end.

(** *** Translation: the table and the packet *)

Definition supported (h : Ipv4HeaderView) : ST (NatTable * bytes) NatError Protocol :=
  match from_ip_proto (v_protocol h) with
  | Some p => mret p
  | None => _ ← st_fst (bump CRejected 1); st_lift (Err Unsupported)
  end.

Definition touch (now : Z) (k : Protocol * Z) (t : NatTable) : NatTable :=
  set_mappings (by_internal t) (alter (fun e => mkEntry (internal e) now) k (by_external t)) t.

Definition translate_outbound (now : Z) : ST (NatTable * bytes) NatError unit :=
  hdr ← st_snd (st_read parse);
  p ← supported hdr;
  gp ← st_snd (st_read (fun f => read_u16 f (ihl hdr)));
  port ← st_fst (external_port_for now (mkEndpoint p (src hdr) gp));
  ext ← st_fst (st_gets (fun t => external_ip (config t)));
  _ ← st_snd (write_ipv4_addr 12 ext);
  _ ← st_snd (write_u16 (ihl hdr) port);
  _ ← st_snd (recompute_checksums p (ihl hdr));
  _ ← st_fst (st_modify (touch now (p, port)));
  st_fst (bump COutbound 1).

(** The guest endpoint a packet to [port] is for. *)
Definition inbound_target (now : Z) (p : Protocol) (port : Z) : ST NatTable NatError (Ipv4Addr * Z) :=
  fwd ← st_gets (fun t => List.find (on_port p port) (forwards t));
  match fwd with
  | Some r => mret (f_guest_ip r, f_guest_port r)
  | None =>
      e ← st_gets (fun t => by_external t !! (p, port));
      match e with
      | Some e => _ ← st_modify (touch now (p, port)); mret (guest_ip (internal e), guest_port (internal e))
      | None => _ ← bump CNoMapping 1; st_lift (Err NoMapping)
      end
  end.

Definition translate_inbound (now : Z) : ST (NatTable * bytes) NatError unit :=
  hdr ← st_snd (st_read parse);
  p ← supported hdr;
  dst ← st_snd (st_read (fun f => read_u16 f (ihl hdr + 2)));
  target ← st_fst (inbound_target now p dst);
  _ ← st_snd (write_ipv4_addr 16 target.1);
  _ ← st_snd (write_u16 (ihl hdr + 2) target.2);
  _ ← st_snd (recompute_checksums p (ihl hdr));
  st_fst (bump CInbound 1).

(** [retain] on both maps. *)
Definition age_entries (now : Z) : ST NatTable NatError Z :=
  before ← st_gets (fun t => Z.of_nat (size (by_external t)));
  _ ← st_modify (fun t =>
        set_mappings (by_internal t)
          (filter (fun kv => saturating_sub now (last_seen kv.2) < idle_timeout (config t)) (by_external t)) t);
  _ ← st_modify (fun t =>
        set_mappings (filter (fun kv => is_Some (by_external t !! (protocol kv.1, kv.2))) (by_internal t)) (by_external t) t);
  aged ← st_read (fun t => sub before (Z.of_nat (size (by_external t))));
  _ ← bump CAged aged;
  mret aged.

Definition mapping_count (t : NatTable) : Z := Z.of_nat (size (by_external t)).

(** ** Checksums *)

Lemma u16_be_eq a b : is_byte a -> is_byte b -> u16_be a b = 256 * a + b.
Proof. apply be16_eq. Qed.

Lemma to_be_bytes_eq z : to_be_bytes z = [z / 256; z mod 256].
Proof. unfold to_be_bytes. rewrite Z.shiftr_div_pow2 by lia. change 255 with (Z.ones 8). by rewrite Z.land_ones by lia. Qed.

Lemma to_be_bytes_byte z : fits 16 z -> Forall is_byte (to_be_bytes z).
Proof.
  intros [H0 H1]. rewrite to_be_bytes_eq. repeat constructor; try apply Z.mod_pos_bound; try lia; [by apply Z.div_pos|by apply Z.div_lt_upper_bound].
Qed.

Lemma u16_be_to_be z : fits 16 z -> u16_be (z / 256) (z mod 256) = z.
Proof.
  intros Hz. pose proof (to_be_bytes_byte z Hz) as Hb. rewrite to_be_bytes_eq in Hb. inversion_clear Hb as [|?? Ha Hb']. inversion_clear Hb'.
  rewrite u16_be_eq by done. pose proof (Z.div_mod z 256 ltac:(lia)). lia.
Qed.

(** The sum of the words without overflow, and its ones'-complement residue. *)
Fixpoint words_sum (data : bytes) : Z :=
  match data with
  | [] => 0
  | [last] => 256 * last
  | a :: b :: data' => 256 * a + b + words_sum data'
  end.
Definition residue (s : Z) : Z := if s =? 0 then 0 else (s - 1) mod 65535 + 1.

Lemma pair_ind (P : bytes -> Prop) :
  P [] -> (forall a, P [a]) -> (forall a b l, P l -> P (a :: b :: l)) -> forall l, P l.
Proof.
  intros H0 H1 H2 l. assert (P l /\ forall a, P (a :: l)) as [? _]; [|done]. induction l as [|b l [IH IHc]]; [done|]. split; [apply IHc|]. intros a. by apply H2.
Qed.

Lemma words_sum_bound data : Forall is_byte data -> 0 <= words_sum data /\ 2 * words_sum data <= 65535 * (Z.of_nat (length data) + 1).
Proof.
  induction data as [|a|a b l IH] using pair_ind; intros Hb; cbn [words_sum length]; [lia| |].
  - inversion_clear Hb. unfold is_byte in *. lia.
  - inversion_clear Hb as [|?? Ha Hb']. inversion_clear Hb' as [|?? Hb Hl]. specialize (IH Hl). unfold is_byte in *. lia.
Qed.

Lemma sum_words_ok data s : Forall is_byte data -> s + words_sum data < 2 ^ 32 -> sum_words s data = Ok (s + words_sum data).
Proof.
  revert s. induction data as [|a|a b l IH] using pair_ind; intros s Hb Hs; cbn [words_sum sum_words] in *.
  - by rewrite Z.add_0_r.
  - rewrite Z.shiftl_mul_pow2 by lia. change (2 ^ 8) with 256. rewrite (Z.mul_comm a). by apply add_ok.
  - inversion_clear Hb as [|?? Ha Hb']. inversion_clear Hb' as [|?? Hb Hl]. pose proof (words_sum_bound l Hl). rewrite u16_be_eq by done.
    rewrite add_ok by lia. cbn [mbind Res_bind]. rewrite IH by (done || lia). f_equal. lia.
Qed.

Lemma residue_small s : 0 <= s < 65536 -> residue s = s.
Proof. intros Hs. unfold residue. destruct (Z.eqb_spec s 0); [done|]. rewrite Z.mod_small by lia. lia. Qed.

Lemma residue_cong s k : 0 < s -> 0 < s + 65535 * k -> residue (s + 65535 * k) = residue s.
Proof.
  intros H1 H2. unfold residue. rewrite !(proj2 (Z.eqb_neq _ _)) by lia. replace (s + 65535 * k - 1) with (s - 1 + k * 65535) by lia. by rewrite Z.mod_add.
Qed.

Lemma residue_range s : 0 <= s -> 0 <= residue s < 65536 /\ (s = 0 <-> residue s = 0).
Proof. intros Hs. unfold residue. destruct (Z.eqb_spec s 0); [lia|]. pose proof (Z.mod_pos_bound (s - 1) 65535). lia. Qed.

Lemma carry_step s : 0 <= s -> Z.land s 0xFFFF + Z.shiftr s 16 = s + 65535 * - (s / 65536).
Proof.
  intros Hs. change (Z.land s 0xFFFF) with (Z.land s (Z.ones 16)). rewrite Z.land_ones, Z.shiftr_div_pow2 by lia. change (2 ^ 16) with 65536.
  pose proof (Z.div_mod s 65536 ltac:(lia)). lia.
Qed.

Lemma fold_carries_ok s : 0 <= s < 2 ^ 32 -> fold_carries 2 s = Ok (residue s).
Proof.
  assert (forall n s, 0 <= s < 65536 -> fold_carries n s = Ok (residue s)) as Hsmall.
  { intros n x Hx. rewrite residue_small by done. assert ((Z.shiftr x 16 =? 0) = true) as E by (rewrite Z.shiftr_div_pow2, Z.div_small by lia; done).
    destruct n; cbn [fold_carries]; by rewrite E. }
  assert (forall n s b, 65536 <= s < 65536 * b -> 0 < b <= 65536 ->
            fold_carries (S n) s = fold_carries n (s + 65535 * - (s / 65536)) /\
            (0 < s + 65535 * - (s / 65536) < 65535 + b /\ s + 65535 * - (s / 65536) <= s - 65535) /\ residue (s + 65535 * - (s / 65536)) = residue s) as Hstep.
  { intros n x b Hx Hb. assert (1 <= x / 65536 < b) as Hq by (split; [apply Z.div_le_lower_bound|apply Z.div_lt_upper_bound]; lia).
    pose proof (Z.div_mod x 65536 ltac:(lia)). pose proof (Z.mod_pos_bound x 65536 ltac:(lia)). split_and!; [|lia|lia|lia|apply residue_cong; lia].
    cbn [fold_carries]. assert ((Z.shiftr x 16 =? 0) = false) as -> by (rewrite Z.shiftr_div_pow2 by lia; change (2 ^ 16) with 65536; apply Z.eqb_neq; lia).
    pose proof (carry_step x ltac:(lia)) as E. rewrite add_ok by lia. cbn [mbind Res_bind]. by rewrite E. }
  intros Hs. destruct (Z.lt_ge_cases s 65536); [by apply Hsmall; lia|].
  destruct (Hstep 1%nat s 65536 ltac:(lia) ltac:(lia)) as (-> & Hr & <-). set (s1 := s + 65535 * - (s / 65536)) in *.
  destruct (Z.lt_ge_cases s1 65536); [by apply Hsmall; lia|].
  destruct (Hstep 0%nat s1 2 ltac:(lia) ltac:(lia)) as (-> & Hr1 & <-). apply Hsmall. lia.
Qed.

(** The checksum of at most 65547 bytes, a pseudo-header and a segment. *)
Lemma internet_checksum_ok data :
  Forall is_byte data -> Z.of_nat (length data) <= 65548 -> internet_checksum data = Ok (65535 - residue (words_sum data)).
Proof.
  intros Hb Hl. pose proof (words_sum_bound data Hb). unfold internet_checksum. rewrite sum_words_ok by (done || lia). cbn [mbind Res_bind].
  rewrite fold_carries_ok by lia. cbn [mbind Res_bind]. rewrite Z.add_0_l. pose proof (residue_range (words_sum data) ltac:(lia)).
  unfold mret, Res_ret, bnot, trunc. rewrite Z.mod_small by lia. done.
Qed.

Lemma words_sum_app l k : Nat.Even (length l) -> words_sum (l ++ k) = words_sum l + words_sum k.
Proof.
  induction l as [|a|a b l IH] using pair_ind; intros He; cbn [app words_sum length] in *; [done| |].
  - destruct He as [n Hn]. lia.
  - rewrite IH; [lia|]. destruct He as [[|n] Hn]; [lia|]. exists n. lia.
Qed.

(** A checksum makes the data that contains it add up to zero. *)
Lemma checksum_verifies pre post :
  Forall is_byte pre -> Forall is_byte post -> Nat.Even (length pre) -> Z.of_nat (length pre) + Z.of_nat (length post) <= 65546 ->
  exists c, internet_checksum (pre ++ [0; 0] ++ post) = Ok c /\ fits 16 c /\ internet_checksum (pre ++ to_be_bytes c ++ post) = Ok 0.
Proof.
  intros Hpre Hpost He Hl. assert (Forall is_byte (pre ++ [0; 0] ++ post)) as Hb.
  { rewrite !Forall_app. split_and!; [done|repeat constructor; lia|done]. }
  pose proof (words_sum_bound _ Hb) as [Hs _]. pose proof (residue_range _ Hs) as [Hr Hz]. eexists. split; [apply internet_checksum_ok; [done|rewrite !length_app; cbn; lia]|].
  set (s := words_sum (pre ++ [0; 0] ++ post)) in *. set (c := 65535 - residue s). assert (fits 16 c) as Hc by (unfold c; split; lia). split; [done|].
  assert (words_sum (pre ++ to_be_bytes c ++ post) = s + c) as E.
  { clearbody c. unfold s. rewrite (words_sum_app pre (to_be_bytes c ++ post)), (words_sum_app pre ([0; 0] ++ post)) by done.
    rewrite to_be_bytes_eq. cbn [app words_sum]. pose proof (Z.div_mod c 256 ltac:(lia)). lia. }
  rewrite internet_checksum_ok.
  - rewrite E. do 2 f_equal. destruct (Z.eq_dec s 0) as [Es|].
    + unfold c. rewrite Es. done.
    + assert (residue (s + c) = 65535) as ->; [|done]. unfold c, residue. rewrite (proj2 (Z.eqb_neq s 0)) by done.
      pose proof (Z.mod_pos_bound (s - 1) 65535 ltac:(lia)). pose proof (Z.div_mod (s - 1) 65535 ltac:(lia)). rewrite (proj2 (Z.eqb_neq _ 0)) by lia.
      replace (s + (65535 - ((s - 1) mod 65535 + 1)) - 1) with (65534 + ((s - 1) / 65535) * 65535) by lia. by rewrite Z.mod_add.
  - rewrite !Forall_app. split_and!; [done|by apply to_be_bytes_byte|done].
  - rewrite to_be_bytes_eq, !length_app. cbn. lia.
Qed.

(** ** Packets *)

Definition field16 (f : bytes) (off : Z) : Z := 256 * f !!! Z.to_nat off + f !!! Z.to_nat (off + 1).

Definition min_l4 (p : Protocol) : Z := match p with Tcp => 20 | Udp => 8 end.
Definition proto_byte (p : Protocol) : Z := match p with Tcp => 6 | Udp => 17 end.
(** Where the checksum of the segment is in the packet. *)
Definition checksum_off (p : Protocol) : Z := match p with Tcp => 36 | Udp => 26 end.

(** A buffer that holds the whole of its packet. *)
Definition packet_ok (p : Protocol) (f : bytes) : Prop :=
  Forall is_byte f /\ 20 + min_l4 p <= field16 f 2 <= Z.of_nat (length f).

(** The checksums as a receiver verifies them. *)
Definition header_valid (f : bytes) : Prop := internet_checksum (slice f 0 20) = Ok 0.
Definition segment_valid (p : Protocol) (f : bytes) : Prop := transport_checksum f 20 (field16 f 2 - 20) (proto_byte p) = Ok 0.

Lemma lookup_field f (i : Z) : Forall is_byte f -> 0 <= i < Z.of_nat (length f) -> f !! Z.to_nat i = Some (f !!! Z.to_nat i) /\ is_byte (f !!! Z.to_nat i).
Proof.
  intros Hb Hi. destruct (lookup_lt_is_Some_2 f (Z.to_nat i)) as [x Hx]; [lia|]. rewrite (list_lookup_total_correct _ _ _ Hx). split; [done|].
  by apply (Forall_lookup_1 _ _ _ _ Hb Hx).
Qed.

Lemma slice_pair f off :
  Forall is_byte f -> 0 <= off -> off + 2 <= Z.of_nat (length f) -> slice f off 2 = [f !!! Z.to_nat off; f !!! Z.to_nat (off + 1)].
Proof.
  intros Hb Ho Hl. destruct (lookup_field f off Hb) as [H0 _]; [lia|]. destruct (lookup_field f (off + 1) Hb) as [H1 _]; [lia|].
  apply list_eq. intros [|[|i]]; rewrite lookup_slice; cbn.
  - by rewrite Nat.add_0_r.
  - rewrite <- H1. f_equal. lia.
  - by rewrite bool_decide_false by lia.
Qed.

Lemma read_u16_ok f off :
  Forall is_byte f -> 0 <= off -> off + 2 <= Z.of_nat (length f) -> read_u16 f off = Ok (field16 f off) /\ fits 16 (field16 f off).
Proof.
  intros Hb Ho Hl. destruct (lookup_field f off Hb) as [_ H0]; [lia|]. destruct (lookup_field f (off + 1) Hb) as [_ H1]; [lia|].
  unfold read_u16, field16, fits. rewrite slice_ck_ok, slice_pair by (done || lia). rewrite u16_be_eq by done. unfold is_byte in *. split; [done|]. lia.
Qed.

Lemma read_u16_short f off : Z.of_nat (length f) < off + 2 -> read_u16 f off = Err Truncated.
Proof.
  intros Hl. unfold read_u16, slice_ck. destruct (_ && _) eqn:E; [|done]. apply andb_true_iff in E as [_ E%Z.leb_le]. lia.
Qed.

Lemma put_ok off d f : 0 <= off -> off + Z.of_nat (length d) <= Z.of_nat (length f) -> put off d f = (Ok tt, splice f off d).
Proof. intros. unfold put, splice_ck. by rewrite !(proj2 (Z.leb_le _ _)) by lia. Qed.

Lemma splice_bytes f off d : Forall is_byte f -> Forall is_byte d -> Forall is_byte (splice f off d).
Proof. intros Hf Hd. unfold splice. rewrite !Forall_app. split_and!; [by apply Forall_take|done|by apply Forall_drop]. Qed.

Lemma splice_over {A} (f d e : list A) off :
  0 <= off -> off + Z.of_nat (length d) <= Z.of_nat (length f) -> length e = length d -> splice (splice f off d) off e = splice f off e.
Proof.
  intros Ho Hl He. apply list_eq. intros i. rewrite !lookup_splice by (rewrite ?length_splice; lia). case_bool_decide; [done|]. by rewrite bool_decide_false by lia.
Qed.

Lemma field16_splice f off d off' :
  0 <= off -> off + Z.of_nat (length d) <= Z.of_nat (length f) -> 0 <= off' -> off' + 2 <= off \/ off + Z.of_nat (length d) <= off' ->
  field16 (splice f off d) off' = field16 f off'.
Proof.
  intros. unfold field16. by rewrite !list_lookup_total_alt, !lookup_splice, !bool_decide_false by lia.
Qed.

Lemma field16_put f off v :
  0 <= off -> off + 2 <= Z.of_nat (length f) -> field16 (splice f off (to_be_bytes v)) off = v.
Proof.
  intros Ho Hl. unfold field16. rewrite to_be_bytes_eq, !list_lookup_total_alt, !lookup_splice, !bool_decide_true by (cbn; lia).
  rewrite Nat.sub_diag. replace (Z.to_nat (off + 1) - Z.to_nat off)%nat with 1%nat by lia. cbn. pose proof (Z.div_mod v 256 ltac:(lia)). lia.
Qed.

Lemma slice_bytes (f : bytes) a n : Forall is_byte f -> Forall is_byte (slice f a n).
Proof. intros. by apply Forall_take, Forall_drop. Qed.

(** A slice around a field. *)
Lemma slice_around {A} (f d : list A) off a n :
  0 <= a <= off -> off + Z.of_nat (length d) <= a + n -> a + n <= Z.of_nat (length f) ->
  slice (splice f off d) a n = slice f a (off - a) ++ d ++ slice f (off + Z.of_nat (length d)) (a + n - off - Z.of_nat (length d)).
Proof.
  intros Ha Ho Hl. replace n with ((off - a) + (Z.of_nat (length d) + (a + n - off - Z.of_nat (length d)))) at 1 by lia.
  rewrite slice_app, slice_app by lia. replace (a + (off - a)) with off by lia. rewrite slice_splice_same by lia.
  rewrite !slice_splice_disjoint by lia. done.
Qed.

(** Computing the checksum at [off] over [pre] and the [n] bytes from [a]. *)
Lemma fill_checksum f pre off a n :
  Forall is_byte f -> Forall is_byte pre -> Nat.Even (length pre) -> 0 <= a <= off -> Z.Even (off - a) ->
  off + 2 <= a + n -> a + n <= Z.of_nat (length f) -> Z.of_nat (length pre) + n <= 65548 ->
  exists c, internet_checksum (pre ++ slice (splice f off [0; 0]) a n) = Ok c /\ fits 16 c /\
    internet_checksum (pre ++ slice (splice f off (to_be_bytes c)) a n) = Ok 0.
Proof.
  intros Hb Hp He Ha Hev Hn Hl Hlen. destruct (checksum_verifies (pre ++ slice f a (off - a)) (slice f (off + 2) (a + n - off - 2))) as (c & H1 & H2 & H3).
  - rewrite Forall_app. split; [done|by apply slice_bytes].
  - by apply slice_bytes.
  - rewrite length_app. destruct He as [k Hk], Hev as [j Hj]. exists (k + Z.to_nat j)%nat. pose proof (length_slice f a (off - a)). lia.
  - rewrite length_app. pose proof (length_slice f a (off - a)). pose proof (length_slice f (off + 2) (a + n - off - 2)). lia.
  - exists c. rewrite <- !app_assoc in *. rewrite !slice_around by (rewrite ?to_be_bytes_eq; cbn; lia). split_and!; [exact H1|done|]. rewrite to_be_bytes_eq in H3 |- *. exact H3.
Qed.

Lemma zero_field {B} off (k : unit -> ST bytes NatError B) f :
  0 <= off -> off + 2 <= Z.of_nat (length f) ->
  (_ ← put off [0]; put (off + 1) [0] ≫= k) f = k tt (splice f off [0; 0]).
Proof.
  intros Ho Hl. rewrite st_bind_eq, put_ok by (cbn; lia). rewrite st_bind_eq, put_ok by (rewrite ?length_splice; cbn; lia).
  change (off + 1) with (off + Z.of_nat (length [0])). by rewrite (splice_app f [0] [0] off) by (cbn; lia).
Qed.

(** The pseudo-header. *)
Definition pseudo (p : Protocol) (f : bytes) (l4 : Z) : bytes :=
  slice f 12 4 ++ slice f 16 4 ++ [0; proto_byte p] ++ to_be_bytes (trunc 16 l4).

Lemma pseudo_ok p f l4 : Forall is_byte f -> 20 <= Z.of_nat (length f) -> Forall is_byte (pseudo p f l4) /\ length (pseudo p f l4) = 12%nat.
Proof.
  intros Hb Hl. unfold pseudo. split.
  - rewrite !Forall_app. split_and!; try by apply slice_bytes.
    + destruct p; repeat constructor; cbn; lia.
    + apply to_be_bytes_byte. apply Z.mod_pos_bound. lia.
  - rewrite !length_app, to_be_bytes_eq. pose proof (length_slice f 12 4). pose proof (length_slice f 16 4). cbn. lia.
Qed.

Lemma transport_checksum_eq p f l4 :
  20 <= Z.of_nat (length f) -> 0 <= l4 -> 20 + l4 <= Z.of_nat (length f) ->
  transport_checksum f 20 l4 (proto_byte p) = internet_checksum (pseudo p f l4 ++ slice f 20 l4).
Proof.
  intros Hl H0 H1. unfold transport_checksum, pseudo. rewrite !slice_ck_ok by lia. cbn [mbind Res_bind]. by rewrite <- !app_assoc.
Qed.

Lemma pseudo_splice p f off d l4 :
  20 <= off -> off + Z.of_nat (length d) <= Z.of_nat (length f) -> pseudo p (splice f off d) l4 = pseudo p f l4.
Proof. intros. unfold pseudo. by rewrite !slice_splice_disjoint by lia. Qed.

Lemma packet_bounds p f : packet_ok p f ->
  28 <= field16 f 2 < 65536 /\ field16 f 2 <= Z.of_nat (length f) /\ 26 <= checksum_off p /\ checksum_off p + 2 <= field16 f 2.
Proof.
  intros [Hb Hl]. assert (28 <= Z.of_nat (length f)) as H28 by (destruct p; cbn in *; lia).
  destruct (read_u16_ok f 2 Hb) as [_ [_ Hf]]; [lia..|]. destruct p; cbn in *; lia.
Qed.

Lemma segment_checksum_ok p f :
  packet_ok p f ->
  exists c, segment_checksum 20 (field16 f 2 - 20) (proto_byte p) (checksum_off p - 20) f = (Ok tt, splice f (checksum_off p) (to_be_bytes c)) /\
    fits 16 c /\ segment_valid p (splice f (checksum_off p) (to_be_bytes c)).
Proof.
  intros Hp. destruct (packet_bounds p f Hp) as (Ht & Hl & Ho & Ho2). destruct Hp as [Hb _]. set (o := checksum_off p) in *. set (l4 := field16 f 2 - 20) in *.
  destruct (pseudo_ok p f l4 Hb) as [Hps Hpl]; [lia|].
  destruct (fill_checksum f (pseudo p f l4) o 20 l4) as (c & H1 & H2 & H3); try done; try lia.
  { rewrite Hpl. by exists 6%nat. }
  { destruct p; [exists 8|exists 3]; done. }
  exists c. unfold segment_checksum. replace (20 + (o - 20)) with o by lia. rewrite zero_field by lia. rewrite st_bind_read.
  rewrite transport_checksum_eq by (rewrite ?length_splice; cbn; lia). rewrite pseudo_splice by (cbn; lia). rewrite H1.
  rewrite put_ok by (rewrite ?length_splice, ?to_be_bytes_eq; cbn; lia). rewrite splice_over by (rewrite ?to_be_bytes_eq; cbn; lia). split_and!; [done|done|].
  unfold segment_valid. rewrite field16_splice by (rewrite ?to_be_bytes_eq; cbn; lia). fold l4.
  rewrite transport_checksum_eq by (rewrite ?length_splice, ?to_be_bytes_eq; rewrite ?to_be_bytes_eq; cbn; lia). rewrite pseudo_splice by (rewrite ?to_be_bytes_eq; cbn; lia). done.
Qed.

Definition is_field (p : Protocol) (i : nat) : Prop := (i = 10 \/ i = 11)%nat \/ (Z.of_nat i = checksum_off p \/ Z.of_nat i = checksum_off p + 1).

(** What rewriting the checksums of a whole packet does: it changes only the two
    fields, and a receiver finds both right; a datagram without a checksum stays so. *)
Record checksums_of (p : Protocol) (f f' : bytes) : Prop := {
  ck_bytes : Forall is_byte f';
  ck_length : length f' = length f;
  ck_rest i : ~ is_field p i -> f' !! i = f !! i;
  ck_header : header_valid f';
  ck_segment : segment_valid p f' \/ (p = Udp /\ field16 f 26 = 0 /\ field16 f' 26 = 0)
}.

Lemma header_checksum_ok f :
  Forall is_byte f -> 20 <= Z.of_nat (length f) ->
  exists c, fits 16 c /\ header_valid (splice f 10 (to_be_bytes c)) /\
    forall B (k : unit -> ST bytes NatError B),
      (_ ← put 10 [0]; _ ← put 11 [0]; x ← st_read (fun f => h ← slice_ck f 0 20; internet_checksum h); put 10 (to_be_bytes x) ≫= k) f =
      k tt (splice f 10 (to_be_bytes c)).
Proof.
  intros Hb Hl. destruct (fill_checksum f [] 10 0 20) as (c & H1 & H2 & H3); try done; try (cbn; lia).
  { by exists 0%nat. }
  { by exists 5. }
  exists c. split_and!; [done|done|]. intros B k. change 11 with (10 + 1). rewrite (zero_field 10) by lia. rewrite st_bind_read.
  rewrite slice_ck_ok by (rewrite ?length_splice; cbn; lia). cbn [mbind Res_bind]. rewrite (app_nil_l (slice (splice f 10 [0; 0]) 0 20)) in H1. rewrite H1.
  rewrite st_bind_eq, put_ok by (rewrite ?length_splice, ?to_be_bytes_eq; cbn; lia). by rewrite splice_over by (rewrite ?to_be_bytes_eq; cbn; lia).
Qed.

(** Only the total length decides what happens after the header. *)
Lemma recompute_spec p f :
  Forall is_byte f -> 20 <= Z.of_nat (length f) ->
  (packet_ok p f /\ exists f', recompute_checksums p 20 f = (Ok tt, f') /\ checksums_of p f f') \/
  (~ packet_ok p f /\ exists f', recompute_checksums p 20 f = (Err Truncated, f') /\ Forall is_byte f' /\ length f' = length f).
Proof.
  intros Hb Hl. destruct (header_checksum_ok f Hb Hl) as (c & Hc & Hh & Hk). unfold recompute_checksums. rewrite Hk. clear Hk.
  pose proof (to_be_bytes_byte c Hc) as Hcb. set (g := splice f 10 (to_be_bytes c)) in *.
  assert (Forall is_byte g) as Hgb by by apply splice_bytes. assert (length g = length f) as Hgl by (apply length_splice; rewrite ?to_be_bytes_eq; cbn; lia).
  assert (forall o, 0 <= o -> o + 2 <= 10 \/ 12 <= o -> field16 g o = field16 f o) as Hgf by (intros; apply field16_splice; rewrite ?to_be_bytes_eq; cbn; lia).
  rewrite st_bind_read, (proj1 (read_u16_ok g 2 Hgb ltac:(lia) ltac:(lia))), st_bind_gets, Hgl, Hgf by lia.
  destruct (Z.ltb_spec (Z.of_nat (length f)) (field16 f 2)); cbn [orb].
  { right. split; [intros [_ ?]; lia|]. eauto. }
  destruct (Z.ltb_spec (field16 f 2) 20).
  { right. split; [intros [_ ?]; destruct p; cbn in *; lia|]. eauto. }
  rewrite st_bind_lift, sub_ok by lia.
  destruct (Z.ltb_spec (field16 f 2 - 20) (min_l4 p)) as [Hs|Hs].
  { right. split; [intros [_ ?]; lia|]. exists g. destruct p; cbn [min_l4] in Hs; by rewrite (proj2 (Z.ltb_lt _ _)) by lia. }
  left. assert (packet_ok p f) as Hp by (split; [done|lia]). split; [done|].
  assert (packet_ok p g) as Hpg by (split; [done|rewrite Hgf, Hgl by lia; apply Hp]).
  destruct (packet_bounds p g Hpg) as (Ht & Hl' & Ho & Ho2).
  destruct (segment_checksum_ok p g Hpg) as (d & Hseg & Hd & Hv). rewrite (Hgf 2) in Hseg by lia.
  assert (forall f', f' = g \/ f' = splice g (checksum_off p) (to_be_bytes d) ->
            Forall is_byte f' /\ length f' = length f /\ (forall i, ~ is_field p i -> f' !! i = f !! i) /\ header_valid f') as Hboth.
  { assert (forall i, ~ is_field p i -> g !! i = f !! i) as Hgi.
    { intros i Hi. unfold g. rewrite lookup_splice, bool_decide_false by (rewrite ?to_be_bytes_eq; unfold is_field in Hi; cbn; lia). done. }
    intros f' [->| ->]; [done|]. split_and!.
    - apply splice_bytes; [done|by apply to_be_bytes_byte].
    - rewrite length_splice; [done|lia|rewrite to_be_bytes_eq; cbn; lia].
    - intros i Hi. rewrite lookup_splice, bool_decide_false by (rewrite ?to_be_bytes_eq; unfold is_field in Hi; cbn; lia). by apply Hgi.
    - unfold header_valid. rewrite slice_splice_disjoint by (rewrite ?to_be_bytes_eq; cbn; lia). done. }
  destruct (Hboth _ (or_intror eq_refl)) as (A1 & A2 & A3 & A4). destruct (Hboth _ (or_introl eq_refl)) as (B1 & B2 & B3 & B4).
  destruct p; cbn [min_l4] in Hs; rewrite (proj2 (Z.ltb_ge _ _)) by lia.
  - exists (splice g 36 (to_be_bytes d)). split; [exact Hseg|]. by split; try left.
  - rewrite st_bind_read. change (20 + 6) with 26. rewrite (proj1 (read_u16_ok g 26 Hgb ltac:(lia) ltac:(lia))), Hgf by lia.
    destruct (Z.eqb_spec (field16 f 26) 0) as [E0|].
    + exists g. split; [done|]. split; try done. right. by rewrite Hgf by lia.
    + exists (splice g 26 (to_be_bytes d)). split; [exact Hseg|]. by split; try left.
Qed.

(** ** The table *)

Definition endpoint_ok (i : InternalEndpoint) : Prop := Forall is_byte (octets (guest_ip i)) /\ fits 16 (guest_port i).
Definition forward_ok (r : PortForward) : Prop := Forall is_byte (octets (f_guest_ip r)) /\ fits 16 (f_guest_port r).

(** The two maps are inverse to each other, the ports lie in the range, and the
    counters account for the mappings; [B] bounds the counters. *)
Record nat_wf (B : Z) (t : NatTable) : Prop := {
  wf_range : 0 <= (port_range (config t)).1 <= (port_range (config t)).2 /\ (port_range (config t)).2 < 65536;
  wf_next : (port_range (config t)).1 <= next_port t <= (port_range (config t)).2;
  wf_ip : Forall is_byte (octets (external_ip (config t)));
  wf_out i p : by_internal t !! i = Some p -> exists e, by_external t !! (protocol i, p) = Some e /\ internal e = i;
  wf_in pr p e : by_external t !! (pr, p) = Some e ->
    protocol (internal e) = pr /\ by_internal t !! internal e = Some p /\
    (port_range (config t)).1 <= p <= (port_range (config t)).2 /\ endpoint_ok (internal e);
  wf_forwards : Forall forward_ok (forwards t);
  wf_account : Z.of_nat (size (by_external t)) + mappings_aged (stats t) = mappings_created (stats t);
  wf_counters k : 0 <= counter k (stats t) <= B
}.

Lemma nat_wf_mono B B' t : B <= B' -> nat_wf B t -> nat_wf B' t.
Proof. intros HB [H1 H2 H3 H4 H5 H6 H7 H8]. split; try done. intros k. specialize (H8 k). lia. Qed.

#[global] Instance Counter_eq_dec : EqDecision Counter.
Proof. solve_decision. Defined.
Lemma counter_set k k' n s : counter k (set_count k' n s) = if decide (k = k') then n else counter k s.
Proof. destruct s, k, k'; reflexivity. Qed.

Lemma bump_ok k n t : counter k (stats t) + n < 2 ^ 64 -> bump k n t = (Ok tt, set_stats (set_count k (counter k (stats t) + n) (stats t)) t).
Proof. intros Hn. unfold bump. rewrite st_bind_read, add_ok by done. reflexivity. Qed.

(** A counter of packets. *)
Lemma bump_wf B k t :
  nat_wf B t -> B + 1 < 2 ^ 64 -> k <> CCreated -> k <> CAged ->
  exists s, bump k 1 t = (Ok tt, set_stats s t) /\ nat_wf (B + 1) (set_stats s t).
Proof.
  intros [H1 H2 H3 H4 H5 H6 H7 H8] HB Hc Ha. eexists. split; [apply bump_ok; specialize (H8 k); lia|]. split; try done.
  - cbn [set_stats stats by_external]. change (mappings_aged ?s) with (counter CAged s). change (mappings_created ?s) with (counter CCreated s).
    rewrite !counter_set, !decide_False by done. exact H7.
  - intros k'. cbn [set_stats stats]. rewrite counter_set. pose proof (H8 k'). pose proof (H8 k). case_decide; lia.
Qed.

Lemma touch_wf B now k t : nat_wf B t -> nat_wf B (touch now k t).
Proof.
  intros [H1 H2 H3 H4 H5 H6 H7 H8]. split; try done; cbn [touch set_mappings by_internal by_external config stats].
  - intros i p Hi. destruct (H4 i p Hi) as (e & He & <-). destruct (decide (k = (protocol (internal e), p))) as [->|Hne].
    + rewrite lookup_alter_eq, He. by eexists.
    + rewrite lookup_alter_ne, He by done. by eexists.
  - intros pr p e [[-> (e' & He & ->)]|[_ He]]%lookup_alter_Some; exact (H5 _ _ _ He).
  - rewrite <- (size_dom (D := gset _)), dom_alter_L, size_dom. exact H7.
Qed.

(** *** Allocation *)

(** A port of a protocol that neither a rule nor a mapping has. *)
Definition free (t : NatTable) (p : Protocol) (c : Z) : Prop := existsb (on_port p c) (forwards t) = false /\ by_external t !! (p, c) = None.

Section allocation.
Context (B : Z) (t : NatTable) (Hwf : nat_wf B t).
Let lo := (port_range (config t)).1.
Let hi := (port_range (config t)).2.
Let cand (k : Z) : Z := lo + (next_port t - lo + k) mod (hi - lo + 1).

Lemma find_port_spec p n k :
  0 <= k -> k + Z.of_nat n <= hi - lo + 1 ->
  (exists c, find_port n k p t = Ok c /\ lo <= c <= hi /\ free t p c) \/
  (find_port n k p t = Err PortsExhausted /\ forall j, k <= j < k + Z.of_nat n -> ~ free t p (cand j)).
Proof.
  pose proof (wf_range _ _ Hwf) as Hr. pose proof (wf_next _ _ Hwf) as Hnx. fold lo hi in Hr, Hnx.
  revert k. induction n as [|n IH]; intros k Hk Hn; cbn [find_port]; [right; split; [done|lia]|].
  rewrite (surjective_pairing (port_range (config t))). fold lo hi. rewrite sub_ok by lia. cbn [mbind Res_bind]. rewrite add_ok by lia. cbn [mbind Res_bind].
  rewrite sub_ok by lia. cbn [mbind Res_bind]. rewrite add_ok by lia. cbn [mbind Res_bind].
  pose proof (Z.mod_pos_bound (next_port t - lo + k) (hi - lo + 1) ltac:(lia)) as Hm. unfold trunc.
  rewrite (Z.mod_small ((next_port t - lo + k) mod (hi - lo + 1)) (2 ^ 16)) by lia. rewrite add_ok by lia. cbn [mbind Res_bind]. fold (cand k).
  destruct (negb _ && _) eqn:E.
  - left. exists (cand k). unfold cand in *. apply andb_true_iff in E as [E1%negb_true_iff E2%bool_decide_eq_true]. split_and!; try done; lia.
  - assert (~ free t p (cand k)) as Hnf.
    { intros [F1 F2]. rewrite F1 in E. cbn in E. by rewrite bool_decide_true in E by done. }
    destruct (IH (k + 1)) as [(c & Hc)|[He Hj]]; [lia|lia|by left; exists c|]. right. split; [done|]. intros j Hj'. destruct (decide (j = k)) as [->|]; [done|]. apply Hj. lia.
Qed.

Lemma cand_onto c : lo <= c <= hi -> exists j, 0 <= j < hi - lo + 1 /\ cand j = c.
Proof.
  pose proof (wf_range _ _ Hwf) as Hr. pose proof (wf_next _ _ Hwf) as Hnx. fold lo hi in Hr, Hnx. intros Hc.
  exists ((c - next_port t) mod (hi - lo + 1)). split; [apply Z.mod_pos_bound; lia|]. unfold cand. rewrite Z.add_mod_idemp_r by lia.
  replace (next_port t - lo + (c - next_port t)) with (c - lo) by lia. rewrite Z.mod_small by lia. lia.
Qed.
End allocation.

(** The endpoint of a flow gets one port, and keeps it. *)
Lemma external_port_for_spec B now i t :
  nat_wf B t -> endpoint_ok i -> B + 1 < 2 ^ 64 ->
  (exists port t', external_port_for now i t = (Ok port, t') /\ nat_wf (B + 1) t' /\ by_internal t' !! i = Some port /\
     config t' = config t /\ forwards t' = forwards t /\
     (forall k e, by_external t !! k = Some e -> by_external t' !! k = Some e) /\
     (by_internal t !! i = None -> free t (protocol i) port)) \/
  (external_port_for now i t = (Err PortsExhausted, t) /\ by_internal t !! i = None /\
     forall c, (port_range (config t)).1 <= c <= (port_range (config t)).2 -> ~ free t (protocol i) c).
Proof.
  intros Hwf Hi HB. unfold external_port_for. rewrite st_bind_gets. destruct (by_internal t !! i) as [port|] eqn:Ei.
  { left. exists port, t. split_and!; try done. apply (nat_wf_mono B); [lia|done]. }
  rewrite st_bind_gets. rewrite (surjective_pairing (port_range (config t))). pose proof (wf_range _ _ Hwf) as Hr.
  set (lo := (port_range (config t)).1) in *. set (hi := (port_range (config t)).2) in *. rewrite st_bind_lift, sub_ok by lia. rewrite st_bind_lift, add_ok by lia.
  rewrite st_bind_read. destruct (find_port_spec B t Hwf (protocol i) (Z.to_nat (hi - lo + 1)) 0) as [(c & -> & Hc & Hfree)|[-> Hnone]]; fold lo hi; [lia|lia| |].
  2: { right. split_and!; [done|done|]. intros c Hc. destruct (cand_onto B t Hwf c Hc) as (j & Hj & <-). apply Hnone. fold lo hi in Hj. lia. }
  left. fold lo hi in Hc.
  assert (exists next, (if c =? hi then mret lo else st_lift (add 16 c 1) : ST NatTable NatError Z) t = (Ok next, t) /\ lo <= next <= hi) as (next & Hnext & Hnr).
  { destruct (Z.eqb_spec c hi); [exists lo; split; [done|lia]|]. exists (c + 1). unfold st_lift. rewrite add_ok by lia. split; [done|lia]. }
  rewrite st_bind_eq, Hnext, !st_bind_modify. set (t1 := set_mappings _ _ (set_next_port next t)).
  pose proof (wf_counters _ _ Hwf) as Hk. rewrite st_bind_eq, (bump_ok CCreated 1 t1) by (specialize (Hk CCreated); cbn in *; lia).
  eexists c, _. split; [reflexivity|]. split_and!; try done.
  2: { cbn. by rewrite lookup_insert_eq. }
  2: { intros k e He. cbn. rewrite lookup_insert_ne; [done|]. intros <-. destruct Hfree as [_ Hf]. by rewrite Hf in He. }
  destruct Hwf as [H1 H2 H3 H4 H5 H6 H7 H8], Hfree as [Hf1 Hf2]. split; cbn [set_stats config by_internal by_external forwards next_port stats t1 set_mappings set_next_port]; try done.
  - intros j p. destruct (decide (j = i)) as [->|Hne].
    + rewrite lookup_insert_eq. intros [= <-]. rewrite lookup_insert_eq. by eexists.
    + rewrite lookup_insert_ne by done. intros Hj. destruct (H4 j p Hj) as (e & He & Ee). exists e. rewrite lookup_insert_ne; [done|]. intros Heq. rewrite <- Heq in He. congruence.
  - intros pr p e. destruct (decide ((protocol i, c) = (pr, p))) as [[= <- <-]|Hne].
    + rewrite lookup_insert_eq. intros [= <-]. cbn. rewrite lookup_insert_eq. done.
    + rewrite lookup_insert_ne by done. intros He. destruct (H5 pr p e He) as (E1 & E2 & E3 & E4). split_and!; try done; try lia. rewrite lookup_insert_ne; [done|]. intros Heq. rewrite <- Heq in E2. congruence.
  - rewrite map_size_insert_None by done. change (mappings_aged ?s) with (counter CAged s). change (mappings_created ?s) with (counter CCreated s).
    rewrite !counter_set, decide_False, decide_True by done. cbn [counter t1 set_mappings set_next_port stats]. lia.
  - intros k. rewrite counter_set. pose proof (Hk k). pose proof (Hk CCreated). case_decide; lia.
Qed.

Lemma fst_step {S T E A B} (c : ST S E A) (k : A -> ST (S * T) E B) s t :
  (st_fst c ≫= k) (s, t) = match c s with (Ok a, s') => k a (s', t) | (Err e, s') => (Err e, (s', t)) | (Panic p, s') => (Panic p, (s', t)) end.
Proof. unfold st_fst. rewrite st_bind_eq. by destruct (c s) as [[]]. Qed.
Lemma snd_step {S T E A B} (c : ST T E A) (k : A -> ST (S * T) E B) s t :
  (st_snd c ≫= k) (s, t) = match c t with (Ok a, t') => k a (s, t') | (Err e, t') => (Err e, (s, t')) | (Panic p, t') => (Panic p, (s, t')) end.
Proof. unfold st_snd. rewrite st_bind_eq. by destruct (c t) as [[]]. Qed.

(** *** Rewriting a packet *)

Lemma parse_spec f :
  Forall is_byte f ->
  (exists v, parse f = Ok v /\ 24 <= Z.of_nat (length f) /\ ihl v = 20 /\ octets (src v) = slice f 12 4) \/
  (exists e, parse f = Err e /\ (e = Truncated \/ e = Unsupported)).
Proof.
  intros Hb. unfold parse. destruct (Z.ltb_spec (Z.of_nat (length f)) 20); [right; eauto|].
  assert (forall i, 0 <= i < 20 -> at_byte f i = Ok (f !!! Z.to_nat i) /\ is_byte (f !!! Z.to_nat i)) as Hat.
  { intros i Hi. destruct (lookup_field f i Hb) as [E ?]; [lia|]. unfold at_byte. by rewrite E. }
  rewrite (proj1 (Hat 0 ltac:(lia))). cbn [mbind Res_bind]. pose proof (proj2 (Hat 0 ltac:(lia))) as H0. generalize dependent (f !!! Z.to_nat 0). intros b0 H0.
  assert (0 <= Z.land b0 15 <= 15) as Hn by (change (Z.land b0 15) with (Z.land b0 (Z.ones 4)); rewrite Z.land_ones by lia; pose proof (Z.mod_pos_bound b0 (2 ^ 4)); lia).
  rewrite mul_ok by lia. cbn [mbind Res_bind]. destruct (negb _ || negb _) eqn:E1; [right; eauto|]. apply orb_false_iff in E1 as [_ E2%negb_false_iff%Z.eqb_eq].
  rewrite (proj1 (Hat 6 ltac:(lia))), (proj1 (Hat 7 ltac:(lia))). cbn [mbind Res_bind]. destruct (_ || _); [right; eauto|]. rewrite E2. destruct (Z.ltb_spec (Z.of_nat (length f)) (20 + 4)); [right; eauto|].
  rewrite (proj1 (Hat 9 ltac:(lia))), (proj1 (Hat 12 ltac:(lia))), (proj1 (Hat 13 ltac:(lia))), (proj1 (Hat 14 ltac:(lia))), (proj1 (Hat 15 ltac:(lia))).
  cbn [mbind Res_bind]. left. eexists. split; [reflexivity|]. split_and!; [lia|done|]. cbn [src octets mret Res_ret].
  change (slice f 12 4) with (slice f 12 (2 + 2)). rewrite (slice_app f 12 2 2), !slice_pair by (done || lia). reflexivity.
Qed.

(** A packet with another address at [a] and another port at [po]: nothing else but
    the checksums is different, and the checksums are right. *)
Record rewritten (p : Protocol) (a : Z) (ip : bytes) (po port : Z) (f f' : bytes) : Prop := {
  rw_bytes : Forall is_byte f';
  rw_length : length f' = length f;
  rw_ip : slice f' a 4 = ip;
  rw_port : field16 f' po = port;
  rw_rest i : ~ is_field p i -> ~ (a <= Z.of_nat i < a + 4) -> ~ (po <= Z.of_nat i < po + 2) -> f' !! i = f !! i;
  rw_header : header_valid f';
  rw_segment : segment_valid p f' \/ (p = Udp /\ field16 f 26 = 0 /\ field16 f' 26 = 0)
}.

Definition rewrite_at (p : Protocol) (a : Z) (ip : Ipv4Addr) (po port : Z) : ST bytes NatError unit :=
  _ ← write_ipv4_addr a ip; _ ← write_u16 po port; recompute_checksums p 20.

Lemma length_octets ip : length (octets ip) = 4%nat.
Proof. by destruct ip as [[[]]]. Qed.

Lemma write_u16_ok o v f : 0 <= o -> o + 2 <= Z.of_nat (length f) -> write_u16 o v f = (Ok tt, splice f o (to_be_bytes v)).
Proof. intros. unfold write_u16, splice_ck. rewrite to_be_bytes_eq. cbn [length]. by rewrite !(proj2 (Z.leb_le _ _)) by lia. Qed.

Lemma rewrite_at_spec p a ip po port f :
  (a = 12 /\ po = 20) \/ (a = 16 /\ po = 22) -> Forall is_byte f -> 24 <= Z.of_nat (length f) -> Forall is_byte (octets ip) -> fits 16 port ->
  (packet_ok p f /\ exists f', rewrite_at p a ip po port f = (Ok tt, f') /\ rewritten p a (octets ip) po port f f') \/
  (~ packet_ok p f /\ exists f', rewrite_at p a ip po port f = (Err Truncated, f') /\ Forall is_byte f' /\ length f' = length f).
Proof.
  intros Ha Hb Hl Hip Hport. pose proof (length_octets ip) as Hlo. pose proof (to_be_bytes_byte port Hport) as Hpb. assert (length (to_be_bytes port) = 2%nat) as Hlp by by rewrite to_be_bytes_eq.
  unfold rewrite_at, write_ipv4_addr. rewrite st_bind_eq, put_ok by lia. set (g1 := splice f a (octets ip)).
  assert (length g1 = length f) as Hl1 by (apply length_splice; lia). rewrite st_bind_eq, write_u16_ok by lia. set (g := splice g1 po (to_be_bytes port)).
  assert (length g = length f) as Hlg by (unfold g; rewrite length_splice; lia). assert (Forall is_byte g) as Hgb by by apply splice_bytes, Hpb; apply splice_bytes.
  assert (forall o, 0 <= o -> o + 2 <= 12 \/ 24 <= o -> field16 g o = field16 f o) as Hf.
  { intros o Ho Hd. unfold g, g1. rewrite !field16_splice by (rewrite ?length_splice; lia). done. }
  destruct (recompute_spec p g Hgb ltac:(lia)) as [[Hp (f' & -> & [C1 C2 C3 C4 C5])]|[Hp (f' & -> & C1 & C2)]].
  - left. split; [destruct Hp as [_ Hp]; rewrite Hf, Hlg in Hp by lia; done|]. eexists. split; [reflexivity|].
    assert (forall i, ~ is_field p i -> f' !! i = g !! i) as Hi by done. assert (26 <= checksum_off p) as Hoff by by destruct p.
    assert (forall o n, 12 <= o -> o + n <= 24 -> slice f' o n = slice g o n) as Hsl.
    { intros o n Ho Hn. apply list_eq. intros j. rewrite !lookup_slice. case_bool_decide; [|done]. apply Hi. unfold is_field. lia. }
    split; try done; try lia.
    + rewrite Hsl by lia. unfold g. rewrite slice_splice_disjoint by lia. unfold g1. apply slice_splice_same; lia.
    + assert (field16 f' po = field16 g po) as ->; [|apply field16_put; lia].
      unfold field16. rewrite !list_lookup_total_alt, !Hi by (unfold is_field; lia). done.
    + intros i H1 H2 H3. rewrite Hi by done. unfold g, g1. rewrite !lookup_splice, !bool_decide_false by (rewrite ?length_splice; lia). done.
    + destruct C5 as [|(-> & E1 & E2)]; [by left|right]. by rewrite Hf in E1 by lia.
  - right. split; [|exists f'; split_and!; [done|done|lia]]. intros Hp'. apply Hp. split; [done|]. rewrite Hf, Hlg by lia. apply Hp'.
Qed.

Lemma rewrite_at_snd {B} p a ip po port (k : unit -> ST (NatTable * bytes) NatError B) (t : NatTable) f :
  (_ ← st_snd (write_ipv4_addr a ip); _ ← st_snd (write_u16 po port); st_snd (recompute_checksums p 20) ≫= k) (t, f) =
  (st_snd (rewrite_at p a ip po port) ≫= k) (t, f).
Proof.
  rewrite !snd_step. unfold rewrite_at. rewrite st_bind_eq. destruct (write_ipv4_addr a ip f) as [[[]|?|?] f1]; [|done..].
  rewrite snd_step, st_bind_eq. destruct (write_u16 po port f1) as [[[]|?|?] f2]; [|done..]. by rewrite snd_step.
Qed.

(** ** Translation *)

(** Every mapping of [t] is in [t'], at most seen later. *)
Definition carries (now : Z) (t t' : NatTable) : Prop :=
  config t' = config t /\ forwards t' = forwards t /\
  forall k e, by_external t !! k = Some e ->
    exists e', by_external t' !! k = Some e' /\ internal e' = internal e /\ (last_seen e' = last_seen e \/ last_seen e' = now).

Lemma carries_refl now t : carries now t t.
Proof. split_and!; try done. intros k e He. exists e. auto. Qed.

Lemma carries_stats now t t' s : carries now t t' -> carries now t (set_stats s t').
Proof. done. Qed.

Lemma carries_touch now k t t' : carries now t t' -> carries now t (touch now k t').
Proof.
  intros (H1 & H2 & H3). split_and!; [done|done|]. intros k' e He. destruct (H3 k' e He) as (e' & He' & E1 & E2). cbn.
  destruct (decide (k = k')) as [->|].
  - rewrite lookup_alter_eq, He'. eexists. split_and!; [reflexivity|done|by right].
  - rewrite lookup_alter_ne by done. eauto.
Qed.

Lemma supported_spec B v t f :
  nat_wf B t -> B + 1 < 2 ^ 64 ->
  (exists p, from_ip_proto (v_protocol v) = Some p /\ supported v (t, f) = (Ok p, (t, f))) \/
  (from_ip_proto (v_protocol v) = None /\ exists s, supported v (t, f) = (Err Unsupported, (set_stats s t, f)) /\ nat_wf (B + 1) (set_stats s t)).
Proof.
  intros Hwf HB. unfold supported. destruct (from_ip_proto _) as [p|]; [left; by exists p|right]. split; [done|].
  destruct (bump_wf B CRejected t Hwf HB) as (s & Hs & Hw); [done..|]. exists s. rewrite fst_step, Hs. done.
Qed.

Definition endpoint_of (p : Protocol) (v : Ipv4HeaderView) (f : bytes) : InternalEndpoint := mkEndpoint p (src v) (field16 f 20).

Record outbound_out (B now : Z) (t t' : NatTable) (f f' : bytes) (r : Res NatError unit) : Prop := {
  oo_wf : nat_wf (B + 2) t';
  oo_carries : carries now t t';
  oo_bytes : Forall is_byte f';
  oo_total : is_panic r = false;
  oo_ok : r = Ok tt -> exists v p port, parse f = Ok v /\ from_ip_proto (v_protocol v) = Some p /\ packet_ok p f /\
    by_internal t' !! endpoint_of p v f = Some port /\
    (exists e, by_external t' !! (p, port) = Some e /\ internal e = endpoint_of p v f /\ last_seen e = now) /\
    rewritten p 12 (octets (external_ip (config t))) 20 port f f';
  oo_done v p : parse f = Ok v -> from_ip_proto (v_protocol v) = Some p -> packet_ok p f ->
    is_Some (by_internal t !! endpoint_of p v f) \/
    (exists c, (port_range (config t)).1 <= c <= (port_range (config t)).2 /\ free t p c) -> r = Ok tt
}.

Lemma translate_outbound_cases B now t f :
  nat_wf B t -> Forall is_byte f -> B + 2 < 2 ^ 64 ->
  exists r t' f', translate_outbound now (t, f) = (r, (t', f')) /\ outbound_out B now t t' f f' r.
Proof.
  intros Hwf Hb HB. unfold translate_outbound. rewrite snd_step. unfold st_read at 1.
  assert (nat_wf (B + 2) t) as Hwf2 by (apply (nat_wf_mono B); [lia|done]).
  destruct (parse_spec f Hb) as [(v & Hv & Hl & Hihl & Hsrc)|(e & He & _)].
  2: { rewrite He. eexists _, _, _. split; [reflexivity|]. split; try done; [apply carries_refl|]. intros v p Hv. congruence. }
  rewrite Hv. rewrite st_bind_eq. destruct (supported_spec B v t f Hwf ltac:(lia)) as [(p & Hp & ->)|(Hp & s & -> & Hws)].
  2: { eexists _, _, _. split; [reflexivity|]. split; try done; [by apply (nat_wf_mono (B + 1)); [lia|]|apply carries_stats, carries_refl|]. intros v' p Hv' Hp'. congruence. }
  rewrite snd_step. unfold st_read at 1. rewrite Hihl. destruct (read_u16_ok f 20 Hb ltac:(lia) ltac:(lia)) as [-> Hgp]. rewrite fst_step. fold (endpoint_of p v f).
  assert (endpoint_ok (endpoint_of p v f)) as Hend by (split; [cbn; rewrite Hsrc; by apply slice_bytes|done]).
  destruct (external_port_for_spec B now (endpoint_of p v f) t Hwf Hend ltac:(lia)) as [(port & t1 & -> & Hw1 & Hbi & Hcf & Hfw & Hext & _)|(-> & Hn & Hno)].
  2: { eexists _, _, _. split; [reflexivity|]. split; try done; [apply carries_refl|]. intros v' p' Hv' Hp' _. rewrite Hv in Hv'. injection Hv' as <-.
       rewrite Hp in Hp'. injection Hp' as <-. rewrite Hn. intros [[? ?]|(c & Hc & Hfree)]; [done|]. by destruct (Hno c Hc). }
  assert (carries now t t1) as Hc1. { split_and!; [done|done|]. intros k e He. exists e. auto. }
  destruct (wf_out _ _ Hw1 _ _ Hbi) as (e1 & He1 & Ei1). pose proof (wf_in _ _ Hw1 _ _ _ He1) as (_ & _ & Hrange & _). pose proof (wf_range _ _ Hw1) as Hr1.
  rewrite fst_step. unfold st_gets at 1. rewrite Hcf. rewrite rewrite_at_snd, snd_step. pose proof (wf_ip _ _ Hwf) as Hip.
  destruct (rewrite_at_spec p 12 (external_ip (config t)) 20 port f) as [[Hpk (f' & -> & Hrw)]|[Hpk (f' & -> & Hb' & _)]]; try done; try (left; done); try (split; lia).
  - rewrite fst_step. unfold st_modify at 1. pose proof (touch_wf _ now (p, port) _ Hw1) as Hw2.
    destruct (bump_wf (B + 1) COutbound _ Hw2) as (s & Hs & Hw3); [lia|done|done|]. unfold st_fst. rewrite Hs. eexists _, _, _. split; [reflexivity|]. split; try done.
    + apply (nat_wf_mono (B + 1 + 1)); [lia|done].
    + apply carries_stats, carries_touch, Hc1.
    + apply (rw_bytes _ _ _ _ _ _ _ Hrw).
    + intros _. exists v, p, port. split_and!; try done. cbn. rewrite lookup_alter_eq. cbn in He1. rewrite He1. by eexists.
  - eexists _, _, _. split; [reflexivity|]. split; try done; [apply (nat_wf_mono (B + 1)); [lia|done]|]. intros v' p' Hv' Hp' Hpk'. rewrite Hv in Hv'. injection Hv' as <-.
    rewrite Hp in Hp'. by injection Hp' as <-.
Qed.

(** The guest endpoint of a packet from outside. *)
Definition target (t : NatTable) (p : Protocol) (d : Z) : option (Ipv4Addr * Z) :=
  match List.find (on_port p d) (forwards t) with
  | Some r => Some (f_guest_ip r, f_guest_port r)
  | None => match by_external t !! (p, d) with Some e => Some (guest_ip (internal e), guest_port (internal e)) | None => None end
  end.

Lemma inbound_target_spec B now p d t :
  nat_wf B t -> B + 1 < 2 ^ 64 ->
  exists t', nat_wf (B + 1) t' /\ carries now t t' /\
    inbound_target now p d t = (match target t p d with Some x => Ok x | None => Err NoMapping end, t') /\
    (forall x, target t p d = Some x -> nat_wf B t' /\ Forall is_byte (octets x.1) /\ fits 16 x.2).
Proof.
  intros Hwf HB. unfold inbound_target, target. rewrite st_bind_gets. destruct (List.find _ _) as [r|] eqn:Er.
  { exists t. split_and!; [apply (nat_wf_mono B); [lia|done]|apply carries_refl|done|]. intros x [= <-]. split; [done|].
    apply find_lookup in Er as (i & Hi & _). apply (Forall_lookup_1 _ _ _ _ (wf_forwards _ _ Hwf) Hi). }
  rewrite st_bind_gets. destruct (by_external t !! (p, d)) as [e|] eqn:Ee.
  - pose proof (touch_wf B now (p, d) t Hwf) as Hw. exists (touch now (p, d) t). split_and!; [apply (nat_wf_mono B); [lia|done]|apply carries_touch, carries_refl|done|].
    intros x [= <-]. destruct (wf_in _ _ Hwf _ _ _ Ee) as (_ & _ & _ & Hok). by split_and!; try apply Hok.
  - destruct (bump_wf B CNoMapping t Hwf HB) as (s & Hs & Hw); [done..|]. exists (set_stats s t). rewrite st_bind_eq, Hs. split_and!; [done|apply carries_stats, carries_refl|done|done].
Qed.

Record inbound_out (B now : Z) (t t' : NatTable) (f f' : bytes) (r : Res NatError unit) : Prop := {
  io_wf : nat_wf (B + 2) t';
  io_carries : carries now t t';
  io_bytes : Forall is_byte f';
  io_total : is_panic r = false;
  io_none v p : parse f = Ok v -> from_ip_proto (v_protocol v) = Some p -> target t p (field16 f 22) = None -> r = Err NoMapping /\ f' = f;
  io_some v p x : parse f = Ok v -> from_ip_proto (v_protocol v) = Some p -> packet_ok p f -> target t p (field16 f 22) = Some x ->
    r = Ok tt /\ rewritten p 16 (octets x.1) 22 x.2 f f'
}.

Lemma translate_inbound_cases B now t f :
  nat_wf B t -> Forall is_byte f -> B + 2 < 2 ^ 64 ->
  exists r t' f', translate_inbound now (t, f) = (r, (t', f')) /\ inbound_out B now t t' f f' r.
Proof.
  intros Hwf Hb HB. unfold translate_inbound. rewrite snd_step. unfold st_read at 1.
  destruct (parse_spec f Hb) as [(v & Hv & Hl & Hihl & _)|(e & He & _)].
  2: { rewrite He. eexists _, _, _. split; [reflexivity|]. split; try done; [by apply (nat_wf_mono B); [lia|]|apply carries_refl|intros; congruence..]. }
  rewrite Hv. rewrite st_bind_eq. destruct (supported_spec B v t f Hwf ltac:(lia)) as [(p & Hp & ->)|(Hp & s & -> & Hws)].
  2: { eexists _, _, _. split; [reflexivity|]. split; try done; [by apply (nat_wf_mono (B + 1)); [lia|]|apply carries_stats, carries_refl|intros; congruence..]. }
  rewrite snd_step. unfold st_read at 1. rewrite Hihl. change (20 + 2) with 22. destruct (read_u16_ok f 22 Hb ltac:(lia) ltac:(lia)) as [-> Hgp]. rewrite fst_step.
  destruct (inbound_target_spec B now p (field16 f 22) t Hwf ltac:(lia)) as (t1 & Hw1 & Hc1 & -> & Hx).
  assert (forall v' p', parse f = Ok v' -> from_ip_proto (v_protocol v') = Some p' -> p' = p) as Hsame by (intros; congruence).
  destruct (target t p (field16 f 22)) as [[ip port]|] eqn:Et.
  2: { eexists _, _, _. split; [reflexivity|]. split; try done; [by apply (nat_wf_mono (B + 1)); [lia|]|]. intros v' p' x Hv' Hp' _ Hx'. rewrite (Hsame v' p' Hv' Hp') in Hx'. congruence. }
  destruct (Hx _ eq_refl) as (Hw0 & Hip & Hport). cbn [fst snd] in *. rewrite rewrite_at_snd, snd_step.
  destruct (rewrite_at_spec p 16 ip 22 port f) as [[Hpk (f' & -> & Hrw)]|[Hpk (f' & -> & Hb' & _)]]; try done; try (right; done).
  - destruct (bump_wf B CInbound _ Hw0) as (s & Hs & Hw3); [lia|done|done|]. unfold st_fst. rewrite Hs. eexists _, _, _. split; [reflexivity|]. split; try done.
    + apply (nat_wf_mono (B + 1)); [lia|done].
    + apply (rw_bytes _ _ _ _ _ _ _ Hrw).
    + intros v' p' Hv' Hp' Hn. rewrite (Hsame v' p' Hv' Hp') in Hn. congruence.
    + intros v' p' x Hv' Hp' _ Hx'. rewrite (Hsame v' p' Hv' Hp') in Hx' |- *. rewrite Et in Hx'. by injection Hx' as <-.
  - eexists _, _, _. split; [reflexivity|]. split; try done.
    + apply (nat_wf_mono (B + 1)); [lia|done].
    + intros v' p' Hv' Hp' Hn. rewrite (Hsame v' p' Hv' Hp') in Hn. congruence.
    + intros v' p' x Hv' Hp' Hk. by rewrite (Hsame v' p' Hv' Hp') in Hk.
Qed.

Lemma age_entries_spec B now t :
  nat_wf B t -> B < 2 ^ 64 ->
  exists n t', age_entries now t = (Ok n, t') /\ nat_wf B t' /\ config t' = config t /\ forwards t' = forwards t /\
    by_external t' = filter (fun kv => saturating_sub now (last_seen kv.2) < idle_timeout (config t)) (by_external t) /\
    n = mapping_count t - mapping_count t'.
Proof.
  intros [H1 H2 H3 H4 H5 H6 H7 H8] HB. unfold age_entries. rewrite st_bind_gets, !st_bind_modify, st_bind_read.
  set (be := filter _ (by_external t)). cbn [set_mappings config by_internal by_external].
  assert (size be <= size (by_external t))%nat as Hsize by (apply map_subseteq_size, map_filter_subseteq). rewrite sub_ok by lia.
  set (t1 := set_mappings _ _ (set_mappings (by_internal t) be t)). pose proof (H8 CCreated) as Hcr. pose proof (H8 CAged) as Hag. cbn [counter] in Hcr, Hag.
  rewrite st_bind_eq, (bump_ok CAged) by (cbn; lia). eexists _, _. split; [reflexivity|]. split_and!; try done.
  split; cbn [set_stats config by_internal by_external forwards next_port stats t1 set_mappings]; try done.
  - intros i p [Hi [e He]]%map_lookup_filter_Some. cbn in He. exists e. split; [done|]. apply map_lookup_filter_Some in He as [He _].
    destruct (H4 i p Hi) as (e' & He' & <-). rewrite He' in He. by injection He as <-.
  - intros pr p e He. pose proof He as [He' _]%map_lookup_filter_Some. destruct (H5 pr p e He') as (<- & E2 & E3 & E4). split_and!; try done; try lia.
    apply map_lookup_filter_Some. split; [done|]. cbn. by exists e.
  - change (mappings_aged (set_count ?k ?n ?s)) with (counter CAged (set_count k n s)). change (mappings_created (set_count ?k ?n ?s)) with (counter CCreated (set_count k n s)).
    rewrite !counter_set, decide_True, decide_False by done. cbn [counter]. lia.
  - intros k. rewrite counter_set. case_decide as Hk; [|apply H8]. cbn [counter t1 set_mappings stats]. lia.
Qed.

(** ** Runs *)

Inductive NOp :=
| NOut (now : Z) (f : bytes) | NIn (now : Z) (f : bytes) | NAge (now : Z)
| NAdd (r : PortForward) | NRemove (p : Protocol) (port : Z).

Definition nop_ok (o : NOp) : Prop :=
  match o with NOut _ f | NIn _ f => Forall is_byte f | NAdd r => forward_ok r | _ => True end.

Definition apply_nop (o : NOp) (t : NatTable) : Res NatError unit * NatTable :=
  match o with
  | NOut now f => let '(r, (t', _)) := translate_outbound now (t, f) in (r, t')
  | NIn now f => let '(r, (t', _)) := translate_inbound now (t, f) in (r, t')
  | NAge now => let '(r, t') := age_entries now t in (_ ← r; mret tt, t')
  | NAdd r => (Ok tt, add_port_forward r t)
  | NRemove p port => (Ok tt, remove_port_forward p port t)
  end.
Definition run_nops (os : list NOp) (t : NatTable) : NatTable := foldl (fun t o => (apply_nop o t).2) t os.

Lemma set_forwards_wf B l t : Forall forward_ok l -> nat_wf B t -> nat_wf B (set_forwards l t).
Proof. intros Hl [H1 H2 H3 H4 H5 H6 H7 H8]. by split. Qed.

Lemma removed_ok p port l : Forall forward_ok l -> Forall forward_ok (List.filter (fun r => negb (on_port p port r)) l).
Proof. intros Hl. rewrite Forall_forall in *. intros r Hr. apply Hl. apply list_elem_of_In, List.filter_In in Hr as [Hr _]. by apply list_elem_of_In. Qed.

Lemma nop_wf B o t :
  nat_wf B t -> nop_ok o -> B + 2 < 2 ^ 64 ->
  nat_wf (B + 2) (apply_nop o t).2 /\ config (apply_nop o t).2 = config t /\ is_panic (apply_nop o t).1 = false.
Proof.
  intros Hwf Ho HB. assert (nat_wf (B + 2) t) as Hwf2 by (apply (nat_wf_mono B); [lia|done]). destruct o as [now f|now f|now|r|p port]; cbn [apply_nop].
  - destruct (translate_outbound_cases B now t f Hwf Ho HB) as (r & t' & f' & -> & [A1 [A2 _] A3 A4 _ _]). done.
  - destruct (translate_inbound_cases B now t f Hwf Ho HB) as (r & t' & f' & -> & [A1 [A2 _] A3 A4 _ _]). done.
  - destruct (age_entries_spec (B + 2) now t Hwf2 HB) as (n & t' & -> & A1 & A2 & _). done.
  - split_and!; [|done|done]. apply set_forwards_wf; [|done]. apply Forall_app. split; [apply (wf_forwards _ _ Hwf)|by constructor].
  - split_and!; [|done|done]. apply set_forwards_wf; [|done]. apply removed_ok, (wf_forwards _ _ Hwf).
Qed.

Lemma run_wf os : forall B t, nat_wf B t -> Forall nop_ok os -> B + 2 * Z.of_nat (length os) < 2 ^ 64 ->
  nat_wf (B + 2 * Z.of_nat (length os)) (run_nops os t) /\ config (run_nops os t) = config t.
Proof.
  induction os as [|o os IH]; intros B t Hwf Hos HB; cbn [length] in *; [split; [by rewrite Z.mul_0_r, Z.add_0_r|done]|].
  inversion_clear Hos as [|?? Ho Hos']. destruct (nop_wf B o t Hwf Ho ltac:(lia)) as (Hw & Hc & _).
  destruct (IH (B + 2) (apply_nop o t).2 Hw Hos' ltac:(lia)) as [Hw' Hc']. unfold run_nops in *. cbn [foldl]. split; [|congruence].
  replace (B + 2 * Z.of_nat (S (length os))) with (B + 2 + 2 * Z.of_nat (length os)) by lia. done.
Qed.

Definition config_ok (c : NatConfig) : Prop :=
  0 <= (port_range c).1 <= (port_range c).2 /\ (port_range c).2 < 65536 /\ Forall is_byte (octets (external_ip c)).

Lemma nat_new_wf c : config_ok c -> exists t, nat_new c = Ok t /\ nat_wf 0 t /\ config t = c.
Proof.
  intros (Hr & Hh & Hip). unfold nat_new. rewrite (proj2 (Z.leb_le _ _)) by lia. eexists. split; [reflexivity|]. split; [|done].
  split; cbn; try done; try lia. by intros [].
Qed.

(** C32: In every run the two maps of the table are inverse to each other, every mapped port
    lies in the range, the counters account for every mapping made and aged, and no
    packet, however malformed, makes the code panic. *)
Theorem nat_invariant c os :
  config_ok c -> Forall nop_ok os -> Z.of_nat (length os) < 2 ^ 62 ->
  exists t, nat_new c = Ok t /\ nat_wf (2 * Z.of_nat (length os)) (run_nops os t) /\
    forall o, nop_ok o -> is_panic (apply_nop o (run_nops os t)).1 = false.
Proof.
  intros Hc Hos Hlen. destruct (nat_new_wf c Hc) as (t & Ht & Hwf & _). exists t. split; [done|]. destruct (run_wf os 0 t Hwf Hos ltac:(lia)) as [Hw _].
  rewrite Z.add_0_l in Hw. split; [done|]. intros o Ho. apply (nop_wf _ o _ Hw Ho). lia.
Qed.

(** C31: Outbound translation: a whole packet of a guest endpoint that has a port, or can get
    one, leaves with the external address and the port of its endpoint; only these and
    the checksums change, and a receiver finds the checksums right. *)
Theorem outbound_spec B now t f v p :
  nat_wf B t -> B + 2 < 2 ^ 64 -> Forall is_byte f -> parse f = Ok v -> from_ip_proto (v_protocol v) = Some p -> packet_ok p f ->
  is_Some (by_internal t !! endpoint_of p v f) \/
  (exists c, (port_range (config t)).1 <= c <= (port_range (config t)).2 /\ free t p c) ->
  exists t' f' port, translate_outbound now (t, f) = (Ok tt, (t', f')) /\ by_internal t' !! endpoint_of p v f = Some port /\
    (forall n, by_internal t !! endpoint_of p v f = Some n -> port = n) /\
    rewritten p 12 (octets (external_ip (config t))) 20 port f f'.
Proof.
  intros Hwf HB Hb Hv Hp Hk Hport. destruct (translate_outbound_cases B now t f Hwf Hb HB) as (r & t' & f' & Ht & [A1 A2 A3 A4 A5 A6]).
  specialize (A6 v p Hv Hp Hk Hport). subst r. destruct (A5 eq_refl) as (v' & p' & port & Hv' & Hp' & _ & Hbi & _ & Hrw).
  assert (v' = v) as -> by congruence. assert (p' = p) as -> by congruence. exists t', f', port. split_and!; try done. intros n Hn.
  destruct (wf_out _ _ Hwf _ _ Hn) as (e & He & Ee). destruct A2 as (_ & _ & A2). destruct (A2 _ _ He) as (e' & He' & Ee' & _).
  destruct (wf_in _ _ A1 _ _ _ He') as (_ & Hi & _). rewrite Ee', Ee in Hi. congruence.
Qed.

(** ** Replies *)

(** The endpoint [i] has [port], was seen since [T], and no rule claims the port. *)
Definition mapped (p : Protocol) (port : Z) (i : InternalEndpoint) (T : Z) (t : NatTable) : Prop :=
  (exists e, by_external t !! (p, port) = Some e /\ internal e = i /\ T <= last_seen e) /\
  existsb (on_port p port) (forwards t) = false.

(** What may happen while a flow is alive: any packet, a sweep within the timeout, any
    change of the rules but one for its port. *)
Definition spares (p : Protocol) (port T timeout : Z) (o : NOp) : Prop :=
  match o with
  | NOut now _ | NIn now _ => T <= now
  | NAge now => now - T < timeout /\ 0 < timeout
  | NAdd r => on_port p port r = false
  | NRemove _ _ => True
  end.

Lemma carries_mapped now p port i T t t' : T <= now -> carries now t t' -> mapped p port i T t -> mapped p port i T t'.
Proof.
  intros HT (_ & Hf & Hc) [(e & He & Hi & Hs) Hn]. split; [|by rewrite Hf]. destruct (Hc _ _ He) as (e' & He' & Ei & Es). exists e'. split_and!; [done|congruence|lia].
Qed.

Lemma existsb_removed p port p' port' l :
  existsb (on_port p port) l = false -> existsb (on_port p port) (List.filter (fun r => negb (on_port p' port' r)) l) = false.
Proof.
  induction l as [|r l IH]; [done|]. cbn [existsb List.filter]. intros [H1 H2]%orb_false_iff. destruct (negb _); cbn [existsb]; [rewrite H1|]; by apply IH.
Qed.

Lemma nop_mapped B p port i T o t :
  nat_wf B t -> nop_ok o -> B + 2 < 2 ^ 64 -> spares p port T (idle_timeout (config t)) o -> mapped p port i T t -> mapped p port i T (apply_nop o t).2.
Proof.
  intros Hwf Ho HB Hs Hm. destruct o as [now f|now f|now|r|p' port']; cbn [apply_nop spares] in *.
  - destruct (translate_outbound_cases B now t f Hwf Ho HB) as (r & t' & f' & -> & [_ A2 _ _ _ _]). by apply (carries_mapped now p port i T t).
  - destruct (translate_inbound_cases B now t f Hwf Ho HB) as (r & t' & f' & -> & [_ A2 _ _ _ _]). by apply (carries_mapped now p port i T t).
  - destruct (age_entries_spec B now t Hwf ltac:(lia)) as (n & t' & -> & _ & _ & Hf & Hbe & _). destruct Hm as [(e & He & Hi & Hl) Hn]. split; [|cbn; by rewrite Hf].
    exists e. split_and!; [|done|done]. cbn. rewrite Hbe. apply map_lookup_filter_Some. split; [done|]. cbn. unfold saturating_sub. lia.
  - destruct Hm as [He Hn]. split; [done|]. cbn. rewrite existsb_app, Hn. cbn. by rewrite Hs.
  - destruct Hm as [He Hn]. split; [done|]. by apply existsb_removed.
Qed.

Lemma run_mapped p port i T os : forall B t, nat_wf B t -> Forall nop_ok os -> B + 2 * Z.of_nat (length os) < 2 ^ 64 ->
  Forall (spares p port T (idle_timeout (config t))) os -> mapped p port i T t -> mapped p port i T (run_nops os t).
Proof.
  induction os as [|o os IH]; intros B t Hwf Hos HB Hs Hm; [done|]. inversion_clear Hos as [|?? Ho Hos']. inversion_clear Hs as [|?? Hso Hs']. cbn [length] in HB.
  destruct (nop_wf B o t Hwf Ho ltac:(lia)) as (Hw & Hc & _). apply (IH (B + 2) (apply_nop o t).2); [done|done|lia|by rewrite Hc|].
  apply (nop_mapped B); done || lia.
Qed.

Lemma mapped_target p port i T t : mapped p port i T t -> target t p port = Some (guest_ip i, guest_port i).
Proof.
  intros [(e & He & <- & _) Hn]. unfold target. rewrite He. destruct (List.find _ _) as [r|] eqn:Er; [|done].
  apply List.find_some in Er as [Hin Hr]. assert (existsb (on_port p port) (forwards t) = true) as Ht by (apply existsb_exists; by exists r). congruence.
Qed.

(** C30: Replies come back.  After a packet of a guest went out, and whatever packets of
    whatever guests, sweeps within the timeout and changes of rules for other ports come
    between, a packet to the port it was given reaches the guest endpoint that sent
    it, with right checksums. *)
Theorem nat_replies B now now' t f t1 f1 v p os g w :
  nat_wf B t -> Forall is_byte f -> B + 4 + 2 * Z.of_nat (length os) < 2 ^ 64 ->
  translate_outbound now (t, f) = (Ok tt, (t1, f1)) -> parse f = Ok v -> from_ip_proto (v_protocol v) = Some p ->
  existsb (on_port p (field16 f1 20)) (forwards t) = false ->
  Forall nop_ok os -> Forall (spares p (field16 f1 20) now (idle_timeout (config t))) os ->
  Forall is_byte g -> parse g = Ok w -> from_ip_proto (v_protocol w) = Some p -> packet_ok p g -> field16 g 22 = field16 f1 20 ->
  exists t2 g', translate_inbound now' (run_nops os t1, g) = (Ok tt, (t2, g')) /\ rewritten p 16 (octets (src v)) 22 (field16 f 20) g g'.
Proof.
  intros Hwf Hb HB Ht Hv Hp Hn Hos Hs Hg Hw Hpw Hk Hd. destruct (translate_outbound_cases B now t f Hwf Hb ltac:(lia)) as (r & t' & f' & Ht' & [A1 A2 A3 A4 A5 A6]).
  rewrite Ht in Ht'. injection Ht' as <- <- <-. destruct (A5 eq_refl) as (v' & p' & port & Hv' & Hp' & _ & Hbi & (e & He & Ei & Es) & Hrw).
  assert (v' = v) as -> by congruence. assert (p' = p) as -> by congruence. rewrite (rw_port _ _ _ _ _ _ _ Hrw) in *.
  destruct A2 as (Hcf & Hfw & _). assert (mapped p port (endpoint_of p v f) now t1) as Hm by (split; [exists e; split_and!; [done|done|lia]|by rewrite Hfw]).
  assert (mapped p port (endpoint_of p v f) now (run_nops os t1)) as Hm' by (apply (run_mapped p port _ now os (B + 2)); [done|done|lia|by rewrite Hcf|done]).
  destruct (run_wf os (B + 2) t1 A1 Hos ltac:(lia)) as [Hw1 _].
  destruct (translate_inbound_cases _ now' (run_nops os t1) g Hw1 Hg ltac:(lia)) as (r & t2 & g' & -> & [_ _ _ _ _ B6]).
  apply mapped_target in Hm'. rewrite <- Hd in Hm'. destruct (B6 w p _ Hw Hpw Hk Hm') as [-> Hr]. exists t2, g'. by split.
Qed.

(** A rule added for a port that a flow already has takes the flow's replies: they go to
    the endpoint of the rule, not to the guest that sent the packet. *)
Theorem forward_takes_replies B now t i port r g w :
  nat_wf B t -> B + 2 < 2 ^ 64 -> by_internal t !! i = Some port ->
  existsb (on_port (protocol i) port) (forwards t) = false -> forward_ok r -> on_port (protocol i) port r = true ->
  Forall is_byte g -> parse g = Ok w -> from_ip_proto (v_protocol w) = Some (protocol i) -> packet_ok (protocol i) g -> field16 g 22 = port ->
  target t (protocol i) port = Some (guest_ip i, guest_port i) /\
  exists t' g', translate_inbound now (add_port_forward r t, g) = (Ok tt, (t', g')) /\
    rewritten (protocol i) 16 (octets (f_guest_ip r)) 22 (f_guest_port r) g g' /\ by_internal t' !! i = Some port.
Proof.
  intros Hwf HB Hi Hn Hr Hon Hg Hw Hp Hk Hd. destruct (wf_out _ _ Hwf _ _ Hi) as (e & He & Ee). split.
  { apply (mapped_target _ _ _ (last_seen e)). split; [|done]. exists e. split_and!; [done|done|lia]. }
  assert (nat_wf B (add_port_forward r t)) as Hwf'. { apply set_forwards_wf; [|done]. apply Forall_app. split; [apply (wf_forwards _ _ Hwf)|by constructor]. }
  assert (target (add_port_forward r t) (protocol i) port = Some (f_guest_ip r, f_guest_port r)) as Ht.
  { unfold target. cbn [add_port_forward set_forwards forwards]. rewrite find_app. destruct (List.find (on_port (protocol i) port) (forwards t)) as [x|] eqn:Ex.
    - apply List.find_some in Ex as [Hin Hx]. assert (existsb (on_port (protocol i) port) (forwards t) = true) by (apply existsb_exists; by exists x). congruence.
    - cbn [List.find]. by rewrite Hon. }
  destruct (translate_inbound_cases B now (add_port_forward r t) g Hwf' Hg HB) as (x & t' & g' & -> & [B1 B2 _ _ _ B6]). rewrite <- Hd in Ht.
  destruct (B6 w (protocol i) _ Hw Hp Hk Ht) as [-> Hrw]. exists t', g'. split_and!; [done|done|]. destruct B2 as (_ & _ & B2). destruct (B2 (protocol i, port) e He) as (e' & He' & Ei & _).
  destruct (wf_in _ _ B1 _ _ _ He') as (_ & Hi' & _). by rewrite Ei, Ee in Hi'.
Qed.

(** Ports run out exactly when every port of the range is mapped for the protocol or
    claimed by a rule, and then nothing changes. *)
Theorem ports_exhausted B now i t :
  nat_wf B t -> endpoint_ok i -> B + 1 < 2 ^ 64 -> by_internal t !! i = None ->
  (external_port_for now i t = (Err PortsExhausted, t) <->
   forall c, (port_range (config t)).1 <= c <= (port_range (config t)).2 ->
     existsb (on_port (protocol i) c) (forwards t) = true \/ is_Some (by_external t !! (protocol i, c))).
Proof.
  intros Hwf Hi HB Hn. destruct (external_port_for_spec B now i t Hwf Hi HB) as [(port & t' & Ht & Hw & Hbi & Hcf & _ & _ & Hfree)|(Ht & _ & Hno)].
  - split; [intros E; rewrite Ht in E; discriminate|]. intros Hall. destruct (Hfree Hn) as [F1 F2].
    destruct (wf_out _ _ Hw _ _ Hbi) as (e & He & _). pose proof (wf_in _ _ Hw _ _ _ He) as (_ & _ & Hr & _). rewrite Hcf in Hr.
    destruct (Hall port Hr) as [E|[x Hx]]; congruence.
  - split; [|done]. intros _ c Hc. specialize (Hno c Hc). destruct (existsb _ _) eqn:E; [by left|right]. destruct (by_external t !! _) eqn:E2; [done|]. by destruct Hno.
Qed.

(** ** Witnesses *)

Definition example_nat : NatTable := mkNat default_config ∅ ∅ [] 49152 (mkStats 0 0 0 0 0 0).
(** A datagram of the guest 10.0.0.2, port 5000, to 1.2.3.4, port 12246. *)
Definition datagram : bytes :=
  [0x45; 0; 0; 28; 0; 0; 0; 0; 64; 17; 0; 0; 10; 0; 0; 2; 1; 2; 3; 4; 0x13; 0x88; 0x2F; 0xD6; 0; 8; 0xAE; 0x78].
(** Its answer, to the port 49152 of 10.0.2.2. *)
Definition answer : bytes :=
  [0x45; 0; 0; 28; 0; 0; 0; 0; 64; 17; 0; 0; 1; 2; 3; 4; 10; 0; 2; 2; 0x2F; 0xD6; 0xC0; 0; 0; 8; 1; 2].
Definition guest_endpoint : InternalEndpoint := mkEndpoint Udp (10, 0, 0, 2) 5000.
Definition datagram_view : Ipv4HeaderView := mkView 20 17 (10, 0, 0, 2).
Definition answer_view : Ipv4HeaderView := mkView 20 17 (1, 2, 3, 4).
Definition sent_table : NatTable := (translate_outbound 5 (example_nat, datagram)).2.1.
Definition sent_datagram : bytes := (translate_outbound 5 (example_nat, datagram)).2.2.
Definition example_rule : PortForward := mkForward Udp 49152 (10, 0, 0, 3) 80.

Lemma default_config_ok : config_ok default_config.
Proof. split_and!; cbn; try lia. repeat constructor; lia. Qed.

Lemma example_wf : nat_wf 0 example_nat.
Proof. destruct (nat_new_wf default_config default_config_ok) as (t & Ht & Hwf & _). vm_compute in Ht. injection Ht as <-. exact Hwf. Qed.

Lemma datagram_bytes : Forall is_byte datagram.
Proof. apply bytes_forallb. reflexivity. Qed.
Lemma answer_bytes : Forall is_byte answer.
Proof. apply bytes_forallb. reflexivity. Qed.
Lemma sent_wf : nat_wf 2 sent_table.
Proof.
  destruct (translate_outbound_cases 0 5 example_nat datagram example_wf datagram_bytes ltac:(lia)) as (r & t & f & Ht & [Hwf _ _ _ _ _]).
  unfold sent_table. rewrite Ht. exact Hwf.
Qed.

(** A datagram with a checksum can leave without one: the sum can come out as zero,
    which stands for no checksum, where the protocol asks for 0xFFFF. *)
Lemma udp_checksum_dropped :
  segment_valid Udp datagram /\ field16 datagram 26 <> 0 /\
  (translate_outbound 5 (example_nat, datagram)).1 = Ok tt /\ field16 sent_datagram 26 = 0.
Proof. split_and!; [vm_compute; reflexivity|vm_compute; discriminate|vm_compute; reflexivity..]. Qed.

Lemma nat_invariant_witness :
  exists t, nat_new default_config = Ok t /\ nat_wf 4 (run_nops [NOut 5 datagram; NAge 9] t) /\
    forall o, nop_ok o -> is_panic (apply_nop o (run_nops [NOut 5 datagram; NAge 9] t)).1 = false.
Proof.
  apply (nat_invariant default_config [NOut 5 datagram; NAge 9]); [exact default_config_ok| |cbn; lia]. constructor; [exact datagram_bytes|constructor; [exact I|constructor]].
Defined.

Lemma outbound_spec_witness :
  exists t' f' port, translate_outbound 5 (example_nat, datagram) = (Ok tt, (t', f')) /\ by_internal t' !! guest_endpoint = Some port /\
    (forall n, by_internal example_nat !! guest_endpoint = Some n -> port = n) /\ rewritten Udp 12 [10; 0; 2; 2] 20 port datagram f'.
Proof.
  apply (outbound_spec 0 5 example_nat datagram datagram_view Udp); [exact example_wf|lia|exact datagram_bytes|reflexivity|reflexivity| |].
  - split; [exact datagram_bytes|split; vm_compute; discriminate].
  - right. exists 50000. split; [cbn; lia|]. split; reflexivity.
Defined.

Lemma nat_replies_witness :
  exists t2 g', translate_inbound 90 (run_nops [NIn 7 answer; NAge 80] sent_table, answer) = (Ok tt, (t2, g')) /\
    rewritten Udp 16 [10; 0; 0; 2] 22 5000 answer g'.
Proof.
  apply (nat_replies 0 5 90 example_nat datagram sent_table sent_datagram datagram_view Udp [NIn 7 answer; NAge 80] answer answer_view);
    [exact example_wf|exact datagram_bytes|cbn; lia|vm_compute; reflexivity|reflexivity|reflexivity|vm_compute; reflexivity| | |exact answer_bytes|reflexivity|reflexivity| |vm_compute; reflexivity].
  - constructor; [exact answer_bytes|constructor; [exact I|constructor]].
  - constructor; [vm_compute; discriminate|constructor; [split; vm_compute; reflexivity|constructor]].
  - split; [exact answer_bytes|split; vm_compute; discriminate].
Defined.

Lemma forward_takes_replies_witness :
  target sent_table Udp 49152 = Some ((10, 0, 0, 2), 5000) /\
  exists t' g', translate_inbound 90 (add_port_forward example_rule sent_table, answer) = (Ok tt, (t', g')) /\
    rewritten Udp 16 [10; 0; 0; 3] 22 80 answer g' /\ by_internal t' !! guest_endpoint = Some 49152.
Proof.
  apply (forward_takes_replies 2 90 sent_table guest_endpoint 49152 example_rule answer answer_view);
    [exact sent_wf|lia|vm_compute; reflexivity|vm_compute; reflexivity| |reflexivity|exact answer_bytes|reflexivity|reflexivity| |reflexivity].
  - split; [repeat constructor; lia|split; cbn; lia].
  - split; [exact answer_bytes|split; vm_compute; discriminate].
Defined.

Lemma ports_exhausted_witness :
  external_port_for 3 guest_endpoint example_nat = (Err PortsExhausted, example_nat) <->
  forall c, 49152 <= c <= 65535 -> existsb (on_port Udp c) (forwards example_nat) = true \/ is_Some (by_external example_nat !! (Udp, c)).
Proof.
  apply (ports_exhausted 0 3 guest_endpoint example_nat); [exact example_wf| |lia|reflexivity]. split; [repeat constructor; lia|split; cbn; lia].
Defined.
