(* ===== verification/VSwitch.v ===== *)
(** * The virtual switch ([hv2-net/src/vswitch.rs])

    Ports, the table of learned addresses with ageing and eviction, and what happens to
    a frame: forwarded, flooded or dropped. *)

From S2P Require Import Prelude.

(** ** Data *)

Abbreviation MacAddress := bytes (only parsing).
Definition BROADCAST_MAC : MacAddress := [0xFF; 0xFF; 0xFF; 0xFF; 0xFF; 0xFF].

Inductive VlanMode := Access (v : Z) | Trunk (vs : list Z) | NoVlan.

Record PortStats := mkPortStats { rx_packets : Z; rx_bytes : Z; tx_packets : Z; tx_bytes : Z; p_dropped : Z }.
Record SwitchPort := mkPort {
  p_id : Z;
  p_name : string;
  p_mac : option MacAddress;
  vlan_mode : VlanMode;
  enabled : bool;
  p_stats : PortStats
}.
Record MacEntry := mkEntry { port_id : Z; e_vlan : option Z; last_seen : Z }.

(** Times are nanoseconds. *)
Record SwitchConfig := mkConfig { max_mac_entries : Z; mac_aging_timeout : Z; c_name : string; promiscuous : bool }.
Definition default_config : SwitchConfig := mkConfig 8192 (300 * 10 ^ 9) "vswitch0" false.
Definition config_new (nm : string) : SwitchConfig := mkConfig 8192 (300 * 10 ^ 9) nm false.

Record SwitchStats := mkStats { forwarded : Z; flooded : Z; dropped : Z; mac_learned : Z; mac_aged : Z }.
Record VirtualSwitch := mkSwitch {
  config : SwitchConfig;
  ports : gmap Z SwitchPort;
  mac_table : gmap MacAddress MacEntry;
  next_port_id : Z;
  stats : SwitchStats
}.
Inductive ForwardAction := Unicast (p : Z) | Flood (ps : list Z) | Drop.

(** No operation returns an error. *)
Abbreviation Sw := (ST VirtualSwitch Empty_set).

(** The order in which a hash map yields its entries: any permutation. *)
Class HashOrder := {
  ports_iter : gmap Z SwitchPort -> list (Z * SwitchPort);
  table_iter : gmap MacAddress MacEntry -> list (MacAddress * MacEntry);
  ports_iter_perm m : ports_iter m ≡ₚ map_to_list m;
  table_iter_perm m : table_iter m ≡ₚ map_to_list m
}.

Definition zero_stats : PortStats := mkPortStats 0 0 0 0 0.
Definition port_new (i : Z) (nm : string) : SwitchPort := mkPort i nm None NoVlan true zero_stats.
Definition with_mac (m : MacAddress) (p : SwitchPort) : SwitchPort :=
  mkPort (p_id p) (p_name p) (Some m) (vlan_mode p) (enabled p) (p_stats p).
Definition with_vlan (v : VlanMode) (p : SwitchPort) : SwitchPort :=
  mkPort (p_id p) (p_name p) (p_mac p) v (enabled p) (p_stats p).
Definition set_enabled (b : bool) (p : SwitchPort) : SwitchPort :=
  mkPort (p_id p) (p_name p) (p_mac p) (vlan_mode p) b (p_stats p).
Definition set_pstats (st : PortStats) (p : SwitchPort) : SwitchPort :=
  mkPort (p_id p) (p_name p) (p_mac p) (vlan_mode p) (enabled p) st.

Definition accepts_vlan (p : SwitchPort) (v : option Z) : bool :=
  match vlan_mode p, v with
  | NoVlan, _ => true
  | Access _, None => true
  | Access port_vlan, Some v => port_vlan =? v
  | Trunk vlans, Some v => bool_decide (v ∈ vlans)
  | Trunk _, None => false
  end.

Definition set_ports (m : gmap Z SwitchPort) (s : VirtualSwitch) : VirtualSwitch :=
  mkSwitch (config s) m (mac_table s) (next_port_id s) (stats s).
Definition set_table (m : gmap MacAddress MacEntry) (s : VirtualSwitch) : VirtualSwitch :=
  mkSwitch (config s) (ports s) m (next_port_id s) (stats s).
Definition set_next (n : Z) (s : VirtualSwitch) : VirtualSwitch :=
  mkSwitch (config s) (ports s) (mac_table s) n (stats s).
Definition set_stats (st : SwitchStats) (s : VirtualSwitch) : VirtualSwitch :=
  mkSwitch (config s) (ports s) (mac_table s) (next_port_id s) st.

(** ** Counters: [+= n] *)

Inductive Counter := CForwarded | CFlooded | CDropped | CLearned | CAged.
Definition counter (k : Counter) (s : SwitchStats) : Z :=
  match k with
  | CForwarded => forwarded s | CFlooded => flooded s | CDropped => dropped s
  | CLearned => mac_learned s | CAged => mac_aged s
  end.
Definition set_count (k : Counter) (n : Z) (s : SwitchStats) : SwitchStats :=
  let '(mkStats a b c d e) := s in
  match k with
  | CForwarded => mkStats n b c d e | CFlooded => mkStats a n c d e | CDropped => mkStats a b n d e
  | CLearned => mkStats a b c n e | CAged => mkStats a b c d n
  end.
Definition bump (k : Counter) (n : Z) : Sw unit :=
  v ← st_read (fun s => add 64 (counter k (stats s)) n);
  st_modify (fun s => set_stats (set_count k v (stats s)) s).

Definition count_rx (len : Z) (st : PortStats) : Res Empty_set PortStats :=
  a ← add 64 (rx_packets st) 1;
  b ← add 64 (rx_bytes st) len;
  mret (mkPortStats a b (tx_packets st) (tx_bytes st) (p_dropped st)).
Definition count_tx (len : Z) (st : PortStats) : Res Empty_set PortStats :=
  a ← add 64 (tx_packets st) 1;
  b ← add 64 (tx_bytes st) len;
  mret (mkPortStats (rx_packets st) (rx_bytes st) a b (p_dropped st)).
Definition count_drop (st : PortStats) : Res Empty_set PortStats :=
  a ← add 64 (p_dropped st) 1;
  mret (mkPortStats (rx_packets st) (rx_bytes st) (tx_packets st) (tx_bytes st) a).

(** [if let Some(port) = self.ports.get_mut(&id)] around a change of its counters. *)
Definition count_on (id : Z) (f : PortStats -> Res Empty_set PortStats) : Sw unit :=
  p ← st_gets (fun s => ports s !! id);
  match p with
  | None => mret tt
  | Some p => st ← st_lift (f (p_stats p)); st_modify (fun s => set_ports (<[id := set_pstats st p]> (ports s)) s)
  end.

(** ** Operations *)

Definition switch_new (c : SwitchConfig) : VirtualSwitch := mkSwitch c ∅ ∅ 0 (mkStats 0 0 0 0 0).
Definition with_defaults : VirtualSwitch := switch_new default_config.

Definition add_port_with_config (nm : string) (m : option MacAddress) (v : VlanMode) : Sw Z :=
  id ← st_gets next_port_id;
  next ← st_lift (add 32 id 1);
  _ ← st_modify (set_next next);
  _ ← st_modify (fun s => set_ports (<[id := mkPort id nm m v true zero_stats]> (ports s)) s);
  mret id.
Definition add_port (nm : string) : Sw Z :=
  id ← st_gets next_port_id;
  next ← st_lift (add 32 id 1);
  _ ← st_modify (set_next next);
  _ ← st_modify (fun s => set_ports (<[id := port_new id nm]> (ports s)) s);
  mret id.

Definition remove_port (id : Z) : Sw (option SwitchPort) :=
  _ ← st_modify (fun s => set_table (filter (fun kv => port_id kv.2 <> id) (mac_table s)) s);
  p ← st_gets (fun s => ports s !! id);
  _ ← st_modify (fun s => set_ports (delete id (ports s)) s);
  mret p.

Definition get_port (id : Z) (s : VirtualSwitch) : option SwitchPort := ports s !! id.
(** What a caller does through the reference is [f]. *)
Definition get_port_mut (id : Z) (f : SwitchPort -> SwitchPort) (s : VirtualSwitch) : VirtualSwitch :=
  set_ports (alter f id (ports s)) s.
Definition port_count (s : VirtualSwitch) : Z := Z.of_nat (size (ports s)).
Definition mac_count (s : VirtualSwitch) : Z := Z.of_nat (size (mac_table s)).

(** Broadcast or multicast. *)
Definition group_mac (m : MacAddress) : bool := bool_decide (m = BROADCAST_MAC) || negb (Z.land (m !!! 0%nat) 1 =? 0).

(** [min_by_key]: the first of the least. *)
Definition min_by_last_seen (l : list (MacAddress * MacEntry)) : option (MacAddress * MacEntry) :=
  foldl (fun best x => match best with
                       | None => Some x
                       | Some y => if last_seen x.2 <? last_seen y.2 then Some x else Some y
                       end) None l.

Section Frames.
Context `{HashOrder}.

Definition learn_mac (now : Z) (m : MacAddress) (id : Z) (v : option Z) : Sw unit :=
  if group_mac m then mret tt
  else
    e ← st_gets (fun s => mac_table s !! m);
    match e with
    | Some _ => st_modify (fun s => set_table (<[m := mkEntry id v now]> (mac_table s)) s)
    | None =>
        full ← st_gets (fun s => max_mac_entries (config s) <=? Z.of_nat (size (mac_table s)));
        oldest ← st_gets (fun s => min_by_last_seen (table_iter (mac_table s)));
        _ ← (match (if full : bool then oldest else None) with
             | Some (old, _) => _ ← st_modify (fun s => set_table (delete old (mac_table s)) s); bump CAged 1
             | None => mret tt
             end);
        _ ← st_modify (fun s => set_table (<[m := mkEntry id v now]> (mac_table s)) s);
        bump CLearned 1
    end.

Fixpoint tx_all (len : Z) (targets : list Z) : Sw unit :=
  match targets with
  | [] => mret tt
  | id :: l => _ ← count_on id (count_tx len); tx_all len l
  end.

Definition flood (src len : Z) : Sw ForwardAction :=
  targets ← st_gets (fun s => (List.filter (fun kv => negb (kv.1 =? src) && enabled kv.2) (ports_iter (ports s))).*1);
  _ ← tx_all len targets;
  _ ← bump CFlooded 1;
  mret (match targets with [] => Drop | _ => Flood targets end).

(** The conditions on a port that a frame meets. *)
Definition port_enabled (id : Z) (s : VirtualSwitch) : bool :=
  match ports s !! id with Some p => enabled p | None => false end.
Definition vlan_refused (id : Z) (v : option Z) (s : VirtualSwitch) : bool :=
  match ports s !! id with Some p => negb (accepts_vlan p v) | None => false end.
Definition unreachable (id : Z) (v : option Z) (s : VirtualSwitch) : bool :=
  match ports s !! id with Some p => negb (enabled p) || negb (accepts_vlan p v) | None => false end.

Definition process_frame (now src : Z) (src_mac dst_mac : MacAddress) (v : option Z) (len : Z) : Sw ForwardAction :=
  en ← st_gets (port_enabled src);
  if negb en then _ ← bump CDropped 1; mret Drop
  else
    refused ← st_gets (vlan_refused src v);
    if refused : bool then _ ← bump CDropped 1; _ ← count_on src count_drop; mret Drop
    else
      _ ← count_on src (count_rx len);
      _ ← learn_mac now src_mac src v;
      promisc ← st_gets (fun s => promiscuous (config s));
      if promisc : bool then flood src len
      else if group_mac dst_mac then flood src len
      else
        e ← st_gets (fun s => mac_table s !! dst_mac);
        match e with
        | None => flood src len
        | Some e =>
            let dst := port_id e in
            if dst =? src then mret Drop
            else
              blocked ← st_gets (unreachable dst v);
              if blocked : bool then _ ← bump CDropped 1; mret Drop
              else _ ← count_on dst (count_tx len); _ ← bump CForwarded 1; mret (Unicast dst)
        end.
End Frames.

Definition age_mac_table (now : Z) : Sw Z :=
  before ← st_gets mac_count;
  _ ← st_modify (fun s => set_table (filter (fun kv => saturating_sub now (last_seen kv.2) < mac_aging_timeout (config s)) (mac_table s)) s);
  aged ← st_read (fun s => sub before (mac_count s));
  _ ← bump CAged aged;
  mret aged.

Definition lookup_mac (m : MacAddress) (s : VirtualSwitch) : option Z := port_id <$> mac_table s !! m.
Definition flush_mac_table (s : VirtualSwitch) : VirtualSwitch := set_table ∅ s.
Definition set_port_enabled (id : Z) (b : bool) : Sw bool :=
  p ← st_gets (fun s => ports s !! id);
  match p with
  | Some p => _ ← st_modify (fun s => set_ports (<[id := set_enabled b p]> (ports s)) s); mret true
  | None => mret false
  end.

(** ** The counters of a port *)

Definition rx_of (len : Z) (p : SwitchPort) : SwitchPort :=
  set_pstats (mkPortStats (rx_packets (p_stats p) + 1) (rx_bytes (p_stats p) + len) (tx_packets (p_stats p)) (tx_bytes (p_stats p)) (p_dropped (p_stats p))) p.
Definition tx_of (len : Z) (p : SwitchPort) : SwitchPort :=
  set_pstats (mkPortStats (rx_packets (p_stats p)) (rx_bytes (p_stats p)) (tx_packets (p_stats p) + 1) (tx_bytes (p_stats p) + len) (p_dropped (p_stats p))) p.
Definition drop_of (p : SwitchPort) : SwitchPort :=
  set_pstats (mkPortStats (rx_packets (p_stats p)) (rx_bytes (p_stats p)) (tx_packets (p_stats p)) (tx_bytes (p_stats p)) (p_dropped (p_stats p) + 1)) p.

Definition stats_le (B : Z) (st : PortStats) : Prop :=
  0 <= rx_packets st <= B /\ 0 <= rx_bytes st <= B /\ 0 <= tx_packets st <= B /\ 0 <= tx_bytes st <= B /\ 0 <= p_dropped st <= B.
Definition ports_le (B : Z) (m : gmap Z SwitchPort) : Prop := forall id p, m !! id = Some p -> stats_le B (p_stats p).

Lemma set_ports_same s : set_ports (ports s) s = s.
Proof. destruct s. reflexivity. Qed.

(** Counting on one port, the three ways. *)
Lemma count_on_alter id f g s :
  (forall p, ports s !! id = Some p -> exists st, f (p_stats p) = Ok st /\ g p = set_pstats st p) ->
  count_on id f s = (Ok tt, set_ports (alter g id (ports s)) s).
Proof.
  intros Hf. unfold count_on. rewrite st_bind_gets. destruct (ports s !! id) as [p|] eqn:E.
  - destruct (Hf p eq_refl) as (st & Hst & Hg). rewrite Hst, st_bind_lift. unfold st_modify. rewrite <- Hg.
    rewrite <- (insert_id (alter g id (ports s)) id (g p)) by (rewrite lookup_alter_eq, E; reflexivity).
    f_equal. f_equal. apply map_eq. intros j. destruct (decide (j = id)) as [->|Hne]; [rewrite !lookup_insert_eq; reflexivity|].
    rewrite !lookup_insert_ne, lookup_alter_ne by congruence. reflexivity.
  - replace (alter g id (ports s)) with (ports s); [rewrite set_ports_same; reflexivity|]. symmetry. apply map_eq. intros j.
    destruct (decide (j = id)) as [->|Hne]; [rewrite lookup_alter_eq, E; reflexivity|rewrite lookup_alter_ne by congruence; reflexivity].
Qed.

Lemma count_rx_on B id len s :
  ports_le B (ports s) -> 0 <= len -> B + len + 1 < 2 ^ 64 -> count_on id (count_rx len) s = (Ok tt, set_ports (alter (rx_of len) id (ports s)) s).
Proof.
  intros Hp Hl HB. apply count_on_alter. intros p E. destruct (Hp _ _ E) as (H1 & H2 & _). unfold count_rx.
  rewrite !add_ok by lia. eexists. split; reflexivity.
Qed.
Lemma count_drop_on B id s :
  ports_le B (ports s) -> B + 1 < 2 ^ 64 -> count_on id count_drop s = (Ok tt, set_ports (alter drop_of id (ports s)) s).
Proof.
  intros Hp HB. apply count_on_alter. intros p E. destruct (Hp _ _ E) as (_ & _ & _ & _ & H5). unfold count_drop.
  rewrite !add_ok by lia. eexists. split; reflexivity.
Qed.
Lemma count_tx_on id len s :
  (forall p, ports s !! id = Some p -> tx_packets (p_stats p) + 1 < 2 ^ 64 /\ tx_bytes (p_stats p) + len < 2 ^ 64) ->
  count_on id (count_tx len) s = (Ok tt, set_ports (alter (tx_of len) id (ports s)) s).
Proof.
  intros Hp. apply count_on_alter. intros p E. destruct (Hp _ E) as [H1 H2]. unfold count_tx.
  rewrite !add_ok by lia. eexists. split; reflexivity.
Qed.

(** The loop of [flood]. *)
Definition tx_ports (len : Z) (l : list Z) (m : gmap Z SwitchPort) : gmap Z SwitchPort :=
  foldl (fun m id => alter (tx_of len) id m) m l.

Lemma tx_ports_lookup len l m id :
  NoDup l -> tx_ports len l m !! id = if decide (id ∈ l) then tx_of len <$> m !! id else m !! id.
Proof.
  revert m. induction l as [|x l IH]; intros m Hnd; [reflexivity|]. apply NoDup_cons in Hnd as [Hx Hnd]. cbn [tx_ports foldl].
  fold (tx_ports len l (alter (tx_of len) x m)). rewrite IH by exact Hnd. destruct (decide (id = x)) as [->|Hne].
  - rewrite decide_False, decide_True by (exact Hx || apply list_elem_of_here). apply lookup_alter_eq.
  - rewrite lookup_alter_ne by congruence. rewrite (decide_ext (id ∈ x :: l) (id ∈ l)); [reflexivity|].
    rewrite elem_of_cons. tauto.
Qed.

Lemma tx_all_ok len l s :
  NoDup l ->
  (forall id p, id ∈ l -> ports s !! id = Some p -> tx_packets (p_stats p) + 1 < 2 ^ 64 /\ tx_bytes (p_stats p) + len < 2 ^ 64) ->
  tx_all len l s = (Ok tt, set_ports (tx_ports len l (ports s)) s).
Proof.
  revert s. induction l as [|x l IH]; intros s Hnd Hf; [cbn; rewrite set_ports_same; reflexivity|].
  apply NoDup_cons in Hnd as [Hx Hnd]. cbn [tx_all]. rewrite st_bind_eq, count_tx_on by (intros p; apply Hf, list_elem_of_here).
  rewrite IH; [reflexivity|exact Hnd|]. intros id p Hid. cbn [set_ports ports].
  rewrite lookup_alter_ne by congruence. apply Hf. apply list_elem_of_further, Hid.
Qed.

(** ** The state invariant *)

Record sw_wf (B : Z) (s : VirtualSwitch) : Prop := {
  wf_next : fits 32 (next_port_id s);
  wf_ids id : is_Some (ports s !! id) -> 0 <= id < next_port_id s;
  wf_ports : ports_le B (ports s);
  wf_entries m e : mac_table s !! m = Some e -> is_Some (ports s !! port_id e) /\ group_mac m = false;
  wf_size : mac_count s <= Z.max 1 (max_mac_entries (config s));
  wf_account : mac_count s + mac_aged (stats s) <= mac_learned (stats s);
  wf_counts k : 0 <= counter k (stats s) <= B
}.

Lemma stats_le_mono B B' st : B <= B' -> stats_le B st -> stats_le B' st.
Proof. unfold stats_le. lia. Qed.
Lemma sw_wf_mono B B' s : B <= B' -> sw_wf B s -> sw_wf B' s.
Proof.
  intros HB [H1 H2 H3 H4 H5 H6 H7]. split; try assumption; [|intros k; specialize (H7 k); lia].
  intros id p E. apply (stats_le_mono B); [exact HB|exact (H3 id p E)].
Qed.

#[global] Instance Counter_eq_dec : EqDecision Counter.
Proof. solve_decision. Defined.
Lemma counter_set_count k k' n s : counter k (set_count k' n s) = if decide (k = k') then n else counter k s.
Proof. destruct s, k, k'; reflexivity. Qed.
Lemma bump_eq k n s :
  counter k (stats s) + n < 2 ^ 64 -> bump k n s = (Ok tt, set_stats (set_count k (counter k (stats s) + n) (stats s)) s).
Proof. intros Hn. unfold bump. rewrite st_bind_read, add_ok by exact Hn. reflexivity. Qed.

(** A counter of frames. *)
Lemma bump_frame_wf B k s :
  sw_wf B s -> k <> CLearned -> k <> CAged -> sw_wf (B + 1) (set_stats (set_count k (counter k (stats s) + 1) (stats s)) s).
Proof.
  intros Hw Hl Ha. destruct (sw_wf_mono B (B + 1) s ltac:(lia) Hw) as [H1 H2 H3 H4 H5 H6 H7]. split; try assumption.
  - change (mac_count s + counter CAged (set_count k (counter k (stats s) + 1) (stats s))
            <= counter CLearned (set_count k (counter k (stats s) + 1) (stats s))).
    rewrite !counter_set_count, !decide_False by congruence. exact H6.
  - intros k'. cbn [set_stats stats]. rewrite counter_set_count. pose proof (wf_counts _ _ Hw k). specialize (H7 k'). case_decide; lia.
Qed.

(** Changing the counters of ports. *)
Lemma ports_wf B B' s m :
  sw_wf B s -> B <= B' -> ports_le B' m -> (forall id, is_Some (m !! id) <-> is_Some (ports s !! id)) -> sw_wf B' (set_ports m s).
Proof.
  intros Hw HB Hm Hd. destruct (sw_wf_mono B B' s HB Hw) as [H1 H2 H3 H4 H5 H6 H7]. split; try assumption; cbn [set_ports ports].
  - intros id Hid. apply H2, Hd, Hid.
  - intros a e E. destruct (H4 a e E) as [H8 H9]. split; [apply Hd, H8|exact H9].
Qed.

Lemma alter_some {A} (f : A -> A) (i j : Z) (m : gmap Z A) : is_Some (alter f i m !! j) <-> is_Some (m !! j).
Proof.
  destruct (decide (i = j)) as [->|Hne]; [rewrite lookup_alter_eq; apply fmap_is_Some|rewrite lookup_alter_ne by exact Hne; reflexivity].
Qed.

Lemma alter_ports_le B B' f i m :
  ports_le B m -> B <= B' -> (forall p, stats_le B (p_stats p) -> stats_le B' (p_stats (f p))) -> ports_le B' (alter f i m).
Proof.
  intros Hm HB Hf id p E. destruct (decide (i = id)) as [->|Hne].
  - rewrite lookup_alter_eq in E. destruct (m !! id) as [q|] eqn:Eq; [|discriminate]. injection E as <-. apply Hf, (Hm _ _ Eq).
  - rewrite lookup_alter_ne in E by exact Hne. apply (stats_le_mono B); [exact HB|exact (Hm _ _ E)].
Qed.

(** ** Learning *)

Lemma min_by_last_seen_spec l :
  match min_by_last_seen l with
  | None => l = []
  | Some x => x ∈ l /\ forall y, y ∈ l -> last_seen x.2 <= last_seen y.2
  end.
Proof.
  induction l as [|x l IH] using rev_ind; [reflexivity|]. unfold min_by_last_seen in *. rewrite foldl_app. cbn [foldl].
  set (b := foldl _ None l) in *. clearbody b. destruct b as [y|].
  - destruct IH as [Hy Hmin]. destruct (Z.ltb_spec (last_seen x.2) (last_seen y.2)) as [Hlt|Hge].
    + split; [apply elem_of_app; right; apply list_elem_of_singleton; reflexivity|].
      intros z [Hz|Hz]%elem_of_app; [specialize (Hmin z Hz); lia|]. apply list_elem_of_singleton in Hz as ->. lia.
    + split; [apply elem_of_app; left; exact Hy|].
      intros z [Hz|Hz]%elem_of_app; [exact (Hmin z Hz)|]. apply list_elem_of_singleton in Hz as ->. exact Hge.
  - subst l. split; [apply list_elem_of_singleton; reflexivity|]. intros z Hz. apply list_elem_of_singleton in Hz as ->. lia.
Qed.

(** What learning does to the table: a group address is not learned, a known address is
    updated, a new one inserted, after the entry seen longest ago is evicted from a full
    table. *)
Definition learned (limit now : Z) (m : MacAddress) (id : Z) (v : option Z) (t t' : gmap MacAddress MacEntry) : Prop :=
  if group_mac m then t' = t
  else exists base, t' = <[m := mkEntry id v now]> base /\
    ((base = t /\ (is_Some (t !! m) \/ Z.of_nat (size t) < limit \/ t = ∅)) \/
     (exists old eo, t !! m = None /\ limit <= Z.of_nat (size t) /\ t !! old = Some eo /\
        (forall m' e', t !! m' = Some e' -> last_seen eo <= last_seen e') /\ base = delete old t)).

Lemma set_table_wf B B' s t st :
  sw_wf B s -> B <= B' ->
  (forall m e, t !! m = Some e -> is_Some (ports s !! port_id e) /\ group_mac m = false) ->
  Z.of_nat (size t) <= Z.max 1 (max_mac_entries (config s)) ->
  Z.of_nat (size t) + mac_aged st <= mac_learned st -> (forall k, 0 <= counter k st <= B') ->
  sw_wf B' (set_stats st (set_table t s)).
Proof. intros Hw HB He Hs Ha Hc. destruct (sw_wf_mono B B' s HB Hw) as [H1 H2 H3 H4 H5 H6 H7]. split; assumption. Qed.

Lemma aged_le B s : sw_wf B s -> 0 <= mac_aged (stats s) /\ mac_count s + mac_aged (stats s) <= B.
Proof.
  intros Hw. pose proof (wf_account _ _ Hw). pose proof (wf_counts _ _ Hw CAged). pose proof (wf_counts _ _ Hw CLearned).
  unfold mac_count in *. simpl in *. lia.
Qed.

Lemma insert_entries (s : VirtualSwitch) (m : MacAddress) (id : Z) (v : option Z) (now : Z) (t : gmap MacAddress MacEntry) :
  group_mac m = false -> is_Some (ports s !! id) ->
  (forall m' e, t !! m' = Some e -> is_Some (ports s !! port_id e) /\ group_mac m' = false) ->
  forall m' e, <[m := mkEntry id v now]> t !! m' = Some e -> is_Some (ports s !! port_id e) /\ group_mac m' = false.
Proof. intros Hg Hid Ht m' e [[<- <-]|[_ E]]%lookup_insert_Some; [split; assumption|exact (Ht m' e E)]. Qed.

(** The part of the state that learning does not touch. *)
Definition same_but_table (s s' : VirtualSwitch) : Prop :=
  config s' = config s /\ ports s' = ports s /\ next_port_id s' = next_port_id s /\
  forall k, k <> CLearned -> k <> CAged -> counter k (stats s') = counter k (stats s).

Lemma insert_new_wf (B : Z) (s : VirtualSwitch) (m : MacAddress) (id : Z) (v : option Z) (now : Z) (t : gmap MacAddress MacEntry) :
  sw_wf B s -> group_mac m = false -> is_Some (ports s !! id) -> t ⊆ mac_table s -> t !! m = None ->
  Z.of_nat (size t) < Z.max 1 (max_mac_entries (config s)) -> mac_count s - Z.of_nat (size t) <= 1 ->
  forall st, (forall k, k <> CLearned -> k <> CAged -> counter k st = counter k (stats s)) ->
  mac_learned st = mac_learned (stats s) + 1 -> mac_aged st = mac_aged (stats s) + (mac_count s - Z.of_nat (size t)) ->
  sw_wf (B + 1) (set_stats st (set_table (<[m := mkEntry id v now]> t) s)).
Proof.
  intros Hw Hg Hid Ht Hm Hlt Hdiff st Hst Hl Ha. pose proof (aged_le _ _ Hw) as [HA HB].
  assert (Hsub : Z.of_nat (size t) <= mac_count s) by (unfold mac_count; apply Nat2Z.inj_le, map_subseteq_size, Ht).
  apply (set_table_wf B); [exact Hw|lia| | | |].
  - apply insert_entries; [exact Hg|exact Hid|]. intros m' e E. apply (wf_entries _ _ Hw). exact (lookup_weaken _ _ _ _ E Ht).
  - rewrite map_size_insert_None by exact Hm. lia.
  - rewrite map_size_insert_None by exact Hm. pose proof (wf_account _ _ Hw). lia.
  - intros k. pose proof (wf_counts _ _ Hw k) as Hk. pose proof (wf_counts _ _ Hw CLearned) as Hk'. simpl in Hk'.
    destruct k; try (rewrite Hst by congruence; lia); simpl; lia.
Qed.

Section Switch.
Context `{HashOrder}.

Lemma table_iter_in t x : x ∈ table_iter t <-> t !! x.1 = Some x.2.
Proof. rewrite table_iter_perm. destruct x as [m e]. apply elem_of_map_to_list. Qed.

Lemma oldest_cases t :
  match min_by_last_seen (table_iter t) with
  | None => t = ∅
  | Some (old, eo) => t !! old = Some eo /\ forall m' e', t !! m' = Some e' -> last_seen eo <= last_seen e'
  end.
Proof.
  pose proof (min_by_last_seen_spec (table_iter t)) as Hm. destruct (min_by_last_seen (table_iter t)) as [[old eo]|].
  - destruct Hm as [Hin Hmin]. apply table_iter_in in Hin. split; [exact Hin|].
    intros m' e' E. apply (Hmin (m', e')). apply table_iter_in. exact E.
  - apply map_to_list_empty_iff, Permutation_nil. rewrite <- table_iter_perm, Hm. reflexivity.
Qed.

(** A new address, with the table [base] that eviction leaves. *)
Lemma learn_new_ok (B now : Z) (m : MacAddress) (id : Z) (v : option Z) (s : VirtualSwitch) (base : gmap MacAddress MacEntry) (n : Z) :
  sw_wf B s -> is_Some (ports s !! id) -> B + 1 < 2 ^ 64 -> group_mac m = false -> base ⊆ mac_table s -> base !! m = None ->
  Z.of_nat (size base) < Z.max 1 (max_mac_entries (config s)) -> n = mac_count s - Z.of_nat (size base) -> 0 <= n <= 1 ->
  exists s', (_ ← st_modify (fun s => set_table (<[m := mkEntry id v now]> (mac_table s)) s); bump CLearned 1 : Sw unit)
               (set_stats (set_count CAged (mac_aged (stats s) + n) (stats s)) (set_table base s)) = (Ok tt, s') /\
    same_but_table s s' /\ mac_table s' = <[m := mkEntry id v now]> base /\ sw_wf (B + 1) s'.
Proof.
  intros Hw Hid HB Hg Hsub Hm Hlt Hn Hn1. pose proof (wf_counts _ _ Hw CLearned) as HL. simpl in HL.
  assert (HL' : counter CLearned (set_count CAged (mac_aged (stats s) + n) (stats s)) = mac_learned (stats s))
    by (rewrite counter_set_count, decide_False by congruence; reflexivity).
  rewrite st_bind_modify, bump_eq by (cbn [set_table set_stats stats]; rewrite HL'; lia).
  cbn [set_table set_stats stats]. rewrite HL'.
  set (st := set_count CLearned (mac_learned (stats s) + 1) (set_count CAged (mac_aged (stats s) + n) (stats s))).
  exists (set_stats st (set_table (<[m := mkEntry id v now]> base) s)).
  assert (Hst : forall k, k <> CLearned -> k <> CAged -> counter k st = counter k (stats s))
    by (intros k Hk1 Hk2; unfold st; rewrite !counter_set_count, !decide_False by congruence; reflexivity).
  split; [reflexivity|]. split; [repeat split; exact Hst|]. split; [reflexivity|].
  apply insert_new_wf; try assumption; [lia| |].
  - change (counter CLearned st = mac_learned (stats s) + 1). unfold st. rewrite counter_set_count, decide_True by reflexivity. reflexivity.
  - change (counter CAged st = mac_aged (stats s) + (mac_count s - Z.of_nat (size base))). unfold st.
    rewrite counter_set_count, decide_False, counter_set_count, decide_True by congruence. lia.
Qed.

(** Without an eviction the counter of aged entries keeps its value. *)
Lemma no_eviction s : set_stats (set_count CAged (mac_aged (stats s) + 0) (stats s)) (set_table (mac_table s) s) = s.
Proof. destruct s as [c p t n [a b d l g]]. cbn. rewrite Z.add_0_r. reflexivity. Qed.

Lemma size_evicted (old : MacAddress) (eo : MacEntry) (t : gmap MacAddress MacEntry) : t !! old = Some eo -> Z.of_nat (size (delete old t)) = Z.of_nat (size t) - 1.
Proof.
  intros E. rewrite <- (insert_delete_id t old eo E) at 2. rewrite map_size_insert_None by apply lookup_delete_eq. lia.
Qed.

Lemma learn_mac_ok B now m id v s :
  sw_wf B s -> is_Some (ports s !! id) -> B + 1 < 2 ^ 64 ->
  exists s', learn_mac now m id v s = (Ok tt, s') /\ same_but_table s s' /\
    learned (max_mac_entries (config s)) now m id v (mac_table s) (mac_table s') /\ sw_wf (B + 1) s'.
Proof.
  intros Hw Hid HB. unfold learn_mac, learned. destruct (group_mac m) eqn:Hg.
  { exists s. split; [reflexivity|]. split; [repeat split; reflexivity|]. split; [reflexivity|]. apply (sw_wf_mono B); [lia|exact Hw]. }
  rewrite st_bind_gets. destruct (mac_table s !! m) as [e|] eqn:Em.
  - exists (set_stats (stats s) (set_table (<[m := mkEntry id v now]> (mac_table s)) s)). split; [destruct s; reflexivity|].
    split; [repeat split; reflexivity|]. split; [eexists; split; [reflexivity|left; eauto]|].
    assert (Hsz : size (<[m := mkEntry id v now]> (mac_table s)) = size (mac_table s)) by (apply map_size_insert_Some; eauto).
    apply (set_table_wf B); rewrite ?Hsz; [exact Hw|lia| |apply (wf_size _ _ Hw)|apply (wf_account _ _ Hw)|].
    + apply insert_entries; [exact Hg|exact Hid|apply (wf_entries _ _ Hw)].
    + intros k. pose proof (wf_counts _ _ Hw k). lia.
  - rewrite !st_bind_gets. pose proof (oldest_cases (mac_table s)) as Hold.
    pose proof (fun HL => learn_new_ok B now m id v s (mac_table s) 0 Hw Hid HB Hg (reflexivity _) Em HL ltac:(unfold mac_count; lia) ltac:(lia)) as Hkeep.
    rewrite no_eviction in Hkeep.
    destruct (Z.leb_spec (max_mac_entries (config s)) (Z.of_nat (size (mac_table s)))) as [Hfull|Hroom].
    + destruct (min_by_last_seen (table_iter (mac_table s))) as [[old eo]|].
      * destruct Hold as [Eo Hmin]. pose proof (size_evicted old eo _ Eo) as Hsz. pose proof (wf_size _ _ Hw) as Hmax.
        pose proof (aged_le _ _ Hw) as [HA0 HA1]. unfold mac_count in *.
        rewrite st_bind_eq, st_bind_modify, bump_eq by (change (mac_aged (stats s) + 1 < 2 ^ 64); lia).
        destruct (learn_new_ok B now m id v s (delete old (mac_table s)) 1) as (s' & E & Hsame & Ht & Hw'); try assumption;
          [apply delete_subseteq|rewrite lookup_delete_ne; [exact Em|congruence]|unfold mac_count; lia..|].
        exists s'. split; [exact E|]. split; [exact Hsame|]. split; [|exact Hw'].
        exists (delete old (mac_table s)). split; [exact Ht|]. right. exists old, eo. repeat split; assumption.
      * rewrite st_bind_eq. destruct (Hkeep ltac:(rewrite Hold, map_size_empty; lia)) as (s' & E & Hsame & Ht & Hw').
        exists s'. split; [exact E|]. split; [exact Hsame|]. split; [|exact Hw']. exists (mac_table s). split; [exact Ht|]. left. auto.
    + rewrite st_bind_eq. destruct (Hkeep ltac:(lia)) as (s' & E & Hsame & Ht & Hw').
      exists s'. split; [exact E|]. split; [exact Hsame|]. split; [|exact Hw']. exists (mac_table s). split; [exact Ht|]. left. auto.
Qed.
End Switch.

(** ** Frames *)

(** A port without its counters. *)
Definition settings (p : SwitchPort) : SwitchPort := set_pstats zero_stats p.
Definition same_settings (m m' : gmap Z SwitchPort) : Prop := forall id, settings <$> m' !! id = settings <$> m !! id.

Lemma same_settings_refl m : same_settings m m.
Proof. intros id. reflexivity. Qed.
Lemma same_settings_trans m1 m2 m3 : same_settings m1 m2 -> same_settings m2 m3 -> same_settings m1 m3.
Proof. intros H1 H2 id. rewrite H2. apply H1. Qed.
Lemma alter_settings f i m : (forall p, settings (f p) = settings p) -> same_settings m (alter f i m).
Proof.
  intros Hf id. destruct (decide (i = id)) as [->|Hne]; [|rewrite lookup_alter_ne by exact Hne; reflexivity].
  rewrite lookup_alter_eq. destruct (m !! id); simpl; [rewrite Hf|]; reflexivity.
Qed.
Lemma settings_some m m' : same_settings m m' -> forall id, is_Some (m' !! id) <-> is_Some (m !! id).
Proof. intros Hs id. rewrite <- (fmap_is_Some settings (m' !! id)), Hs. apply fmap_is_Some. Qed.

(** The conditions on ports read the settings only. *)
Lemma settings_conditions s s' id v :
  same_settings (ports s) (ports s') ->
  port_enabled id s' = port_enabled id s /\ vlan_refused id v s' = vlan_refused id v s /\ unreachable id v s' = unreachable id v s.
Proof.
  intros Hs. specialize (Hs id). unfold port_enabled, vlan_refused, unreachable.
  destruct (ports s' !! id) as [p|], (ports s !! id) as [q|]; try discriminate; [|auto].
  destruct p, q. injection Hs as _ _ _ -> ->. auto.
Qed.

(** The ports a frame from [src] is flooded to, in any order. *)
Definition floods (src : Z) (s : VirtualSwitch) (a : ForwardAction) : Prop :=
  exists l, NoDup l /\ (forall q, q ∈ l <-> q <> src /\ port_enabled q s = true) /\ a = match l with [] => Drop | _ => Flood l end.

Lemma floods_settings src s s' a : same_settings (ports s) (ports s') -> floods src s' a -> floods src s a.
Proof.
  intros Hs (l & Hnd & Hl & Ha). exists l. split; [exact Hnd|]. split; [|exact Ha]. intros q. rewrite Hl.
  destruct (settings_conditions s s' q None Hs) as [-> _]. reflexivity.
Qed.

Section Process.
Context `{HashOrder}.

Definition targets (src : Z) (s : VirtualSwitch) : list Z :=
  (List.filter (fun kv => negb (kv.1 =? src) && enabled kv.2) (ports_iter (ports s))).*1.

Lemma targets_spec src s q : q ∈ targets src s <-> q <> src /\ port_enabled q s = true.
Proof.
  unfold targets, port_enabled. rewrite list_elem_of_fmap. split.
  - intros ([k p] & -> & Hin). apply list_elem_of_In, filter_In in Hin as [Hin Hc]. apply list_elem_of_In in Hin.
    rewrite ports_iter_perm in Hin. apply elem_of_map_to_list in Hin. simpl in *. apply andb_true_iff in Hc as [H1 H2].
    rewrite Hin. split; [|exact H2]. intros ->. rewrite Z.eqb_refl in H1. discriminate.
  - intros [Hne He]. destruct (ports s !! q) as [p|] eqn:E; [|discriminate]. exists (q, p). split; [reflexivity|].
    apply list_elem_of_In, filter_In. split; [apply list_elem_of_In; rewrite ports_iter_perm; apply elem_of_map_to_list, E|].
    simpl. rewrite He, (proj2 (Z.eqb_neq q src) Hne). reflexivity.
Qed.

Lemma targets_nodup src s : NoDup (targets src s).
Proof.
  unfold targets. assert (Hp : NoDup (ports_iter (ports s)).*1) by (rewrite ports_iter_perm; apply NoDup_fst_map_to_list).
  revert Hp. generalize (ports_iter (ports s)) as l. induction l as [|[k p] l IH]; intros Hp; [exact Hp|]. simpl in *.
  apply NoDup_cons in Hp as [Hk Hp]. destruct (negb (k =? src) && enabled p); [|apply IH, Hp]. simpl. apply NoDup_cons.
  split; [|apply IH, Hp]. intros ([k' p'] & -> & Hin)%list_elem_of_fmap. apply Hk. apply list_elem_of_fmap. exists (k', p').
  split; [reflexivity|]. apply list_elem_of_In in Hin. apply filter_In in Hin as [Hin _]. apply list_elem_of_In, Hin.
Qed.

(** The sum of the counters of frames. *)
Definition handled (s : VirtualSwitch) : Z := forwarded (stats s) + flooded (stats s) + dropped (stats s).

Lemma bump_handled k s : k <> CLearned -> k <> CAged -> handled (set_stats (set_count k (counter k (stats s) + 1) (stats s)) s) = handled s + 1.
Proof. intros H1 H2. destruct s as [c p t n [a b d l g]]. unfold handled. destruct k; cbn; try congruence; lia. Qed.

(** What a step keeps: the settings of ports and the identity of the switch. *)
Definition keeps_settings (s s' : VirtualSwitch) : Prop :=
  config s' = config s /\ next_port_id s' = next_port_id s /\ same_settings (ports s) (ports s').

Lemma flood_ok B src len s :
  sw_wf B s -> 0 <= len -> B + len + 1 < 2 ^ 64 ->
  exists a s', flood src len s = (Ok a, s') /\ floods src s a /\ keeps_settings s s' /\ mac_table s' = mac_table s /\
    handled s' = handled s + 1 /\ sw_wf (B + len + 2) s'.
Proof.
  intros Hw Hl HB. unfold flood. rewrite st_bind_gets. fold (targets src s).
  assert (Hfit : forall id p, id ∈ targets src s -> ports s !! id = Some p -> tx_packets (p_stats p) + 1 < 2 ^ 64 /\ tx_bytes (p_stats p) + len < 2 ^ 64)
    by (intros id p _ E; destruct (wf_ports _ _ Hw id p E) as (_ & _ & H3 & H4 & _); lia).
  rewrite st_bind_eq, (tx_all_ok _ _ _ (targets_nodup src s) Hfit).
  pose proof (tx_ports_lookup len (targets src s) (ports s)) as Hlook.
  assert (Hset : same_settings (ports s) (tx_ports len (targets src s) (ports s))).
  { intros id. rewrite Hlook by apply targets_nodup. case_decide; [|reflexivity]. destruct (ports s !! id); reflexivity. }
  set (s1 := set_ports _ s). assert (Hw1 : sw_wf (B + len + 1) s1).
  { apply (ports_wf B); [exact Hw|lia| |apply settings_some, Hset]. intros id p. rewrite Hlook by apply targets_nodup.
    pose proof (wf_ports _ _ Hw id) as Hp. unfold stats_le in *. case_decide.
    - destruct (ports s !! id) as [q|]; [|discriminate]. intros [= <-]. specialize (Hp q eq_refl).
      cbn. lia.
    - intros E. specialize (Hp p E). lia. }
  rewrite st_bind_eq, bump_eq by (pose proof (wf_counts _ _ Hw CFlooded); change (stats s1) with (stats s); lia).
  eexists _, _. split; [reflexivity|]. split; [exists (targets src s); split; [apply targets_nodup|split; [apply targets_spec|reflexivity]]|].
  split; [repeat split; exact Hset|]. split; [reflexivity|]. split; [rewrite bump_handled by congruence; reflexivity|].
  replace (B + len + 2) with (B + len + 1 + 1) by lia. apply bump_frame_wf; [exact Hw1|congruence..].
Qed.

(** Whether the switch takes a frame in on a port, and whether it would go out where it
    came in. *)
Definition accepted (src : Z) (v : option Z) (s : VirtualSwitch) : bool := port_enabled src s && negb (vlan_refused src v s).
Definition reflected (src : Z) (dst_mac : MacAddress) (s : VirtualSwitch) (t : gmap MacAddress MacEntry) : bool :=
  negb (promiscuous (config s)) && negb (group_mac dst_mac) && bool_decide (port_id <$> t !! dst_mac = Some src).

(** The destination, from the ports before the frame and the table after it. *)
Definition decision (src : Z) (dst_mac : MacAddress) (v : option Z) (s : VirtualSwitch) (t : gmap MacAddress MacEntry) (a : ForwardAction) : Prop :=
  if promiscuous (config s) || group_mac dst_mac then floods src s a
  else match t !! dst_mac with
       | None => floods src s a
       | Some e => a = if (port_id e =? src) || unreachable (port_id e) v s then Drop else Unicast (port_id e)
       end.

(** The effect of a frame. *)
Record frame_out (now src : Z) (src_mac dst_mac : MacAddress) (v : option Z) (s s' : VirtualSwitch) (a : ForwardAction) : Prop := {
  fo_keeps : keeps_settings s s';
  fo_refused : accepted src v s = false -> a = Drop /\ mac_table s' = mac_table s /\ handled s' = handled s + 1;
  fo_taken : accepted src v s = true ->
    learned (max_mac_entries (config s)) now src_mac src v (mac_table s) (mac_table s') /\
    decision src dst_mac v s (mac_table s') a /\
    handled s' = handled s + (if reflected src dst_mac s (mac_table s') then 0 else 1)
}.

(** A frame that is taken in, up to the choice of its destination. *)
Lemma ingress_ok B now src m v len s :
  sw_wf B s -> 0 <= len -> B + len + 2 < 2 ^ 64 -> accepted src v s = true ->
  exists s2, (_ ← count_on src (count_rx len); learn_mac now m src v) s = (Ok tt, s2) /\ keeps_settings s s2 /\
    learned (max_mac_entries (config s)) now m src v (mac_table s) (mac_table s2) /\ handled s2 = handled s /\ sw_wf (B + len + 2) s2.
Proof.
  intros Hw Hl HB Hacc. rewrite st_bind_eq, (count_rx_on B) by (apply (wf_ports _ _ Hw) || lia).
  set (s1 := set_ports _ s). assert (Hset : same_settings (ports s) (ports s1)) by (apply alter_settings; reflexivity).
  assert (Hw1 : sw_wf (B + len + 1) s1).
  { apply (ports_wf B); [exact Hw|lia| |apply settings_some, Hset].
    apply (alter_ports_le B); [apply (wf_ports _ _ Hw)|lia|]. unfold stats_le. cbn. lia. }
  assert (Hsrc : is_Some (ports s1 !! src)).
  { apply (settings_some _ _ Hset). unfold accepted, port_enabled in Hacc. destruct (ports s !! src); [eauto|discriminate]. }
  destruct (learn_mac_ok _ now m src v s1 Hw1 Hsrc ltac:(lia)) as (s2 & -> & (H1 & H2 & H3 & H4) & Hlearn & Hw2).
  exists s2. split; [reflexivity|]. split; [split; [exact H1|split; [exact H3|rewrite H2; exact Hset]]|]. split; [exact Hlearn|].
  split; [|replace (B + len + 2) with (B + len + 1 + 1) by lia; exact Hw2].
  unfold handled. pose proof (H4 CForwarded). pose proof (H4 CFlooded). pose proof (H4 CDropped). cbn in *. intuition congruence.
Qed.
End Process.

Lemma bind_two {S E A} (m : ST S E unit) (n : ST S E unit) (k : ST S E A) s s2 :
  (_ ← m; n) s = (Ok tt, s2) -> (_ ← m; _ ← n; k) s = k s2.
Proof.
  rewrite !st_bind_eq. destruct (m s) as [[u|e|p] s1]; try discriminate. intros E1. rewrite st_bind_eq, E1. reflexivity.
Qed.

Section Forwarding.
Context `{HashOrder}.

(** The choice of the destination of a frame that was taken in. *)
Definition egress (src : Z) (dst_mac : MacAddress) (v : option Z) (len : Z) : Sw ForwardAction :=
  promisc ← st_gets (fun s => promiscuous (config s));
  if promisc : bool then flood src len
  else if group_mac dst_mac then flood src len
  else
    e ← st_gets (fun s => mac_table s !! dst_mac);
    match e with
    | None => flood src len
    | Some e =>
        let dst := port_id e in
        if dst =? src then mret Drop
        else
          blocked ← st_gets (unreachable dst v);
          if blocked : bool then _ ← bump CDropped 1; mret Drop
          else _ ← count_on dst (count_tx len); _ ← bump CForwarded 1; mret (Unicast dst)
    end.

Lemma process_frame_eq now src src_mac dst_mac v len s :
  process_frame now src src_mac dst_mac v len s =
  if negb (port_enabled src s) then (_ ← bump CDropped 1; mret Drop) s
  else if vlan_refused src v s then (_ ← bump CDropped 1; _ ← count_on src count_drop; mret Drop) s
  else (_ ← count_on src (count_rx len); _ ← learn_mac now src_mac src v; egress src dst_mac v len) s.
Proof.
  unfold process_frame. rewrite st_bind_gets. destruct (port_enabled src s); [|reflexivity]. cbn [negb].
  rewrite st_bind_gets. destruct (vlan_refused src v s); reflexivity.
Qed.

Lemma egress_ok B src dst_mac v len s :
  sw_wf B s -> 0 <= len -> B + len + 2 < 2 ^ 64 ->
  exists a s', egress src dst_mac v len s = (Ok a, s') /\ keeps_settings s s' /\ mac_table s' = mac_table s /\
    decision src dst_mac v s (mac_table s) a /\
    handled s' = handled s + (if reflected src dst_mac s (mac_table s) then 0 else 1) /\ sw_wf (B + len + 2) s'.
Proof.
  intros Hw Hl HB. unfold egress, decision, reflected. rewrite st_bind_gets.
  destruct (flood_ok B src len s Hw Hl ltac:(lia)) as (fa & fs & Hf & Hfl & Hfk & Hft & Hfh & Hfw).
  destruct (promiscuous (config s)); cbn [orb andb negb]; [exists fa, fs; auto 10|]. destruct (group_mac dst_mac); cbn [orb andb negb]; [exists fa, fs; auto 10|].
  rewrite st_bind_gets. destruct (mac_table s !! dst_mac) as [e|]; cbn [orb andb negb]; [|exists fa, fs; auto 10].
  destruct (Z.eqb_spec (port_id e) src) as [Eq|Hne]; cbn [orb andb negb fmap option_fmap option_map].
  { rewrite bool_decide_true by congruence. exists Drop, s. split; [reflexivity|]. split; [repeat split; reflexivity|]. split; [reflexivity|].
    split; [reflexivity|]. split; [lia|]. apply (sw_wf_mono B); [lia|exact Hw]. }
  rewrite bool_decide_false by congruence. rewrite st_bind_gets. destruct (unreachable (port_id e) v s).
  - rewrite st_bind_eq, bump_eq by (pose proof (wf_counts _ _ Hw CDropped); lia). eexists _, _. split; [reflexivity|].
    split; [repeat split; reflexivity|]. split; [reflexivity|]. split; [reflexivity|]. split; [apply bump_handled; congruence|].
    apply (sw_wf_mono (B + 1)); [lia|]. apply bump_frame_wf; [exact Hw|congruence..].
  - rewrite st_bind_eq, count_tx_on
      by (intros p E; destruct (wf_ports _ _ Hw _ _ E) as (_ & _ & H3 & H4 & _); lia).
    set (s1 := set_ports _ s). assert (Hset : same_settings (ports s) (ports s1)) by (apply alter_settings; reflexivity).
    assert (Hw1 : sw_wf (B + len + 1) s1).
    { apply (ports_wf B); [exact Hw|lia| |apply settings_some, Hset].
      apply (alter_ports_le B); [apply (wf_ports _ _ Hw)|lia|]. unfold stats_le. cbn. lia. }
    rewrite st_bind_eq, bump_eq by (pose proof (wf_counts _ _ Hw CForwarded); change (stats s1) with (stats s); lia).
    eexists _, _. split; [reflexivity|]. split; [repeat split; exact Hset|]. split; [reflexivity|]. split; [reflexivity|].
    split; [rewrite bump_handled by congruence; reflexivity|].
    replace (B + len + 2) with (B + len + 1 + 1) by lia. apply bump_frame_wf; [exact Hw1|congruence..].
Qed.

Lemma process_frame_ok B now src src_mac dst_mac v len s :
  sw_wf B s -> 0 <= len -> B + 2 * len + 4 < 2 ^ 64 ->
  exists a s', process_frame now src src_mac dst_mac v len s = (Ok a, s') /\ frame_out now src src_mac dst_mac v s s' a /\
    sw_wf (B + 2 * len + 4) s'.
Proof.
  intros Hw Hl HB. rewrite process_frame_eq. pose proof (wf_counts _ _ Hw CDropped) as Hd.
  destruct (port_enabled src s) eqn:Een; cbn [negb]; [destruct (vlan_refused src v s) eqn:Ev|].
  - rewrite st_bind_eq, bump_eq by lia. set (s1 := set_stats _ s).
    assert (Hw1 : sw_wf (B + 1) s1) by (apply bump_frame_wf; [exact Hw|congruence..]).
    rewrite st_bind_eq, (count_drop_on (B + 1)) by (apply (wf_ports _ _ Hw1) || lia). eexists _, _. split; [reflexivity|]. split.
    + split; [repeat split; apply alter_settings; reflexivity| |unfold accepted; rewrite Een, Ev; discriminate].
      intros _. split; [reflexivity|]. split; [reflexivity|]. apply (bump_handled CDropped); congruence.
    + apply (ports_wf (B + 1)); [exact Hw1|lia| |apply settings_some, alter_settings; reflexivity].
      apply (alter_ports_le (B + 1)); [apply (wf_ports _ _ Hw1)|lia|]. unfold stats_le. cbn. lia.
  - assert (Hacc : accepted src v s = true) by (unfold accepted; rewrite Een, Ev; reflexivity).
    destruct (ingress_ok B now src src_mac v len s Hw Hl ltac:(lia) Hacc) as (s2 & E & (K1 & K2 & K3) & Hlearn & Hh & Hw2).
    rewrite (bind_two _ _ _ _ _ E).
    destruct (egress_ok _ src dst_mac v len s2 Hw2 Hl ltac:(lia)) as (a & s' & -> & (J1 & J2 & J3) & Ht & Hdec & Hh' & Hw').
    exists a, s'. split; [reflexivity|]. split; [|replace (B + 2 * len + 4) with (B + len + 2 + len + 2) by lia; exact Hw'].
    split; [split; [congruence|split; [congruence|eapply same_settings_trans; eassumption]]|congruence|]. intros _. rewrite Ht.
    split; [exact Hlearn|]. unfold decision, reflected in *. rewrite K1 in *. split; [|lia].
    destruct (_ || _); [eapply floods_settings; eassumption|]. destruct (mac_table s2 !! dst_mac) as [e|]; [|eapply floods_settings; eassumption].
    destruct (settings_conditions s s2 (port_id e) v K3) as (_ & _ & <-). exact Hdec.
  - rewrite st_bind_eq, bump_eq by lia. eexists _, _. split; [reflexivity|]. split.
    + split; [repeat split; reflexivity| |unfold accepted; rewrite Een; discriminate].
      intros _. split; [reflexivity|]. split; [reflexivity|]. apply bump_handled; congruence.
    + apply (sw_wf_mono (B + 1)); [lia|]. apply bump_frame_wf; [exact Hw|congruence..].
Qed.
End Forwarding.

(** ** Runs *)

Inductive SwOp :=
  | OAdd (nm : string)
  | OAddConfig (nm : string) (m : option MacAddress) (v : VlanMode)
  | ORemove (id : Z)
  | OSetVlan (id : Z) (v : VlanMode)
  | OEnable (id : Z) (b : bool)
  | OFrame (now src : Z) (src_mac dst_mac : MacAddress) (v : option Z) (len : Z)
  | OAge (now : Z)
  | OFlush.

(** What an operation may add to a counter, and to the number of the next port. *)
Definition cost (o : SwOp) : Z := match o with OFrame _ _ _ _ _ len => 2 * len + 4 | _ => 0 end.
Definition adds (o : SwOp) : Z := match o with OAdd _ | OAddConfig _ _ _ => 1 | _ => 0 end.
Definition sop_ok (o : SwOp) : Prop := match o with OFrame _ _ _ _ _ len => 0 <= len | _ => True end.
Definition total (f : SwOp -> Z) (os : list SwOp) : Z := foldr (fun o n => f o + n) 0 os.

Lemma sop_costs o : sop_ok o -> 0 <= cost o /\ 0 <= adds o.
Proof. destruct o; cbn; lia. Qed.
Lemma total_nonneg f os : (forall o, o ∈ os -> 0 <= f o) -> 0 <= total f os.
Proof.
  induction os as [|o os IH]; intros Hf; cbn; [lia|]. pose proof (Hf o (list_elem_of_here _ _)).
  assert (0 <= total f os) by (apply IH; intros x Hx; apply Hf, list_elem_of_further, Hx). unfold total in *. lia.
Qed.

Section Runs.
Context `{HashOrder}.

Definition exec (o : SwOp) : Sw (option ForwardAction) :=
  match o with
  | OAdd nm => _ ← add_port nm; mret None
  | OAddConfig nm m v => _ ← add_port_with_config nm m v; mret None
  | ORemove id => _ ← remove_port id; mret None
  | OSetVlan id v => _ ← st_modify (get_port_mut id (with_vlan v)); mret None
  | OEnable id b => _ ← set_port_enabled id b; mret None
  | OFrame now src sm dm v len => a ← process_frame now src sm dm v len; mret (Some a)
  | OAge now => _ ← age_mac_table now; mret None
  | OFlush => _ ← st_modify flush_mac_table; mret None
  end.

Fixpoint run (os : list SwOp) : Sw (list (option ForwardAction)) :=
  match os with
  | [] => mret []
  | o :: os' => r ← exec o; rs ← run os'; mret (r :: rs)
  end.

(** The table before and after an operation other than a frame. *)
Definition table_step (o : SwOp) (t t' : gmap MacAddress MacEntry) : Prop :=
  match o with
  | ORemove id => t' = filter (fun kv => port_id kv.2 <> id) t
  | OAge _ => t' ⊆ t
  | OFlush => t' = ∅
  | OFrame _ _ _ _ _ _ => True
  | _ => t' = t
  end.

Definition stepped (B : Z) (o : SwOp) (s : VirtualSwitch) : Prop :=
  exists r s', exec o s = (Ok r, s') /\ sw_wf (B + cost o) s' /\ next_port_id s' = next_port_id s + adds o /\ config s' = config s /\
    table_step o (mac_table s) (mac_table s') /\
    match o with OFrame now src sm dm v _ => exists a, frame_out now src sm dm v s s' a | _ => True end.

Lemma stats_le_zero B : 0 <= B -> stats_le B zero_stats.
Proof. unfold stats_le. cbn. lia. Qed.

Lemma wf_bound B s : sw_wf B s -> 0 <= B.
Proof. intros Hw. pose proof (wf_counts _ _ Hw CDropped). lia. Qed.

(** Inserting the next port. *)
Lemma insert_port_wf B s p :
  sw_wf B s -> next_port_id s + 1 < 2 ^ 32 -> p_stats p = zero_stats ->
  sw_wf B (set_ports (<[next_port_id s := p]> (ports s)) (set_next (next_port_id s + 1) s)).
Proof.
  intros Hw Hn Hp. pose proof (wf_bound _ _ Hw) as HB. destruct Hw as [H1 H2 H3 H4 H5 H6 H7]. unfold fits in H1.
  split; try assumption; cbn [set_ports set_next ports next_port_id mac_table config stats].
  - unfold fits. lia.
  - intros id [q Hq]. apply lookup_insert_Some in Hq as [[<- _]|[_ Hq]]; [lia|]. specialize (H2 id ltac:(eauto)). lia.
  - intros id q Hq. apply lookup_insert_Some in Hq as [[_ <-]|[_ Hq]]; [rewrite Hp; apply stats_le_zero, HB|exact (H3 id q Hq)].
  - intros m e E. destruct (H4 m e E) as [H8 H9]. split; [|exact H9]. apply lookup_insert_is_Some'. right. exact H8.
Qed.

Lemma size_filter_le (P : MacAddress * MacEntry -> Prop) `{!forall x, Decision (P x)} (t : gmap MacAddress MacEntry) :
  Z.of_nat (size (filter P t)) <= Z.of_nat (size t).
Proof. apply Nat2Z.inj_le, map_subseteq_size, map_filter_subseteq. Qed.

(** Forgetting entries. *)
Lemma shrink_wf B s t st :
  sw_wf B s -> t ⊆ mac_table s -> (forall k, k <> CAged -> counter k st = counter k (stats s)) ->
  0 <= mac_aged st -> Z.of_nat (size t) + mac_aged st <= mac_learned (stats s) -> sw_wf B (set_stats st (set_table t s)).
Proof.
  intros Hw Ht Hst H0 Ha. pose proof (wf_size _ _ Hw) as Hsz. pose proof (wf_counts _ _ Hw CLearned) as HL. simpl in HL.
  assert (Hle : Z.of_nat (size t) <= mac_count s) by (unfold mac_count; apply Nat2Z.inj_le, map_subseteq_size, Ht).
  assert (HL' : mac_learned st = mac_learned (stats s)) by (apply (Hst CLearned); congruence).
  apply (set_table_wf B); [exact Hw|lia| |lia|lia|].
  - intros m e E. apply (wf_entries _ _ Hw). exact (lookup_weaken _ _ _ _ E Ht).
  - intros k. destruct (decide (k = CAged)) as [->|Hk]; [simpl; lia|]. rewrite Hst by exact Hk. apply (wf_counts _ _ Hw).
Qed.

Lemma remove_port_wf B s id :
  sw_wf B s -> sw_wf B (set_ports (delete id (ports s)) (set_table (filter (fun kv => port_id kv.2 <> id) (mac_table s)) s)).
Proof.
  intros Hw.
  pose proof (size_filter_le (fun kv => port_id kv.2 <> id) (mac_table s)) as Hsz.
  destruct Hw as [H1 H2 H3 H4 H5 H6 H7]. unfold mac_count in *.
  split; try assumption; cbn [set_ports set_table ports mac_table next_port_id config stats]; unfold mac_count; cbn [mac_table].
  - intros j [p Hp]. apply lookup_delete_Some in Hp as [_ Hp]. apply H2. eauto.
  - intros j p Hp. apply lookup_delete_Some in Hp as [_ Hp]. exact (H3 j p Hp).
  - intros m e E. apply map_lookup_filter_Some in E as [E Hne]. destruct (H4 m e E) as [H8 H9]. split; [|exact H9].
    rewrite lookup_delete_ne by (simpl in Hne; congruence). exact H8.
  - etransitivity; [exact Hsz|exact H5].
  - etransitivity; [apply Z.add_le_mono_r, Hsz|exact H6].
Qed.

Lemma exec_ok B o s :
  sw_wf B s -> sop_ok o -> B + cost o < 2 ^ 64 -> next_port_id s + adds o < 2 ^ 32 -> stepped B o s.
Proof.
  intros Hw Ho HB Hn. pose proof (wf_bound _ _ Hw) as HB0. unfold stepped.
  destruct o as [nm|nm m v|id|id v|id b|now src sm dm v len|now|]; cbn [exec cost adds table_step sop_ok] in *; rewrite ?Z.add_0_r.
  - rewrite st_bind_eq. unfold add_port. rewrite st_bind_gets, st_bind_lift, add_ok by exact Hn. eexists _, _. split; [reflexivity|].
    split; [exact (insert_port_wf B s (port_new (next_port_id s) nm) Hw Hn eq_refl)|]. repeat split; reflexivity.
  - rewrite st_bind_eq. unfold add_port_with_config. rewrite st_bind_gets, st_bind_lift, add_ok by exact Hn. eexists _, _. split; [reflexivity|].
    split; [exact (insert_port_wf B s (mkPort (next_port_id s) nm m v true zero_stats) Hw Hn eq_refl)|]. repeat split; reflexivity.
  - eexists _, _. split; [reflexivity|]. split; [exact (remove_port_wf B s id Hw)|]. repeat split; reflexivity.
  - eexists _, _. split; [reflexivity|]. split; [|repeat split; reflexivity].
    apply (ports_wf B); [exact Hw|lia| |intros j; apply alter_some]. apply (alter_ports_le B); [apply (wf_ports _ _ Hw)|lia|auto].
  - rewrite st_bind_eq. unfold set_port_enabled. rewrite st_bind_gets. destruct (ports s !! id) as [p|] eqn:E.
    + eexists _, _. split; [reflexivity|]. split; [|repeat split; reflexivity].
      apply (ports_wf B); [exact Hw|lia| |].
      * intros j q Hq. apply lookup_insert_Some in Hq as [[<- <-]|[_ Hq]]; [exact (wf_ports _ _ Hw id p E)|exact (wf_ports _ _ Hw j q Hq)].
      * intros j. rewrite lookup_insert_is_Some'. split; [intros [<-|Hj]; eauto|auto].
    + eexists _, _. split; [reflexivity|]. split; [exact Hw|]. repeat split; reflexivity.
  - rewrite st_bind_eq. destruct (process_frame_ok B now src sm dm v len s Hw Ho ltac:(lia)) as (a & s' & -> & Hf & Hw').
    destruct (fo_keeps _ _ _ _ _ _ _ _ Hf) as (K1 & K2 & _). eexists _, _. split; [reflexivity|].
    split; [rewrite Z.add_assoc; exact Hw'|]. split; [lia|]. split; [exact K1|]. split; [exact I|]. exists a. exact Hf.
  - pose proof (wf_account _ _ Hw) as Hacc. pose proof (wf_counts _ _ Hw CAged) as HA. pose proof (wf_counts _ _ Hw CLearned) as HL. simpl in HA, HL.
    rewrite st_bind_eq. unfold age_mac_table. rewrite st_bind_gets, st_bind_modify, st_bind_read.
    set (t := filter _ (mac_table s)). assert (Ht : t ⊆ mac_table s) by apply map_filter_subseteq.
    assert (Hsz : Z.of_nat (size t) <= mac_count s) by (unfold mac_count; apply Nat2Z.inj_le, map_subseteq_size, Ht).
    change (mac_count (set_table t s)) with (Z.of_nat (size t)). rewrite sub_ok by exact Hsz.
    rewrite st_bind_eq, bump_eq by (change (mac_aged (stats s) + (mac_count s - Z.of_nat (size t)) < 2 ^ 64); lia).
    eexists _, _. split; [reflexivity|]. split; [|repeat split; exact Ht]. apply (shrink_wf B s t); [exact Hw|exact Ht| | |].
    + intros k Hk. rewrite counter_set_count, decide_False by exact Hk. reflexivity.
    + change (0 <= counter CAged (set_count CAged (mac_aged (stats s) + (mac_count s - Z.of_nat (size t))) (stats s))).
      rewrite counter_set_count, decide_True by reflexivity. lia.
    + change (Z.of_nat (size t) + counter CAged (set_count CAged (mac_aged (stats s) + (mac_count s - Z.of_nat (size t))) (stats s)) <= mac_learned (stats s)).
      rewrite counter_set_count, decide_True by reflexivity. lia.
  - pose proof (wf_account _ _ Hw) as Hacc. pose proof (wf_counts _ _ Hw CAged) as HA. simpl in HA.
    exists None, (set_stats (stats s) (set_table ∅ s)). split; [destruct s; reflexivity|]. split; [|repeat split; reflexivity].
    apply shrink_wf; [exact Hw|apply map_empty_subseteq|reflexivity|lia|]. rewrite map_size_empty. unfold mac_count in Hacc. lia.
Qed.
End Runs.

(** ** Where addresses were last seen *)

Section History.
Context `{HashOrder}.

(** The port each address last sent an accepted frame from, with no bound on memory or
    time: what the table is there to remember. *)
Definition hist_step (o : SwOp) (s : VirtualSwitch) (h : gmap MacAddress Z) : gmap MacAddress Z :=
  match o with
  | OFrame _ src sm _ v _ => if accepted src v s && negb (group_mac sm) then <[sm := src]> h else h
  | ORemove id => filter (fun kv => kv.2 <> id) h
  | OFlush => ∅
  | _ => h
  end.
Fixpoint history (os : list SwOp) (s : VirtualSwitch) (h : gmap MacAddress Z) : gmap MacAddress Z :=
  match os with
  | [] => h
  | o :: os' => history os' (exec o s).2 (hist_step o s h)
  end.

Definition seen (s : VirtualSwitch) : gmap MacAddress Z := port_id <$> mac_table s.
Definition source (o : SwOp) : gset MacAddress := match o with OFrame _ _ sm _ _ _ => {[sm]} | _ => ∅ end.
Definition sources (os : list SwOp) : gset MacAddress := ⋃ (source <$> os).
Definition not_age (o : SwOp) : bool := match o with OAge _ => false | _ => true end.

Lemma seen_insert (s : VirtualSwitch) (m : MacAddress) (e : MacEntry) (base : gmap MacAddress MacEntry) : mac_table s = <[m := e]> base -> seen s = <[m := port_id e]> (port_id <$> base).
Proof. unfold seen. intros ->. apply fmap_insert. Qed.

Lemma seen_filter (id : Z) (t : gmap MacAddress MacEntry) :
  port_id <$> filter (fun kv => port_id kv.2 <> id) t = filter (fun kv => kv.2 <> id) (port_id <$> t).
Proof. rewrite map_filter_fmap. reflexivity. Qed.

Lemma learned_seen (limit now : Z) (m : MacAddress) (id : Z) (v : option Z) (s s' : VirtualSwitch) (h : gmap MacAddress Z) :
  learned limit now m id v (mac_table s) (mac_table s') -> seen s ⊆ h ->
  seen s' ⊆ if negb (group_mac m) then <[m := id]> h else h.
Proof.
  unfold learned. destruct (group_mac m); cbn [negb]; [unfold seen; intros ->; auto|]. intros (base & E & Hb) Hs.
  rewrite (seen_insert _ _ _ _ E). apply insert_mono. transitivity (seen s); [|exact Hs]. apply map_fmap_mono.
  destruct Hb as [[-> _]|(old & eo & _ & _ & _ & _ & ->)]; [reflexivity|apply delete_subseteq].
Qed.

Lemma step_seen (B : Z) (o : SwOp) (s : VirtualSwitch) (h : gmap MacAddress Z) :
  stepped B o s -> seen s ⊆ h -> seen (exec o s).2 ⊆ hist_step o s h.
Proof.
  intros (r & s' & E & _ & _ & _ & Ht & Hf) Hs. rewrite E. cbn [snd].
  destruct o as [nm|nm m v|id|id v|id b|now src sm dm v len|now|]; cbn [table_step hist_step] in *;
    try (unfold seen in *; rewrite Ht; exact Hs).
  - unfold seen. rewrite Ht, seen_filter. apply map_filter_subseteq_mono. exact Hs.
  - destruct Hf as (a & [_ F1 F2]). destruct (accepted src v s); cbn [andb].
    + destruct (F2 eq_refl) as (Hl & _). exact (learned_seen _ _ _ _ _ _ _ _ Hl Hs).
    + destruct (F1 eq_refl) as (_ & Hl & _). unfold seen. rewrite Hl. exact Hs.
  - transitivity (seen s); [apply map_fmap_mono, Ht|exact Hs].
  - unfold seen. rewrite Ht, fmap_empty. reflexivity.
Qed.

(** With room for every address nothing is evicted. *)
Lemma learned_room (limit now : Z) (m : MacAddress) (id : Z) (v : option Z) (t t' : gmap MacAddress MacEntry) (S : gset MacAddress) :
  learned limit now m id v t t' -> dom t ⊆ S -> m ∈ S -> Z.of_nat (size S) <= limit ->
  t' = if group_mac m then t else <[m := mkEntry id v now]> t.
Proof.
  unfold learned. intros Hl Hd Hm Hsz. destruct (group_mac m); [exact Hl|].
  destruct Hl as (base & -> & [[-> _]|(old & eo & Hnone & Hfull & _)]); [reflexivity|]. exfalso.
  assert (Hlt : (size (dom t) < size S)%nat).
  { apply subset_size. split; [exact Hd|]. intros Hsub. specialize (Hsub m Hm). apply elem_of_dom in Hsub as [e He]. congruence. }
  rewrite size_dom in Hlt. lia.
Qed.

Lemma step_seen_eq (B : Z) (o : SwOp) (s : VirtualSwitch) (h : gmap MacAddress Z) (S : gset MacAddress) :
  stepped B o s -> not_age o = true -> seen s = h -> dom (mac_table s) ⊆ S -> source o ⊆ S -> Z.of_nat (size S) <= max_mac_entries (config s) ->
  seen (exec o s).2 = hist_step o s h /\ dom (mac_table (exec o s).2) ⊆ S.
Proof.
  intros (r & s' & E & _ & _ & _ & Ht & Hf) Ha Hs Hd Ho Hsz. rewrite E. cbn [snd].
  destruct o as [nm|nm m v|id|id v|id b|now src sm dm v len|now|]; cbn [table_step hist_step not_age source] in *;
    try discriminate; try (unfold seen in *; rewrite Ht; split; [exact Hs|exact Hd]).
  - unfold seen in *. rewrite Ht, seen_filter, Hs. split; [reflexivity|].
    etransitivity; [apply dom_filter_subseteq|exact Hd].
  - destruct Hf as (a & [_ F1 F2]). destruct (accepted src v s); cbn [andb].
    + destruct (F2 eq_refl) as (Hl & _). apply (learned_room _ _ _ _ _ _ _ S) in Hl; [|exact Hd|apply Ho, elem_of_singleton; reflexivity|exact Hsz].
      destruct (group_mac sm); cbn [negb]; [unfold seen; rewrite Hl; auto|].
      rewrite (seen_insert _ _ _ _ Hl). fold (seen s). rewrite Hs, Hl, dom_insert. split; [reflexivity|]. apply union_subseteq. split; [exact Ho|exact Hd].
    + destruct (F1 eq_refl) as (_ & Hl & _). unfold seen in *. rewrite Hl. auto.
  - unfold seen. rewrite Ht, fmap_empty, dom_empty. split; [reflexivity|apply empty_subseteq].
Qed.

(** ** Whole runs *)

Lemma total_cons f o os : total f (o :: os) = f o + total f os.
Proof. reflexivity. Qed.
Lemma total_app f os os' : total f (os ++ os') = total f os + total f os'.
Proof. induction os as [|o os IH]; [reflexivity|]. cbn [app]. rewrite !total_cons, IH. lia. Qed.
Lemma total_bounds os : Forall sop_ok os -> 0 <= total cost os /\ 0 <= total adds os.
Proof.
  intros Hos. split; apply total_nonneg; intros o Ho; rewrite Forall_forall in Hos; apply sop_costs, Hos, Ho.
Qed.

(** Properties carried along a run. *)
Lemma run_carries (P : list SwOp -> VirtualSwitch -> gmap MacAddress Z -> Prop) B s h os :
  sw_wf B s -> Forall sop_ok os -> B + total cost os < 2 ^ 64 -> next_port_id s + total adds os < 2 ^ 32 ->
  (forall B o os s h, sw_wf B s -> stepped B o s -> P (o :: os) s h -> P os (exec o s).2 (hist_step o s h)) -> P os s h ->
  exists rs s', run os s = (Ok rs, s') /\ sw_wf (B + total cost os) s' /\ config s' = config s /\ P [] s' (history os s h).
Proof.
  intros Hw Hos HB Hn Hstep. revert B s h Hw Hos HB Hn. induction os as [|o os IH]; intros B s h Hw Hos HB Hn HP.
  - exists [], s. cbn. rewrite Z.add_0_r. auto.
  - apply Forall_cons in Hos as [Ho Hos]. rewrite total_cons in HB, Hn |- *. destruct (total_bounds os Hos) as [T1 T2].
    assert (Hs : stepped B o s) by (apply exec_ok; [exact Hw|exact Ho|lia|lia]).
    pose proof (Hstep _ _ _ _ _ Hw Hs HP) as HP'. destruct Hs as (r & s1 & E & Hw1 & Hn1 & Hc1 & _). cbn [run history].
    rewrite E in HP' |- *. cbn [snd] in *. rewrite st_bind_eq, E.
    destruct (IH _ s1 _ Hw1 Hos ltac:(lia) ltac:(lia) HP') as (rs & s' & E' & Hw' & Hc' & HP''). rewrite st_bind_eq, E'.
    exists (r :: rs), s'. split; [reflexivity|]. split; [rewrite Z.add_assoc; exact Hw'|]. split; [congruence|exact HP''].
Qed.

Lemma switch_new_wf c : sw_wf 0 (switch_new c).
Proof.
  split.
  - cbn. unfold fits. lia.
  - intros id [x Hx]. cbn in Hx. rewrite lookup_empty in Hx. discriminate.
  - intros id p E. cbn in E. rewrite lookup_empty in E. discriminate.
  - intros m e E. cbn in E. rewrite lookup_empty in E. discriminate.
  - unfold mac_count. cbn [switch_new mac_table]. rewrite map_size_empty. lia.
  - unfold mac_count. cbn [switch_new mac_table stats mac_aged mac_learned]. rewrite map_size_empty. lia.
  - intros k. destruct k; cbn; lia.
Qed.
End History.

(** ** Theorems *)

Section Theorems.
Context `{HashOrder}.

(** In every run from a new switch no operation panics as long as fewer than 2^32 ports are
    added and 2^64 bytes counted; every learned address is a unicast address on a port that
    exists, the table stays within its capacity, and no more entries are aged than were
    learned. *)
Theorem switch_invariant c os :
  Forall sop_ok os -> total cost os < 2 ^ 64 -> total adds os < 2 ^ 32 ->
  exists rs s, run os (switch_new c) = (Ok rs, s) /\ sw_wf (total cost os) s /\ config s = c.
Proof.
  intros Hos HB Hn. destruct (run_carries (fun _ _ _ => True) 0 (switch_new c) ∅ os (switch_new_wf c) Hos HB Hn) as (rs & s & E & Hw & Hc & _); auto.
  exists rs, s. auto.
Qed.

(** C38: What happens to a frame, on every branch: refused on a port that is missing, disabled or
    of another VLAN, and then nothing is learned; otherwise its source is learned, evicting
    the entry seen longest ago from a full table, and it goes to the port its destination
    was learned on, to all other enabled ports when that is not known, a group, or the
    switch is promiscuous, and nowhere when that port is its own or does not take it.  Settings of ports never change. *)
Theorem process_frame_spec B now src src_mac dst_mac v len s :
  sw_wf B s -> 0 <= len -> B + 2 * len + 4 < 2 ^ 64 ->
  exists a s', process_frame now src src_mac dst_mac v len s = (Ok a, s') /\ frame_out now src src_mac dst_mac v s s' a.
Proof.
  intros Hw Hl HB. destruct (process_frame_ok B now src src_mac dst_mac v len s Hw Hl HB) as (a & s' & E & Hf & _). eauto.
Qed.

(** A run with room for every sender in [S]. *)
Lemma run_room (c : SwitchConfig) (os : list SwOp) (S : gset MacAddress) :
  Forall sop_ok os -> total cost os < 2 ^ 64 -> total adds os < 2 ^ 32 ->
  forallb not_age os = true -> sources os ⊆ S -> Z.of_nat (size S) <= max_mac_entries c ->
  exists rs s, run os (switch_new c) = (Ok rs, s) /\ sw_wf (total cost os) s /\ config s = c /\
    seen s = history os (switch_new c) ∅ /\ dom (mac_table s) ⊆ S.
Proof.
  intros Hos HB Hn Hage Hsub Hroom.
  destruct (run_carries (fun os' s h => seen s = h /\ dom (mac_table s) ⊆ S /\ config s = c /\ forallb not_age os' = true /\ sources os' ⊆ S)
              0 (switch_new c) ∅ os (switch_new_wf c) Hos HB Hn) as (rs & s & E & Hw & Hc & Hs & Hd & _).
  - intros B o os' s h _ Hst (Hh & Hd & Hc & Ha & Hsrc). simpl in Ha. apply andb_true_iff in Ha as [Ha1 Ha2].
    unfold sources in Hsrc. cbn [fmap list_fmap] in Hsrc. rewrite union_list_cons in Hsrc. apply union_subseteq in Hsrc as [S1 S2].
    destruct (step_seen_eq B o s h S Hst Ha1 Hh Hd S1) as [J1 J2]; [rewrite Hc; exact Hroom|].
    destruct Hst as (r & s' & E & _ & _ & Hc' & _). rewrite E in *. cbn [snd] in *. repeat split; congruence || assumption.
  - split; [apply fmap_empty|]. split; [cbn; rewrite dom_empty; apply empty_subseteq|]. repeat split; auto.
  - exists rs, s. auto.
Qed.

(** C37: The table refines the history of the run: an address is looked up on the port its last
    accepted frame came in on since that port was added and the table flushed, or not at
    all; and exactly so when no entry is aged and the table has room for every sender. *)
Theorem switch_learns (c : SwitchConfig) (os : list SwOp) :
  Forall sop_ok os -> total cost os < 2 ^ 64 -> total adds os < 2 ^ 32 ->
  let s := (run os (switch_new c)).2 in
  let h := history os (switch_new c) ∅ in
  (forall m p, lookup_mac m s = Some p -> h !! m = Some p) /\
  (forallb not_age os = true -> Z.of_nat (size (sources os)) <= max_mac_entries c -> forall m, lookup_mac m s = h !! m).
Proof.
  intros Hos HB Hn. cbv zeta. assert (H0 : seen (switch_new c) = ∅) by apply fmap_empty. split.
  - destruct (run_carries (fun _ s h => seen s ⊆ h) 0 (switch_new c) ∅ os (switch_new_wf c) Hos HB Hn) as (rs & s & E & _ & _ & Hs).
    + intros B o os' s h _ Hst. apply (step_seen _ _ _ _ Hst).
    + rewrite H0. reflexivity.
    + rewrite E. intros m p Hm. refine (lookup_weaken (seen s) _ m p _ Hs). unfold seen. rewrite lookup_fmap. exact Hm.
  - intros Hage Hroom m. destruct (run_room c os (sources os) Hos HB Hn Hage (reflexivity _) Hroom) as (rs & s & E & _ & _ & Hs & _).
    rewrite E. unfold lookup_mac. cbn [snd]. rewrite <- Hs. unfold seen. rewrite lookup_fmap. reflexivity.
Qed.

(** A frame whose destination the table knows. *)
Lemma known_destination B now src sm dm v s s' a p :
  sw_wf B s -> frame_out now src sm dm v s s' a -> accepted src v s = true -> promiscuous (config s) = false ->
  lookup_mac dm s' = Some p -> lookup_mac dm s = Some p -> p <> src -> unreachable p v s = false -> a = Unicast p.
Proof.
  intros Hw [_ _ F] Hacc Hpr Hs' Hs Hne Hun. destruct (F Hacc) as (_ & Hd & _). unfold decision, lookup_mac in *.
  destruct (mac_table s' !! dm) as [e|]; [|discriminate]. injection Hs' as Ep.
  assert (Hg : group_mac dm = false).
  { destruct (mac_table s !! dm) as [e0|] eqn:E0; [|discriminate]. apply (wf_entries _ _ Hw dm e0 E0). }
  rewrite Hpr, Hg, Ep, Hun, (proj2 (Z.eqb_neq p src)) in Hd by exact Hne. exact Hd.
Qed.

(** C39: Delivery: with room for every sender and no ageing, a frame to an address goes to
    exactly the port that address last sent from, whatever happened in between, as long as
    that port takes the frame. *)
Theorem switch_delivers (c : SwitchConfig) (os : list SwOp) (now src : Z) (sm dm : MacAddress) (v : option Z) (len p : Z) :
  let frame := OFrame now src sm dm v len in
  Forall sop_ok (os ++ [frame]) -> total cost (os ++ [frame]) < 2 ^ 64 -> total adds os < 2 ^ 32 ->
  forallb not_age os = true -> Z.of_nat (size (sources (os ++ [frame]))) <= max_mac_entries c -> promiscuous c = false ->
  history os (switch_new c) ∅ !! dm = Some p ->
  let s := (run os (switch_new c)).2 in
  accepted src v s = true -> sm <> dm -> p <> src -> unreachable p v s = false ->
  exists s', process_frame now src sm dm v len s = (Ok (Unicast p), s').
Proof.
  intros frame Hos HB Hn Hage Hroom Hpr Hh s Hacc Hne Hp Hun. apply Forall_app in Hos as [Hos Hf]. apply Forall_cons in Hf as [Hl _].
  rewrite total_app, total_cons in HB. cbn in Hl. destruct (total_bounds os Hos) as [T1 _]. cbn [cost frame total foldr] in HB.
  assert (Hsub : sources os ⊆ sources (os ++ [frame])) by (unfold sources; rewrite fmap_app, union_list_app; apply union_subseteq_l).
  destruct (run_room c os _ Hos ltac:(lia) Hn Hage Hsub Hroom) as (rs & s0 & E & Hw & Hc & Hseen & Hd).
  assert (s = s0) as Es by (unfold s; rewrite E; reflexivity). clearbody s. subst s0.
  destruct (process_frame_ok _ now src sm dm v len s Hw Hl ltac:(lia)) as (a & s' & Ef & Hfo & _). exists s'. rewrite Ef. f_equal. f_equal.
  assert (Hlook : lookup_mac dm s = Some p) by (unfold lookup_mac; rewrite <- lookup_fmap; fold (seen s); rewrite Hseen; exact Hh).
  apply (known_destination _ _ _ _ _ _ _ _ _ _ Hw Hfo Hacc); try assumption; [congruence|].
  destruct (fo_taken _ _ _ _ _ _ _ _ Hfo Hacc) as (Hlearn & _). rewrite <- Hlook. unfold lookup_mac.
  apply (learned_room _ _ _ _ _ _ _ (sources (os ++ [frame]))) in Hlearn; [|exact Hd| |congruence].
  - rewrite Hlearn. destruct (group_mac sm); [reflexivity|]. rewrite lookup_insert_ne by exact Hne. reflexivity.
  - unfold sources. rewrite fmap_app, union_list_app. apply elem_of_union_r. cbn. apply elem_of_union_l, elem_of_singleton. reflexivity.
Qed.

(** C40: A flooded frame leaves the VLAN it belongs to: a broadcast that its port takes in is
    sent to every other enabled port, also to one that does not accept its VLAN, to which a
    unicast frame of the VLAN would never be forwarded. *)
Theorem flood_crosses_vlans B now src sm dm v len s q p :
  sw_wf B s -> 0 <= len -> B + 2 * len + 4 < 2 ^ 64 -> accepted src v s = true -> group_mac dm = true ->
  q <> src -> ports s !! q = Some p -> enabled p = true -> accepts_vlan p v = false ->
  (exists l s', process_frame now src sm dm v len s = (Ok (Flood l), s') /\ q ∈ l) /\
  (forall dm' a s', process_frame now src sm dm' v len s = (Ok a, s') -> a <> Unicast q).
Proof.
  intros Hw Hl HB Hacc Hg Hne Ep Hen Hv. split.
  - destruct (process_frame_ok B now src sm dm v len s Hw Hl HB) as (a & s' & E & [_ _ F] & _). destruct (F Hacc) as (_ & Hd & _).
    unfold decision in Hd. rewrite Hg, orb_true_r in Hd. destruct Hd as (l & _ & Hl' & ->).
    assert (Hq : q ∈ l) by (apply Hl'; unfold port_enabled; rewrite Ep; auto). destruct l as [|x l]; [apply not_elem_of_nil in Hq; contradiction|].
    exists (x :: l), s'. auto.
  - intros dm' a s' E ->. destruct (process_frame_ok B now src sm dm' v len s Hw Hl HB) as (a' & s1 & E' & [_ _ F] & _).
    rewrite E in E'. injection E' as <- <-. destruct (F Hacc) as (_ & Hd & _). unfold decision in Hd.
    assert (Hfl : ~ floods src s (Unicast q)) by (intros (l & _ & _ & Hx); destruct l; discriminate).
    destruct (_ || group_mac dm'); [contradiction|]. destruct (mac_table s' !! dm') as [e|]; [|contradiction].
    destruct (_ || _) eqn:Eo in Hd; [discriminate|]. injection Hd as ->. apply orb_false_iff in Eo as [_ Eo].
    unfold unreachable in Eo. rewrite Ep, Hen, Hv in Eo. discriminate.
Qed.

(** Untagged frames cross access VLANs: a frame without a tag goes from an access port of one
    VLAN to an address learned on an access port of another. *)
Theorem untagged_crosses_vlans B now src sm (dm : MacAddress) len s s' a q ps pq v w (e : MacEntry) :
  sw_wf B s -> 0 <= len -> B + 2 * len + 4 < 2 ^ 64 -> promiscuous (config s) = false ->
  ports s !! src = Some ps -> enabled ps = true -> vlan_mode ps = Access v ->
  ports s !! q = Some pq -> enabled pq = true -> vlan_mode pq = Access w -> v <> w -> q <> src ->
  group_mac dm = false -> process_frame now src sm dm None len s = (Ok a, s') -> mac_table s' !! dm = Some e -> port_id e = q ->
  a = Unicast q.
Proof.
  intros Hw Hl HB Hpr Es Hes Hvs Eq Heq Hvq _ Hne Hg E He Hpe.
  destruct (process_frame_ok B now src sm dm None len s Hw Hl HB) as (a' & s1 & E' & [_ _ F] & _). rewrite E in E'. injection E' as <- <-.
  assert (Hacc : accepted src None s = true).
  { unfold accepted, port_enabled, vlan_refused. rewrite Es, Hes. unfold accepts_vlan. rewrite Hvs. reflexivity. }
  destruct (F Hacc) as (_ & Hd & _). unfold decision in Hd. rewrite Hpr, Hg, He, Hpe, (proj2 (Z.eqb_neq q src) Hne) in Hd. cbn [orb] in Hd.
  unfold unreachable, accepts_vlan in Hd. rewrite Eq, Heq, Hvq in Hd. exact Hd.
Qed.
End Theorems.

(** ** Examples *)

(** One order a hash map can have. *)
#[local] Instance list_order : HashOrder :=
  {| ports_iter := map_to_list; table_iter := map_to_list; ports_iter_perm m := reflexivity _; table_iter_perm m := reflexivity _ |}.

Definition mac_a : MacAddress := [2; 0; 0; 0; 0; 1].
Definition mac_b : MacAddress := [2; 0; 0; 0; 0; 2].
Definition demo_ops : list SwOp :=
  [OAdd "vm-0"; OAdd "vm-1"; OAdd "vm-2"; OFrame 5 1 mac_b BROADCAST_MAC None 64].
Definition vlan_ops : list SwOp :=
  [OAddConfig "red" None (Access 10); OAddConfig "blue" None (Access 20); OFrame 5 1 mac_b BROADCAST_MAC None 64].

Lemma demo_ok : Forall sop_ok demo_ops.
Proof. repeat constructor. cbn. lia. Qed.
Lemma vlan_ok : Forall sop_ok vlan_ops.
Proof. repeat constructor. cbn. lia. Qed.

Definition vlan_switch : VirtualSwitch := (run vlan_ops with_defaults).2.

Lemma vlan_wf : sw_wf 132 vlan_switch.
Proof.
  destruct (run_carries (fun _ _ _ => True) 0 (switch_new default_config) ∅ vlan_ops (switch_new_wf default_config) vlan_ok) as (rs & s & E & Hw & _);
    try (cbn; lia); auto. unfold vlan_switch, with_defaults. rewrite E. exact Hw.
Qed.

Lemma switch_invariant_witness :
  Forall sop_ok demo_ops /\ exists rs s, run demo_ops with_defaults = (Ok rs, s) /\ sw_wf (total cost demo_ops) s /\ config s = default_config.
Proof. split; [exact demo_ok|]. apply (switch_invariant default_config demo_ops demo_ok); vm_compute; reflexivity. Defined.

Lemma process_frame_spec_witness :
  exists a s', process_frame 6 0 mac_a mac_b (Some 10) 64 vlan_switch = (Ok a, s') /\ frame_out 6 0 mac_a mac_b (Some 10) vlan_switch s' a.
Proof. apply (process_frame_spec 132); [exact vlan_wf|lia|lia]. Defined.

Lemma switch_learns_witness :
  lookup_mac mac_b (run demo_ops with_defaults).2 = Some 1 /\
  forall m, lookup_mac m (run demo_ops with_defaults).2 = history demo_ops with_defaults ∅ !! m.
Proof.
  split; [vm_compute; reflexivity|].
  destruct (switch_learns default_config demo_ops demo_ok) as [_ He]; [vm_compute; reflexivity..|]. apply He; vm_compute; [reflexivity|discriminate].
Defined.

Lemma switch_delivers_witness :
  exists s', process_frame 6 0 mac_a mac_b None 64 (run demo_ops with_defaults).2 = (Ok (Unicast 1), s').
Proof.
  apply (switch_delivers default_config demo_ops 6 0 mac_a mac_b None 64 1).
  - apply Forall_app. split; [exact demo_ok|]. repeat constructor. cbn. lia.
  - vm_compute. reflexivity.
  - vm_compute. reflexivity.
  - reflexivity.
  - vm_compute. discriminate.
  - reflexivity.
  - vm_compute. reflexivity.
  - vm_compute. reflexivity.
  - discriminate.
  - discriminate.
  - vm_compute. reflexivity.
Defined.

Lemma flood_crosses_vlans_witness :
  (exists l s', process_frame 6 0 mac_a BROADCAST_MAC (Some 10) 64 vlan_switch = (Ok (Flood l), s') /\ 1 ∈ l) /\
  forall dm' a s', process_frame 6 0 mac_a dm' (Some 10) 64 vlan_switch = (Ok a, s') -> a <> Unicast 1.
Proof.
  apply (flood_crosses_vlans 132 6 0 mac_a BROADCAST_MAC (Some 10) 64 vlan_switch 1
           (mkPort 1 "blue" None (Access 20) true (mkPortStats 1 64 0 0 0))).
  - exact vlan_wf.
  - lia.
  - lia.
  - vm_compute. reflexivity.
  - reflexivity.
  - discriminate.
  - vm_compute. reflexivity.
  - reflexivity.
  - reflexivity.
Defined.

Lemma untagged_crosses_vlans_witness :
  (process_frame 6 0 mac_a mac_b None 64 vlan_switch).1 = Ok (Unicast 1).
Proof.
  destruct (process_frame_ok 132 6 0 mac_a mac_b None 64 vlan_switch vlan_wf ltac:(lia) ltac:(lia)) as (a & s' & E & _).
  rewrite E. cbn [fst]. f_equal.
  apply (untagged_crosses_vlans 132 6 0 mac_a mac_b 64 vlan_switch s' a 1
           (mkPort 0 "red" None (Access 10) true (mkPortStats 0 0 1 64 0))
           (mkPort 1 "blue" None (Access 20) true (mkPortStats 1 64 0 0 0)) 10 20 (mkEntry 1 None 5));
    try exact E; try exact vlan_wf; try lia; try (vm_compute; reflexivity).
  replace s' with (process_frame 6 0 mac_a mac_b None 64 vlan_switch).2 by (rewrite E; reflexivity). vm_compute. reflexivity.
Defined.
