(* ===== verification/Egress.v ===== *)
(** * What a guest may send ([hv2-net/src/egress.rs])

    The rules of an egress policy and the destination of an Ethernet frame that they
    are asked about. *)

From S2P Require Import Prelude.

(** [IpAddr]: the octets of an address, four or sixteen of them. *)
Inductive IpAddr := V4 (octets : bytes) | V6 (octets : bytes).

#[global] Instance IpAddr_eq_dec : EqDecision IpAddr.
Proof. solve_decision. Defined.

Definition ip_ok (a : IpAddr) : Prop :=
  match a with V4 o => length o = 4%nat /\ Forall is_byte o | V6 o => length o = 16%nat /\ Forall is_byte o end.
Definition is_ipv4 (a : IpAddr) : bool := match a with V4 _ => true | V6 _ => false end.

Inductive Protocol := Tcp | Udp | Icmp | Other (n : Z).

#[global] Instance Protocol_eq_dec : EqDecision Protocol.
Proof. solve_decision. Defined.

Definition from_number (number : Z) : Protocol :=
  match number with 1 | 58 => Icmp | 6 => Tcp | 17 => Udp | other => Other other end.

Record Destination := mkDest { address : IpAddr; port : option Z; protocol : Protocol }.
Record Rule := mkRule { r_network : option (IpAddr * Z); r_port : option Z; r_protocol : option Protocol }.

Definition host_port (a : IpAddr) (p : Z) (pr : Protocol) : Rule :=
  let bits := if is_ipv4 a then 32 else 128 in mkRule (Some (a, bits)) (Some p) (Some pr).
Definition network (a : IpAddr) (prefix : Z) : Rule := mkRule (Some (a, prefix)) None None.

(** Both slices have the length of their family. *)
Definition compare (a n : bytes) (prefix : Z) : bool :=
  let bits := Z.min prefix (Z.of_nat (length a) * 8) in
  let whole := Z.to_nat (bits / 8) in
  if negb (bool_decide (take whole a = take whole n)) then false
  else
    let leftover := bits mod 8 in
    if leftover =? 0 then true
    else
      let mask := trunc 8 (Z.shiftl 0xff (8 - leftover)) in
      Z.land (a !!! whole) mask =? Z.land (n !!! whole) mask.

Definition within (a n : IpAddr) (prefix : Z) : bool :=
  match a, n with
  | V4 x, V4 y => compare x y prefix
  | V6 x, V6 y => compare x y prefix
  | _, _ => false
  end.

Definition covers (r : Rule) (d : Destination) : bool :=
  match r_protocol r with
  | Some pr => if negb (bool_decide (pr = protocol d)) then false else true
  | None => true
  end &&
  match r_port r with
  | Some p => if negb (bool_decide (port d = Some p)) then false else true
  | None => true
  end &&
  match r_network r with
  | None => true
  | Some (n, prefix) => within (address d) n prefix
  end.

Record EgressPolicy := mkEgress { rules : list Rule; unrestricted : bool }.

Definition deny_all : EgressPolicy := mkEgress [] false.
Definition allow_all : EgressPolicy := mkEgress [] true.
Definition allow (l : list Rule) : EgressPolicy := mkEgress l false.
Definition and_rule (r : Rule) (e : EgressPolicy) : EgressPolicy := mkEgress (rules e ++ [r]) (unrestricted e).

Definition allows (e : EgressPolicy) (d : Destination) : bool := unrestricted e || existsb (fun r => covers r d) (rules e).

(** ** Frames *)

Definition u16_at (l : bytes) (i : Z) : option Z :=
  a ← l !! Z.to_nat i; b ← l !! Z.to_nat (i + 1); Some (Z.lor (Z.shiftl a 8) b).

(** [get(n..)]. *)
Definition get_from (l : bytes) (n : Z) : option bytes :=
  if n <=? Z.of_nat (length l) then Some (drop (Z.to_nat n) l) else None.

Definition destination_port (pr : Protocol) (transport : bytes) : option Z :=
  match pr with Tcp | Udp => u16_at transport 2 | Icmp | Other _ => None end.

Definition ipv4_destination (packet : bytes) : option Destination :=
  b0 ← packet !! 0%nat;
  if negb (Z.shiftr b0 4 =? 4) then None
  else
    let header_len := Z.land b0 0x0f * 4 in
    if (header_len <? 20) || (Z.of_nat (length packet) <? header_len) then None
    else
      n ← packet !! 9%nat;
      let pr := from_number n in
      a ← packet !! 16%nat;
      b ← packet !! 17%nat;
      c ← packet !! 18%nat;
      d ← packet !! 19%nat;
      ff ← u16_at packet 6;
      if Z.land ff 0x1fff =? 0 then
        t ← get_from packet header_len;
        Some (mkDest (V4 [a; b; c; d]) (destination_port pr t) pr)
      else Some (mkDest (V4 [a; b; c; d]) None pr).

Definition ipv6_destination (packet : bytes) : option Destination :=
  if Z.of_nat (length packet) <? 40 then None
  else
    b0 ← packet !! 0%nat;
    if negb (Z.shiftr b0 4 =? 6) then None
    else
      n ← packet !! 6%nat;
      let pr := from_number n in
      let a := slice packet 24 16 in
      t ← get_from packet 40;
      Some (mkDest (V6 a) (destination_port pr t) pr).

Definition ETHERNET_HEADER : Z := 14.
Definition VLAN_TAG : Z := 4.

Definition destination_of (frame : bytes) : option Destination :=
  outer ← u16_at frame 12;
  '(ethertype, payload_at) ← (if outer =? 0x8100 then inner ← u16_at frame 16; Some (inner, ETHERNET_HEADER + VLAN_TAG)
                              else Some (outer, ETHERNET_HEADER));
  packet ← get_from frame payload_at;
  match ethertype with
  | 0x0800 => ipv4_destination packet
  | 0x86DD => ipv6_destination packet
  | _ => None
  end.

Definition allows_frame (e : EgressPolicy) (frame : bytes) : bool :=
  if unrestricted e then true
  else match destination_of frame with Some d => allows e d | None => false end.

(** ** Prefixes *)

(** Bit [i] of an address, from the most significant. *)
Definition addr_bit (o : bytes) (i : Z) : bool := Z.testbit (o !!! Z.to_nat (i / 8)) (7 - i mod 8).

Lemma total_byte (o : bytes) (k : nat) : Forall is_byte o -> is_byte (o !!! k).
Proof.
  intros Hb. rewrite list_lookup_total_alt. destruct (o !! k) as [x|] eqn:E; cbn; [by apply (Forall_lookup_1 _ _ _ _ Hb E)|unfold is_byte; cbn; lia].
Qed.

Lemma byte_bits_eq a b : is_byte a -> is_byte b -> (forall j, 0 <= j < 8 -> Z.testbit a j = Z.testbit b j) -> a = b.
Proof. intros Ha Hb Hj. apply (fits_eq 8); done || lia. Qed.

(** The mask of the last, partial octet. *)
Lemma mask_spec a b l :
  is_byte a -> is_byte b -> 0 < l < 8 ->
  (Z.land a (trunc 8 (Z.shiftl 0xff (8 - l))) = Z.land b (trunc 8 (Z.shiftl 0xff (8 - l))) <->
   forall j, 8 - l <= j < 8 -> Z.testbit a j = Z.testbit b j).
Proof.
  intros Ha Hb Hl. set (m := trunc 8 (Z.shiftl 0xff (8 - l))).
  assert (forall j, 0 <= j < 8 -> Z.testbit m j = bool_decide (8 - l <= j)) as Hm.
  { intros j Hj. unfold m, trunc. rewrite Z.mod_pow2_bits_low by lia. case_bool_decide.
    - rewrite Z.shiftl_spec_high by lia. change 255 with (Z.ones 8). apply Z.ones_spec_low. lia.
    - by apply Z.shiftl_spec_low; lia. }
  assert (fits 8 m) as Hf by (apply Z.mod_pos_bound; lia). split.
  - intros E j Hj. apply (f_equal (fun z => Z.testbit z j)) in E. rewrite !Z.land_spec, Hm, bool_decide_true, !andb_true_r in E by lia. done.
  - intros Hj. apply (fits_eq 8); [by apply fits_land; [|apply Hf]|by apply fits_land; [|apply Hf]|lia|]. intros j Hj8. rewrite !Z.land_spec, Hm by done.
    case_bool_decide; [by rewrite Hj by lia|by rewrite !andb_false_r].
Qed.

Lemma take_bits (a n : bytes) (w : nat) :
  Forall is_byte a -> Forall is_byte n -> length a = length n -> (w <= length a)%nat ->
  (take w a = take w n <-> forall i, 0 <= i < 8 * Z.of_nat w -> addr_bit a i = addr_bit n i).
Proof.
  intros Ha Hn Hl Hw. split.
  - intros E i Hi. unfold addr_bit. assert (Z.to_nat (i / 8) < w)%nat as Hk by (pose proof (Z.div_lt_upper_bound i 8 (Z.of_nat w)); lia).
    rewrite !list_lookup_total_alt, <- (lookup_take_lt a w), <- (lookup_take_lt n w), E by done. done.
  - intros Hi. apply list_eq. intros k. destruct (decide (k < w)%nat); [|by rewrite !lookup_take_ge by lia]. rewrite !lookup_take_lt by done.
    destruct (lookup_lt_is_Some_2 a k) as [x Hx]; [lia|]. destruct (lookup_lt_is_Some_2 n k) as [y Hy]; [lia|]. rewrite Hx, Hy. f_equal.
    apply byte_bits_eq; [by apply (Forall_lookup_1 _ _ _ _ Ha Hx)|by apply (Forall_lookup_1 _ _ _ _ Hn Hy)|]. intros j Hj.
    specialize (Hi (8 * Z.of_nat k + (7 - j)) ltac:(lia)). unfold addr_bit in Hi.
    assert ((8 * Z.of_nat k + (7 - j)) / 8 = Z.of_nat k /\ (8 * Z.of_nat k + (7 - j)) mod 8 = 7 - j) as [E1 E2].
    { split; symmetry; [apply Z.div_unique_pos with (7 - j)|apply Z.mod_unique_pos with (Z.of_nat k)]; lia. }
    rewrite E1, E2, Nat2Z.id in Hi. rewrite !list_lookup_total_alt, Hx, Hy in Hi. cbn in Hi. by replace (7 - (7 - j)) with j in Hi by lia.
Qed.

Lemma compare_spec a n prefix :
  Forall is_byte a -> Forall is_byte n -> length a = length n -> 0 <= prefix ->
  compare a n prefix = true <-> forall i, 0 <= i < Z.min prefix (8 * Z.of_nat (length a)) -> addr_bit a i = addr_bit n i.
Proof.
  intros Ha Hn Hl Hp. unfold compare. rewrite (Z.mul_comm (Z.of_nat (length a)) 8). set (bits := Z.min prefix (8 * Z.of_nat (length a))).
  pose proof (Z.div_mod bits 8 ltac:(lia)) as Hdm. pose proof (Z.mod_pos_bound bits 8 ltac:(lia)) as Hm. assert (0 <= bits / 8) by (apply Z.div_pos; lia).
  set (w := Z.to_nat (bits / 8)). assert (Z.of_nat w = bits / 8) as Hw by lia. pose proof (take_bits a n w Ha Hn Hl ltac:(lia)) as Ht.
  case_bool_decide as Et; cbn [negb].
  2: { split; [done|]. intros Hi. exfalso. apply Et, Ht. intros i Hi'. apply Hi. lia. }
  rewrite Ht in Et. destruct (Z.eqb_spec (bits mod 8) 0) as [E0|Hne].
  { split; [|done]. intros _ i Hi. apply Et. lia. }
  rewrite Z.eqb_eq, mask_spec by (lia || by apply total_byte). split.
  - intros Hj i Hi. destruct (Z.lt_ge_cases i (8 * Z.of_nat w)); [by apply Et; lia|]. unfold addr_bit.
    assert (i / 8 = Z.of_nat w /\ i mod 8 = i - 8 * Z.of_nat w) as [-> ->].
    { split; symmetry; [apply Z.div_unique_pos with (i - 8 * Z.of_nat w)|apply Z.mod_unique_pos with (Z.of_nat w)]; lia. }
    rewrite Nat2Z.id. apply Hj. lia.
  - intros Hi j Hj. specialize (Hi (8 * Z.of_nat w + (7 - j)) ltac:(lia)). unfold addr_bit in Hi.
    assert ((8 * Z.of_nat w + (7 - j)) / 8 = Z.of_nat w /\ (8 * Z.of_nat w + (7 - j)) mod 8 = 7 - j) as [E1 E2].
    { split; symmetry; [apply Z.div_unique_pos with (7 - j)|apply Z.mod_unique_pos with (Z.of_nat w)]; lia. }
    rewrite E1, E2, Nat2Z.id in Hi. by replace (7 - (7 - j)) with j in Hi by lia.
Qed.

(** The meaning of a network and a prefix: the same family, and the leading bits equal. *)
Definition in_network (a n : IpAddr) (prefix : Z) : Prop :=
  match a, n with
  | V4 x, V4 y => forall i, 0 <= i < Z.min prefix 32 -> addr_bit x i = addr_bit y i
  | V6 x, V6 y => forall i, 0 <= i < Z.min prefix 128 -> addr_bit x i = addr_bit y i
  | _, _ => False
  end.

Lemma within_spec a n prefix : ip_ok a -> ip_ok n -> 0 <= prefix -> within a n prefix = true <-> in_network a n prefix.
Proof.
  intros Ha Hn Hp. destruct a as [x|x], n as [y|y]; cbn [within in_network ip_ok] in *; try done;
    destruct Ha as [Hla Ha], Hn as [Hln Hn]; rewrite compare_spec by (done || congruence); rewrite Hla; done.
Qed.

(** ** Policies on frames *)

Definition rule_ok (r : Rule) : Prop := forall n k, r_network r = Some (n, k) -> ip_ok n /\ 0 <= k.

(** What a rule says of a destination. *)
Definition admits (r : Rule) (d : Destination) : Prop :=
  (forall pr, r_protocol r = Some pr -> protocol d = pr) /\
  (forall p, r_port r = Some p -> port d = Some p) /\
  (forall n k, r_network r = Some (n, k) -> in_network (address d) n k).

Lemma covers_spec r d : rule_ok r -> ip_ok (address d) -> covers r d = true <-> admits r d.
Proof.
  intros Hr Hd. unfold covers, admits. rewrite !andb_true_iff. split.
  - intros [[H1 H2] H3]. split_and!.
    + intros pr E. rewrite E in H1. case_bool_decide; done.
    + intros p E. rewrite E in H2. case_bool_decide; done.
    + intros n k E. rewrite E in H3. destruct (Hr n k E). by apply within_spec.
  - intros (H1 & H2 & H3). split_and!.
    + destruct (r_protocol r); [|done]. by rewrite (H1 _ eq_refl), bool_decide_true.
    + destruct (r_port r); [|done]. by rewrite (H2 _ eq_refl), bool_decide_true.
    + destruct (r_network r) as [[n k]|] eqn:E; [|done]. destruct (Hr n k E). apply within_spec; [done..|]. by apply H3.
Qed.

Lemma rules_admit l d : Forall rule_ok l -> ip_ok (address d) -> allows (allow l) d = true <-> exists r, r ∈ l /\ admits r d.
Proof.
  intros Hl Hd. cbn [allows allow unrestricted rules orb]. rewrite existsb_exists. rewrite Forall_forall in Hl. split.
  - intros (r & Hr & Hc). apply list_elem_of_In in Hr. exists r. split; [done|]. apply covers_spec; [by apply Hl|done|done].
  - intros (r & Hr & Hc). exists r. split; [by apply list_elem_of_In|]. apply covers_spec; [by apply Hl|done|done].
Qed.

Lemma u16_at_ok l i a b : l !! Z.to_nat i = Some a -> l !! Z.to_nat (i + 1) = Some b -> u16_at l i = Some (Z.lor (Z.shiftl a 8) b).
Proof. intros Ha Hb. unfold u16_at. rewrite Ha. cbn. by rewrite Hb. Qed.

(** The bytes of a frame: two addresses, a tag or none, the type and the packet. *)
Definition frame_of (macs tag : bytes) (ethertype : bytes) (packet : bytes) : bytes := macs ++ tag ++ ethertype ++ packet.
Definition tag_ok (tag : bytes) : Prop := tag = [] \/ exists a b, tag = [0x81; 0; a; b].

Lemma destination_of_frame macs tag t0 t1 packet :
  length macs = 12%nat -> tag_ok tag -> (t0, t1) <> (0x81, 0) -> is_byte t0 -> is_byte t1 ->
  destination_of (frame_of macs tag [t0; t1] packet) =
  match Z.lor (Z.shiftl t0 8) t1 with 0x0800 => ipv4_destination packet | 0x86DD => ipv6_destination packet | _ => None end.
Proof.
  intros Hm Ht Hne H0 H1. unfold destination_of, frame_of. do 12 (destruct macs as [|? macs]; [discriminate Hm|]). destruct macs; [|discriminate Hm].
  destruct Ht as [->|(a & b & ->)].
  - cbn [app]. rewrite (u16_at_ok _ 12 t0 t1) by done. cbn [mbind option_bind].
    assert ((Z.lor (Z.shiftl t0 8) t1 =? 0x8100) = false) as ->.
    { apply Z.eqb_neq. rewrite be16_eq by done. intros E. apply Hne. unfold is_byte in *. f_equal; lia. }
    cbn [mbind option_bind]. unfold get_from. cbn [length]. rewrite (proj2 (Z.leb_le _ _)) by (unfold ETHERNET_HEADER; lia). reflexivity.
  - cbn [app]. rewrite (u16_at_ok _ 12 0x81 0) by done. cbn [mbind option_bind]. change (Z.lor (Z.shiftl 0x81 8) 0 =? 0x8100) with true. cbv iota. rewrite (u16_at_ok _ 16 t0 t1) by done. cbn [mbind option_bind].
    unfold get_from. cbn [length]. rewrite (proj2 (Z.leb_le _ _)) by (unfold ETHERNET_HEADER, VLAN_TAG; lia). reflexivity.
Qed.

(** A header of IPv4, with or without options, and one of IPv6. *)
Definition ipv4_header (hdr : bytes) : Prop := Forall is_byte hdr /\ exists n, 5 <= n <= 15 /\ hdr !! 0%nat = Some (64 + n) /\ Z.of_nat (length hdr) = 4 * n.
Definition ipv6_header (hdr : bytes) : Prop := Forall is_byte hdr /\ length hdr = 40%nat /\ exists b, hdr !! 0%nat = Some b /\ Z.shiftr b 4 = 6.

Definition fragment_offset (hdr : bytes) : Z := Z.land (Z.lor (Z.shiftl (hdr !!! 6%nat) 8) (hdr !!! 7%nat)) 0x1fff.

(** The destination that the headers of a packet name. *)
Definition named4 (hdr rest : bytes) : Destination :=
  mkDest (V4 (slice hdr 16 4)) (if fragment_offset hdr =? 0 then destination_port (from_number (hdr !!! 9%nat)) rest else None) (from_number (hdr !!! 9%nat)).
Definition named6 (hdr rest : bytes) : Destination :=
  mkDest (V6 (slice hdr 24 16)) (destination_port (from_number (hdr !!! 6%nat)) rest) (from_number (hdr !!! 6%nat)).

Lemma ipv4_destination_ok hdr rest : ipv4_header hdr -> ipv4_destination (hdr ++ rest) = Some (named4 hdr rest).
Proof.
  intros [Hb (n & Hn & H0 & Hl)]. assert (forall i, (i < 20)%nat -> (hdr ++ rest) !! i = Some (hdr !!! i)) as Hat.
  { intros i Hi. rewrite lookup_app_l by lia. destruct (lookup_lt_is_Some_2 hdr i) as [x Hx]; [lia|]. by rewrite (list_lookup_total_correct _ _ _ Hx). }
  unfold ipv4_destination. rewrite (Hat 0%nat) by lia. rewrite (list_lookup_total_correct _ _ _ H0). cbn [mbind option_bind].
  assert (Z.shiftr (64 + n) 4 = 4 /\ Z.land (64 + n) 15 = n) as [-> ->].
  { change 15 with (Z.ones 4). rewrite Z.shiftr_div_pow2, Z.land_ones by lia. change (2 ^ 4) with 16. split; symmetry; [apply Z.div_unique_pos with n|apply Z.mod_unique_pos with 4]; lia. }
  cbn [negb Z.eqb Pos.eqb]. rewrite length_app, !(proj2 (Z.ltb_ge _ _)) by lia. cbn [orb]. rewrite !Hat by lia. cbn [mbind option_bind].
  rewrite (u16_at_ok _ 6 _ _ (Hat 6%nat ltac:(lia)) (Hat 7%nat ltac:(lia))). cbn [mbind option_bind]. fold (fragment_offset hdr).
  assert (slice hdr 16 4 = [hdr !!! 16%nat; hdr !!! 17%nat; hdr !!! 18%nat; hdr !!! 19%nat]) as Hs.
  { apply list_eq. intros i. rewrite lookup_slice. do 4 (destruct i as [|i]; [cbn; rewrite <- (lookup_app_l hdr rest) by lia; apply Hat; lia|]). by rewrite bool_decide_false by lia. }
  unfold named4. rewrite Hs. destruct (_ =? 0); [|done]. unfold get_from. rewrite length_app, (proj2 (Z.leb_le _ _)) by lia. cbn [mbind option_bind].
  replace (Z.to_nat (n * 4)) with (length hdr) by lia. by rewrite drop_app_length.
Qed.

Lemma ipv6_destination_ok hdr rest : ipv6_header hdr -> ipv6_destination (hdr ++ rest) = Some (named6 hdr rest).
Proof.
  intros (Hb & Hl & b & H0 & Hv). unfold ipv6_destination. rewrite length_app, (proj2 (Z.ltb_ge _ _)) by lia.
  assert (forall i x, hdr !! i = Some x -> (hdr ++ rest) !! i = Some x) as Hat by (intros i x; apply lookup_app_l_Some).
  rewrite (Hat _ _ H0). cbn [mbind option_bind].
  rewrite Hv. cbn [negb Z.eqb Pos.eqb]. destruct (lookup_lt_is_Some_2 hdr 6) as [x Hx]; [lia|]. rewrite (Hat _ _ Hx). cbn [mbind option_bind].
  unfold get_from. rewrite length_app, (proj2 (Z.leb_le _ _)) by lia. cbn [mbind option_bind]. unfold named6. rewrite (list_lookup_total_correct _ _ _ Hx).
  replace (Z.to_nat 40) with (length hdr) by lia. rewrite drop_app_length.
  assert (slice (hdr ++ rest) 24 16 = slice hdr 24 16) as ->; [|done]. unfold slice. rewrite drop_app_le by lia. apply take_app_le. rewrite length_drop. lia.
Qed.

(** C33: A policy of rules lets a frame out exactly when a rule admits the destination that
    the headers of its packet name: protocol, port where the packet shows one, and
    network to the bit; with or without a VLAN tag, header options and extensions. *)
Theorem frame_policy l macs tag hdr rest v6 :
  Forall rule_ok l -> length macs = 12%nat -> tag_ok tag -> (if v6 : bool then ipv6_header hdr else ipv4_header hdr) ->
  let d := if v6 then named6 hdr rest else named4 hdr rest in
  allows_frame (allow l) (frame_of macs tag (if v6 then [0x86; 0xDD] else [8; 0]) (hdr ++ rest)) = true <-> exists r, r ∈ l /\ admits r d.
Proof.
  intros Hl Hm Ht Hh. cbv zeta. unfold allows_frame. cbn [allow unrestricted]. change (mkEgress l false) with (allow l). destruct v6.
  - rewrite destination_of_frame by (done || unfold is_byte; lia). change (Z.lor (Z.shiftl 0x86 8) 0xDD) with 0x86DD. cbv iota. rewrite ipv6_destination_ok by done.
    apply rules_admit; [done|]. destruct Hh as (Hb & Hlen & _). split; [|by apply Forall_take, Forall_drop]. pose proof (length_slice hdr 24 16). lia.
  - rewrite destination_of_frame by (done || unfold is_byte; lia). change (Z.lor (Z.shiftl 8 8) 0) with 0x0800. cbv iota. rewrite ipv4_destination_ok by done.
    apply rules_admit; [done|]. destruct Hh as (Hb & n & Hn & _ & Hlen). split; [|by apply Forall_take, Forall_drop]. pose proof (length_slice hdr 16 4). lia.
Qed.

(** ** Witness *)

Definition example_header : bytes := [0x45; 0; 0; 28; 0; 0; 0; 0; 64; 17; 0; 0; 10; 0; 0; 2; 1; 2; 3; 4].

Lemma frame_policy_witness :
  allows_frame (allow [network (V4 [1; 2; 0; 0]) 16]) (frame_of (replicate 12 0) [0x81; 0; 0; 5] [8; 0] (example_header ++ [0x13; 0x88; 0; 53])) = true <->
  exists r, r ∈ [network (V4 [1; 2; 0; 0]) 16] /\ admits r (named4 example_header [0x13; 0x88; 0; 53]).
Proof.
  apply (frame_policy [network (V4 [1; 2; 0; 0]) 16] (replicate 12 0) [0x81; 0; 0; 5] example_header [0x13; 0x88; 0; 53] false).
  - constructor; [|constructor]. intros n k [= <- <-]. split; [|lia]. split; [reflexivity|apply bytes_forallb; reflexivity].
  - reflexivity.
  - right. by exists 0, 5.
  - split; [apply bytes_forallb; reflexivity|]. exists 5. split_and!; [lia..|reflexivity|reflexivity].
Defined.
