(* ===== verification/NetworkPolicy.v ===== *)
(** * The network policy of a sandbox ([hv2-net/src/network_policy.rs])

    Names, address blocks, the policy built from a request, and its decisions.  A text
    is the list of its characters, as code points. *)

From S2P Require Import Prelude Utf8 Egress.

Abbreviation text := (list Z).

(** ** Texts *)

(** [char::is_whitespace]. *)
Definition is_whitespace (c : Z) : bool :=
  ((9 <=? c) && (c <=? 13)) || (c =? 0x20) || (c =? 0x85) || (c =? 0xA0) || (c =? 0x1680) || ((0x2000 <=? c) && (c <=? 0x200A)) ||
  (c =? 0x2028) || (c =? 0x2029) || (c =? 0x202F) || (c =? 0x205F) || (c =? 0x3000).

Fixpoint trim_start_matches (f : Z -> bool) (s : text) : text :=
  match s with
  | [] => []
  | c :: s' => if f c then trim_start_matches f s' else s
  end.
Definition trim_end_matches (f : Z -> bool) (s : text) : text := rev (trim_start_matches f (rev s)).
Definition trim (s : text) : text := trim_end_matches is_whitespace (trim_start_matches is_whitespace s).

Definition to_ascii_lowercase (s : text) : text := (fun c => if (65 <=? c) && (c <=? 90) then c + 32 else c) <$> s.

(** [str::len]: the bytes of the encoding. *)
Definition char_len (c : Z) : Z := if c <? 0x80 then 1 else if c <? 0x800 then 2 else if c <? 0x10000 then 3 else 4.
Definition text_len (s : text) : Z := foldr (fun c n => char_len c + n) 0 s.

Definition contains_char (c : Z) (s : text) : bool := bool_decide (c ∈ s).

Definition strip_suffix (suffix s : text) : option text :=
  let n := (length s - length suffix)%nat in
  if bool_decide (length suffix <= length s)%nat && bool_decide (drop n s = suffix) then Some (take n s) else None.
Definition ends_with (c : Z) (s : text) : bool := bool_decide (last s = Some c).

(** ** Names *)

Inductive PolicyError := BadAddress (s : text) | BadName (s : text) | NameInDeny (s : text) | BadHeader (s : text).
Abbreviation Policy := (Res PolicyError).

Inductive NamePattern := Exact (name : text) | Subdomains (suffix : text).

Definition normalise (name : text) : text := to_ascii_lowercase (trim_end_matches (fun c => c =? 46) (trim name)).

Definition pattern_parse (pattern : text) : Policy NamePattern :=
  let lowered := normalise pattern in
  match lowered with
  | 42 :: 46 :: suffix =>
      if bool_decide (suffix = []) || contains_char 42 suffix then Err (BadName pattern) else Ok (Subdomains suffix)
  | _ =>
      if bool_decide (lowered = []) || contains_char 42 lowered || contains_char 47 lowered then Err (BadName pattern)
      else Ok (Exact lowered)
  end.

Definition matches (p : NamePattern) (name : text) : bool :=
  match p with
  | Exact exact => bool_decide (exact = name)
  | Subdomains suffix =>
      match strip_suffix suffix name with
      | Some head => (1 <? text_len head) && ends_with 46 head
      | None => false
      end
  end.

Definition specificity (p : NamePattern) : bool * Z :=
  match p with Exact name => (true, text_len name) | Subdomains suffix => (false, text_len suffix) end.

(** ** Addresses in text: [IpAddr::from_str]

    A reader takes what it can from the front of a text, or nothing. *)

Definition to_digit (radix c : Z) : option Z :=
  let d := if (48 <=? c) && (c <=? 57) then Some (c - 48)
           else if (97 <=? c) && (c <=? 122) then Some (c - 87)
           else if (65 <=? c) && (c <=? 90) then Some (c - 55) else None in
  match d with Some d => if d <? radix then Some d else None | None => None end.

Fixpoint read_digits (radix max_digits limit acc count : Z) (s : text) : option (Z * Z * text) :=
  match s with
  | [] => Some (acc, count, [])
  | c :: s' =>
      match to_digit radix c with
      | None => Some (acc, count, s)
      | Some d =>
          let acc' := acc * radix + d in
          if (limit <=? acc') || (max_digits <? count + 1) then None
          else read_digits radix max_digits limit acc' (count + 1) s'
      end
  end.

Definition read_number (radix max_digits limit : Z) (allow_zero_prefix : bool) (s : text) : option (Z * text) :=
  '(v, n, rest) ← read_digits radix max_digits limit 0 0 s;
  if n =? 0 then None
  else if negb allow_zero_prefix && bool_decide (head s = Some 48) && (1 <? n) then None
  else Some (v, rest).

Definition read_given_char (c : Z) (s : text) : option text :=
  match s with x :: s' => if x =? c then Some s' else None | [] => None end.

Definition read_separator {A} (sep index : Z) (inner : text -> option (A * text)) (s : text) : option (A * text) :=
  if 0 <? index then s' ← read_given_char sep s; inner s' else inner s.

Definition read_ipv4_addr (s : text) : option (bytes * text) :=
  let octet := read_number 10 3 256 false in
  '(a, s1) ← read_separator 46 0 octet s;
  '(b, s2) ← read_separator 46 1 octet s1;
  '(c, s3) ← read_separator 46 2 octet s2;
  '(d, s4) ← read_separator 46 3 octet s3;
  Some ([a; b; c; d], s4).

(** Groups from number [index] on, of which [n] are left; whether they end in an address
    of version 4. *)
Fixpoint read_groups (n : nat) (index : Z) (s : text) : list Z * bool * text :=
  match n with
  | O => ([], false, s)
  | S n' =>
      match (if (0 <? n')%nat then read_separator 58 index read_ipv4_addr s else None) with
      | Some ([a; b; c; d], rest) => ([a * 256 + b; c * 256 + d], true, rest)
      | _ =>
          match read_separator 58 index (read_number 16 4 65536 true) s with
          | Some (g, rest) => let '(gs, v4, r) := read_groups n' (index + 1) rest in (g :: gs, v4, r)
          | None => ([], false, s)
          end
      end
  end.

Definition group_octets (g : Z) : bytes := [Z.shiftr g 8; Z.land g 255].

Definition read_ipv6_addr (s : text) : option (bytes * text) :=
  let '(head, head_ipv4, r) := read_groups 8 0 s in
  if (length head =? 8)%nat then Some (concat (group_octets <$> head), r)
  else if head_ipv4 : bool then None
  else
    r1 ← read_given_char 58 r;
    r2 ← read_given_char 58 r1;
    let '(tail, _, r3) := read_groups (7 - length head) 0 r2 in
    Some (concat (group_octets <$> (head ++ replicate (8 - length head - length tail) 0 ++ tail)), r3).

Definition parse_ip (s : text) : option IpAddr :=
  match read_ipv4_addr s with
  | Some (o, []) => Some (V4 o)
  | Some _ => None
  | None => match read_ipv6_addr s with Some (o, []) => Some (V6 o) | _ => None end
  end.

(** [parse::<u8>]: digits after an optional plus sign. *)
Definition parse_u8 (s : text) : option Z :=
  let digits := match s with 43 :: s' => s' | _ => s end in
  match digits with
  | [] => None
  | _ => match read_digits 10 (Z.of_nat (length digits)) 256 0 0 digits with Some (v, _, []) => Some v | _ => None end
  end.

Record Cidr := mkCidr { c_address : IpAddr; c_prefix : Z }.

Definition cidr_parse (s : text) : Policy Cidr :=
  let s := trim s in
  let '(addr, prefix) := match split_once 47 s with Some (a, p) => (a, Some p) | None => (s, None) end in
  a ← ok_or (parse_ip addr) (BadAddress s);
  let bits := if is_ipv4 a then 32 else 128 in
  match prefix with
  | None => Ok (mkCidr a bits)
  | Some p =>
      match parse_u8 p with
      | Some n => if n <=? bits then Ok (mkCidr a n) else Err (BadAddress s)
      | None => Err (BadAddress s)
      end
  end.

Definition cidr_contains (c : Cidr) (a : IpAddr) : bool := within a (c_address c) (c_prefix c).

(** ** The policy *)

Inductive Verdict := Allow | Deny.
#[global] Instance Verdict_eq_dec : EqDecision Verdict.
Proof. solve_decision. Defined.

Inductive AddressVerdict := AllowAddr (reason : string) | DenyAddr (reason : string) | NeedsName.

(** [BTreeMap<String, String>], in order. *)
Abbreviation Headers := (list (text * text)).

Record NetworkPolicy := mkPolicy {
  allow_addresses : list Cidr;
  allow_names : list NamePattern;
  deny_addresses : list Cidr;
  transforms : list (NamePattern * Headers);
  default_verdict : Verdict;
  tenant_reserved : list Cidr
}.

Definition policy_new (d : Verdict) : NetworkPolicy := mkPolicy [] [] [] [] d [].

Definition add_allow_address (c : Cidr) (p : NetworkPolicy) : NetworkPolicy :=
  mkPolicy (allow_addresses p ++ [c]) (allow_names p) (deny_addresses p) (transforms p) (default_verdict p) (tenant_reserved p).
Definition add_allow_name (n : NamePattern) (p : NetworkPolicy) : NetworkPolicy :=
  mkPolicy (allow_addresses p) (allow_names p ++ [n]) (deny_addresses p) (transforms p) (default_verdict p) (tenant_reserved p).
Definition add_deny_address (c : Cidr) (p : NetworkPolicy) : NetworkPolicy :=
  mkPolicy (allow_addresses p) (allow_names p) (deny_addresses p ++ [c]) (transforms p) (default_verdict p) (tenant_reserved p).
Definition add_transform (t : NamePattern * Headers) (p : NetworkPolicy) : NetworkPolicy :=
  mkPolicy (allow_addresses p) (allow_names p) (deny_addresses p) (transforms p ++ [t]) (default_verdict p) (tenant_reserved p).

Fixpoint add_allow_out (entries : list text) (p : NetworkPolicy) : Policy NetworkPolicy :=
  match entries with
  | [] => mret p
  | e :: es =>
      match cidr_parse e with
      | Ok c => add_allow_out es (add_allow_address c p)
      | Err _ => n ← pattern_parse e; add_allow_out es (add_allow_name n p)
      | Panic x => Panic x
      end
  end.

Fixpoint add_deny_out (entries : list text) (p : NetworkPolicy) : Policy NetworkPolicy :=
  match entries with
  | [] => mret p
  | e :: es =>
      match cidr_parse e with
      | Ok c => add_deny_out es (add_deny_address c p)
      | Err _ => match pattern_parse e with Ok _ => Err (NameInDeny e) | Err x => Err x | Panic x => Panic x end
      | Panic x => Panic x
      end
  end.

Definition is_ascii_alphanumeric (c : Z) : bool :=
  ((48 <=? c) && (c <=? 57)) || ((65 <=? c) && (c <=? 90)) || ((97 <=? c) && (c <=? 122)).
Definition token_char (c : Z) : bool := is_ascii_alphanumeric c || bool_decide (c ∈ str "!#$%&'*+-.^_`|~").
Definition header_ok (h : text * text) : bool :=
  negb (bool_decide (h.1 = [])) && forallb token_char h.1 && negb (existsb (fun c => (c =? 13) || (c =? 10) || (c =? 0)) h.2).

Fixpoint add_rules (rules : list (text * Headers)) (p : NetworkPolicy) : Policy NetworkPolicy :=
  match rules with
  | [] => mret p
  | (pattern, headers) :: rs =>
      match List.find (fun h => negb (header_ok h)) headers with
      | Some (name, value) => Err (BadHeader (name ++ str ": " ++ value))
      | None => n ← pattern_parse pattern; add_rules rs (add_transform (n, headers) p)
      end
  end.

Definition ANY_V4 : Cidr := mkCidr (V4 (replicate 4 0)) 0.
Definition ANY_V6 : Cidr := mkCidr (V6 (replicate 16 0)) 0.

Definition from_e2b (allow_internet_access : option bool) (allow_out deny_out : list text) (rules : list (text * Headers))
    (operator_default : Verdict) : Policy NetworkPolicy :=
  let configured := bool_decide (is_Some allow_internet_access) || negb (bool_decide (allow_out = [])) || negb (bool_decide (deny_out = [])) in
  let p0 := policy_new (if configured then Allow else operator_default) in
  p1 ← add_allow_out allow_out p0;
  p2 ← add_deny_out deny_out p1;
  let p3 := if bool_decide (allow_internet_access = Some false) then add_deny_address ANY_V6 (add_deny_address ANY_V4 p2) else p2 in
  add_rules rules p3.

(** ** Decisions *)

(** [Ipv6Addr::to_ipv4_mapped]. *)
Definition to_ipv4_mapped (o : bytes) : option bytes :=
  if bool_decide (take 12 o = replicate 10 0 ++ [255; 255]) then Some (drop 12 o) else None.

Definition reserved_v4 (o : bytes) : bool :=
  let b i := o !!! i in
  bool_decide (o = [0; 0; 0; 0]) || (b 0%nat =? 127) ||
  ((b 0%nat =? 10) || ((b 0%nat =? 172) && (16 <=? b 1%nat) && (b 1%nat <=? 31)) || ((b 0%nat =? 192) && (b 1%nat =? 168))) ||
  ((b 0%nat =? 169) && (b 1%nat =? 254)) || ((224 <=? b 0%nat) && (b 0%nat <=? 239)) || bool_decide (o = [255; 255; 255; 255]) ||
  ((b 0%nat =? 100) && (Z.land (b 1%nat) 0xc0 =? 64)) || (b 0%nat =? 0) || (240 <=? b 0%nat).

Definition is_reserved (a : IpAddr) : bool :=
  match a with
  | V4 o => reserved_v4 o
  | V6 o =>
      match to_ipv4_mapped o with
      | Some v4 => reserved_v4 v4
      | None =>
          let first := Z.lor (Z.shiftl (o !!! 0%nat) 8) (o !!! 1%nat) in
          bool_decide (o = replicate 16 0) || bool_decide (o = replicate 15 0 ++ [1]) || (o !!! 0%nat =? 255) ||
          (Z.land first 0xfe00 =? 0xfc00) || (Z.land first 0xffc0 =? 0xfe80)
      end
  end.

Definition with_tenant_reserved (ranges : list Cidr) (p : NetworkPolicy) : NetworkPolicy :=
  mkPolicy (allow_addresses p) (allow_names p) (deny_addresses p) (transforms p) (default_verdict p) ranges.

Definition any_contains (l : list Cidr) (a : IpAddr) : bool := existsb (fun c => cidr_contains c a) l.

Definition address_allowed (p : NetworkPolicy) (a : IpAddr) : bool :=
  any_contains (allow_addresses p) a && (negb (is_reserved a) || any_contains (tenant_reserved p) a).
Definition address_denied (p : NetworkPolicy) (a : IpAddr) : bool := any_contains (deny_addresses p) a.
Definition name_allowed (p : NetworkPolicy) (name : text) : bool := existsb (fun n => matches n (normalise name)) (allow_names p).

Definition may_resolve (p : NetworkPolicy) (name : text) : bool :=
  name_allowed p name || (bool_decide (default_verdict p = Allow) && negb (existsb (fun c => c_prefix c =? 0) (deny_addresses p))).

Definition decide_address (p : NetworkPolicy) (a : IpAddr) : AddressVerdict :=
  if address_allowed p a then AllowAddr "allowOut address"
  else if is_reserved a then DenyAddr "reserved address"
  else
    let refused := if address_denied p a then Some "denyOut address"%string
                   else if bool_decide (default_verdict p = Deny) then Some "default deny"%string else None in
    match refused with
    | None => AllowAddr "default allow"
    | Some reason => if negb (bool_decide (allow_names p = [])) then NeedsName else DenyAddr reason
    end.

Definition decide_named (p : NetworkPolicy) (a : IpAddr) (name : text) : Verdict * string :=
  if address_allowed p a then (Allow, "allowOut address"%string)
  else if is_reserved a then (Deny, "reserved address"%string)
  else if name_allowed p name then (Allow, "allowOut name"%string)
  else if address_denied p a then (Deny, "denyOut address"%string)
  else match default_verdict p with
       | Allow => (Allow, "default allow"%string)
       | Deny => (Deny, "default deny"%string)
       end.

(** [max_by_key] keeps the last of the greatest. *)
Definition key_le (a b : bool * Z) : bool :=
  match a.1, b.1 with false, true => true | true, false => false | _, _ => a.2 <=? b.2 end.
Definition max_by_specificity (l : list (NamePattern * Headers)) : option (NamePattern * Headers) :=
  foldl (fun best x => match best with
                       | None => Some x
                       | Some b => if key_le (specificity b.1) (specificity x.1) then Some x else Some b
                       end) None l.

Definition transform_for (p : NetworkPolicy) (name : text) : option Headers :=
  let name := normalise name in
  snd <$> max_by_specificity (List.filter (fun t => matches t.1 name) (transforms p)).
Definition has_transforms (p : NetworkPolicy) : bool := negb (bool_decide (transforms p = [])).

Example parse_ip_ex1 : parse_ip (str "2001:db8::7f") = Some (V6 [0x20; 1; 0xd; 0xb8; 0; 0; 0; 0; 0; 0; 0; 0; 0; 0; 0; 0x7f]).
Proof. vm_compute. reflexivity. Qed.
Example parse_ip_ex2 : parse_ip (str "::ffff:1.2.3.4") = Some (V6 (replicate 10 0 ++ [255; 255; 1; 2; 3; 4])).
Proof. vm_compute. reflexivity. Qed.
Example parse_ip_ex3 : parse_ip (str "10.01.0.0") = None /\ parse_ip (str "1::2::3") = None /\ parse_ip (str "1:2:3:4:5:6:7:8:9") = None.
Proof. vm_compute. done. Qed.
Example cidr_ex : cidr_parse (str " 10.0.0.0/8 ") = Ok (mkCidr (V4 [10; 0; 0; 0]) 8) /\ cidr_parse (str "1.2.3.4/33") = Err (BadAddress (str "1.2.3.4/33")).
Proof. vm_compute. done. Qed.
Example pattern_ex : pattern_parse (str "*.Example.COM.") = Ok (Subdomains (str "example.com")) /\ pattern_parse (str "*") = Err (BadName (str "*")).
Proof. vm_compute. done. Qed.

(** ** Names *)

Lemma strip_suffix_spec suffix s h : strip_suffix suffix s = Some h <-> s = h ++ suffix.
Proof.
  unfold strip_suffix. split.
  - destruct (_ && _) eqn:E; [|done]. apply andb_true_iff in E as [_ E%bool_decide_eq_true]. intros [= <-]. rewrite <- E at 2. by rewrite take_drop.
  - intros ->. rewrite length_app, !bool_decide_true; [|replace (length h + length suffix - length suffix)%nat with (length h) by lia; apply drop_app_length|lia].
    cbn [andb]. replace (length h + length suffix - length suffix)%nat with (length h) by lia. by rewrite take_app_length.
Qed.

Lemma char_len_pos c : 1 <= char_len c.
Proof. unfold char_len. repeat case_match; lia. Qed.

Lemma text_len_nonneg s : 0 <= text_len s.
Proof. unfold text_len. induction s as [|c s IH]; cbn -[char_len]; [done|]. pose proof (char_len_pos c). lia. Qed.

Lemma text_len_app s s' : text_len (s ++ s') = text_len s + text_len s'.
Proof. unfold text_len. induction s as [|c s IH]; cbn [app foldr]; [done|]. rewrite IH. lia. Qed.

(** A pattern of subdomains: one label or more, a dot, the suffix. *)
Lemma subdomains_spec suffix name : matches (Subdomains suffix) name = true <-> exists h, h <> [] /\ name = h ++ 46 :: suffix.
Proof.
  cbn [matches]. split.
  - destruct (strip_suffix suffix name) as [h|] eqn:E; [|done]. apply strip_suffix_spec in E as ->. rewrite andb_true_iff. intros [H1%Z.ltb_lt H2%bool_decide_eq_true].
    apply last_Some in H2 as [h' ->]. exists h'. split; [|by rewrite <- app_assoc]. intros ->. cbn in H1. lia.
  - intros (h & Hh & ->). assert (strip_suffix suffix (h ++ 46 :: suffix) = Some (h ++ [46])) as -> by (apply strip_suffix_spec; by rewrite <- app_assoc).
    apply andb_true_iff. split; [|apply bool_decide_eq_true, last_snoc]. apply Z.ltb_lt. rewrite text_len_app. change (text_len [46]) with 1. destruct h as [|c h]; [done|].
    change (text_len (c :: h)) with (char_len c + text_len h). pose proof (text_len_nonneg h). pose proof (char_len_pos c). lia.
Qed.

(** ** Decisions *)

(** What the address alone decides is what the address and any name decide; a name is
    asked for exactly when it makes the difference. *)
Theorem decide_consistent p a :
  match decide_address p a with
  | AllowAddr _ => forall name, (decide_named p a name).1 = Allow
  | DenyAddr _ => forall name, (decide_named p a name).1 = Deny
  | NeedsName => forall name, (decide_named p a name).1 = Allow <-> name_allowed p name = true
  end.
Proof.
  unfold decide_address, decide_named. destruct (address_allowed p a); [done|]. destruct (is_reserved a); [done|].
  assert (allow_names p = [] -> forall name, name_allowed p name = false) as Hnone by (intros E name; unfold name_allowed; by rewrite E).
  destruct (address_denied p a).
  - case_bool_decide as En; cbn [negb]; intros name; [by rewrite Hnone|]. destruct (name_allowed p name); done.
  - destruct (default_verdict p); cbn [bool_decide decide_rel Verdict_eq_dec]; [intros name; by destruct (name_allowed p name)|].
    rewrite bool_decide_true by done. case_bool_decide as En; cbn [negb]; intros name; [by rewrite Hnone|]. destruct (name_allowed p name); done.
Qed.

(** *** Reserved addresses *)

Definition block (a : IpAddr) (prefix : Z) : Cidr := mkCidr a prefix.

(** The blocks of the Internet's registries that the policy holds back. *)
Definition reserved_blocks : list Cidr :=
  [block (V4 [0; 0; 0; 0]) 8; block (V4 [10; 0; 0; 0]) 8; block (V4 [100; 64; 0; 0]) 10; block (V4 [127; 0; 0; 0]) 8;
   block (V4 [169; 254; 0; 0]) 16; block (V4 [172; 16; 0; 0]) 12; block (V4 [192; 168; 0; 0]) 16; block (V4 [224; 0; 0; 0]) 4;
   block (V4 [240; 0; 0; 0]) 4;
   block (V6 (replicate 16 0)) 128; block (V6 (replicate 15 0 ++ [1])) 128; block (V6 (0xff :: replicate 15 0)) 8;
   block (V6 (0xfc :: replicate 15 0)) 7; block (V6 (0xfe :: 0x80 :: replicate 14 0)) 10].

Lemma byte_check (f g : Z -> bool) : forallb (fun b => eqb (f b) (g b)) (seqZ 0 256) = true -> forall b, is_byte b -> f b = g b.
Proof.
  rewrite forallb_forall. intros H b Hb. apply eqb_prop, H. apply list_elem_of_In, elem_of_seqZ. unfold is_byte in Hb. lia.
Qed.

Lemma four_octets (o : bytes) : length o = 4%nat -> exists a b c d, o = [a; b; c; d].
Proof. intros H. do 4 (destruct o as [|? o]; [discriminate H|]). destruct o; [eauto|discriminate H]. Qed.

Lemma compare_at (a n : bytes) prefix w l :
  Z.to_nat (Z.min prefix (Z.of_nat (length a) * 8) / 8) = w -> Z.min prefix (Z.of_nat (length a) * 8) mod 8 = l ->
  compare a n prefix = bool_decide (take w a = take w n) &&
    ((l =? 0) || (Z.land (a !!! w) (trunc 8 (Z.shiftl 0xff (8 - l))) =? Z.land (n !!! w) (trunc 8 (Z.shiftl 0xff (8 - l))))).
Proof. intros <- <-. unfold compare. destruct (bool_decide _); cbn [negb andb]; [|done]. by destruct (_ mod 8 =? 0). Qed.

Lemma decide_cons (a x : Z) (l l' : bytes) : bool_decide (a :: l = x :: l') = (a =? x) && bool_decide (l = l').
Proof.
  destruct (Z.eqb_spec a x) as [->|]; [|by rewrite bool_decide_false by congruence]. destruct (decide (l = l')) as [->|]; [by rewrite !bool_decide_true|]. by rewrite !bool_decide_false by congruence.
Qed.

Lemma reserved_v4_blocks o : ip_ok (V4 o) -> reserved_v4 o = any_contains reserved_blocks (V4 o).
Proof.
  intros [Hl Hb]. destruct (four_octets o Hl) as (a & b & c & d & ->). inversion_clear Hb as [|?? Ha Hb1]. inversion_clear Hb1 as [|?? Hb Hb2]. clear Hl.
  unfold any_contains, reserved_blocks, cidr_contains. cbn [existsb block c_address c_prefix within]. rewrite !orb_false_r.
  assert (forall x, compare [a; b; c; d] [x; 0; 0; 0] 8 = (a =? x)) as E8.
  { intros x. rewrite (compare_at _ _ _ 1 0) by reflexivity. cbn [take firstn]. rewrite decide_cons, bool_decide_true by done. by rewrite !andb_true_r. }
  assert (forall x y, compare [a; b; c; d] [x; y; 0; 0] 16 = (a =? x) && (b =? y)) as E16.
  { intros x y. rewrite (compare_at _ _ _ 2 0) by reflexivity. cbn [take firstn]. rewrite !decide_cons, bool_decide_true by done. by rewrite !andb_true_r. }
  assert (forall x y, compare [a; b; c; d] [x; y; 0; 0] 10 = (a =? x) && (Z.land b 0xc0 =? Z.land y 0xc0)) as E10.
  { intros x y. rewrite (compare_at _ _ _ 1 2) by reflexivity. cbn [take firstn]. rewrite decide_cons, bool_decide_true, andb_true_r by done. reflexivity. }
  assert (forall x y, compare [a; b; c; d] [x; y; 0; 0] 12 = (a =? x) && (Z.land b 0xf0 =? Z.land y 0xf0)) as E12.
  { intros x y. rewrite (compare_at _ _ _ 1 4) by reflexivity. cbn [take firstn]. rewrite decide_cons, bool_decide_true, andb_true_r by done. reflexivity. }
  assert (forall x, compare [a; b; c; d] [x; 0; 0; 0] 4 = (Z.land a 0xf0 =? Z.land x 0xf0)) as E4.
  { intros x. by rewrite (compare_at _ _ _ 0 4) by reflexivity. }
  rewrite !E8, !E16, E10, E12, !E4. unfold reserved_v4. cbn [lookup_total list_lookup_total].
  change (Z.land 64 192) with 64. change (Z.land 16 240) with 16. change (Z.land 224 240) with 224. change (Z.land 240 240) with 240.
  rewrite (byte_check (fun b => Z.land b 240 =? 16) (fun b => (16 <=? b) && (b <=? 31)) ltac:(vm_compute; reflexivity) b Hb).
  rewrite (byte_check (fun b => Z.land b 240 =? 224) (fun b => (224 <=? b) && (b <=? 239)) ltac:(vm_compute; reflexivity) a Ha).
  rewrite (byte_check (fun b => Z.land b 240 =? 240) (fun b => 240 <=? b) ltac:(vm_compute; reflexivity) a Ha).
  assert (bool_decide ([a; b; c; d] = [0; 0; 0; 0]) = true -> (a =? 0) = true) as H0 by (rewrite bool_decide_eq_true; by intros [= -> _ _ _]).
  assert (bool_decide ([a; b; c; d] = [255; 255; 255; 255]) = true -> (240 <=? a) = true) as H1 by (rewrite bool_decide_eq_true; by intros [= -> _ _ _]).
  destruct (bool_decide ([a; b; c; d] = [0; 0; 0; 0])); [rewrite H0 by done|]; destruct (bool_decide ([a; b; c; d] = [255; 255; 255; 255])); [rewrite H1 by done| |rewrite H1 by done|];
    cbn [orb]; rewrite ?orb_true_r; try done; apply eq_true_iff_eq; rewrite !orb_true_iff, !andb_true_iff; tauto.
Qed.

Lemma sixteen_first (o : bytes) : length o = 16%nat -> exists a b r, o = a :: b :: r /\ length r = 14%nat.
Proof. intros H. destruct o as [|a [|b r]]; try discriminate H. exists a, b, r. split; [done|]. cbn in H. lia. Qed.

(** The tests of the two leading groups of bits of an address of version 6. *)
Lemma unique_local_test a b : is_byte a -> is_byte b -> (Z.land (Z.lor (Z.shiftl a 8) b) 0xfe00 =? 0xfc00) = (Z.land a 0xfe =? 0xfc).
Proof.
  intros Ha Hb. rewrite Z.land_lor_distr_l.
  assert (Z.land b 0xfe00 = 0) as -> by (apply Z.eqb_eq; exact (byte_check (fun b => Z.land b 0xfe00 =? 0) (fun _ => true) ltac:(vm_compute; reflexivity) b Hb)).
  rewrite Z.lor_0_r. exact (byte_check (fun a => Z.land (Z.shiftl a 8) 0xfe00 =? 0xfc00) (fun a => Z.land a 0xfe =? 0xfc) ltac:(vm_compute; reflexivity) a Ha).
Qed.

Lemma link_local_test a b : is_byte a -> is_byte b -> (Z.land (Z.lor (Z.shiftl a 8) b) 0xffc0 =? 0xfe80) = (a =? 0xfe) && (Z.land b 0xc0 =? 0x80).
Proof.
  intros Ha Hb. rewrite Z.land_lor_distr_l.
  assert (Z.land b 0xffc0 = Z.land b 0xc0) as ->.
  { apply Z.eqb_eq. exact (byte_check (fun b => Z.land b 0xffc0 =? Z.land b 0xc0) (fun _ => true) ltac:(vm_compute; reflexivity) b Hb). }
  assert (Z.land (Z.shiftl a 8) 0xffc0 = Z.shiftl a 8) as ->.
  { apply Z.eqb_eq. exact (byte_check (fun a => Z.land (Z.shiftl a 8) 0xffc0 =? Z.shiftl a 8) (fun _ => true) ltac:(vm_compute; reflexivity) a Ha). }
  assert (0 <= Z.land b 0xc0 < 256) as Hl by (apply (fits_land 8); [done|lia]). rewrite be16_eq by done.
  apply eq_true_iff_eq. rewrite andb_true_iff, !Z.eqb_eq. unfold is_byte in *. lia.
Qed.

Lemma reserved_v6_blocks o : ip_ok (V6 o) -> to_ipv4_mapped o = None -> is_reserved (V6 o) = any_contains reserved_blocks (V6 o).
Proof.
  intros [Hl Hb] Hm. unfold is_reserved. rewrite Hm. destruct (sixteen_first o Hl) as (a & b & r & -> & Hr). inversion_clear Hb as [|?? Ha Hb1]. inversion_clear Hb1 as [|?? Hb Hb2].
  unfold any_contains, reserved_blocks, cidr_contains. cbn [existsb block c_address c_prefix within]. rewrite !orb_false_l, !orb_false_r.
  cbn [lookup_total list_lookup_total]. rewrite unique_local_test, link_local_test by done.
  assert (forall n, length n = 16%nat -> compare (a :: b :: r) n 128 = bool_decide (a :: b :: r = n)) as E128.
  { intros n Hn. rewrite (compare_at _ _ _ 16 0) by (rewrite Hl; reflexivity). rewrite !take_ge by (rewrite ?Hl; lia). by rewrite andb_true_r. }
  rewrite !E128 by reflexivity. rewrite (compare_at _ (0xff :: _) _ 1 0), (compare_at _ (0xfc :: _) _ 0 7), (compare_at _ (0xfe :: _) _ 1 2) by (rewrite Hl; reflexivity).
  cbn [take firstn]. change (take 0 (replicate 15 0)) with (@nil Z). rewrite (decide_cons a 255 [] []), (decide_cons a 254 [] []). change (bool_decide ([] =@{bytes} [])) with true. cbn [Z.eqb orb andb lookup_total list_lookup_total]. rewrite !andb_true_r, !orb_assoc. reflexivity.
Qed.

(** An address as its network sees it: one of version 4 that is mapped into version 6
    counts as the former. *)
Definition through (a : IpAddr) : IpAddr :=
  match a with V6 o => match to_ipv4_mapped o with Some v4 => V4 v4 | None => a end | V4 _ => a end.

Definition covered (l : list Cidr) (a : IpAddr) : Prop := exists c, c ∈ l /\ in_network a (c_address c) (c_prefix c).
Definition reserved (a : IpAddr) : Prop := covered reserved_blocks (through a).
Definition cidr_ok (c : Cidr) : Prop := ip_ok (c_address c) /\ 0 <= c_prefix c.

Lemma any_contains_spec l a : Forall cidr_ok l -> ip_ok a -> any_contains l a = true <-> covered l a.
Proof.
  intros Hl Ha. unfold any_contains, covered. rewrite existsb_exists. rewrite Forall_forall in Hl.
  split; intros (c & Hc & Hin); exists c.
  - apply list_elem_of_In in Hc. destruct (Hl c Hc). split; [done|]. by apply within_spec.
  - destruct (Hl c Hc). split; [by apply list_elem_of_In|]. by apply within_spec.
Qed.

Lemma through_ok a : ip_ok a -> ip_ok (through a).
Proof.
  destruct a as [o|o]; [done|]. cbn [through]. unfold to_ipv4_mapped. case_bool_decide; [|done]. intros [Hl Hb]. split; [rewrite length_drop; lia|by apply Forall_drop].
Qed.

Lemma reserved_blocks_ok : Forall cidr_ok reserved_blocks.
Proof. repeat (apply Forall_cons_2 || apply Forall_nil_2); (split; [split; [reflexivity|apply bytes_forallb; reflexivity]|cbn; lia]). Qed.

Lemma is_reserved_spec a : ip_ok a -> is_reserved a = true <-> reserved a.
Proof.
  intros Ha. unfold reserved. rewrite <- any_contains_spec by (apply reserved_blocks_ok || by apply through_ok).
  destruct a as [o|o]; cbn [through]; [cbn [is_reserved]; by rewrite reserved_v4_blocks|]. pose proof (through_ok (V6 o) Ha) as Ht. cbn [through] in Ht.
  destruct (to_ipv4_mapped o) as [v4|] eqn:E; [|by rewrite reserved_v6_blocks]. cbn [is_reserved]. by rewrite E, reserved_v4_blocks.
Qed.

(** ** Parsed blocks *)

Lemma read_digits_bound radix m limit s : forall acc count v n rest,
  0 <= radix -> 0 <= acc < limit -> read_digits radix m limit acc count s = Some (v, n, rest) -> 0 <= v < limit.
Proof.
  induction s as [|c s IH]; intros acc count v n rest Hr Ha; cbn [read_digits]; [by intros [= <- _ _]|].
  destruct (to_digit radix c) as [d|] eqn:Ed; [|by intros [= <- _ _]]. destruct (_ || _) eqn:E; [done|]. apply orb_false_iff in E as [E%Z.leb_gt _].
  apply IH; [done|]. split; [|done]. assert (0 <= d) by (unfold to_digit in Ed; repeat case_match; bool_to_prop; simplify_eq; lia). nia.
Qed.

Lemma read_number_bound radix m limit z s v rest : 0 <= radix -> 0 < limit -> read_number radix m limit z s = Some (v, rest) -> 0 <= v < limit.
Proof.
  intros Hr Hl. unfold read_number. destruct (read_digits _ _ _ _ _ _) as [[[v' n] r]|] eqn:E; [|done]. cbn [mbind option_bind].
  apply read_digits_bound in E; [|lia..]. destruct (n =? 0); [done|]. destruct (_ && _); [done|]. by intros [= <- _].
Qed.

Lemma read_separator_some {A} sep i (inner : text -> option (A * text)) s x :
  read_separator sep i inner s = Some x -> exists s', inner s' = Some x.
Proof. unfold read_separator. destruct (0 <? i); [|eauto]. destruct (read_given_char sep s); cbn; [eauto|done]. Qed.

Lemma read_ipv4_ok s o rest : read_ipv4_addr s = Some (o, rest) -> length o = 4%nat /\ Forall is_byte o.
Proof.
  unfold read_ipv4_addr. intros H. repeat match type of H with
  | mbind _ (read_separator ?x ?y ?z ?w) = _ => destruct (read_separator x y z w) as [[? ?]|] eqn:?; [|discriminate H]; cbn [mbind option_bind] in H
  end. injection H as <- _. split; [done|]. repeat match goal with E : read_separator _ _ _ _ = Some _ |- _ => apply read_separator_some in E as [? E]; apply read_number_bound in E; [|lia..] end.
  repeat constructor; lia.
Qed.

Lemma read_groups_ok n : forall i s gs v4 rest, read_groups n i s = (gs, v4, rest) -> (length gs <= n)%nat /\ Forall (fun g => 0 <= g < 65536) gs.
Proof.
  induction n as [|n IH]; intros i s gs v4 rest; cbn [read_groups]; [by intros [= <- _ _]|].
  set (x := if (0 <? n)%nat then read_separator 58 i read_ipv4_addr s else None).
  assert (forall o r, x = Some (o, r) -> length o = 4%nat /\ Forall is_byte o /\ (1 <= n)%nat) as Hx.
  { unfold x. intros o r. destruct (Nat.ltb_spec 0 n); [|done]. intros [s' Hs]%read_separator_some. apply read_ipv4_ok in Hs as [? ?]. done. }
  assert (match read_separator 58 i (read_number 16 4 65536 true) s with
          | Some (g, rest) => let '(gs, v4, r) := read_groups n (i + 1) rest in (g :: gs, v4, r)
          | None => ([], false, s)
          end = (gs, v4, rest) -> (length gs <= S n)%nat /\ Forall (fun g => 0 <= g < 65536) gs) as Hg.
  { destruct (read_separator 58 i (read_number 16 4 65536 true) s) as [[g r]|] eqn:E; [|by intros [= <- _ _]; split; [cbn; lia|constructor]]. apply read_separator_some in E as [s' E].
    apply read_number_bound in E; [|lia..]. destruct (read_groups n (i + 1) r) as [[gs' v4'] r'] eqn:Er. intros [= <- _ _]. destruct (IH _ _ _ _ _ Er) as [H1 H2]. split; [cbn; lia|by constructor]. }
  destruct x as [[o r]|] eqn:Ex; [|exact Hg]. destruct (Hx o r eq_refl) as (Hl & Hb & Hn). destruct (four_octets o Hl) as (a & b & c & d & ->). intros [= <- _ _].
  inversion_clear Hb as [|?? Ha Hb1]. inversion_clear Hb1 as [|?? Hb Hb2]. inversion_clear Hb2 as [|?? Hc Hb3]. inversion_clear Hb3 as [|?? Hd _]. unfold is_byte in *.
  split; [cbn; lia|]. repeat constructor; lia.
Qed.

Lemma groups_octets gs : Forall (fun g => 0 <= g < 65536) gs -> length (concat (group_octets <$> gs)) = (2 * length gs)%nat /\ Forall is_byte (concat (group_octets <$> gs)).
Proof.
  induction 1 as [|g gs Hg _ [IH1 IH2]]; [done|]. rewrite fmap_cons. cbn [concat]. rewrite length_app, IH1. split; [cbn; lia|]. apply Forall_app. split; [|done].
  unfold group_octets. repeat constructor; rewrite ?Z.shiftr_div_pow2 by lia; try (apply Z.div_pos; lia); try (apply Z.div_lt_upper_bound; lia);
    pose proof (fits_land 8 255 g) as H; unfold fits in H; rewrite Z.land_comm in H; lia.
Qed.

Lemma read_ipv6_ok s o rest : read_ipv6_addr s = Some (o, rest) -> length o = 16%nat /\ Forall is_byte o.
Proof.
  unfold read_ipv6_addr. destruct (read_groups 8 0 s) as [[gs v4] r] eqn:E. apply read_groups_ok in E as [Hl Hg]. destruct (Nat.eqb_spec (length gs) 8) as [E8|Hne].
  { intros [= <- _]. destruct (groups_octets gs Hg). split; [lia|done]. }
  destruct v4; [done|]. destruct (read_given_char 58 r) as [r1|]; [|done]. cbn [mbind option_bind]. destruct (read_given_char 58 r1) as [r2|]; [|done]. cbn [mbind option_bind].
  destruct (read_groups (7 - length gs) 0 r2) as [[ts tv] r3] eqn:E2. apply read_groups_ok in E2 as [Hl2 Hg2]. intros [= <- _].
  destruct (groups_octets (gs ++ replicate (8 - length gs - length ts) 0 ++ ts)) as [H1 H2].
  - rewrite !Forall_app. split_and!; [done|apply Forall_replicate; lia|done].
  - split; [rewrite H1, !length_app, length_replicate; lia|done].
Qed.

Lemma cidr_parse_ok s c : cidr_parse s = Ok c -> cidr_ok c.
Proof.
  unfold cidr_parse. set (x := match split_once 47 (trim s) with Some (a, p) => (a, Some p) | None => (trim s, None) end). destruct x as [addr prefix].
  intros H. apply bind_Ok in H as (a & Ha & H). assert (ip_ok a) as Hok.
  { destruct (parse_ip addr) as [a'|] eqn:Ep; [|done]. injection Ha as <-. unfold parse_ip in Ep. destruct (read_ipv4_addr addr) as [[o [|? ?]]|] eqn:E4.
    - injection Ep as <-. by apply read_ipv4_ok in E4.
    - done.
    - destruct (read_ipv6_addr addr) as [[o [|? ?]]|] eqn:E6; try done. injection Ep as <-. by apply read_ipv6_ok in E6. }
  destruct prefix as [p|].
  - destruct (parse_u8 p) as [n|] eqn:En; [|done]. destruct (n <=? _); [|done]. injection H as <-. split; [done|]. cbn. unfold parse_u8 in En.
    destruct (match p with 43 :: s' => s' | _ => p end) as [|c0 s0]; [done|]. destruct (read_digits _ _ _ _ _ _) as [[[v k] [|? ?]]|] eqn:Ed; try done. injection En as <-.
    apply read_digits_bound in Ed; lia.
  - injection H as <-. split; [done|]. cbn. by destruct (is_ipv4 a).
Qed.

(** *** What a request becomes *)

Definition blocks_of (entries : list text) : list Cidr := omap (fun e => res_ok (cidr_parse e)) entries.
Definition names_of (entries : list text) : list NamePattern :=
  omap (fun e => match res_ok (cidr_parse e) with Some _ => None | None => res_ok (pattern_parse e) end) entries.

Lemma add_allow_out_eq es : forall p p', add_allow_out es p = Ok p' ->
  p' = mkPolicy (allow_addresses p ++ blocks_of es) (allow_names p ++ names_of es) (deny_addresses p) (transforms p) (default_verdict p) (tenant_reserved p).
Proof.
  induction es as [|e es IH]; intros p p'; cbn [add_allow_out].
  { intros [= <-]. unfold blocks_of, names_of. cbn. rewrite !app_nil_r. by destruct p. }
  unfold blocks_of, names_of. cbn [omap list_omap]. destruct (cidr_parse e) as [c|x|x]; [| |done]; cbn [res_ok].
  - intros ->%IH. cbn. rewrite <- app_assoc. done.
  - intros H. apply bind_Ok in H as (n & Hn & H). rewrite Hn. apply IH in H as ->. cbn. rewrite <- !app_assoc. done.
Qed.

Lemma add_deny_out_eq es : forall p p', add_deny_out es p = Ok p' ->
  p' = mkPolicy (allow_addresses p) (allow_names p) (deny_addresses p ++ blocks_of es) (transforms p) (default_verdict p) (tenant_reserved p).
Proof.
  induction es as [|e es IH]; intros p p'; cbn [add_deny_out].
  { intros [= <-]. unfold blocks_of. cbn. rewrite app_nil_r. by destruct p. }
  unfold blocks_of. cbn [omap list_omap]. destruct (cidr_parse e) as [c|x|x]; [|by destruct (pattern_parse e)|done]. cbn [res_ok]. intros ->%IH. cbn. by rewrite <- app_assoc.
Qed.

Lemma add_rules_eq rs : forall p p', add_rules rs p = Ok p' -> exists ts,
  p' = mkPolicy (allow_addresses p) (allow_names p) (deny_addresses p) (transforms p ++ ts) (default_verdict p) (tenant_reserved p).
Proof.
  induction rs as [|[pat h] rs IH]; intros p p'; cbn [add_rules].
  { intros [= <-]. exists []. rewrite app_nil_r. by destruct p. }
  destruct (List.find _ h) as [[]|]; [done|]. intros H. apply bind_Ok in H as (n & Hn & H). apply IH in H as [ts ->]. exists ((n, h) :: ts). cbn. by rewrite <- app_assoc.
Qed.

Definition configured (aia : option bool) (ao dno : list text) : Prop := is_Some aia \/ ao <> [] \/ dno <> [].

Lemma from_e2b_eq aia ao dno rs d p :
  from_e2b aia ao dno rs d = Ok p ->
  allow_addresses p = blocks_of ao /\ allow_names p = names_of ao /\
  deny_addresses p = blocks_of dno ++ (if bool_decide (aia = Some false) then [ANY_V4; ANY_V6] else []) /\
  (default_verdict p = Allow <-> configured aia ao dno \/ d = Allow) /\ tenant_reserved p = [].
Proof.
  unfold from_e2b. intros H. apply bind_Ok in H as (p1 & H1 & H). apply bind_Ok in H as (p2 & H2 & H). apply add_allow_out_eq in H1 as ->. apply add_deny_out_eq in H2 as ->.
  apply add_rules_eq in H as [ts ->]. cbn.
  assert ((if bool_decide (is_Some aia) || negb (bool_decide (ao = [])) || negb (bool_decide (dno = [])) then Allow else d) = Allow <-> configured aia ao dno \/ d = Allow) as Hd.
  { unfold configured. case_bool_decide as Ea; cbn [orb]; [split; [intros _; left; by left|done]|]. case_bool_decide as Eo; cbn [negb orb]; [|split; [intros _; left; right; by left|done]].
    case_bool_decide as Ed; cbn [negb]; [|split; [intros _; left; right; by right|done]]. split; [by right|]. intros [[?|[?|?]]|?]; done. }
  destruct (bool_decide (aia = Some false)); cbn; rewrite ?app_nil_r, <- ?app_assoc; split_and!; try done; apply Hd.
Qed.

Lemma blocks_of_ok es : Forall cidr_ok (blocks_of es).
Proof.
  apply Forall_forall. intros c (e & _ & He)%list_elem_of_omap. apply (cidr_parse_ok e). destruct (cidr_parse e) as [c'|?|?]; [|discriminate He..]. by injection He as ->.
Qed.

(** C34: The meaning of a request, to the last address and name.  A sandbox reaches an address
    under a name exactly when an [allowOut] block covers it - and, if the address is
    reserved, a range that the operator opened does too - or when it is not reserved and
    either an [allowOut] pattern matches the name, or the Internet is not switched off, no
    [denyOut] block covers it and the default allows it, the operator's default counting
    only for a request that says nothing. *)
Theorem from_e2b_spec aia ao dno rs d p ranges a name :
  from_e2b aia ao dno rs d = Ok p -> ip_ok a -> Forall cidr_ok ranges ->
  (decide_named (with_tenant_reserved ranges p) a name).1 = Allow <->
  (covered (blocks_of ao) a /\ (reserved a -> covered ranges a)) \/
  (~ reserved a /\
   ((exists n, n ∈ names_of ao /\ matches n (normalise name) = true) \/
    (aia <> Some false /\ ~ covered (blocks_of dno) a /\ (configured aia ao dno \/ d = Allow)))).
Proof.
  intros (Ea & En & Ed & Edef & _)%from_e2b_eq Ha Hr. pose proof blocks_of_ok as Hbl.
  assert (address_allowed (with_tenant_reserved ranges p) a = true <-> covered (blocks_of ao) a /\ (reserved a -> covered ranges a)) as Hall.
  { unfold address_allowed. cbn [with_tenant_reserved allow_addresses tenant_reserved]. rewrite Ea, andb_true_iff, orb_true_iff, negb_true_iff, !any_contains_spec by done.
    rewrite <- is_reserved_spec by done. destruct (is_reserved a); intuition congruence. }
  assert (name_allowed (with_tenant_reserved ranges p) name = true <-> exists n, n ∈ names_of ao /\ matches n (normalise name) = true) as Hnm.
  { unfold name_allowed. cbn [with_tenant_reserved allow_names]. rewrite En, existsb_exists. by setoid_rewrite <- list_elem_of_In. }
  assert (address_denied (with_tenant_reserved ranges p) a = true <-> aia = Some false \/ covered (blocks_of dno) a) as Hdn.
  { unfold address_denied. cbn [with_tenant_reserved deny_addresses]. rewrite Ed. unfold any_contains. rewrite existsb_app, orb_true_iff. fold (any_contains (blocks_of dno) a).
    rewrite any_contains_spec by done. case_bool_decide as Eoff; [|cbn; intuition congruence]. split; [by left|]. intros _. right.
    assert (cidr_contains ANY_V4 a || cidr_contains ANY_V6 a = true) as Hany; [|cbn [existsb]; by rewrite orb_false_r].
    apply orb_true_iff. unfold cidr_contains, ANY_V4, ANY_V6. cbn [c_address c_prefix].
    destruct a as [o|o]; [left|right]; (apply within_spec; [done|split; [reflexivity|apply bytes_forallb; reflexivity]|lia|]); intros i Hi; lia. }
  rewrite <- Hall, <- Hnm. pose proof (is_reserved_spec a Ha) as Hres. unfold decide_named. destruct (address_allowed _ a); [cbn; tauto|].
  destruct (is_reserved a); [cbn; intuition congruence|]. assert (~ reserved a) as Hnr by (intros HH; apply Hres in HH; done).
  destruct (name_allowed _ name); [cbn; tauto|]. destruct (address_denied _ a).
  { cbn. split; [done|]. intros [?|(_ & [?|(H1 & H2 & _)])]; try done. by destruct (proj1 Hdn eq_refl). }
  assert (aia <> Some false /\ ~ covered (blocks_of dno) a) as [N1 N2] by (split; intros HH; assert (false = true) by (apply Hdn; tauto); done).
  cbn [with_tenant_reserved default_verdict]. destruct (default_verdict p); cbn.
  - split; [|done]. intros _. right. split; [done|]. right. split_and!; [done|done|]. by apply Edef.
  - split; [done|]. intros [?|(_ & [?|(_ & _ & H3)])]; try done. apply Edef in H3. done.
Qed.

(** A deny list does not see through an address of version 4 mapped into version 6: with
    blocks of version 4 only, nothing allowed and internet access not turned off, an
    address they cover that is not reserved is refused, while its mapped form is let out,
    under any name. *)
Theorem mapped_address_allowed aia dno rs d p o name :
  from_e2b aia [] dno rs d = Ok p -> aia <> Some false ->
  Forall (fun c => is_ipv4 (c_address c) = true) (blocks_of dno) -> ip_ok (V4 o) -> ~ reserved (V4 o) -> covered (blocks_of dno) (V4 o) ->
  (decide_named p (V4 o) name).1 = Deny /\ (decide_named p (V6 (replicate 10 0 ++ [255; 255] ++ o)) name).1 = Allow.
Proof.
  intros H Haia Hv4 Ho Hr Hc. destruct (from_e2b_eq _ _ _ _ _ _ H) as (Ea & En & Ed & Edef & Et). rewrite bool_decide_false, app_nil_r in Ed by done.
  pose proof (blocks_of_ok dno) as Hbl.
  assert (is_reserved (V4 o) = false) as Hn4 by (apply not_true_iff_false; intros HH; apply Hr; by apply is_reserved_spec).
  assert (default_verdict p = Allow) as Hdef.
  { apply Edef. left. right. right. intros ->. destruct Hc as (c & Hc & _). by apply not_elem_of_nil in Hc. }
  set (m := replicate 10 0 ++ [255; 255] ++ o). assert (to_ipv4_mapped m = Some o) as Hm by (unfold to_ipv4_mapped, m; by rewrite bool_decide_true).
  assert (is_reserved (V6 m) = false) as Hn6 by (unfold is_reserved; by rewrite Hm).
  unfold decide_named, address_allowed, address_denied, name_allowed. rewrite Ea, En, Ed, Hn4, Hn6, Hdef. cbn [blocks_of names_of omap list_omap any_contains existsb andb].
  rewrite (proj2 (any_contains_spec _ (V4 o) Hbl Ho) Hc). split; [done|].
  assert (any_contains (blocks_of dno) (V6 m) = false) as ->; [|done]. apply not_true_iff_false. unfold any_contains. rewrite existsb_exists. intros (c & Hin & Hw).
  apply list_elem_of_In in Hin. rewrite Forall_forall in Hv4. specialize (Hv4 c Hin). unfold cidr_contains in Hw. by destruct (c_address c).
Qed.

(** *** Transforms *)

Lemma max_by_specificity_spec l :
  match max_by_specificity l with
  | None => l = []
  | Some b => b ∈ l /\ forall x, x ∈ l -> key_le (specificity x.1) (specificity b.1) = true
  end.
Proof.
  assert (forall a, key_le a a = true) as Hrefl by (intros [[] n]; apply Z.leb_refl).
  assert (forall a b c, key_le a b = true -> key_le b c = true -> key_le a c = true) as Htrans.
  { intros [[] x] [[] y] [[] z]; cbn; rewrite ?Z.leb_le; try done; lia. }
  assert (forall a b, key_le a b = false -> key_le b a = true) as Htot.
  { intros [[] x] [[] y]; cbn; rewrite ?Z.leb_le, ?Z.leb_gt; try done; lia. }
  induction l as [|x l IH] using rev_ind; [done|]. unfold max_by_specificity in *. rewrite foldl_app. cbn [foldl]. destruct (foldl _ None l) as [b|].
  - destruct IH as [Hb Hmax]. destruct (key_le (specificity b.1) (specificity x.1)) eqn:E.
    + split; [apply elem_of_app; right; by apply list_elem_of_singleton|]. intros y [Hy| ->%list_elem_of_singleton]%elem_of_app; [|done]. eauto.
    + split; [apply elem_of_app; by left|]. intros y [Hy| ->%list_elem_of_singleton]%elem_of_app; auto.
  - subst l. split; [by apply list_elem_of_singleton|]. by intros y ->%list_elem_of_singleton.
Qed.

(** The headers injected for a name are those of a rule whose pattern matches it, and no
    matching rule is more specific: an exact one before any wildcard, then the longest
    suffix; there are none only if no rule matches. *)
Theorem transform_for_spec p name :
  match transform_for p name with
  | None => forall t, t ∈ transforms p -> matches t.1 (normalise name) = false
  | Some h => exists n, (n, h) ∈ transforms p /\ matches n (normalise name) = true /\
      forall t, t ∈ transforms p -> matches t.1 (normalise name) = true -> key_le (specificity t.1) (specificity n) = true
  end.
Proof.
  unfold transform_for. set (l := List.filter _ (transforms p)). pose proof (max_by_specificity_spec l) as H.
  assert (forall t, t ∈ l <-> t ∈ transforms p /\ matches t.1 (normalise name) = true) as Hl.
  { intros t. unfold l. rewrite !list_elem_of_In. apply List.filter_In. }
  destruct (max_by_specificity l) as [[n h]|]; cbn [fmap option_fmap option_map snd].
  - destruct H as [Hb Hmax]. apply Hl in Hb as [Hb1 Hb2]. exists n. split_and!; [done|done|]. intros t Ht Hm. apply (Hmax t). by apply Hl.
  - intros t Ht. destruct (matches t.1 (normalise name)) eqn:E; [|done]. assert (t ∈ l) as Hin by by apply Hl. rewrite H in Hin. by apply not_elem_of_nil in Hin.
Qed.

(** *** Blocks in text *)

Definition print_v4 (o : bytes) : text :=
  match o with [a; b; c; d] => format_dec a ++ 46 :: format_dec b ++ 46 :: format_dec c ++ 46 :: format_dec d | _ => [] end.

Definition no_digit (rest : text) : Prop := match rest with [] => True | c :: _ => to_digit 10 c = None end.

Lemma read_digits_app m limit ds rest : forall acc count v n,
  read_digits 10 m limit acc count ds = Some (v, n, []) -> no_digit rest -> read_digits 10 m limit acc count (ds ++ rest) = Some (v, n, rest).
Proof.
  induction ds as [|c ds IH]; intros acc count v n; cbn [app read_digits].
  - intros [= <- <-] Hr. destruct rest as [|c rest]; [done|]. cbn in Hr. cbn [read_digits]. by rewrite Hr.
  - destruct (to_digit 10 c); [|done]. destruct (_ || _); [done|]. apply IH.
Qed.

(** The decimal text of a byte, as the readers need it. *)
Definition octet_text (n : Z) : bool :=
  match read_digits 10 3 256 0 0 (format_dec n) with
  | Some (v, k, []) => (v =? n) && (k =? Z.of_nat (length (format_dec n))) && (1 <=? k) && (negb (bool_decide (head (format_dec n) = Some 48)) || (k =? 1))
  | _ => false
  end && bool_decide (parse_u8 (format_dec n) = Some n) && forallb (fun c => (48 <=? c) && (c <=? 57)) (format_dec n).

Lemma octet_text_ok n : is_byte n -> octet_text n = true.
Proof. apply (byte_check octet_text (fun _ => true)). vm_compute. reflexivity. Qed.

Lemma read_octet n rest : is_byte n -> no_digit rest -> read_number 10 3 256 false (format_dec n ++ rest) = Some (n, rest).
Proof.
  intros Hn%octet_text_ok Hr. unfold octet_text in Hn. destruct (read_digits _ _ _ _ _ _) as [[[v k] [|? ?]]|] eqn:E; try done.
  rewrite !andb_true_iff in Hn. destruct Hn as [[[[[->%Z.eqb_eq Hk%Z.eqb_eq] H1%Z.leb_le] H0] _] _]. unfold read_number. rewrite (read_digits_app _ _ _ _ _ _ _ _ E Hr). cbn [mbind option_bind].
  rewrite (proj2 (Z.eqb_neq k 0)) by lia. cbn [negb andb]. assert (head (format_dec n ++ rest) = head (format_dec n)) as -> by (destruct (format_dec n); [cbn in Hk; lia|done]).
  apply orb_true_iff in H0 as [H0%negb_true_iff| ->%Z.eqb_eq]; [by rewrite H0|]. by rewrite andb_false_r.
Qed.

Lemma format_dec_digits n : is_byte n -> Forall (fun c => 48 <= c <= 57) (format_dec n) /\ parse_u8 (format_dec n) = Some n.
Proof.
  intros Hn%octet_text_ok. unfold octet_text in Hn. rewrite !andb_true_iff in Hn. destruct Hn as [[_ Hp%bool_decide_eq_true] Hd]. split; [|done].
  apply Forall_forall. intros c Hc. rewrite forallb_forall in Hd. apply list_elem_of_In, Hd, andb_true_iff in Hc as [?%Z.leb_le ?%Z.leb_le]. lia.
Qed.

Lemma trim_start_id f s : Forall (fun c => f c = false) s -> trim_start_matches f s = s.
Proof. destruct s as [|c s]; [done|]. intros H. inversion_clear H as [|?? Hc _]. cbn. by rewrite Hc. Qed.

Lemma trim_id s : Forall (fun c => 46 <= c <= 57) s -> trim s = s.
Proof.
  intros H. assert (Forall (fun c => is_whitespace c = false) s) as Hs.
  { eapply Forall_impl; [exact H|]. intros c Hc. cbn in Hc.
    pose proof (byte_check (fun c => negb ((46 <=? c) && (c <=? 57)) || negb (is_whitespace c)) (fun _ => true) ltac:(vm_compute; reflexivity) c ltac:(unfold is_byte; lia)) as E.
    cbn beta in E. destruct (is_whitespace c); [|done]. rewrite (proj2 (Z.leb_le 46 c)), (proj2 (Z.leb_le c 57)) in E by lia. discriminate E. }
  unfold trim, trim_end_matches. rewrite (trim_start_id _ s) by done. rewrite trim_start_id by by apply Forall_rev. apply rev_involutive.
Qed.

(** The text of a block of version 4 is read back as the block. *)
Theorem cidr_roundtrip o k : ip_ok (V4 o) -> 0 <= k <= 32 -> cidr_parse (print_v4 o ++ 47 :: format_dec k) = Ok (mkCidr (V4 o) k).
Proof.
  intros [Hl Hb] Hk. destruct (four_octets o Hl) as (a & b & c & d & ->). inversion_clear Hb as [|?? Ha Hb1]. inversion_clear Hb1 as [|?? Hb Hb2]. inversion_clear Hb2 as [|?? Hc Hb3].
  inversion_clear Hb3 as [|?? Hd _]. destruct (format_dec_digits a Ha) as [Da _]. destruct (format_dec_digits b Hb) as [Db _]. destruct (format_dec_digits c Hc) as [Dc _].
  destruct (format_dec_digits d Hd) as [Dd _]. destruct (format_dec_digits k) as [Dk Pk]; [unfold is_byte; lia|].
  assert (forall l, Forall (fun c => 48 <= c <= 57) l -> Forall (fun c => 46 <= c <= 57) l) as Hw by (intros l Hf; eapply Forall_impl; [exact Hf|cbn; lia]).
  unfold cidr_parse. rewrite trim_id.
  2: { cbn [print_v4]. repeat first [by apply Hw|apply Forall_app_2|apply Forall_cons_2; [lia|]]. }
  rewrite split_once_app.
  2: { cbn [print_v4]. rewrite Forall_forall in Da, Db, Dc, Dd. rewrite !elem_of_app, !elem_of_cons, !elem_of_app, !elem_of_cons, !elem_of_app, !elem_of_cons.
       intros [H%Da|[|[H%Db|[|[H%Dc|[|H%Dd]]]]]]; lia. }
  assert (parse_ip (print_v4 [a; b; c; d]) = Some (V4 [a; b; c; d])) as ->.
  { unfold parse_ip, read_ipv4_addr, read_separator. cbn [print_v4 Z.ltb Z.compare]. rewrite read_octet by done. cbn [mbind option_bind read_given_char Z.eqb Pos.eqb].
    rewrite read_octet by done. cbn [mbind option_bind read_given_char Z.eqb Pos.eqb]. rewrite read_octet by done. cbn [mbind option_bind read_given_char Z.eqb Pos.eqb].
    rewrite <- (app_nil_r (format_dec d)), read_octet by done. reflexivity. }
  cbn [ok_or mbind Res_bind is_ipv4]. rewrite Pk. by rewrite (proj2 (Z.leb_le k 32)) by lia.
Qed.

(** ** Witnesses *)

Definition metadata : IpAddr := V4 [169; 254; 169; 254].

Lemma from_e2b_spec_witness :
  exists p, from_e2b None [str "0.0.0.0/0"; str "*.example.com"] [] [] Deny = Ok p /\
    ((decide_named (with_tenant_reserved [] p) metadata (str "a.example.com")).1 = Allow <->
     (covered (blocks_of [str "0.0.0.0/0"; str "*.example.com"]) metadata /\ (reserved metadata -> covered [] metadata)) \/
     (~ reserved metadata /\
      ((exists n, n ∈ names_of [str "0.0.0.0/0"; str "*.example.com"] /\ matches n (normalise (str "a.example.com")) = true) \/
       (None <> Some false /\ ~ covered (blocks_of []) metadata /\ (configured None [str "0.0.0.0/0"; str "*.example.com"] [] \/ Deny = Allow))))).
Proof.
  destruct (from_e2b None [str "0.0.0.0/0"; str "*.example.com"] [] [] Deny) as [p|?|?] eqn:E; [|vm_compute in E; discriminate E..]. exists p. split; [reflexivity|].
  apply (from_e2b_spec None [str "0.0.0.0/0"; str "*.example.com"] [] [] Deny p [] metadata (str "a.example.com")); [exact E| |constructor].
  split; [reflexivity|apply bytes_forallb; reflexivity].
Defined.

Lemma mapped_address_allowed_witness :
  exists p, from_e2b None [] [str "1.2.3.0/24"] [] Deny = Ok p /\
    (decide_named p (V4 [1; 2; 3; 4]) []).1 = Deny /\ (decide_named p (V6 (replicate 10 0 ++ [255; 255] ++ [1; 2; 3; 4])) []).1 = Allow.
Proof.
  destruct (from_e2b None [] [str "1.2.3.0/24"] [] Deny) as [p|?|?] eqn:E; [|vm_compute in E; discriminate E..]. exists p. split; [reflexivity|].
  assert (ip_ok (V4 [1; 2; 3; 4])) as Hok by (split; [reflexivity|apply bytes_forallb; reflexivity]).
  assert (blocks_of [str "1.2.3.0/24"] = [mkCidr (V4 [1; 2; 3; 0]) 24]) as Hb by (vm_compute; reflexivity).
  assert (Forall cidr_ok [mkCidr (V4 [1; 2; 3; 0]) 24]) as Hc.
  { constructor; [|constructor]. split; [split; [reflexivity|apply bytes_forallb; reflexivity]|cbn; lia]. }
  apply (mapped_address_allowed None [str "1.2.3.0/24"] [] Deny p [1; 2; 3; 4] []); [exact E|discriminate| |exact Hok| |].
  - rewrite Hb. constructor; [reflexivity|constructor].
  - intros HH. apply is_reserved_spec in HH; [|exact Hok]. vm_compute in HH. discriminate HH.
  - rewrite Hb. apply any_contains_spec; [exact Hc|exact Hok|]. vm_compute. reflexivity.
Defined.

Lemma cidr_roundtrip_witness : cidr_parse (str "10.1.0.0/16") = Ok (mkCidr (V4 [10; 1; 0; 0]) 16).
Proof. apply (cidr_roundtrip [10; 1; 0; 0] 16); [split; [reflexivity|apply bytes_forallb; reflexivity]|lia]. Defined.
