(* ===== verification/Crc32.v ===== *)
(** * CRC-32 ([crc32] of [hv2-core/src/migration/state.rs])

    The bitwise checksum of the state format.  One turn of its inner loop is a
    linear map on integers; the whole checksum is then that map iterated on the
    message read as one little-endian number, which is what makes a short burst of
    errors visible. *)

From S2P Require Import Prelude.

Definition POLY : Z := 0xEDB88320.

(** The inner loop's body, the loop's body, the loop. *)
Definition crc_bit (crc : Z) : Z :=
  if has crc 1 then Z.lxor (Z.shiftr crc 1) POLY else Z.shiftr crc 1.
Definition crc_byte (crc byte : Z) : Z := Nat.iter 8 crc_bit (Z.lxor crc byte).
Definition crc_update (crc : Z) (data : bytes) : Z := foldl crc_byte crc data.

Definition crc32 (data : bytes) : Z := bnot 32 (crc_update 0xFFFFFFFF data).

(** The check value of the algorithm: the checksum of ["123456789"]. *)
Example crc32_check : crc32 [49; 50; 51; 52; 53; 54; 55; 56; 57] = 0xCBF43926.
Proof. reflexivity. Qed.

(** ** The step *)

Lemma crc_bit_eq c : crc_bit c = Z.lxor (Z.shiftr c 1) (if Z.testbit c 0 then POLY else 0).
Proof. unfold crc_bit. change 1 with (Z.shiftl 1 0) at 1. rewrite has_bit by done. destruct (Z.testbit c 0); [done|]. by rewrite Z.lxor_0_r. Qed.

Lemma crc_bit_testbit c i :
  0 <= i -> Z.testbit (crc_bit c) i = xorb (Z.testbit c (i + 1)) (Z.testbit c 0 && Z.testbit POLY i).
Proof.
  intros Hi. rewrite crc_bit_eq, Z.lxor_spec, Z.shiftr_spec by done. f_equal.
  destruct (Z.testbit c 0); [done|apply Z.bits_0].
Qed.

Lemma crc_bit_lxor a b : crc_bit (Z.lxor a b) = Z.lxor (crc_bit a) (crc_bit b).
Proof.
  apply Z.bits_inj'. intros i Hi. rewrite Z.lxor_spec, !crc_bit_testbit, !Z.lxor_spec by done.
  by destruct (Z.testbit a (i + 1)), (Z.testbit b (i + 1)), (Z.testbit a 0), (Z.testbit b 0), (Z.testbit POLY i).
Qed.

Lemma crc_bit_shiftl c : crc_bit (Z.shiftl c 1) = c.
Proof.
  apply Z.bits_inj'. intros i Hi. rewrite crc_bit_testbit, !Z.shiftl_spec by lia.
  rewrite (Z.testbit_neg_r c (0 - 1)) by lia. rewrite andb_false_l, xorb_false_r. f_equal. lia.
Qed.

Lemma fits_crc_bit c : fits 32 c -> fits 32 (crc_bit c).
Proof.
  intros Hc. assert (0 <= Z.shiftr c 1 < 2 ^ 32) as Hs.
  { destruct Hc. rewrite Z.shiftr_div_pow2 by done. split; [apply Z.div_pos; lia|apply Z.div_lt_upper_bound; lia]. }
  unfold crc_bit. destruct (has c 1); [|done]. apply fits_of_bits; [done|apply Z.lxor_nonneg; split; intros _; [by unfold POLY|lia]|].
  intros i Hi.
  assert (fits 32 POLY) as Hp by by split.
  rewrite Z.lxor_spec, (fits_testbit 32 _ i Hs), (fits_testbit 32 _ i Hp) by lia. done.
Qed.

(** Only zero steps to zero: bit 31 of the polynomial is set, so an odd word keeps
    a bit, and an even one is shifted. *)
Lemma crc_bit_zero c : fits 32 c -> crc_bit c = 0 -> c = 0.
Proof.
  intros Hc Hz. assert (forall i, 0 <= i -> Z.testbit (crc_bit c) i = false) as Hb by (intros; rewrite Hz; apply Z.bits_0).
  assert (Z.testbit c 0 = false) as H0.
  { specialize (Hb 31 ltac:(done)). rewrite crc_bit_testbit, (fits_testbit 32 c) in Hb by done.
    by destruct (Z.testbit c 0). }
  apply Z.bits_inj'. intros i Hi. rewrite Z.bits_0. destruct (decide (i = 0)) as [->|]; [done|].
  specialize (Hb (i - 1) ltac:(lia)). rewrite crc_bit_testbit, H0 in Hb by lia.
  rewrite andb_false_l, xorb_false_r in Hb. by replace (i - 1 + 1) with i in Hb by lia.
Qed.

(** ** The step iterated *)

Lemma iter_crc_lxor n a b :
  Nat.iter n crc_bit (Z.lxor a b) = Z.lxor (Nat.iter n crc_bit a) (Nat.iter n crc_bit b).
Proof. induction n as [|n IH]; simpl; [done|]. by rewrite IH, crc_bit_lxor. Qed.

Lemma iter_crc_shiftl n c : Nat.iter n crc_bit (Z.shiftl c (Z.of_nat n)) = c.
Proof.
  induction n as [|n IH]; [apply Z.shiftl_0_r|]. rewrite Nat.iter_succ_r. rewrite <- IH at 2. f_equal.
  replace (Z.of_nat (S n)) with (Z.of_nat n + 1) by lia. rewrite <- Z.shiftl_shiftl by lia. apply crc_bit_shiftl.
Qed.

Lemma fits_iter_crc n c : fits 32 c -> fits 32 (Nat.iter n crc_bit c).
Proof. intros Hc. induction n as [|n IH]; simpl; [done|by apply fits_crc_bit]. Qed.

Lemma iter_crc_zero n c : fits 32 c -> Nat.iter n crc_bit c = 0 -> c = 0.
Proof.
  intros Hc. induction n as [|n IH]; simpl; [done|]. intros Hz. apply IH, crc_bit_zero; [by apply fits_iter_crc|done].
Qed.

Lemma lor_lxor_byte b r : 0 <= b < 2 ^ 8 -> Z.lor b (Z.shiftl r 8) = Z.lxor b (Z.shiftl r 8).
Proof.
  intros Hb. apply Z.bits_inj'. intros i Hi. rewrite Z.lor_spec, Z.lxor_spec, Z.shiftl_spec by done.
  destruct (Z.lt_ge_cases i 8).
  - rewrite (Z.testbit_neg_r r) by lia. by rewrite orb_false_r, xorb_false_r.
  - rewrite (fits_testbit 8 b) by (done || lia). done.
Qed.

(** The checksum is the step iterated on the message as one number. *)
Lemma crc_update_number c data :
  Forall is_byte data ->
  crc_update c data = Nat.iter (8 * length data) crc_bit (Z.lxor c (from_le_bytes data)).
Proof.
  intros Hd. revert c. induction Hd as [|b r Hb Hr IH]; intros c; [by rewrite Z.lxor_0_r|]. cbn [length].
  change (from_le_bytes (b :: r)) with (Z.lor b (Z.shiftl (from_le_bytes r) 8)).
  rewrite lor_lxor_byte by done. rewrite <- Z.lxor_assoc. replace (8 * S (length r))%nat with (8 * length r + 8)%nat by lia.
  rewrite Nat.iter_add, iter_crc_lxor, (iter_crc_shiftl 8), <- IH. done.
Qed.

Lemma fits_crc_update c data : fits 32 c -> Forall is_byte data -> fits 32 (crc_update c data).
Proof.
  intros Hc Hd. revert c Hc. induction Hd as [|b r Hb Hr IH]; intros c Hc; [done|]. cbn [crc_update foldl].
  apply IH, fits_iter_crc. apply fits_of_bits; [done|apply Z.lxor_nonneg; destruct Hb, Hc; lia|].
  intros i Hi. rewrite Z.lxor_spec, (fits_testbit 32 c), (fits_testbit 8 b) by (done || lia). done.
Qed.

Lemma fits_crc32 data : Forall is_byte data -> fits 32 (crc32 data).
Proof. intros Hd. pose proof (fits_crc_update 0xFFFFFFFF data ltac:(done) Hd) as Hc. unfold crc32, bnot, fits in *. lia. Qed.

(** ** Errors are seen *)

(** A burst of at most 32 bits, anywhere in a message, changes its checksum: [d] is
    what the error flips, [k] the position it starts at. *)
Theorem crc32_burst data data' d k :
  Forall is_byte data -> Forall is_byte data' -> length data = length data' ->
  0 < d < 2 ^ 32 -> (k <= 8 * length data)%nat ->
  Z.lxor (from_le_bytes data) (from_le_bytes data') = Z.shiftl d (Z.of_nat k) ->
  crc32 data <> crc32 data'.
Proof.
  intros Hb Hb' Hl Hd Hk He. unfold crc32, bnot. rewrite !crc_update_number, <- Hl by done.
  set (n := (8 * length data)%nat) in *. set (c := 0xFFFFFFFF). intros Heq.
  assert (Nat.iter n crc_bit (Z.shiftl d (Z.of_nat k)) = 0) as Hz.
  { rewrite <- He. replace (Z.lxor _ _)
      with (Z.lxor (Z.lxor c (from_le_bytes data)) (Z.lxor c (from_le_bytes data'))).
    - rewrite iter_crc_lxor. apply Z.lxor_eq_0_iff. lia.
    - apply Z.bits_inj'. intros i Hi. rewrite !Z.lxor_spec.
      by destruct (Z.testbit c i), (Z.testbit (from_le_bytes data) i), (Z.testbit (from_le_bytes data') i). }
  replace n with (n - k + k)%nat in Hz by lia. rewrite Nat.iter_add, iter_crc_shiftl in Hz.
  apply iter_crc_zero in Hz; [lia|]. split; lia.
Qed.

Lemma crc32_burst_witness : crc32 [1; 2; 3; 4; 5; 6] <> crc32 [1; 2; 67; 0; 5; 6].
Proof.
  apply (crc32_burst [1; 2; 3; 4; 5; 6] [1; 2; 67; 0; 5; 6] 1088 16);
    [by apply bytes_forallb|by apply bytes_forallb|reflexivity|lia|cbn; lia|reflexivity].
Defined.
