(* ===== verification/VmState.v ===== *)
(** * State serialisation ([hv2-core/src/migration/state.rs])

    The format in which a machine's processors, memory and devices are written:
    the records and their byte layouts, sections with a header and a checksum, the
    serializer and the deserializer.  A [String] is its UTF-8 bytes, a [HashMap] a
    finite map. *)

From stdpp Require Import gmap.
From S2P Require Import Prelude Utf8 Crc32.

Definition FORMAT_VERSION : Z := 1.
Definition STATE_MAGIC : Z := 0x56485632.

Inductive SectionType := Header | Cpu | Memory | Device | Timer | Interrupt | Custom.

Definition section_value (t : SectionType) : Z :=
  match t with
  | Header => 0 | Cpu => 1 | Memory => 2 | Device => 3 | Timer => 4 | Interrupt => 5 | Custom => 255
  end.
Definition from_u32 (value : Z) : option SectionType :=
  match value with
  | 0 => Some Header
  | 1 => Some Cpu
  | 2 => Some Memory
  | 3 => Some Device
  | 4 => Some Timer
  | 5 => Some Interrupt
  | 255 => Some Custom
  | _ => None
  end.

(** Messages are the format string and the numbers formatted into it. *)
Inductive SerializeError :=
| Io (msg : string)
| InvalidFormat (msg : string) (args : list Z)
| VersionMismatch (expected found : Z)
| MissingSection (t : SectionType)
| InvalidSection (msg : string)
| ChecksumMismatch
| NotFound (msg : string).

Abbreviation SerializeResult := (Res SerializeError).

(** ** Registers *)

Record SegmentRegister := mkSegment {
  selector : Z;
  seg_base : Z;
  seg_limit : Z;
  access_rights : Z
}.

(** [copy_from_slice] into an array of 22 bytes; the last four stay zero. *)
Definition segment_to_bytes (s : SegmentRegister) : bytes :=
  splice (splice (splice (splice (replicate 22 0)
    0 (to_le_bytes 2 (selector s)))
    2 (to_le_bytes 8 (seg_base s)))
    10 (to_le_bytes 4 (seg_limit s)))
    14 (to_le_bytes 4 (access_rights s)).

(** [uN::from_le_bytes] of the bytes at an offset; an index past the end panics. *)
Definition le_at {E} (n : Z) (bs : bytes) (off : Z) : Res E Z := from_le_bytes <$> slice_ck bs off n.

Definition blen (bs : bytes) : Z := Z.of_nat (length bs).

Definition segment_from_bytes (bs : bytes) : Result (option SegmentRegister) :=
  if blen bs <? 18 then mret None
  else
    sel ← le_at 2 bs 0;
    b ← le_at 8 bs 2;
    l ← le_at 4 bs 10;
    a ← le_at 4 bs 14;
    mret (Some (mkSegment sel b l a)).

Record DescriptorTable := mkTable { dt_base : Z; dt_limit : Z }.

Definition table_to_bytes (d : DescriptorTable) : bytes :=
  splice (splice (replicate 10 0) 0 (to_le_bytes 8 (dt_base d))) 8 (to_le_bytes 2 (dt_limit d)).

Definition table_from_bytes (bs : bytes) : Result (option DescriptorTable) :=
  if blen bs <? 10 then mret None
  else b ← le_at 8 bs 0; l ← le_at 2 bs 8; mret (Some (mkTable b l)).

Record CpuState := mkCpu {
  rax : Z; rbx : Z; rcx : Z; rdx : Z; rsi : Z; rdi : Z; rsp : Z; rbp : Z;
  r8 : Z; r9 : Z; r10 : Z; r11 : Z; r12 : Z; r13 : Z; r14 : Z; r15 : Z;
  rip : Z; rflags : Z;
  cs : SegmentRegister; ds : SegmentRegister; es : SegmentRegister;
  fs : SegmentRegister; gs : SegmentRegister; ss : SegmentRegister;
  gdt : DescriptorTable; idt : DescriptorTable;
  ldt : SegmentRegister; tr : SegmentRegister;
  cr0 : Z; cr2 : Z; cr3 : Z; cr4 : Z; cr8 : Z; efer : Z;
  dr0 : Z; dr1 : Z; dr2 : Z; dr3 : Z; dr6 : Z; dr7 : Z;
  apic_base : Z; pat : Z; sysenter_cs : Z; sysenter_esp : Z; sysenter_eip : Z;
  star : Z; lstar : Z; cstar : Z; sfmask : Z; kernel_gs_base : Z; tsc : Z;
  fpu_state : bytes
}.

Definition default_segment : SegmentRegister := mkSegment 0 0 0 0.
Definition default_table : DescriptorTable := mkTable 0 0.
Definition default_cpu : CpuState :=
  mkCpu 0 0 0 0 0 0 0 0 0 0 0 0 0 0 0 0 0 0
    default_segment default_segment default_segment default_segment default_segment default_segment
    default_table default_table default_segment default_segment
    0 0 0 0 0 0 0 0 0 0 0 0 0 0 0 0 0 0 0 0 0 0 0 [].

Definition u64s (l : list Z) : bytes := concat (to_le_bytes 8 <$> l).

Definition cpu_to_bytes (c : CpuState) : bytes :=
  u64s [rax c; rbx c; rcx c; rdx c; rsi c; rdi c; rsp c; rbp c;
        r8 c; r9 c; r10 c; r11 c; r12 c; r13 c; r14 c; r15 c] ++
  u64s [rip c; rflags c] ++
  concat (segment_to_bytes <$> [cs c; ds c; es c; fs c; gs c; ss c]) ++
  table_to_bytes (gdt c) ++ table_to_bytes (idt c) ++
  segment_to_bytes (ldt c) ++ segment_to_bytes (tr c) ++
  u64s [cr0 c; cr2 c; cr3 c; cr4 c; cr8 c; efer c] ++
  u64s [dr0 c; dr1 c; dr2 c; dr3 c; dr6 c; dr7 c] ++
  u64s [apic_base c; pat c; sysenter_cs c; sysenter_esp c; sysenter_eip c;
        star c; lstar c; cstar c; sfmask c; kernel_gs_base c; tsc c] ++
  to_le_bytes 4 (trunc 32 (blen (fpu_state c))) ++ fpu_state c.

Definition serialized_size (c : CpuState) : Z :=
  128 + 16 + 132 + 20 + 48 + 48 + 88 + 4 + blen (fpu_state c).

(** ** Memory regions and devices *)

Record MemoryRegionState := mkRegion {
  mr_gpa : Z;
  mr_size : Z;
  mr_flags : Z;
  mr_data : bytes;
  compressed : bool
}.

Definition region_new (gpa size flags : Z) (data : bytes) : MemoryRegionState :=
  mkRegion gpa size flags data false.

Definition region_to_bytes (r : MemoryRegionState) : bytes :=
  to_le_bytes 8 (mr_gpa r) ++ to_le_bytes 8 (mr_size r) ++ to_le_bytes 4 (mr_flags r) ++
  [if compressed r then 1 else 0] ++
  to_le_bytes 4 (trunc 32 (blen (mr_data r))) ++ mr_data r.

Definition region_from_bytes (bs : bytes) : SerializeResult MemoryRegionState :=
  if blen bs <? 25 then Err (InvalidFormat "Memory region too short" [])
  else
    gpa ← le_at 8 bs 0;
    size ← le_at 8 bs 8;
    flags ← le_at 4 bs 16;
    c ← le_at 1 bs 20;
    data_len ← le_at 4 bs 21;
    e ← add 64 25 data_len;
    if blen bs <? e then Err (InvalidFormat "Memory data truncated" [])
    else data ← slice_ck bs 25 data_len; mret (mkRegion gpa size flags data (negb (c =? 0))).

Record DeviceState := mkDevice {
  dev_name : bytes;
  device_type : bytes;
  dev_data : bytes
}.

(** A length of 32 bits and the bytes it counts. *)
Definition counted (bs : bytes) : bytes := to_le_bytes 4 (trunc 32 (blen bs)) ++ bs.

Definition device_to_bytes (d : DeviceState) : bytes :=
  counted (dev_name d) ++ counted (device_type d) ++ counted (dev_data d).

(** One counted field: the checks before the length and before the bytes; the
    bytes and the offset after them. *)
Definition read_counted (missing truncated : string) (bs : bytes) (offset : Z) : SerializeResult (bytes * Z) :=
  e ← add 64 offset 4;
  if blen bs <? e then Err (InvalidFormat missing [])
  else
    len ← le_at 4 bs offset;
    offset ← add 64 offset 4;
    e ← add 64 offset len;
    if blen bs <? e then Err (InvalidFormat truncated [])
    else field ← slice_ck bs offset len; mret (field, e).

Definition device_from_bytes (bs : bytes) : SerializeResult DeviceState :=
  '(name, o) ← read_counted "Device state too short" "Device name truncated" bs 0;
  '(ty, o) ← read_counted "Device type length missing" "Device type truncated" bs o;
  '(data, _) ← read_counted "Device data length missing" "Device data truncated" bs o;
  mret (mkDevice (from_utf8_lossy name) (from_utf8_lossy ty) data).

(** ** Sections *)

Record SectionHeader := mkHeader {
  section_type : SectionType;
  sh_name : bytes;
  sh_length : Z;
  checksum : Z
}.

Definition header_new (t : SectionType) (name : bytes) (length : Z) : SectionHeader := mkHeader t name length 0.

Definition header_to_bytes (h : SectionHeader) : bytes :=
  to_le_bytes 4 (section_value (section_type h)) ++ counted (sh_name h) ++
  to_le_bytes 8 (sh_length h) ++ to_le_bytes 4 (checksum h).

Definition header_from_bytes (bs : bytes) : SerializeResult (SectionHeader * Z) :=
  if blen bs <? 8 then Err (InvalidFormat "Section header too short" [])
  else
    type_val ← le_at 4 bs 0;
    t ← ok_or (from_u32 type_val) (InvalidFormat "Unknown section type: {}" [type_val]);
    name_len ← le_at 4 bs 4;
    e ← add 64 8 name_len;
    e' ← add 64 e 12;
    if blen bs <? e' then Err (InvalidFormat "Section header truncated" [])
    else
      name ← slice_ck bs 8 name_len;
      len ← le_at 8 bs e;
      o ← add 64 e 8;
      sum ← le_at 4 bs o;
      mret (mkHeader t (from_utf8_lossy name) len sum, e').

(** ** The state *)

Record VmState := mkVm {
  cpus : list CpuState;
  memory : list MemoryRegionState;
  devices : gmap bytes DeviceState;
  custom : gmap bytes bytes
}.

Definition vm_new : VmState := mkVm [] [] ∅ ∅.
Definition add_cpu (c : CpuState) (v : VmState) : VmState :=
  mkVm (cpus v ++ [c]) (memory v) (devices v) (custom v).
Definition add_memory (r : MemoryRegionState) (v : VmState) : VmState :=
  mkVm (cpus v) (memory v ++ [r]) (devices v) (custom v).
Definition add_device (d : DeviceState) (v : VmState) : VmState :=
  mkVm (cpus v) (memory v) (<[dev_name d := d]> (devices v)) (custom v).
Definition add_custom (name data : bytes) (v : VmState) : VmState :=
  mkVm (cpus v) (memory v) (devices v) (<[name := data]> (custom v)).
Definition get_device (v : VmState) (name : bytes) : option DeviceState := devices v !! name.
Definition get_custom (v : VmState) (name : bytes) : option bytes := custom v !! name.

(** ** The serializer: the bytes written so far *)

Definition serializer_new : bytes := to_le_bytes 4 STATE_MAGIC ++ to_le_bytes 4 FORMAT_VERSION.

Definition write_section (t : SectionType) (name data out : bytes) : bytes :=
  out ++ header_to_bytes (mkHeader t name (blen data) (crc32 data)) ++ data.
Definition write_cpu (cpu_id : Z) (c : CpuState) (out : bytes) : bytes :=
  write_section Cpu (str "cpu" ++ format_dec cpu_id) (cpu_to_bytes c) out.
Definition write_memory (r : MemoryRegionState) (out : bytes) : bytes :=
  write_section Memory (str "mem_" ++ format_hex16 (mr_gpa r)) (region_to_bytes r) out.
Definition write_device (d : DeviceState) (out : bytes) : bytes :=
  write_section Device (dev_name d) (device_to_bytes d) out.

(** ** The deserializer *)

Record StateDeserializer := mkDe { de_data : bytes; de_offset : Z }.

Definition de_new (data : bytes) : SerializeResult StateDeserializer :=
  if blen data <? 8 then Err (InvalidFormat "Data too short" [])
  else
    magic ← le_at 4 data 0;
    if negb (magic =? STATE_MAGIC) then Err (InvalidFormat "Invalid magic: {:08x}" [magic])
    else
      version ← le_at 4 data 4;
      if negb (version =? FORMAT_VERSION) then Err (VersionMismatch FORMAT_VERSION version)
      else mret (mkDe data 8).

Definition set_offset (o : Z) (d : StateDeserializer) : StateDeserializer := mkDe (de_data d) o.

Definition read_section : ST StateDeserializer SerializeError (option (SectionHeader * bytes)) :=
  d ← st_gets (fun d : StateDeserializer => d);
  if blen (de_data d) <=? de_offset d then mret None
  else
    rest ← st_lift (slice_ck (de_data d) (de_offset d) (blen (de_data d) - de_offset d));
    hs ← st_lift (header_from_bytes rest);
    let '(header, header_size) := hs in
    o ← st_lift (add 64 (de_offset d) header_size);
    _ ← st_modify (set_offset o);
    e ← st_lift (add 64 o (sh_length header));
    if blen (de_data d) <? e then st_lift (Err (InvalidFormat "Section data truncated" []))
    else
      data ← st_lift (slice_ck (de_data d) o (sh_length header));
      _ ← st_modify (set_offset e);
      if negb (crc32 data =? checksum header) then st_lift (Err ChecksumMismatch)
      else mret (Some (header, data)).

(** What [read_all] does with one section. *)
Definition take_section (h : SectionHeader) (data : bytes) (v : VmState) : SerializeResult VmState :=
  match section_type h with
  | Cpu => mret (add_cpu default_cpu v)
  | Memory => r ← region_from_bytes data; mret (add_memory r v)
  | Device => d ← device_from_bytes data; mret (add_device d v)
  | Custom => mret (add_custom (sh_name h) data v)
  | Header | Timer | Interrupt => mret v
  end.

(** The loop of [read_all]; a section takes at least twenty bytes. *)
Fixpoint read_loop (fuel : nat) (v : VmState) : ST StateDeserializer SerializeError VmState :=
  match fuel with
  | O => st_lift (Panic FuelExhausted)
  | S fuel' =>
      read_section ≫= fun o : option (SectionHeader * bytes) =>
      match o with
      | None => mret v
      | Some (h, data) => v' ← st_lift (take_section h data v); read_loop fuel' v'
      end
  end.

Definition read_all (d : StateDeserializer) : SerializeResult VmState * StateDeserializer :=
  read_loop (S (length (de_data d))) vm_new d.

(** ** Reading back what was laid out *)

Lemma blen_app a b : blen (a ++ b) = blen a + blen b.
Proof. unfold blen. rewrite length_app. lia. Qed.

Lemma blen_le n z : 0 <= n -> blen (to_le_bytes n z) = n.
Proof. apply length_to_le_bytes. Qed.

Lemma blen_pos bs : 0 <= blen bs.
Proof. unfold blen. lia. Qed.

Lemma blen_cons b bs : blen (b :: bs) = 1 + blen bs.
Proof. unfold blen. simpl. lia. Qed.

Lemma blen_nil : blen [] = 0.
Proof. done. Qed.

#[export] Hint Rewrite blen_app blen_cons blen_nil : hm.

Lemma slice_mid {E} l pre m post off n :
  l = pre ++ m ++ post -> off = blen pre -> n = blen m -> slice_ck (E:=E) l off n = Ok m.
Proof. apply slice_ck_mid. Qed.

Lemma le_at_mid {E} l pre post n z off :
  l = pre ++ to_le_bytes n z ++ post -> off = blen pre -> 0 <= n -> fits (8 * n) z ->
  le_at (E:=E) n l off = Ok z.
Proof.
  intros -> -> Hn Hz. unfold le_at. rewrite (slice_mid _ pre (to_le_bytes n z) post); [|done|done|by rewrite (blen_le n z Hn)].
  cbn [fmap Res_fmap]. by rewrite from_to_le_bytes.
Qed.

Lemma trunc_small n : 0 <= n < 2 ^ 32 -> trunc 32 n = n.
Proof. apply Z.mod_small. Qed.
Lemma trunc_range n : 0 <= trunc 32 n < 2 ^ (8 * 4).
Proof. by apply Z.mod_pos_bound. Qed.

(** ** Memory regions and devices *)

Definition region_ok (r : MemoryRegionState) : Prop :=
  fits 64 (mr_gpa r) /\ fits 64 (mr_size r) /\ fits 32 (mr_flags r) /\ Forall is_byte (mr_data r).

(** What comes back of a region: the length is kept modulo 2^32. *)
Definition region_kept (r : MemoryRegionState) : MemoryRegionState :=
  mkRegion (mr_gpa r) (mr_size r) (mr_flags r) (take (Z.to_nat (trunc 32 (blen (mr_data r)))) (mr_data r)) (compressed r).

Lemma region_from_to r :
  region_ok r -> region_from_bytes (region_to_bytes r) = Ok (region_kept r).
Proof.
  intros (Hg & Hs & Hf & _). unfold region_from_bytes. set (l := region_to_bytes r).
  set (n := trunc 32 (blen (mr_data r))). pose proof (trunc_range (blen (mr_data r))) as Hn. fold n in Hn.
  set (g := to_le_bytes 8 (mr_gpa r)). set (s := to_le_bytes 8 (mr_size r)). set (f := to_le_bytes 4 (mr_flags r)).
  set (c := if compressed r then 1 else 0).
  assert (blen g = 8 /\ blen s = 8 /\ blen f = 4 /\ blen (to_le_bytes 4 n) = 4) as (Lg & Ls & Lf & Ln)
    by (split_and!; by apply blen_le).
  assert (l = g ++ s ++ f ++ to_le_bytes 1 c ++ to_le_bytes 4 n ++ mr_data r) as El by (unfold l, region_to_bytes, c; destruct (compressed r); reflexivity).
  assert (blen l = 25 + blen (mr_data r)) as Ll.
  { rewrite El, !blen_app, Lg, Ls, Lf, Ln, blen_le by done. lia. }
  assert (n <= blen (mr_data r)) as Hle by (apply Z.mod_le; [apply blen_pos|done]).
  rewrite (proj2 (Z.ltb_ge _ _)) by lia.
  rewrite (le_at_mid l [] (s ++ f ++ to_le_bytes 1 c ++ to_le_bytes 4 n ++ mr_data r) 8 (mr_gpa r) 0) by (exact El || exact Hg || done).
  cbn [mbind Res_bind]. rewrite (le_at_mid l g (f ++ to_le_bytes 1 c ++ to_le_bytes 4 n ++ mr_data r) 8 (mr_size r) 8) by (exact El || exact Hs || done).
  cbn [mbind Res_bind]. rewrite (le_at_mid l (g ++ s) (to_le_bytes 1 c ++ to_le_bytes 4 n ++ mr_data r) 4 (mr_flags r) 16);
    [|by rewrite El, <- !app_assoc|rewrite blen_app; lia|done|exact Hf].
  cbn [mbind Res_bind]. rewrite (le_at_mid l (g ++ s ++ f) (to_le_bytes 4 n ++ mr_data r) 1 c 20);
    [|by rewrite El, <- !app_assoc|rewrite !blen_app; lia|done|unfold c; by destruct (compressed r)].
  cbn [mbind Res_bind]. rewrite (le_at_mid l (g ++ s ++ f ++ to_le_bytes 1 c) (mr_data r) 4 n 21);
    [|by rewrite El, <- !app_assoc|rewrite !blen_app, blen_le by done; lia|done|done].
  cbn [mbind Res_bind]. rewrite add_ok by lia. cbn [mbind Res_bind]. rewrite (proj2 (Z.ltb_ge _ _)) by lia.
  rewrite (slice_mid l (g ++ s ++ f ++ to_le_bytes 1 c ++ to_le_bytes 4 n) (take (Z.to_nat n) (mr_data r)) (drop (Z.to_nat n) (mr_data r))).
  - cbn [mbind Res_bind mret Res_ret]. unfold region_kept, c. fold n. by destruct (compressed r).
  - by rewrite El, <- !app_assoc, take_drop.
  - rewrite !blen_app, !blen_le by done. lia.
  - unfold blen in *. rewrite length_take. lia.
Qed.

Definition device_ok (d : DeviceState) : Prop :=
  Forall is_byte (dev_name d) /\ Forall is_byte (device_type d) /\ Forall is_byte (dev_data d) /\
  utf8_valid (dev_name d) = true /\ utf8_valid (device_type d) = true /\
  blen (dev_name d) < 2 ^ 32 /\ blen (device_type d) < 2 ^ 32 /\ blen (dev_data d) < 2 ^ 32.

Lemma blen_counted bs : blen (counted bs) = 4 + blen bs.
Proof. unfold counted. by rewrite blen_app, blen_le. Qed.

Lemma read_counted_mid missing truncated l pre bs post off :
  l = pre ++ counted bs ++ post -> off = blen pre -> blen bs < 2 ^ 32 -> blen l < 2 ^ 63 ->
  read_counted missing truncated l off = Ok (bs, off + 4 + blen bs).
Proof.
  intros -> -> Hb Hl. unfold read_counted. rewrite !blen_app, blen_counted in *.
  pose proof (blen_pos pre). pose proof (blen_pos post). pose proof (blen_pos bs).
  rewrite add_ok by lia. cbn [mbind Res_bind]. rewrite (proj2 (Z.ltb_ge _ _)) by lia.
  rewrite (le_at_mid _ pre (bs ++ post) 4 (blen bs));
    [|unfold counted; rewrite trunc_small by lia; by rewrite <- !app_assoc|done|done|by split].
  cbn [mbind Res_bind]. rewrite !add_ok by lia. cbn [mbind Res_bind]. rewrite (proj2 (Z.ltb_ge _ _)) by lia.
  rewrite (slice_mid _ (pre ++ to_le_bytes 4 (trunc 32 (blen bs))) bs post); [done|..|done].
  - unfold counted. by rewrite <- !app_assoc.
  - by rewrite blen_app, blen_le.
Qed.

Lemma device_from_to d :
  device_ok d -> device_from_bytes (device_to_bytes d) = Ok d.
Proof.
  intros (_ & _ & _ & Hn & Ht & Ln & Lt & Ld). unfold device_from_bytes, device_to_bytes.
  pose proof (blen_pos (dev_name d)). pose proof (blen_pos (device_type d)). pose proof (blen_pos (dev_data d)).
  assert (blen (counted (dev_name d) ++ counted (device_type d) ++ counted (dev_data d)) < 2 ^ 63)
    by (rewrite !blen_app, !blen_counted; lia).
  rewrite (read_counted_mid _ _ _ [] (dev_name d) (counted (device_type d) ++ counted (dev_data d))) by done.
  cbn [mbind Res_bind]. rewrite (read_counted_mid _ _ _ (counted (dev_name d)) (device_type d) (counted (dev_data d)))
    by (done || rewrite blen_counted; lia).
  cbn [mbind Res_bind]. rewrite (read_counted_mid _ _ _ (counted (dev_name d) ++ counted (device_type d)) (dev_data d) []);
    [|by rewrite <- !app_assoc, app_nil_r|rewrite blen_app, !blen_counted; lia|done|done].
  cbn [mbind Res_bind mret Res_ret]. rewrite !from_utf8_lossy_valid by done. by destruct d.
Qed.

(** ** Sections *)

Definition header_ok (h : SectionHeader) : Prop :=
  utf8_valid (sh_name h) = true /\ blen (sh_name h) < 2 ^ 32 /\ fits 64 (sh_length h) /\ fits 32 (checksum h).

Lemma from_u32_value t : from_u32 (section_value t) = Some t.
Proof. by destruct t. Qed.

Lemma section_value_fits t : fits (8 * 4) (section_value t).
Proof. by destruct t. Qed.

Definition header_size (h : SectionHeader) : Z := 20 + blen (sh_name h).

Lemma blen_header h : blen (header_to_bytes h) = header_size h.
Proof. unfold header_to_bytes, header_size. rewrite !blen_app, blen_counted, !blen_le by done. lia. Qed.

Lemma header_from_to h post :
  header_ok h -> header_from_bytes (header_to_bytes h ++ post) = Ok (h, header_size h).
Proof.
  intros (Hu & Hn & Hl & Hc). unfold header_from_bytes. set (n := blen (sh_name h)) in *.
  pose proof (blen_pos (sh_name h)) as Hn0. fold n in Hn0. pose proof (blen_pos post).
  set (l := header_to_bytes h ++ post). assert (blen l = 20 + n + blen post) as Ll by (unfold l; by rewrite blen_app, blen_header).
  set (t := to_le_bytes 4 (section_value (section_type h))). set (len := to_le_bytes 8 (sh_length h)).
  set (sum := to_le_bytes 4 (checksum h)).
  assert (blen t = 4 /\ blen len = 8 /\ blen sum = 4) as (Lt & Llen & Lsum) by (split_and!; by apply blen_le).
  assert (l = t ++ to_le_bytes 4 n ++ sh_name h ++ len ++ sum ++ post) as El.
  { unfold l, header_to_bytes, counted. fold n t len sum. rewrite trunc_small by lia. by rewrite <- !app_assoc. }
  rewrite (proj2 (Z.ltb_ge _ _)) by lia.
  rewrite (le_at_mid l [] (to_le_bytes 4 n ++ sh_name h ++ len ++ sum ++ post) 4 (section_value (section_type h)) 0)
    by (exact El || apply section_value_fits || done).
  cbn [mbind Res_bind]. rewrite from_u32_value. cbn [ok_or mbind Res_bind].
  rewrite (le_at_mid l t (sh_name h ++ len ++ sum ++ post) 4 n 4) by (exact El || done).
  cbn [mbind Res_bind]. rewrite (add_ok 64 8 n) by lia. cbn [mbind Res_bind].
  rewrite (add_ok 64 (8 + n) 12) by lia. cbn [mbind Res_bind]. rewrite (proj2 (Z.ltb_ge _ _)) by lia.
  rewrite (slice_mid l (t ++ to_le_bytes 4 n) (sh_name h) (len ++ sum ++ post));
    [|by rewrite El, <- !app_assoc|rewrite blen_app, blen_le by done; lia|done]. cbn [mbind Res_bind].
  rewrite (le_at_mid l (t ++ to_le_bytes 4 n ++ sh_name h) (sum ++ post) 8 (sh_length h) (8 + n));
    [|by rewrite El, <- !app_assoc|rewrite !blen_app, blen_le by done; fold n; lia|done|exact Hl].
  cbn [mbind Res_bind]. rewrite add_ok by lia. cbn [mbind Res_bind].
  rewrite (le_at_mid l (t ++ to_le_bytes 4 n ++ sh_name h ++ len) post 4 (checksum h) (8 + n + 8));
    [|by rewrite El, <- !app_assoc|rewrite !blen_app, blen_le by done; fold n; lia|done|exact Hc].
  cbn [mbind Res_bind mret Res_ret]. rewrite from_utf8_lossy_valid by done. unfold header_size. fold n.
  destruct h. do 2 f_equal. lia.
Qed.

(** Reading a section whose header is in place, by the four ways it can end. *)
Lemma read_section_eq pre h body :
  header_ok h -> blen (pre ++ header_to_bytes h ++ body) < 2 ^ 63 ->
  let file := pre ++ header_to_bytes h ++ body in
  let o := blen pre + header_size h in
  let data := slice body 0 (sh_length h) in
  read_section (mkDe file (blen pre)) =
  if 2 ^ 64 <=? o + sh_length h then (Panic ArithOverflow, mkDe file o)
  else if blen body <? sh_length h then (Err (InvalidFormat "Section data truncated" []), mkDe file o)
  else (if crc32 data =? checksum h then Ok (Some (h, data)) else Err ChecksumMismatch,
        mkDe file (o + sh_length h)).
Proof.
  intros Hh Hlen. cbv zeta. set (file := pre ++ header_to_bytes h ++ body) in *.
  assert (blen file = blen pre + header_size h + blen body) as Lf
    by (unfold file; rewrite !blen_app, blen_header; lia).
  pose proof (blen_pos pre). pose proof (blen_pos body). pose proof (blen_pos (sh_name h)).
  assert (20 <= header_size h) by (unfold header_size; lia).
  pose proof Hh as (_ & _ & Hl & _). unfold fits in Hl.
  unfold read_section. rewrite st_bind_gets. cbn [de_data de_offset]. rewrite (proj2 (Z.leb_gt _ _)) by lia.
  rewrite st_bind_lift, (slice_mid file pre (header_to_bytes h ++ body) []);
    [|by rewrite app_nil_r|done|rewrite blen_app, blen_header; lia].
  rewrite st_bind_lift, header_from_to by done. rewrite st_bind_lift, add_ok by lia.
  rewrite st_bind_modify, st_bind_lift. unfold add. rewrite (Z.leb_antisym (blen pre + header_size h + sh_length h) (2 ^ 64)).
  destruct (Z.ltb_spec (blen pre + header_size h + sh_length h) (2 ^ 64)) as [Hov|Hov]; cbn [negb]; [|done].
  destruct (Z.ltb_spec (blen body) (sh_length h)) as [Ht|Ht].
  - by rewrite (proj2 (Z.ltb_lt _ _)) by lia.
  - rewrite (proj2 (Z.ltb_ge _ _)) by lia. rewrite st_bind_lift.
    assert (slice body 0 (sh_length h) ++ drop (Z.to_nat (sh_length h)) body = body) as Eb by apply take_drop.
    rewrite (slice_mid file (pre ++ header_to_bytes h) (slice body 0 (sh_length h)) (drop (Z.to_nat (sh_length h)) body)).
    + rewrite st_bind_modify. by destruct (crc32 _ =? checksum h).
    + unfold file. by rewrite <- app_assoc, Eb.
    + by rewrite blen_app, blen_header.
    + symmetry. apply length_slice; unfold blen in *; lia.
Qed.

(** ** Writing a state and reading it back *)

(** A call of the serializer; [ICustom] is [write_section] with a type of its own. *)
Inductive Item :=
| ICpu (cpu_id : Z) (c : CpuState)
| IMemory (r : MemoryRegionState)
| IDevice (d : DeviceState)
| ISection (t : SectionType) (name data : bytes).

Definition write_item (out : bytes) (i : Item) : bytes :=
  match i with
  | ICpu id c => write_cpu id c out
  | IMemory r => write_memory r out
  | IDevice d => write_device d out
  | ISection t name data => write_section t name data out
  end.

(** The section an item becomes. *)
Definition item_section (i : Item) : SectionType * bytes * bytes :=
  match i with
  | ICpu id c => (Cpu, str "cpu" ++ format_dec id, cpu_to_bytes c)
  | IMemory r => (Memory, str "mem_" ++ format_hex16 (mr_gpa r), region_to_bytes r)
  | IDevice d => (Device, dev_name d, device_to_bytes d)
  | ISection t name data => (t, name, data)
  end.

Definition item_bytes (i : Item) : bytes :=
  let '(t, name, data) := item_section i in header_to_bytes (mkHeader t name (blen data) (crc32 data)) ++ data.

Lemma write_item_eq out i : write_item out i = out ++ item_bytes i.
Proof. by destruct i. Qed.

(** What it adds to the state that is read: a processor comes back in its initial
    state, a region with the data its 32-bit count leaves. *)
Definition put_item (v : VmState) (i : Item) : VmState :=
  match i with
  | ICpu _ _ => add_cpu default_cpu v
  | IMemory r => add_memory (region_kept r) v
  | IDevice d => add_device d v
  | ISection Custom name data => add_custom name data v
  | ISection _ _ _ => v
  end.

Definition segment_ok (s : SegmentRegister) : Prop :=
  fits 16 (selector s) /\ fits 64 (seg_base s) /\ fits 32 (seg_limit s) /\ fits 32 (access_rights s).

(** What the types of the source guarantee of an item, and that no name, device type
    or device data is longer than its count; a section written by hand is of one of
    the types [read_all] skips or keeps as it is. *)
Definition item_ok (i : Item) : Prop :=
  match i with
  | ICpu id c => fits 32 id /\ Forall is_byte (fpu_state c)
  | IMemory r => region_ok r
  | IDevice d => device_ok d
  | ISection t name data =>
      match t with Cpu | Memory | Device => False | _ => True end /\
      utf8_valid name = true /\ blen name < 2 ^ 32 /\ Forall is_byte data
  end.

Lemma ascii_app a b : Forall (fun x => 0 <= x < 128) a -> Forall (fun x => 0 <= x < 128) b ->
  utf8_valid (a ++ b) = true.
Proof.
  intros Ha Hb. apply ascii_valid. apply Forall_app.
  split; (eapply Forall_impl; [done|]); simpl; lia.
Qed.

Lemma is_byte_concat {A} (f : A -> bytes) l : (forall x, Forall is_byte (f x)) -> Forall is_byte (concat (f <$> l)).
Proof. intros Hf. induction l as [|x l IH]; simpl; [done|]. by apply Forall_app. Qed.

Lemma is_byte_splice l off d : Forall is_byte l -> Forall is_byte d -> Forall is_byte (splice l off d).
Proof. intros Hl Hd. unfold splice. rewrite !Forall_app. split_and!; [by apply Forall_take|done|by apply Forall_drop]. Qed.

Lemma is_byte_le n z : 0 <= n -> Forall is_byte (to_le_bytes n z).
Proof. apply to_le_bytes_byte. Qed.

Lemma is_byte_zeros n : Forall is_byte (replicate n 0).
Proof. by apply Forall_replicate. Qed.

#[local] Hint Resolve is_byte_le is_byte_zeros is_byte_splice : hm.

Lemma segment_bytes s : Forall is_byte (segment_to_bytes s).
Proof. unfold segment_to_bytes. auto 10 with hm lia. Qed.
Lemma table_bytes d : Forall is_byte (table_to_bytes d).
Proof. unfold table_to_bytes. auto 10 with hm lia. Qed.

Lemma cpu_bytes c : Forall is_byte (fpu_state c) -> Forall is_byte (cpu_to_bytes c).
Proof.
  intros Hf. unfold cpu_to_bytes, u64s.
  rewrite !Forall_app. split_and!; try done; try apply segment_bytes; try apply table_bytes;
    try (apply is_byte_le; lia); apply is_byte_concat; intros; (apply segment_bytes || (apply is_byte_le; lia)).
Qed.

Lemma region_bytes r : Forall is_byte (mr_data r) -> Forall is_byte (region_to_bytes r).
Proof.
  intros Hd. unfold region_to_bytes. rewrite !Forall_app. split_and!; try (apply is_byte_le; lia); [|done].
  apply Forall_singleton. by destruct (compressed r).
Qed.

Lemma counted_bytes bs : Forall is_byte bs -> Forall is_byte (counted bs).
Proof. intros Hb. apply Forall_app_2; [apply is_byte_le; lia|done]. Qed.

Lemma device_bytes d : device_ok d -> Forall is_byte (device_to_bytes d).
Proof. intros (? & ? & ? & _). unfold device_to_bytes. rewrite !Forall_app. split_and!; by apply counted_bytes. Qed.

Lemma dec_length fuel z acc : (length (dec_digits fuel z acc) <= fuel + length acc)%nat.
Proof.
  revert z acc. induction fuel as [|fuel IH]; intros z acc; cbn [dec_digits]; [lia|].
  destruct (z <? 10); simpl; [lia|]. etrans; [apply IH|]. simpl. lia.
Qed.

Lemma prefix_ascii : Forall (fun x => 0 <= x < 128) (str "cpu") /\ Forall (fun x => 0 <= x < 128) (str "mem_").
Proof. split; by repeat (apply Forall_cons; split; [done|]). Qed.

Lemma prefix_length : length (str "cpu") = 3%nat /\ length (str "mem_") = 4%nat.
Proof. done. Qed.

#[local] Opaque str.

(** The section of an item is one the deserializer takes. *)
Lemma item_section_ok i t name data :
  item_ok i -> item_section i = (t, name, data) -> blen (item_bytes i) < 2 ^ 63 ->
  header_ok (mkHeader t name (blen data) (crc32 data)) /\
  forall v, take_section (mkHeader t name (blen data) (crc32 data)) data v = Ok (put_item v i).
Proof.
  intros Hi Hs Hlen. unfold item_bytes in Hlen. rewrite Hs, blen_app, blen_header in Hlen.
  unfold header_size in Hlen. cbn [sh_name] in Hlen. pose proof (blen_pos name). pose proof (blen_pos data).
  assert (utf8_valid name = true /\ blen name < 2 ^ 32 /\ Forall is_byte data) as (Hu & Hn & Hd).
  { destruct i as [id c|r|d|t' n' d']; unfold item_section in Hs; injection Hs as <- <- <-; cbn [item_ok] in Hi.
    - destruct Hi as [[Hid _] Hf]. split_and!; [|unfold blen; rewrite length_app|by apply cpu_bytes].
      + apply ascii_app; [apply prefix_ascii|]. by apply dec_digits_ascii.
      + pose proof (dec_length 20 id []) as Hdec. rewrite (proj1 prefix_length). unfold format_dec. cbn [length] in Hdec. lia.
    - destruct Hi as (Hg & _ & _ & Hd). split_and!; [|unfold blen; rewrite length_app, (proj2 prefix_length); reflexivity|by apply region_bytes].
      apply ascii_app; [apply prefix_ascii|]. apply format_hex16_ascii. apply Hg.
    - split_and!; [apply Hi|apply Hi|by apply device_bytes].
    - exact (proj2 Hi). }
  split; [split_and!; [done|done|unfold fits; cbn [sh_length]; lia|by apply fits_crc32]|].
  intros v. destruct i as [id c|r|d|t' n' d']; unfold item_section in Hs; injection Hs as <- <- <-; cbn [take_section section_type item_ok] in *.
  - done.
  - by rewrite region_from_to.
  - by rewrite device_from_to.
  - destruct t'; done || by destruct Hi.
Qed.

Lemma item_bytes_long i : (20 <= length (item_bytes i))%nat.
Proof.
  unfold item_bytes. destruct (item_section i) as [[t name] data].
  pose proof (blen_header (mkHeader t name (blen data) (crc32 data))) as Hh. unfold header_size, blen in Hh.
  rewrite length_app. unfold blen. lia.
Qed.

Lemma items_long items : (length items <= length (concat (item_bytes <$> items)))%nat.
Proof.
  induction items as [|i items IH]; [done|]. rewrite fmap_cons. cbn [concat length]. rewrite length_app.
  pose proof (item_bytes_long i). lia.
Qed.

Lemma read_loop_items items v fuel pre :
  Forall item_ok items -> (length items < fuel)%nat ->
  blen (pre ++ concat (item_bytes <$> items)) < 2 ^ 63 ->
  let file := pre ++ concat (item_bytes <$> items) in
  read_loop fuel v (mkDe file (blen pre)) = (Ok (foldl put_item v items), mkDe file (blen file)).
Proof.
  cbv zeta. intros Hok. revert v fuel pre. induction Hok as [|i items Hi Hok IH]; intros v [|fuel] pre Hf Hl; try (simpl in Hf; lia).
  - simpl in *. rewrite app_nil_r in *. rewrite st_bind_eq. unfold read_section. rewrite st_bind_gets. cbn [de_data de_offset].
    by rewrite Z.leb_refl.
  - rewrite fmap_cons in *. cbn [concat] in *. cbn [read_loop foldl length] in *. rewrite st_bind_eq.
    destruct (item_section i) as [[t name] data] eqn:Es. set (h := mkHeader t name (blen data) (crc32 data)).
    assert (item_bytes i = header_to_bytes h ++ data) as Ei by (unfold item_bytes; by rewrite Es).
    pose proof (blen_pos (concat (item_bytes <$> items))) as Hc. pose proof (blen_pos pre). rewrite !blen_app in Hl.
    destruct (item_section_ok i t name data Hi Es) as [Hh Ht]; [lia|]. fold h in Hh, Ht. pose proof (blen_pos data).
    rewrite Ei, <- app_assoc. rewrite read_section_eq; [|done|rewrite Ei in Hl; rewrite !blen_app in *; lia].
    rewrite Ei, blen_app, blen_header in Hl. cbn [sh_length h checksum].
    rewrite (proj2 (Z.leb_gt _ _)) by lia. rewrite blen_app, (proj2 (Z.ltb_ge _ _)) by lia.
    assert (slice (data ++ concat (item_bytes <$> items)) 0 (blen data) = data) as ->.
    { unfold slice, blen. rewrite Nat2Z.id. simpl. apply take_app_length. }
    rewrite Z.eqb_refl. rewrite st_bind_lift. rewrite Ht.
    specialize (IH (put_item v i) fuel (pre ++ header_to_bytes h ++ data) ltac:(lia)).
    replace ((pre ++ header_to_bytes h ++ data) ++ concat (item_bytes <$> items))
      with (pre ++ header_to_bytes h ++ data ++ concat (item_bytes <$> items)) in IH by (by rewrite <- !app_assoc).
    replace (blen (pre ++ header_to_bytes h ++ data)) with (blen pre + header_size h + blen data) in IH
      by (rewrite !blen_app, blen_header; lia).
    apply IH. rewrite !blen_app, blen_header. lia.
Qed.

(** A region comes back whole exactly if its data is shorter than 4 GiB. *)
Lemma region_kept_iff r : region_kept r = r <-> blen (mr_data r) < 2 ^ 32.
Proof.
  pose proof (blen_pos (mr_data r)) as H0. split.
  - intros Hk. apply (f_equal (fun r => blen (mr_data r))) in Hk. cbn [region_kept mr_data] in Hk.
    pose proof (trunc_range (blen (mr_data r))). unfold blen in *. rewrite length_take in Hk. lia.
  - intros Hl. unfold region_kept. rewrite trunc_small by lia. unfold blen. rewrite Nat2Z.id, firstn_all. by destruct r.
Qed.

(** C16: A state written section by section is read back: every region, device and
    custom section, in the order written.  Names, device types and the data of devices
    are shorter than 4 GiB and the file is shorter than [isize::MAX]; a region may be of
    any length, and comes back whole exactly if its data is shorter than 4 GiB, and
    otherwise cut to the length modulo 2^32.  The processors come back in their initial
    state, not in the one that was written. *)
Theorem state_roundtrip items :
  Forall item_ok items -> let file := foldl write_item serializer_new items in blen file < 2 ^ 63 ->
  (exists d d', de_new file = Ok d /\ read_all d = (Ok (foldl put_item vm_new items), d')) /\
  forall r, IMemory r ∈ items -> region_kept r = r <-> blen (mr_data r) < 2 ^ 32.
Proof.
  intros Hok. assert (forall out, foldl write_item out items = out ++ concat (item_bytes <$> items)) as Hw.
  { clear Hok. induction items as [|i items IH]; intros out; simpl; [by rewrite app_nil_r|].
    by rewrite IH, write_item_eq, <- app_assoc. }
  rewrite Hw. cbv zeta. set (body := concat (item_bytes <$> items)). intros Hl.
  split; [|intros r _; apply region_kept_iff].
  exists (mkDe (serializer_new ++ body) 8). eexists. split.
  - unfold de_new. rewrite blen_app. change (blen serializer_new) with 8. pose proof (blen_pos body).
    rewrite (proj2 (Z.ltb_ge _ _)) by lia.
    rewrite (le_at_mid _ [] (to_le_bytes 4 FORMAT_VERSION ++ body) 4 STATE_MAGIC 0) by done. cbn [mbind Res_bind].
    rewrite Z.eqb_refl. cbn [negb]. by rewrite (le_at_mid _ (to_le_bytes 4 STATE_MAGIC) body 4 FORMAT_VERSION 4) by done.
  - unfold read_all. cbn [de_data]. change 8 with (blen serializer_new). apply read_loop_items; [done| |done].
    rewrite length_app. apply Nat.lt_succ_r. transitivity (length body); [|lia]. apply items_long.
Qed.

(** ** Any input *)

Lemma le_at_ok {E} n bs off :
  Forall is_byte bs -> 0 <= off -> 0 <= n -> off + n <= blen bs ->
  exists z, le_at (E:=E) n bs off = Ok z /\ fits (8 * n) z.
Proof.
  intros Hb Ho Hn Hl. unfold le_at. rewrite slice_ck_ok by (done || exact Hl). eexists. split; [reflexivity|].
  by apply slice_fits.
Qed.

(** Read a number, at an offset of the goal, that is known to be there. *)
Ltac read_le z off :=
  match goal with
  | |- context [le_at (E:=?E) ?n ?bs off] =>
      let H := fresh in let Hz := fresh "Hz" in
      destruct (le_at_ok (E:=E) n bs off) as (z & H & Hz); [done|lia|lia|lia|];
      rewrite H; cbn [mbind Res_bind]; clear H
  end.

Lemma region_from_no_panic bs :
  Forall is_byte bs -> blen bs < 2 ^ 63 -> is_panic (region_from_bytes bs) = false.
Proof.
  intros Hb Hl. unfold region_from_bytes. destruct (Z.ltb_spec (blen bs) 25); [done|].
  read_le g 0. read_le s 8. read_le f 16. read_le c 20. read_le n 21. change (8 * 4) with 32 in *. unfold fits in *.
  rewrite add_ok by lia. cbn [mbind Res_bind]. destruct (Z.ltb_spec (blen bs) (25 + n)); [done|].
  by rewrite slice_ck_ok by (unfold blen in *; lia).
Qed.

Lemma read_counted_no_panic m t bs off :
  Forall is_byte bs -> blen bs < 2 ^ 63 -> 0 <= off <= blen bs ->
  match read_counted m t bs off with Ok (_, o) => 0 <= o <= blen bs | Err _ => True | Panic _ => False end.
Proof.
  intros Hb Hl Ho. unfold read_counted. rewrite add_ok by lia. cbn [mbind Res_bind].
  destruct (Z.ltb_spec (blen bs) (off + 4)); [done|]. read_le n off. change (8 * 4) with 32 in *. unfold fits in *.
  rewrite add_ok by lia. cbn [mbind Res_bind]. destruct (Z.ltb_spec (blen bs) (off + 4 + n)); [done|].
  rewrite slice_ck_ok by (unfold blen in *; lia). simpl. lia.
Qed.

Lemma device_from_no_panic bs :
  Forall is_byte bs -> blen bs < 2 ^ 63 -> is_panic (device_from_bytes bs) = false.
Proof.
  intros Hb Hl. unfold device_from_bytes. pose proof (blen_pos bs).
  repeat match goal with
  | |- context [read_counted ?m ?t bs ?o] =>
      let H := fresh in pose proof (read_counted_no_panic m t bs o Hb Hl ltac:(lia)) as H;
      destruct (read_counted m t bs o) as [[? ?]|?|?]; cbn [mbind Res_bind]; [|done|done]
  end.
  done.
Qed.

Lemma header_from_no_panic bs :
  Forall is_byte bs -> blen bs < 2 ^ 63 ->
  match header_from_bytes bs with
  | Ok (h, n) => 20 <= n <= blen bs /\ fits 64 (sh_length h)
  | Err _ => True
  | Panic _ => False
  end.
Proof.
  intros Hb Hl. unfold header_from_bytes. destruct (Z.ltb_spec (blen bs) 8); [done|].
  read_le t 0. destruct (from_u32 t); [|done]. cbn [ok_or mbind Res_bind]. read_le n 4.
  change (8 * 4) with 32 in *. unfold fits in Hz0. rewrite (add_ok 64 8 n) by lia. cbn [mbind Res_bind].
  rewrite (add_ok 64 (8 + n) 12) by lia. cbn [mbind Res_bind].
  destruct (Z.ltb_spec (blen bs) (8 + n + 12)); [done|]. rewrite slice_ck_ok by (unfold blen in *; lia). cbn [mbind Res_bind].
  read_le len (8 + n). rewrite add_ok by lia. cbn [mbind Res_bind]. read_le cks (8 + n + 8). cbn [mret Res_ret sh_length]. split; [lia|done].
Qed.

(** One section: whatever the bytes, an overflow of [offset + length] is the only
    panic, and a section that is returned moves the offset on. *)
Lemma read_section_any d :
  Forall is_byte (de_data d) -> blen (de_data d) < 2 ^ 63 -> 0 <= de_offset d <= blen (de_data d) ->
  let '(r, d') := read_section d in
  de_data d' = de_data d /\
  match r with
  | Ok None => True
  | Ok (Some (h, data)) => de_offset d + 20 <= de_offset d' <= blen (de_data d) /\ Forall is_byte data /\ blen data < 2 ^ 63
  | Err _ => True
  | Panic p => p = ArithOverflow
  end.
Proof.
  destruct d as [file o]. cbn [de_data de_offset]. intros Hb Hl Ho. unfold read_section. rewrite st_bind_gets. cbn [de_data de_offset].
  destruct (Z.leb_spec (blen file) o); [done|]. rewrite st_bind_lift, slice_ck_ok by (unfold blen in *; lia).
  rewrite st_bind_lift. set (rest := slice file o (blen file - o)).
  assert (blen rest = blen file - o) as Lr by (apply length_slice; unfold blen in *; lia).
  pose proof (header_from_no_panic rest) as Hh. destruct (header_from_bytes rest) as [[h n]|e|p]; [..|done|].
  2:{ exfalso. apply Hh; [by apply Forall_take, Forall_drop|lia]. }
  destruct Hh as [Hn Hf]; [by apply Forall_take, Forall_drop|lia|]. unfold fits in Hf.
  rewrite st_bind_lift, add_ok by lia. rewrite st_bind_modify, st_bind_lift. unfold add.
  destruct (Z.ltb_spec (o + n + sh_length h) (2 ^ 64)); [|done].
  destruct (Z.ltb_spec (blen file) (o + n + sh_length h)); [done|].
  rewrite st_bind_lift, slice_ck_ok by (unfold blen in *; lia). rewrite st_bind_modify.
  destruct (crc32 _ =? checksum h); [|done]. split; [done|]. cbn [negb set_offset de_offset].
  assert (blen (slice file (o + n) (sh_length h)) = sh_length h) as Ls by (apply length_slice; unfold blen in *; lia).
  split_and!; [cbn; lia|cbn; lia|by apply Forall_take, Forall_drop|lia].
Qed.

Lemma read_loop_any fuel v d :
  Forall is_byte (de_data d) -> blen (de_data d) < 2 ^ 63 -> 0 <= de_offset d <= blen (de_data d) ->
  blen (de_data d) - de_offset d < Z.of_nat fuel ->
  forall p, (read_loop fuel v d).1 = Panic p -> p = ArithOverflow.
Proof.
  revert v d. induction fuel as [|fuel IH]; intros v d Hb Hl Ho Hf p; [lia|]. cbn [read_loop]. rewrite st_bind_eq.
  pose proof (read_section_any d Hb Hl Ho) as Hs. destruct (read_section d) as [r d'], Hs as [Ed Hs].
  destruct r as [[[h data]|]|e|q]; [|done|done|by intros [= <-]].
  destruct Hs as (Ho' & Hd & Ld). rewrite st_bind_lift.
  assert (is_panic (take_section h data v) = false) as Ht.
  { unfold take_section. pose proof (region_from_no_panic data Hd Ld) as Hr. pose proof (device_from_no_panic data Hd Ld) as Hv.
    destruct (section_type h); try done; [by destruct (region_from_bytes data)|by destruct (device_from_bytes data)]. }
  destruct (take_section h data v) as [v'|e|q]; [|done|done]. apply IH; rewrite ?Ed; done || lia.
Qed.

(** On any file at all the deserializer ends, with a state or an error; the one
    panic it can have is the overflow of an offset and a section's length. *)
Theorem read_all_total file :
  Forall is_byte file -> blen file < 2 ^ 63 ->
  match de_new file with
  | Ok d => forall p, (read_all d).1 = Panic p -> p = ArithOverflow
  | Err _ => True
  | Panic _ => False
  end.
Proof.
  intros Hb Hl. unfold de_new. destruct (Z.ltb_spec (blen file) 8); [done|]. read_le m 0.
  destruct (m =? STATE_MAGIC); [|done]. cbn [negb]. read_le w 4. destruct (w =? FORMAT_VERSION); [|done].
  cbn [negb mret Res_ret]. unfold read_all. apply read_loop_any; cbn [de_data de_offset]; [done..|lia|unfold blen in *; lia].
Qed.

(** That panic is within reach of a file: a header whose length does not fit ends
    the process where every other length that is too long is reported. *)
Theorem hostile_length pre t len sum post :
  fits 64 len -> fits 32 sum -> let h := mkHeader t [] len sum in
  blen (pre ++ header_to_bytes h ++ post) < 2 ^ 63 -> blen post < len ->
  (read_section (mkDe (pre ++ header_to_bytes h ++ post) (blen pre))).1 =
  if 2 ^ 64 <=? blen pre + 20 + len then Panic ArithOverflow
  else Err (InvalidFormat "Section data truncated" []).
Proof.
  intros Hlen Hsum h Hl Hp. rewrite read_section_eq; [|by split_and!|done]. cbn [sh_length h header_size sh_name].
  change (header_size h) with 20. destruct (2 ^ 64 <=? _); [done|]. by rewrite (proj2 (Z.ltb_lt _ _)).
Qed.

(** C17: A burst of at most 32 bits in a section's data makes [read_section] report a
    checksum mismatch, whatever is before and after the section. *)
Theorem corruption_detected t name data data' d k out post :
  utf8_valid name = true -> blen name < 2 ^ 32 -> Forall is_byte data -> Forall is_byte data' ->
  length data = length data' -> 0 < d < 2 ^ 32 -> (k <= 8 * length data)%nat ->
  Z.lxor (from_le_bytes data) (from_le_bytes data') = Z.shiftl d (Z.of_nat k) ->
  let header := header_to_bytes (mkHeader t name (blen data) (crc32 data)) in
  write_section t name data out = out ++ header ++ data /\
  (blen (out ++ header ++ data' ++ post) < 2 ^ 63 ->
   (read_section (mkDe (out ++ header ++ data' ++ post) (blen out))).1 = Err ChecksumMismatch).
Proof.
  intros Hu Hn Hb Hb' Hl Hd Hk Hx header. split; [done|]. intros Hlen.
  assert (blen data = blen data') as Hll by (unfold blen; by rewrite Hl).
  pose proof (blen_pos data). pose proof (blen_pos out). pose proof (blen_pos post).
  unfold header in *. rewrite read_section_eq; [|split_and!; [done|done| |by apply fits_crc32]|done].
  - rewrite !blen_app, blen_header in Hlen. cbn [sh_length checksum]. rewrite (proj2 (Z.leb_gt _ _)) by lia.
    rewrite blen_app, (proj2 (Z.ltb_ge _ _)) by lia. rewrite Hll.
    assert (slice (data' ++ post) 0 (blen data') = data') as ->.
    { unfold slice, blen. rewrite Nat2Z.id. simpl. apply take_app_length. }
    rewrite (proj2 (Z.eqb_neq _ _)); [done|]. apply not_eq_sym. by apply crc32_burst with d k.
  - rewrite !blen_app in Hlen. unfold fits. cbn [sh_length]. pose proof (blen_pos (header_to_bytes (mkHeader t name (blen data) (crc32 data)))). lia.
Qed.

(** ** Layouts *)

Lemma splice_mid pre m post d off :
  off = blen pre -> blen d = blen m -> splice (pre ++ m ++ post) off d = pre ++ d ++ post.
Proof.
  intros -> Hd. unfold splice, blen in *. rewrite Nat2Z.id, take_app_length. do 2 f_equal.
  replace (length pre + length d)%nat with (length pre + length m)%nat by lia.
  rewrite <- drop_drop, drop_app_length, drop_app_length. done.
Qed.

Lemma segment_layout s :
  segment_to_bytes s = to_le_bytes 2 (selector s) ++ to_le_bytes 8 (seg_base s) ++ to_le_bytes 4 (seg_limit s) ++
                       to_le_bytes 4 (access_rights s) ++ replicate 4 0.
Proof.
  unfold segment_to_bytes. change (replicate 22 0) with ([] ++ replicate 2 0 ++ replicate 20 0).
  rewrite splice_mid by (done || by rewrite blen_le). cbn [app].
  change (replicate 20 0) with (replicate 8 0 ++ replicate 12 0). rewrite splice_mid by by rewrite blen_le.
  change (replicate 12 0) with (replicate 4 0 ++ replicate 8 0). rewrite app_assoc.
  rewrite splice_mid by by rewrite ?blen_app, !blen_le.
  change (replicate 8 0) with (replicate 4 0 ++ replicate 4 0). rewrite <- !app_assoc, app_assoc, app_assoc.
  rewrite splice_mid by by rewrite ?blen_app, !blen_le. by rewrite <- !app_assoc.
Qed.

Lemma table_layout d : table_to_bytes d = to_le_bytes 8 (dt_base d) ++ to_le_bytes 2 (dt_limit d).
Proof.
  unfold table_to_bytes. change (replicate 10 0) with ([] ++ replicate 8 0 ++ replicate 2 0).
  rewrite splice_mid by (done || by rewrite blen_le). cbn [app].
  rewrite <- (app_nil_r (replicate 2 0)). rewrite splice_mid by by rewrite blen_le. by rewrite app_nil_r.
Qed.

Lemma blen_segment s : blen (segment_to_bytes s) = 22.
Proof. rewrite segment_layout, !blen_app, !blen_le by done. done. Qed.
Lemma blen_table d : blen (table_to_bytes d) = 10.
Proof. by rewrite table_layout, blen_app, !blen_le. Qed.

Lemma blen_concat {A} (f : A -> bytes) n l : (forall x, blen (f x) = n) -> blen (concat (f <$> l)) = n * Z.of_nat (length l).
Proof.
  intros Hf. induction l as [|x l IH]; [by rewrite Z.mul_0_r|]. rewrite fmap_cons. cbn [concat length].
  rewrite blen_app, IH, Hf. lia.
Qed.

Lemma blen_u64s l : blen (u64s l) = 8 * Z.of_nat (length l).
Proof. apply blen_concat. intros. by apply blen_le. Qed.

Definition table_ok (d : DescriptorTable) : Prop := fits 64 (dt_base d) /\ fits 16 (dt_limit d).

(** A segment register and a descriptor table are read back from their bytes, and
    from any longer buffer that starts with them. *)
Theorem registers_roundtrip s d post :
  segment_ok s -> table_ok d ->
  segment_from_bytes (segment_to_bytes s ++ post) = Ok (Some s) /\
  table_from_bytes (table_to_bytes d ++ post) = Ok (Some d).
Proof.
  intros (H1 & H2 & H3 & H4) [H5 H6]. unfold segment_from_bytes, table_from_bytes. pose proof (blen_pos post).
  rewrite !blen_app, blen_segment, blen_table, !(proj2 (Z.ltb_ge _ _)) by lia. rewrite segment_layout, table_layout. split.
  - set (a := to_le_bytes 2 _). set (b := to_le_bytes 8 _). set (c := to_le_bytes 4 (seg_limit s)). set (e := to_le_bytes 4 _).
    assert (blen a = 2 /\ blen b = 8 /\ blen c = 4 /\ blen e = 4) as (? & ? & ? & ?) by (split_and!; by apply blen_le).
    rewrite (le_at_mid _ [] (b ++ c ++ e ++ replicate 4 0 ++ post) 2 (selector s) 0) by (by rewrite <- ?app_assoc).
    cbn [mbind Res_bind]. rewrite (le_at_mid _ a (c ++ e ++ replicate 4 0 ++ post) 8 (seg_base s) 2) by (by rewrite <- ?app_assoc).
    cbn [mbind Res_bind]. rewrite (le_at_mid _ (a ++ b) (e ++ replicate 4 0 ++ post) 4 (seg_limit s) 10);
      [|by rewrite <- ?app_assoc|rewrite blen_app; lia|done|exact H3].
    cbn [mbind Res_bind]. rewrite (le_at_mid _ (a ++ b ++ c) (replicate 4 0 ++ post) 4 (access_rights s) 14);
      [|by rewrite <- ?app_assoc|rewrite !blen_app; lia|done|exact H4].
    by destruct s.
  - rewrite (le_at_mid _ [] (to_le_bytes 2 (dt_limit d) ++ post) 8 (dt_base d) 0) by (by rewrite <- ?app_assoc).
    cbn [mbind Res_bind]. rewrite (le_at_mid _ (to_le_bytes 8 (dt_base d)) post 2 (dt_limit d) 8) by (by rewrite <- ?app_assoc).
    by destruct d.
Qed.

(** The bytes of a processor are 44 more than [serialized_size] says: the two
    segment registers [ldt] and [tr] are written and not counted. *)
Theorem cpu_size c : blen (cpu_to_bytes c) = serialized_size c + 44.
Proof.
  unfold cpu_to_bytes, serialized_size. rewrite !blen_app, !blen_u64s, (blen_concat _ 22) by apply blen_segment. rewrite !blen_segment, !blen_table, blen_le by done. cbn [length]. lia.
Qed.

(** A memory region comes back as it was written exactly when its data is shorter
    than 4 GiB; the length of a longer one is cut to 32 bits and the rest is lost
    without an error. *)
Theorem region_roundtrip_iff r :
  region_ok r -> region_from_bytes (region_to_bytes r) = Ok r <-> blen (mr_data r) < 2 ^ 32.
Proof.
  intros Hr. rewrite region_from_to by done. rewrite <- region_kept_iff. split; [by intros [= ?]|by intros ->].
Qed.

(** ** Examples *)

#[local] Transparent str.

Definition example_region : MemoryRegionState := mkRegion 4096 8 7 [1; 2; 3; 255] true.
Definition example_device : DeviceState := mkDevice [195; 169; 116; 104; 48] (str "net") [9; 8; 7].
Definition example_items : list Item :=
  [ICpu 0 default_cpu; IMemory example_region; IDevice example_device; ISection Custom (str "clock") [42]].

Lemma example_region_ok : region_ok example_region.
Proof. split_and!; [done..|]. by apply bytes_forallb. Qed.

Lemma example_items_ok : Forall item_ok example_items.
Proof.
  repeat (apply Forall_cons; split); [by split|exact example_region_ok| | |apply Forall_nil_2].
  - split_and!; try done; by apply bytes_forallb.
  - split_and!; try done; by apply bytes_forallb.
Qed.

Lemma state_roundtrip_witness :
  exists d d', de_new (foldl write_item serializer_new example_items) = Ok d /\
    read_all d = (Ok (mkVm [default_cpu] [example_region] {[ dev_name example_device := example_device ]}
                       {[ str "clock" := [42] ]}), d').
Proof. exact (proj1 (state_roundtrip example_items example_items_ok ltac:(vm_compute; reflexivity))). Defined.

Lemma read_all_total_witness :
  match de_new (serializer_new ++ [1; 0; 0; 0; 9]) with
  | Ok d => forall p, (read_all d).1 = Panic p -> p = ArithOverflow
  | Err _ => True
  | Panic _ => False
  end.
Proof. apply (read_all_total (serializer_new ++ [1; 0; 0; 0; 9])); [by apply bytes_forallb|done]. Defined.

Lemma hostile_length_witness :
  (read_section (mkDe (serializer_new ++ header_to_bytes (mkHeader Custom [] (2 ^ 64 - 8) 0) ++ []) 8)).1 = Panic ArithOverflow.
Proof. exact (hostile_length serializer_new Custom (2 ^ 64 - 8) 0 [] ltac:(done) ltac:(done) ltac:(done) ltac:(done)). Defined.

Lemma corruption_detected_witness :
  (read_section (mkDe (serializer_new ++ header_to_bytes (mkHeader Custom (str "x") 3 (crc32 [1; 2; 3])) ++ [1; 7; 3] ++ [0]) 8)).1
  = Err ChecksumMismatch.
Proof.
  refine (proj2 (corruption_detected Custom (str "x") [1; 2; 3] [1; 7; 3] 5 8 serializer_new [0] _ _ _ _ _ _ _ _) _);
    try reflexivity; try (by apply bytes_forallb); [lia|simpl; lia].
Defined.

Lemma registers_roundtrip_witness :
  segment_from_bytes (segment_to_bytes (mkSegment 8 4096 65535 0x9B) ++ [1]) = Ok (Some (mkSegment 8 4096 65535 0x9B)) /\
  table_from_bytes (table_to_bytes (mkTable 4096 127) ++ [1]) = Ok (Some (mkTable 4096 127)).
Proof. apply (registers_roundtrip (mkSegment 8 4096 65535 0x9B) (mkTable 4096 127) [1]); by repeat split. Defined.

Lemma region_roundtrip_iff_witness : region_from_bytes (region_to_bytes example_region) = Ok example_region.
Proof. apply (region_roundtrip_iff example_region example_region_ok). done. Defined.
