(* ===== verification/Migration.v ===== *)
(** * Live migration ([hv2-core/src/migration/protocol.rs])

    The controller's stages, queue and statistics, the pre-copy iteration over the
    dirty tracker, and the message queues.  An [Instant] is a number of nanoseconds
    given to the methods that read the clock.  A method holds its locks to its end
    and is one step; the pre-copy iteration takes the tracker's lock twice, and is
    also given in the two steps between which a guest can run. *)

From S2P Require Import Prelude F64 DirtyTracking VmState.

Inductive MigrationStage :=
| Idle | Setup | PreCopy | StopAndCopy | PostCopy | Completed | Failed | Cancelled.

#[global] Instance MigrationStage_eq_dec : EqDecision MigrationStage.
Proof. solve_decision. Defined.

Inductive MigrationRole := Source | Destination.

Record MigrationConfig := mkConfig {
  max_precopy_iterations : Z;
  dirty_threshold : Z;
  max_downtime_ms : Z;
  bandwidth_limit : Z;
  compression_enabled : bool;
  rdma_enabled : bool;
  postcopy_enabled : bool;
  auto_converge : bool;
  multifd_channels : Z
}.

Definition default_config : MigrationConfig := mkConfig 30 256 300 0 false false false true 2.

Record MigrationStats := mkMStats {
  ms_total_bytes : Z;
  ms_total_pages : Z;
  duplicate_pages : Z;
  iteration_pages : Z;
  iteration : Z;
  transfer_rate : f64;
  ms_dirty_rate : f64;
  expected_downtime_ms : Z;
  actual_downtime_ms : Z;
  precopy_time_ms : Z;
  compression_ratio : f64
}.

Definition default_mstats : MigrationStats := mkMStats 0 0 0 0 0 f64_zero f64_zero 0 0 0 f64_zero.

Record PageData := mkPage { gpa : Z; data : bytes; is_zero : bool }.

Definition page_new (a : Z) (d : bytes) : PageData := mkPage a d (forallb (fun b => b =? 0) d).
Definition page_zero (a : Z) : PageData := mkPage a [] true.
Definition page_size (p : PageData) : Z := if is_zero p then 0 else blen (data p).

Inductive MigrationMessage :=
| MSetup (version : Z) (config : MigrationConfig)
| MSetupAck (accepted : bool) (error : option bytes)
| MPages (iteration : Z) (pages : list PageData)
| MCpuState (cpu_id : Z) (state : CpuState)
| MDeviceState (device : DeviceState)
| MIterationEnd (iteration dirty_pages : Z)
| MPauseRequest
| MPauseAck
| MComplete
| MFailed (error : bytes)
| MCancel
| MPageFault (gpa : Z)
| MPageResponse (page : PageData).

(** ** The controller *)

Record MigrationController := mkController {
  stage : MigrationStage;
  role : MigrationRole;
  config : MigrationConfig;
  mstats : MigrationStats;
  cancelled : bool;
  start_time : option Z;
  precopy_start : option Z;
  pending_pages : list PageData;
  bytes_transferred : Z;
  pages_transferred : Z
}.

Definition controller_new (r : MigrationRole) (cfg : MigrationConfig) : MigrationController :=
  mkController Idle r cfg default_mstats false None None [] 0 0.

Definition set_stage (s : MigrationStage) (c : MigrationController) : MigrationController :=
  mkController s (role c) (config c) (mstats c) (cancelled c) (start_time c) (precopy_start c)
    (pending_pages c) (bytes_transferred c) (pages_transferred c).
Definition set_mstats (s : MigrationStats) (c : MigrationController) : MigrationController :=
  mkController (stage c) (role c) (config c) s (cancelled c) (start_time c) (precopy_start c)
    (pending_pages c) (bytes_transferred c) (pages_transferred c).
Definition set_cancelled (c : MigrationController) : MigrationController :=
  mkController (stage c) (role c) (config c) (mstats c) true (start_time c) (precopy_start c)
    (pending_pages c) (bytes_transferred c) (pages_transferred c).
Definition set_start_time (t : option Z) (c : MigrationController) : MigrationController :=
  mkController (stage c) (role c) (config c) (mstats c) (cancelled c) t (precopy_start c)
    (pending_pages c) (bytes_transferred c) (pages_transferred c).
Definition set_precopy_start (t : option Z) (c : MigrationController) : MigrationController :=
  mkController (stage c) (role c) (config c) (mstats c) (cancelled c) (start_time c) t
    (pending_pages c) (bytes_transferred c) (pages_transferred c).
Definition set_pending (l : list PageData) (c : MigrationController) : MigrationController :=
  mkController (stage c) (role c) (config c) (mstats c) (cancelled c) (start_time c) (precopy_start c)
    l (bytes_transferred c) (pages_transferred c).
Definition set_transferred (b p : Z) (c : MigrationController) : MigrationController :=
  mkController (stage c) (role c) (config c) (mstats c) (cancelled c) (start_time c) (precopy_start c)
    (pending_pages c) b p.

Definition start (now : Z) : ST MigrationController SerializeError unit :=
  s ← st_gets stage;
  if negb (bool_decide (s = Idle)) then st_lift (Err (InvalidFormat "Migration already in progress" []))
  else _ ← st_modify (set_stage Setup); st_modify (set_start_time (Some now)).

Definition begin_precopy (now : Z) : ST MigrationController SerializeError unit :=
  s ← st_gets stage;
  if negb (bool_decide (s = Setup)) then st_lift (Err (InvalidFormat "Invalid stage for precopy" []))
  else _ ← st_modify (set_stage PreCopy); st_modify (set_precopy_start (Some now)).

(** [start.elapsed().as_millis() as u64]. *)
Definition elapsed_ms (now since : Z) : Z := trunc 64 (saturating_sub now since / 1000000).

Definition set_precopy_time (ms : Z) (c : MigrationController) : MigrationController :=
  let s := mstats c in
  set_mstats (mkMStats (ms_total_bytes s) (ms_total_pages s) (duplicate_pages s) (iteration_pages s) (iteration s)
    (transfer_rate s) (ms_dirty_rate s) (expected_downtime_ms s) (actual_downtime_ms s) ms (compression_ratio s)) c.

Definition begin_stop_and_copy (now : Z) : ST MigrationController SerializeError unit :=
  s ← st_gets stage;
  if negb (bool_decide (s = PreCopy)) then st_lift (Err (InvalidFormat "Invalid stage for stop-and-copy" []))
  else
    _ ← st_modify (set_stage StopAndCopy);
    p ← st_gets precopy_start;
    match p with
    | Some since => st_modify (set_precopy_time (elapsed_ms now since))
    | None => mret tt
    end.

Definition complete : ST MigrationController SerializeError unit :=
  s ← st_gets stage;
  if negb (bool_decide (s = StopAndCopy)) && negb (bool_decide (s = PostCopy))
  then st_lift (Err (InvalidFormat "Invalid stage for completion" []))
  else st_modify (set_stage Completed).

Definition fail (c : MigrationController) : MigrationController := set_stage Failed c.
Definition cancel (c : MigrationController) : MigrationController := set_stage Cancelled (set_cancelled c).

(** [push_back] of every page; [pop_front] at most [max_pages] times. *)
Definition queue_pages (pages : list PageData) (c : MigrationController) : MigrationController :=
  set_pending (foldl (fun q p => q ++ [p]) (pending_pages c) pages) c.

Fixpoint pop_batch (n : nat) (q batch : list PageData) : list PageData * list PageData :=
  match n with
  | O => (batch, q)
  | S n' =>
      match q with
      | p :: q' => pop_batch n' q' (batch ++ [p])
      | [] => (batch, [])
      end
  end.

(** [max_pages] is a number of pages a vector can be given room for. *)
Definition get_pages_batch (max_pages : nat) (c : MigrationController) : list PageData * MigrationController :=
  let '(batch, q) := pop_batch max_pages (pending_pages c) [] in (batch, set_pending q c).

(** The counters wrap, the statistics do not. *)
Definition record_transfer (nbytes pages : Z) : ST MigrationController SerializeError unit :=
  _ ← st_modify (fun c => set_transferred (wrapping_add 64 (bytes_transferred c) nbytes)
                            (wrapping_add 64 (pages_transferred c) pages) c);
  s ← st_gets mstats;
  tb ← st_lift (add 64 (ms_total_bytes s) nbytes);
  tp ← st_lift (add 64 (ms_total_pages s) pages);
  ip ← st_lift (add 64 (iteration_pages s) pages);
  st_modify (set_mstats (mkMStats tb tp (duplicate_pages s) ip (iteration s) (transfer_rate s) (ms_dirty_rate s)
    (expected_downtime_ms s) (actual_downtime_ms s) (precopy_time_ms s) (compression_ratio s))).

Definition start_iteration : ST MigrationController SerializeError unit :=
  s ← st_gets mstats;
  n ← st_lift (add 32 (iteration s) 1);
  st_modify (set_mstats (mkMStats (ms_total_bytes s) (ms_total_pages s) (duplicate_pages s) 0 n (transfer_rate s)
    (ms_dirty_rate s) (expected_downtime_ms s) (actual_downtime_ms s) (precopy_time_ms s) (compression_ratio s))).

Definition should_stop_and_copy (c : MigrationController) (dirty_pages : Z) (dirty_rate : f64) : bool :=
  let s := mstats c in
  if dirty_pages <=? dirty_threshold (config c) then true
  else if max_precopy_iterations (config c) <=? iteration s then true
  else
    let expected :=
      if f64_lt f64_zero (transfer_rate s)
      then f64_to_u64 (f64_mul (f64_div (f64_mul (f64_of dirty_pages) (f64_of PAGE_SIZE)) (transfer_rate s)) (f64_of 1000))
      else 2 ^ 64 - 1 in
    (expected <=? max_downtime_ms (config c)) && f64_lt dirty_rate (f64_div (transfer_rate s) (f64_of PAGE_SIZE)).

Definition update_transfer_rate (elapsed_secs : f64) (c : MigrationController) : MigrationController :=
  let rate := f64_div (f64_of (bytes_transferred c)) elapsed_secs in
  let s := mstats c in
  set_mstats (mkMStats (ms_total_bytes s) (ms_total_pages s) (duplicate_pages s) (iteration_pages s) (iteration s)
    rate (ms_dirty_rate s) (expected_downtime_ms s) (actual_downtime_ms s) (precopy_time_ms s) (compression_ratio s))
    (set_transferred 0 (pages_transferred c) c).

Definition update_dirty_rate (dirty_rate : f64) (c : MigrationController) : MigrationController :=
  let s := mstats c in
  let expected :=
    if f64_lt f64_zero (transfer_rate s) then
      let pages_per_sec := f64_div (transfer_rate s) (f64_of PAGE_SIZE) in
      if f64_lt f64_zero (f64_sub pages_per_sec dirty_rate)
      then f64_to_u64 (f64_mul (f64_div (f64_mul dirty_rate (f64_of PAGE_SIZE)) (transfer_rate s)) (f64_of 1000))
      else expected_downtime_ms s
    else expected_downtime_ms s in
  set_mstats (mkMStats (ms_total_bytes s) (ms_total_pages s) (duplicate_pages s) (iteration_pages s) (iteration s)
    (transfer_rate s) dirty_rate expected (actual_downtime_ms s) (precopy_time_ms s) (compression_ratio s)) c.

Definition pending_page_count (c : MigrationController) : nat := length (pending_pages c).

(** ** Pre-copy *)

(** The tracker's methods return no error. *)
Definition infallible {A} (r : Result A) : SerializeResult A :=
  match r with Ok a => Ok a | Err _ => Panic ExpectFailed | Panic p => Panic p end.

(** The reader of memory: an address and a size. *)
Abbreviation Reader := (Z -> Z -> bytes).

Record PreCopyMigration := mkPreCopy {
  controller : MigrationController;
  dirty_tracker : DirtyTracker;
  memory_reader : option Reader
}.

Definition precopy_new (c : MigrationController) (t : DirtyTracker) : PreCopyMigration := mkPreCopy c t None.
Definition set_memory_reader (reader : Reader) (m : PreCopyMigration) : PreCopyMigration :=
  mkPreCopy (controller m) (dirty_tracker m) (Some reader).

Definition set_controller (c : MigrationController) (m : PreCopyMigration) : PreCopyMigration :=
  mkPreCopy c (dirty_tracker m) (memory_reader m).
Definition set_tracker (t : DirtyTracker) (m : PreCopyMigration) : PreCopyMigration :=
  mkPreCopy (controller m) t (memory_reader m).

Definition on_controller {A} (f : ST MigrationController SerializeError A) : ST PreCopyMigration SerializeError A :=
  fun m => let '(r, c) := f (controller m) in (r, set_controller c m).
Definition on_tracker {A} (f : ST DirtyTracker Error A) : ST PreCopyMigration SerializeError A :=
  fun m => let '(r, t) := f (dirty_tracker m) in (infallible r, set_tracker t m).

(** [run_iteration] up to the end of its loop over the pages. *)
Definition gather : ST PreCopyMigration SerializeError (list PageData * Z) :=
  st_gets (fun m => cancelled (controller m)) ≫= fun c : bool =>
  if c then st_lift (Err (InvalidFormat "Migration cancelled" []))
  else
    _ ← on_controller start_iteration;
    dirty ← st_read (fun m => infallible (dirty_pages (dirty_tracker m)));
    let dirty_count := Z.of_nat (length dirty) in
    reader ← st_gets memory_reader;
    mret (match reader with
          | Some read => (fun a => page_new a (read a PAGE_SIZE)) <$> dirty
          | None => []
          end, dirty_count).

(** The whole of it: the bits are cleared after the pages are read. *)
Definition run_iteration : ST PreCopyMigration SerializeError (list PageData * Z) :=
  r ← gather; _ ← on_tracker clear_all; mret r.

Definition is_converging (m : PreCopyMigration) : bool :=
  let s := mstats (controller m) in
  f64_lt f64_zero (transfer_rate s) && f64_lt (ms_dirty_rate s) (f64_div (transfer_rate s) (f64_of PAGE_SIZE)).

(** ** The stream *)

Record MigrationStream := mkStream { outgoing : list MigrationMessage; incoming : list MigrationMessage }.

Definition stream_new : MigrationStream := mkStream [] [].
Definition pop_front {A} (q : list A) : option A * list A :=
  match q with x :: q' => (Some x, q') | [] => (None, []) end.

Definition send (m : MigrationMessage) (s : MigrationStream) : MigrationStream := mkStream (outgoing s ++ [m]) (incoming s).
Definition receive (s : MigrationStream) : option MigrationMessage * MigrationStream :=
  let '(o, q) := pop_front (incoming s) in (o, mkStream (outgoing s) q).
Definition push_incoming (m : MigrationMessage) (s : MigrationStream) : MigrationStream :=
  mkStream (outgoing s) (incoming s ++ [m]).
Definition pop_outgoing (s : MigrationStream) : option MigrationMessage * MigrationStream :=
  let '(o, q) := pop_front (outgoing s) in (o, mkStream q (incoming s)).
Definition has_outgoing (s : MigrationStream) : bool := negb (match outgoing s with [] => true | _ => false end).
Definition has_incoming (s : MigrationStream) : bool := negb (match incoming s with [] => true | _ => false end).

(** ** The stages *)

(** A call of one of the controller's methods that change it. *)
Inductive Op :=
| OStart (now : Z) | OPrecopy (now : Z) | OStopAndCopy (now : Z) | OComplete | OFail | OCancel
| OQueue (pages : list PageData) | OBatch (max_pages : nat) | ORecord (nbytes pages : Z) | OIteration
| OTransferRate (elapsed_secs : f64) | ODirtyRate (dirty_rate : f64).

Definition apply_op (o : Op) : ST MigrationController SerializeError unit :=
  match o with
  | OStart now => start now
  | OPrecopy now => begin_precopy now
  | OStopAndCopy now => begin_stop_and_copy now
  | OComplete => complete
  | OFail => st_modify fail
  | OCancel => st_modify cancel
  | OQueue pages => st_modify (queue_pages pages)
  | OBatch n => st_modify (fun c => (get_pages_batch n c).2)
  | ORecord b p => record_transfer b p
  | OIteration => start_iteration
  | OTransferRate x => st_modify (update_transfer_rate x)
  | ODirtyRate x => st_modify (update_dirty_rate x)
  end.

(** A call that returns, with a value or an error. *)
Definition ctl_step (c c' : MigrationController) : Prop :=
  exists o r, apply_op o c = (r, c') /\ is_panic r = false.

(** The moves between stages, and that a call can leave the stage alone. *)
Definition stage_edge (s s' : MigrationStage) : Prop :=
  match s, s' with
  | Idle, Setup | Setup, PreCopy | PreCopy, StopAndCopy | StopAndCopy, Completed | PostCopy, Completed => True
  | _, Failed | _, Cancelled => True
  | _, _ => s = s'
  end.

(** What each method does to the fields the stages depend on. *)
Definition ctl_frame (c c' : MigrationController) : Prop :=
  stage c' = stage c /\ cancelled c' = cancelled c /\ start_time c' = start_time c /\ precopy_start c' = precopy_start c.

Lemma ctl_frame_refl c : ctl_frame c c.
Proof. done. Qed.

Lemma queue_frame pages c : ctl_frame c (queue_pages pages c).
Proof. done. Qed.
Lemma batch_frame n c : ctl_frame c (get_pages_batch n c).2.
Proof. unfold get_pages_batch. by destruct (pop_batch _ _ _). Qed.

Lemma record_frame b p c : ctl_frame c (record_transfer b p c).2.
Proof.
  unfold record_transfer. rewrite st_bind_modify, st_bind_gets, st_bind_lift. unfold add.
  repeat (split_if; try done; rewrite ?st_bind_lift).
Qed.

Lemma iteration_frame c : ctl_frame c (start_iteration c).2.
Proof. unfold start_iteration. rewrite st_bind_gets, st_bind_lift. unfold add. by split_if. Qed.

(** The cases of a step: one of the moves, or a call that is refused or does not
    concern the stages. *)
Lemma ctl_step_cases c c' :
  ctl_step c c' ->
  ctl_frame c c' \/
  (stage c = Idle /\ exists t, c' = set_start_time (Some t) (set_stage Setup c)) \/
  (stage c = Setup /\ exists t, c' = set_precopy_start (Some t) (set_stage PreCopy c)) \/
  (stage c = PreCopy /\ stage c' = StopAndCopy /\ cancelled c' = cancelled c /\ start_time c' = start_time c /\
     precopy_start c' = precopy_start c) \/
  ((stage c = StopAndCopy \/ stage c = PostCopy) /\ c' = set_stage Completed c) \/
  c' = fail c \/ c' = cancel c.
Proof.
  intros (o & r & Ho & _). destruct o as [now|now|now| | | |pages|n|b p| |x|x]; cbn [apply_op] in Ho.
  - unfold start in Ho. rewrite st_bind_gets in Ho. case_bool_decide; cbn [negb] in Ho.
    + rewrite st_bind_modify in Ho. injection Ho as <- <-. right. left. by eauto.
    + injection Ho as <- <-. by left.
  - unfold begin_precopy in Ho. rewrite st_bind_gets in Ho. case_bool_decide; cbn [negb] in Ho.
    + rewrite st_bind_modify in Ho. injection Ho as <- <-. right. right. left. by eauto.
    + injection Ho as <- <-. by left.
  - unfold begin_stop_and_copy in Ho. rewrite st_bind_gets in Ho. case_bool_decide; cbn [negb] in Ho.
    + rewrite st_bind_modify, st_bind_gets in Ho. cbn [set_stage precopy_start] in Ho.
      right. right. right. left. destruct (precopy_start c) eqn:E; injection Ho as <- <-; cbn; by rewrite ?E.
    + injection Ho as <- <-. by left.
  - unfold complete in Ho. rewrite st_bind_gets in Ho. do 2 case_bool_decide; cbn [negb andb] in Ho; injection Ho as <- <-;
      (by left) || (do 4 right; left; by eauto).
  - injection Ho as <- <-. do 5 right. by left.
  - injection Ho as <- <-. do 5 right. by right.
  - injection Ho as <- <-. left. apply queue_frame.
  - injection Ho as <- <-. left. apply batch_frame.
  - left. pose proof (record_frame b p c) as Hf. by rewrite Ho in Hf.
  - left. pose proof (iteration_frame c) as Hf. by rewrite Ho in Hf.
  - injection Ho as <- <-. by left.
  - injection Ho as <- <-. by left.
Qed.

Lemma stage_edge_refl s : stage_edge s s.
Proof. by destruct s. Qed.

Lemma ctl_step_edge c c' : ctl_step c c' -> stage_edge (stage c) (stage c').
Proof.
  intros [(-> & _)|[(-> & t & ->)|[(-> & t & ->)|[(-> & -> & _)|[([->| ->] & ->)|[-> | ->]]]]]]%ctl_step_cases; try done.
  - apply stage_edge_refl.
  - cbn. by destruct (stage c).
  - cbn. by destruct (stage c).
Qed.

(** The stages after [start], after [begin_precopy], and those a cancelled migration
    can be in. *)
Definition precopied (s : MigrationStage) : bool :=
  match s with PreCopy | StopAndCopy | Completed => true | _ => false end.
Definition started (s : MigrationStage) : bool :=
  match s with Setup => true | _ => precopied s end.
Definition ended (s : MigrationStage) : bool :=
  match s with Cancelled | Failed => true | _ => false end.

(** What holds of every controller a run reaches. *)
Record ctl_inv (c : MigrationController) : Prop := {
  ci_postcopy : stage c <> PostCopy;
  ci_started : started (stage c) = true -> start_time c <> None;
  ci_precopied : precopied (stage c) = true -> precopy_start c <> None;
  ci_flag : stage c = Cancelled -> cancelled c = true;
  ci_cancelled : cancelled c = true -> ended (stage c) = true
}.

Lemma ctl_inv_step c c' : ctl_inv c -> ctl_step c c' -> ctl_inv c'.
Proof.
  intros [H1 H2 H3 H4 H5] [(E1 & E2 & E3 & E4)|[(E & t & ->)|[(E & t & ->)|[(E & E1 & E2 & E3 & E4)|[([E|E] & ->)|[-> | ->]]]]]]%ctl_step_cases.
  - split; rewrite ?E1, ?E2, ?E3, ?E4; done.
  - rewrite E in *. split; cbn; done || (intros Hc; by specialize (H5 Hc)).
  - rewrite E in *. split; cbn; done || (intros Hc; by specialize (H5 Hc)) || (intros _; by apply H2).
  - rewrite E in *. split; rewrite ?E1, ?E2, ?E3, ?E4; try done; intros Hc; by (apply H5 in Hc || apply H2 || apply H3).
  - rewrite E in *. split; cbn; try done; intros Hc; by (apply H5 in Hc || apply H2 || apply H3).
  - done.
  - by split.
  - by split.
Qed.

Lemma ctl_inv_new r cfg : ctl_inv (controller_new r cfg).
Proof. by split. Qed.

Lemma ctl_inv_steps c c' : ctl_inv c -> rtc ctl_step c c' -> ctl_inv c'.
Proof. intros Hc Hs. induction Hs as [|c c1 c' H1 _ IH]; [done|]. by apply IH, (ctl_inv_step c). Qed.

Lemma cancelled_step c c' : ctl_step c c' -> cancelled c = true -> cancelled c' = true.
Proof.
  intros [(_ & E & _)|[(_ & t & ->)|[(_ & t & ->)|[(_ & _ & E & _)|[(_ & ->)|[-> | ->]]]]]]%ctl_step_cases; by rewrite ?E.
Qed.

(** In every run a stage is entered only from the one before it: a migration that
    is in pre-copy or beyond was started, one in stop-and-copy or completed went
    through pre-copy, and the post-copy stage, which the code names, is never
    entered.  Failure and cancellation are reached from anywhere, and the flag is
    up in every cancelled migration. *)
Theorem stages_ordered r cfg c c' :
  rtc ctl_step (controller_new r cfg) c -> ctl_step c c' -> ctl_inv c' /\ stage_edge (stage c) (stage c').
Proof.
  intros Hs Hc. split; [|by apply ctl_step_edge]. eapply ctl_inv_step; [|done].
  by eapply ctl_inv_steps; [apply ctl_inv_new|].
Qed.

(** Cancelling is final: whatever is called afterwards, the migration is cancelled
    or failed, no move to another stage is accepted and no iteration runs. *)
Theorem cancel_final r cfg c c' reader t now :
  rtc ctl_step (controller_new r cfg) c -> rtc ctl_step (cancel c) c' ->
  ended (stage c') = true /\ is_ok (start now c').1 = false /\ is_ok (begin_precopy now c').1 = false /\
  is_ok (begin_stop_and_copy now c').1 = false /\ is_ok (complete c').1 = false /\
  run_iteration (mkPreCopy c' t reader) = (Err (InvalidFormat "Migration cancelled" []), mkPreCopy c' t reader).
Proof.
  intros H1 H2. assert (ctl_inv (cancel c)) as Hi by (apply (ctl_inv_step c); [by eapply ctl_inv_steps; [apply ctl_inv_new|]|by exists OCancel, (Ok tt)]).
  assert (cancelled c' = true) as Hc.
  { clear Hi H1. assert (cancelled (cancel c) = true) as Hc by done. revert Hc.
    induction H2 as [|a b d Hab _ IH]; [done|]. intros Hc. by apply IH, (cancelled_step a). }
  pose proof (ci_cancelled c' (ctl_inv_steps _ _ Hi H2) Hc) as He.
  unfold start, begin_precopy, begin_stop_and_copy, complete, run_iteration, gather.
  rewrite (st_bind_eq (st_gets _ ≫= _)). rewrite !st_bind_gets. cbn [controller]. rewrite Hc.
  by destruct (stage c').
Qed.

(** ** The queue of pages *)

Lemma pop_batch_eq n q batch : pop_batch n q batch = (batch ++ take n q, drop n q).
Proof.
  revert q batch. induction n as [|n IH]; intros q batch; cbn [pop_batch]; [by rewrite app_nil_r|].
  destruct q as [|p q]; simpl; [by rewrite app_nil_r|]. by rewrite IH, <- app_assoc.
Qed.

Lemma push_all_eq (q pages : list PageData) : foldl (fun q p => q ++ [p]) q pages = q ++ pages.
Proof.
  revert q. induction pages as [|p pages IH]; intros q; simpl; [by rewrite app_nil_r|]. by rewrite IH, <- app_assoc.
Qed.

(** Calls on the queue, with what they take out. *)
Fixpoint queue_run (calls : list (list PageData + nat)) (c : MigrationController) : list PageData * MigrationController :=
  match calls with
  | [] => ([], c)
  | inl pages :: calls' => queue_run calls' (queue_pages pages c)
  | inr n :: calls' =>
      let '(batch, c1) := get_pages_batch n c in
      let '(out, c2) := queue_run calls' c1 in (batch ++ out, c2)
  end.

Definition queued (calls : list (list PageData + nat)) : list PageData :=
  concat ((fun x => match x with inl pages => pages | inr _ => [] end) <$> calls).

Lemma batch_eq n c : get_pages_batch n c = (take n (pending_pages c), set_pending (drop n (pending_pages c)) c).
Proof. unfold get_pages_batch. by rewrite pop_batch_eq. Qed.

(** However queueing and taking batches alternate, the pages leave in the order they
    came, each once, and none is lost; a batch has at most the size asked for and is
    shorter only when the queue is empty after it. *)
Theorem queue_fifo calls c :
  let '(out, c') := queue_run calls c in
  out ++ pending_pages c' = pending_pages c ++ queued calls /\
  forall n, let '(batch, c2) := get_pages_batch n c' in
    (length batch <= n)%nat /\ ((length batch < n)%nat -> pending_page_count c2 = 0%nat).
Proof.
  destruct (queue_run calls c) as [out c'] eqn:E. split.
  - revert c out c' E. induction calls as [|[pages|n] calls IH]; intros c out c' E; cbn [queue_run] in E.
    + injection E as <- <-. by rewrite app_nil_r.
    + rewrite (IH _ _ _ E). unfold queued. rewrite fmap_cons. cbn [queue_pages set_pending pending_pages concat].
      by rewrite push_all_eq, <- app_assoc.
    + rewrite batch_eq in E. destruct (queue_run calls _) as [out' c2] eqn:E2. injection E as <- <-.
      rewrite <- app_assoc, (IH _ _ _ E2). cbn [set_pending pending_pages]. by rewrite app_assoc, take_drop.
  - intros n. rewrite batch_eq. unfold pending_page_count. cbn [set_pending pending_pages]. rewrite length_take, length_drop. lia.
Qed.

(** ** Pre-copy: one iteration *)

Definition page_of (read : Reader) (a : Z) : PageData := page_new a (read a PAGE_SIZE).

(** Room in the counters an iteration raises. *)
Definition counters_ok (m : PreCopyMigration) (n : Z) : Prop :=
  0 <= iteration (mstats (controller m)) /\ iteration (mstats (controller m)) + n < 2 ^ 32 /\
  0 <= clear_count (stats (dirty_tracker m)) /\ clear_count (stats (dirty_tracker m)) + n < 2 ^ 64.

Lemma gather_ok m :
  cancelled (controller m) = false -> tracker_wf (dirty_tracker m) -> counters_ok m 1 ->
  exists m', gather m =
    (Ok (match memory_reader m with Some read => page_of read <$> tracker_dirty (dirty_tracker m) | None => [] end,
         Z.of_nat (length (tracker_dirty (dirty_tracker m)))), m') /\
    dirty_tracker m' = dirty_tracker m /\ config (controller m') = config (controller m) /\
    cancelled (controller m') = false /\ iteration_pages (mstats (controller m')) = 0 /\
    iteration (mstats (controller m')) = iteration (mstats (controller m)) + 1.
Proof.
  intros Hc Ht (H1 & H2 & _). unfold gather. rewrite st_bind_gets, Hc.
  rewrite st_bind_eq. unfold on_controller, start_iteration. rewrite st_bind_gets, st_bind_lift, add_ok by lia.
  cbn [st_modify]. rewrite st_bind_read. cbn [set_controller dirty_tracker]. rewrite dirty_pages_ok by done.
  cbn [infallible]. eexists. split; [reflexivity|]. by split_and!.
Qed.

Lemma run_iteration_ok m :
  cancelled (controller m) = false -> tracker_wf (dirty_tracker m) -> counters_ok m 1 ->
  exists m', run_iteration m =
    (Ok (match memory_reader m with Some read => page_of read <$> tracker_dirty (dirty_tracker m) | None => [] end,
         Z.of_nat (length (tracker_dirty (dirty_tracker m)))), m') /\
    tracker_wf (dirty_tracker m') /\ tracker_dirty (dirty_tracker m') = [] /\
    enabled (dirty_tracker m') = enabled (dirty_tracker m) /\
    regions (dirty_tracker m') = bm_clear_all <$> regions (dirty_tracker m) /\
    clear_count (stats (dirty_tracker m')) = clear_count (stats (dirty_tracker m)) + 1 /\
    config (controller m') = config (controller m) /\ cancelled (controller m') = false /\
    iteration (mstats (controller m')) = iteration (mstats (controller m)) + 1.
Proof.
  intros Hc Ht Hn. destruct (gather_ok m Hc Ht Hn) as (m1 & Hg & Et & Ec & Hc1 & _ & Hi).
  unfold run_iteration. rewrite st_bind_eq, Hg. rewrite st_bind_eq. unfold on_tracker. rewrite Et.
  destruct Hn as (_ & _ & H3 & H4). destruct (clear_all_ok (dirty_tracker m) Ht H4 H3) as (t' & -> & Hw & Hd & Hr & He & Hcc).
  eexists. split; [reflexivity|]. by split_and!.
Qed.

(** ** Pre-copy against a running guest *)

Definition load (mem : Z -> Z) (a n : Z) : bytes := mem <$> seqZ a n.
Definition store (mem : Z -> Z) (a : Z) (bs : bytes) : Z -> Z := fun x =>
  if a <=? x then default (mem x) (bs !! Z.to_nat (x - a)) else mem x.
Definition install (mem : Z -> Z) (pages : list PageData) : Z -> Z :=
  foldl (fun mem p => store mem (gpa p) (data p)) mem pages.

(** The source machine's memory, the destination's, and the migration between
    them. *)
Record Sys := mkSys { mig : PreCopyMigration; src : Z -> Z; dst : Z -> Z }.

(** A guest write, which the tracker is told of, and an iteration whose pages the
    destination installs. *)
Inductive Event := Write (a : Z) (bs : bytes) | Iterate.

Definition guest_write (a : Z) (bs : bytes) (s : Sys) : Sys :=
  mkSys (set_tracker (mark_range_dirty a (blen bs) (dirty_tracker (mig s))) (mig s)) (store (src s) a bs) (dst s).

(** The reader is a closure over the guest's memory: it sees the memory as it is. *)
Definition with_memory (mem : Z -> Z) (m : PreCopyMigration) : PreCopyMigration := set_memory_reader (load mem) m.

Definition sys_step (s : Sys) (e : Event) : SerializeResult Sys :=
  match e with
  | Write a bs => Ok (guest_write a bs s)
  | Iterate =>
      match run_iteration (with_memory (src s) (mig s)) with
      | (Ok (pages, _), m') => Ok (mkSys m' (src s) (install (dst s) pages))
      | (Err e, _) => Err e
      | (Panic p, _) => Panic p
      end
  end.

Fixpoint sys_run (s : Sys) (es : list Event) : SerializeResult Sys :=
  match es with
  | [] => Ok s
  | e :: es' => s' ← sys_step s e; sys_run s' es'
  end.

Definition event_ok (e : Event) : Prop :=
  match e with Write a bs => 0 <= a /\ bs <> [] | Iterate => True end.

Definition in_page (b : DirtyBitmap) (p x : Z) : Prop := gpa_of b p <= x < gpa_of b p + PAGE_SIZE.

(** A page is dirty or the destination has it. *)
Definition page_synced (s : Sys) (b : DirtyBitmap) (p : Z) : Prop :=
  page_dirty b p = true \/ forall x, in_page b p x -> dst s x = src s x.

Record sys_inv (s : Sys) : Prop := {
  sv_wf : tracker_wf (dirty_tracker (mig s));
  sv_enabled : enabled (dirty_tracker (mig s)) = true;
  sv_cancelled : cancelled (controller (mig s)) = false;
  sv_synced : forall b p, b ∈ regions (dirty_tracker (mig s)) -> 0 <= p < num_pages b -> page_synced s b p
}.

Lemma load_at mem a n x : a <= x < a + n -> load mem a n !! Z.to_nat (x - a) = Some (mem x).
Proof.
  intros Hx. unfold load. rewrite list_lookup_fmap, lookup_seqZ_lt by lia. cbn. do 2 f_equal. lia.
Qed.

Lemma store_load src mem a x :
  store mem a (load src a PAGE_SIZE) x = if (a <=? x) && (x <? a + PAGE_SIZE) then src x else mem x.
Proof.
  unfold store. destruct (Z.leb_spec a x); [|done]. cbn [andb]. destruct (Z.ltb_spec x (a + PAGE_SIZE)).
  - by rewrite load_at by lia.
  - rewrite (proj2 (lookup_ge_None _ _)); [done|]. unfold load, PAGE_SIZE in *. rewrite length_fmap, length_seqZ. lia.
Qed.

(** Installing pages read from one memory. *)
Lemma install_pages src mem l x :
  install mem (page_of (load src) <$> l) x =
  if existsb (fun a => (a <=? x) && (x <? a + PAGE_SIZE)) l then src x else mem x.
Proof.
  unfold install. revert mem. induction l as [|a l IH]; intros mem; [done|]. rewrite fmap_cons. cbn [foldl existsb].
  rewrite IH. cbn [page_of page_new gpa data]. rewrite store_load. by destruct (_ && _), (existsb _ l).
Qed.

(** A page the write does not meet keeps its bytes. *)
Lemma store_untouched mem b a bs p x :
  in_page b p x -> touches b a (blen bs) p = false -> store mem a bs x = mem x.
Proof.
  unfold in_page, touches, store. intros Hx [H%Z.ltb_ge|H%Z.ltb_ge]%andb_false_iff; destruct (Z.leb_spec a x); try done; [|lia].
  rewrite (proj2 (lookup_ge_None _ _)); [done|]. unfold blen in H. lia.
Qed.

Lemma sys_inv_write a bs s : sys_inv s -> 0 <= a -> bs <> [] -> sys_inv (guest_write a bs s).
Proof.
  intros [Hw He Hc Hs] Ha Hb. assert (0 < blen bs) as Hl by (destruct bs; [done|]; rewrite blen_cons; pose proof (blen_pos bs); lia).
  split; cbn [guest_write mig set_tracker dirty_tracker controller].
  - by apply mark_range_regions.
  - unfold mark_range_dirty. by rewrite He.
  - done.
  - unfold mark_range_dirty. rewrite He. cbn [negb set_regions regions]. intros b' p (b & -> & Hin)%list_elem_of_fmap Hp.
    change (num_pages (bm_mark_range_dirty a (blen bs) b)) with (num_pages b) in Hp.
    pose proof (proj1 (Forall_forall _ _) Hw b Hin) as Hwf.
    unfold page_synced. rewrite mark_range_pages by done. destruct (Hs b p Hin Hp) as [->|Hd]; [by left|].
    destruct (touches b a (blen bs) p) eqn:Et; [left; apply orb_true_r|]. right. intros x Hx.
    cbn [guest_write dst src]. rewrite (store_untouched _ b a bs p x) by done. by apply Hd.
Qed.

(** An iteration leaves every tracked page equal on both sides. *)
Lemma sys_inv_iterate s :
  sys_inv s -> counters_ok (mig s) 1 ->
  exists s', sys_step s Iterate = Ok s' /\ sys_inv s' /\ src s' = src s /\
    (forall b p x, b ∈ regions (dirty_tracker (mig s)) -> 0 <= p < num_pages b -> in_page b p x -> dst s' x = src s' x) /\
    regions (dirty_tracker (mig s')) = bm_clear_all <$> regions (dirty_tracker (mig s)) /\
    iteration (mstats (controller (mig s'))) = iteration (mstats (controller (mig s))) + 1 /\
    clear_count (stats (dirty_tracker (mig s'))) = clear_count (stats (dirty_tracker (mig s))) + 1 /\
    config (controller (mig s')) = config (controller (mig s)).
Proof.
  intros [Hw He Hc Hs] Hn. destruct (run_iteration_ok (with_memory (src s) (mig s)) Hc Hw Hn)
    as (m' & Hr & Hw' & _ & He' & Hreg & Hcc & Hcfg & Hc' & Hit).
  cbn [sys_step]. rewrite Hr. eexists. split; [reflexivity|]. cbn [mig src dst].
  assert (forall b p x, b ∈ regions (dirty_tracker (mig s)) -> 0 <= p < num_pages b -> in_page b p x ->
    install (dst s) (page_of (load (src s)) <$> tracker_dirty (dirty_tracker (mig s))) x = src s x) as Hsync.
  { intros b p x Hb Hp Hx. rewrite install_pages. destruct (existsb _ _) eqn:Ex; [done|].
    destruct (Hs b p Hb Hp) as [Hd|Hd]; [|by apply Hd]. exfalso. apply not_true_iff_false in Ex. apply Ex, existsb_exists.
    exists (gpa_of b p). split; [apply list_elem_of_In, tracker_dirty_elem; by exists b, p|].
    destruct Hx. apply andb_true_iff. by rewrite Z.leb_le, Z.ltb_lt. }
  split_and!; try done. split; cbn [mig]; [done|by rewrite He'|done|]. intros b' p Hb' Hp. rewrite Hreg in Hb'.
  apply list_elem_of_fmap in Hb' as (b & -> & Hb). right. intros x Hx. by apply (Hsync b p).
Qed.

(** The number of iterations in a run. *)
Definition iterations (es : list Event) : Z :=
  Z.of_nat (length (List.filter (fun e => match e with Iterate => true | _ => false end) es)).

Definition region_ids (s : Sys) : list (Z * Z * Z) :=
  (fun b => (base_gpa b, size b, num_pages b)) <$> regions (dirty_tracker (mig s)).

Definition writes (mem : Z -> Z) (es : list Event) : Z -> Z :=
  foldl (fun mem e => match e with Write a bs => store mem a bs | Iterate => mem end) mem es.

Lemma sys_run_ok es s :
  Forall event_ok es -> sys_inv s -> counters_ok (mig s) (iterations es) ->
  exists s', sys_run s es = Ok s' /\ sys_inv s' /\ src s' = writes (src s) es /\ region_ids s' = region_ids s /\
    iteration (mstats (controller (mig s'))) = iteration (mstats (controller (mig s))) + iterations es /\
    clear_count (stats (dirty_tracker (mig s'))) = clear_count (stats (dirty_tracker (mig s))) + iterations es /\
    config (controller (mig s')) = config (controller (mig s)).
Proof.
  intros Hes. revert s. induction Hes as [|e es He Hes IH]; intros s Hi Hn.
  { exists s. unfold iterations. cbn. by rewrite !Z.add_0_r. }
  destruct e as [a bs|]; cbn [sys_run].
  - change (iterations (Write a bs :: es)) with (iterations es) in *. destruct He as [Ha Hb].
    cbn [sys_step mbind Res_bind]. destruct (IH (guest_write a bs s)) as (s' & Hr & Hi' & Hsrc & Hreg & Hit & Hcc & Hcfg).
    + by apply sys_inv_write.
    + destruct Hn as (H1 & H2 & H3 & H4). unfold counters_ok. cbn [guest_write mig set_tracker controller dirty_tracker].
      unfold mark_range_dirty. rewrite (sv_enabled s Hi). by split_and!.
    + exists s'. rewrite Hr, Hsrc, Hreg, Hit, Hcc, Hcfg. split_and!; try done.
      * unfold region_ids. cbn [guest_write mig set_tracker dirty_tracker]. unfold mark_range_dirty. rewrite (sv_enabled s Hi).
        cbn [negb set_regions regions]. rewrite <- list_fmap_compose. done.
      * cbn [guest_write mig set_tracker dirty_tracker]. unfold mark_range_dirty. by rewrite (sv_enabled s Hi).
  - assert (iterations (Iterate :: es) = 1 + iterations es) as En by (unfold iterations; cbn [List.filter length]; lia).
    assert (0 <= iterations es) by (unfold iterations; lia). rewrite En in *. destruct Hn as (H1 & H2 & H3 & H4).
    destruct (sys_inv_iterate s Hi) as (s1 & -> & Hi1 & Hsrc1 & _ & Hreg1 & Hit1 & Hcc1 & Hcfg1); [split_and!; lia|].
    cbn [mbind Res_bind]. destruct (IH s1 Hi1) as (s' & Hr & Hi' & Hsrc & Hreg & Hit & Hcc & Hcfg); [split_and!; lia|].
    exists s'. rewrite Hr, Hsrc, Hreg, Hit, Hcc, Hcfg, Hsrc1, Hit1, Hcc1, Hcfg1. split_and!; try done; [|lia|lia].
    unfold region_ids. rewrite Hreg1, <- list_fmap_compose. done.
Qed.

Lemma sys_run_app s es es' : sys_run s (es ++ es') = (s' ← sys_run s es; sys_run s' es').
Proof. revert s. induction es as [|e es IH]; intros s; cbn [app sys_run]; [done|]. destruct (sys_step s e); cbn; [apply IH|done..]. Qed.

Lemma same_regions s s' b :
  region_ids s' = region_ids s -> b ∈ regions (dirty_tracker (mig s)) ->
  exists b', b' ∈ regions (dirty_tracker (mig s')) /\ same_region b' b.
Proof.
  intros Hr Hb. assert ((base_gpa b, size b, num_pages b) ∈ region_ids s') as Hin.
  { rewrite Hr. apply list_elem_of_fmap. by exists b. }
  apply list_elem_of_fmap in Hin as (b' & [= E1 E2 E3] & Hb'). by exists b'.
Qed.

(** A migration starts with every page dirty, which is the invariant. *)
Lemma sys_inv_start s :
  tracker_wf (dirty_tracker (mig s)) -> enabled (dirty_tracker (mig s)) = true -> cancelled (controller (mig s)) = false ->
  (forall b p, b ∈ regions (dirty_tracker (mig s)) -> 0 <= p < num_pages b -> page_dirty b p = true) -> sys_inv s.
Proof. intros Hw He Hc Hd. split; [done..|]. intros b p Hb Hp. left. by apply Hd. Qed.

(** C18: Pre-copy is correct when the guest writes between iterations: whatever it wrote
    meanwhile, in whatever order and across however many iterations, after a last
    iteration with the guest paused every byte of every tracked page is at the
    destination. *)
Theorem precopy_correct s es :
  sys_inv s -> Forall event_ok es -> counters_ok (mig s) (iterations es + 1) ->
  exists s', sys_run s (es ++ [Iterate]) = Ok s' /\ src s' = writes (src s) es /\
    forall b p x, b ∈ regions (dirty_tracker (mig s)) -> 0 <= p < num_pages b -> in_page b p x -> dst s' x = src s' x.
Proof.
  intros Hi Hes (H1 & H2 & H3 & H4). destruct (sys_run_ok es s Hes Hi) as (s1 & Hr & Hi1 & Hsrc & Hreg & Hit & Hcc & _);
    [split_and!; lia|].
  destruct (sys_inv_iterate s1 Hi1) as (s' & Hs & _ & Hsrc' & Hsync & _);
    [unfold iterations in *; split_and!; lia|].
  exists s'. rewrite sys_run_app, Hr. cbn [mbind Res_bind sys_run]. rewrite Hs. split_and!; [done|by rewrite Hsrc'|].
  intros b p x Hb Hp Hx. destruct (same_regions s s1 b Hreg Hb) as (b' & Hb' & E1 & _ & E3).
  apply (Hsync b' p); [done|by rewrite <- E3|]. unfold in_page, gpa_of in *. by rewrite <- E1.
Qed.

(** The pre-copy phase ends: once as many iterations have run as the configuration
    allows, stop-and-copy is due whatever is dirty and however fast. *)
Theorem precopy_stops s es dirty rate :
  sys_inv s -> Forall event_ok es -> counters_ok (mig s) (iterations es) ->
  max_precopy_iterations (config (controller (mig s))) <= iterations es ->
  exists s', sys_run s es = Ok s' /\ should_stop_and_copy (controller (mig s')) dirty rate = true.
Proof.
  intros Hi Hes Hn Hm. destruct (sys_run_ok es s Hes Hi Hn) as (s' & Hr & _ & _ & _ & Hit & _ & Hcfg). exists s'. split; [done|].
  unfold should_stop_and_copy. rewrite Hit, Hcfg. destruct Hn as (H1 & _). destruct (dirty <=? _); [done|].
  by rewrite (proj2 (Z.leb_le _ _)) by lia.
Qed.

(** A write between the moment an iteration reads its pages and the moment it clears
    the bits is lost: the bit it set is cleared with the others, the destination
    keeps the byte from before, and no page is left dirty for a later iteration. *)
Theorem lost_write s b p x v :
  sys_inv s -> counters_ok (mig s) 1 -> b ∈ regions (dirty_tracker (mig s)) -> 0 <= p < num_pages b ->
  page_dirty b p = true -> in_page b p x -> v <> src s x ->
  exists pages n m1 m2,
    gather (with_memory (src s) (mig s)) = (Ok (pages, n), m1) /\
    let s1 := guest_write x [v] (mkSys m1 (src s) (dst s)) in
    on_tracker clear_all (mig s1) = (Ok tt, m2) /\
    tracker_dirty (dirty_tracker m2) = [] /\ install (dst s1) pages x <> src s1 x.
Proof.
  intros [Hw He Hc Hs] Hn Hb Hp Hd Hx Hv. destruct (gather_ok (with_memory (src s) (mig s)) Hc Hw Hn) as (m1 & Hg & Et & _).
  change (dirty_tracker m1 = dirty_tracker (mig s)) in Et.
  pose proof (mark_range_regions (dirty_tracker m1) x 1) as Hw1. rewrite Et in Hw1. specialize (Hw1 Hw).
  destruct Hn as (_ & _ & H3 & H4).
  destruct (clear_all_ok (mark_range_dirty x 1 (dirty_tracker (mig s))) Hw1) as (t' & Hcl & _ & Hdirty & _);
    [by (unfold mark_range_dirty; rewrite He)..|].
  exists (page_of (load (src s)) <$> tracker_dirty (dirty_tracker (mig s))).
  exists (Z.of_nat (length (tracker_dirty (dirty_tracker (mig s))))), m1. eexists. split; [done|]. cbv zeta.
  cbn [guest_write mig set_tracker dirty_tracker dst src]. unfold on_tracker. cbn [dirty_tracker]. rewrite Et.
  change (blen [v]) with 1. cbn [set_tracker dirty_tracker]. rewrite Hcl. split; [reflexivity|]. split; [done|]. rewrite install_pages.
  rewrite (proj2 (existsb_exists _ _)).
  - unfold store. rewrite (proj2 (Z.leb_le _ _)), Z.sub_diag by lia. by apply not_eq_sym.
  - exists (gpa_of b p). split; [apply list_elem_of_In, tracker_dirty_elem; by exists b, p|].
    destruct Hx. apply andb_true_iff. by rewrite Z.leb_le, Z.ltb_lt.
Qed.

(** What one iteration returns and leaves: the dirty pages with their contents and
    their number, no page dirty, the iteration counted.  Without a reader the bits
    are cleared all the same and no page is sent; a cancelled migration is refused
    with nothing changed. *)
Theorem run_iteration_spec m :
  tracker_wf (dirty_tracker m) -> counters_ok m 1 ->
  exists m',
    if cancelled (controller m)
    then run_iteration m = (Err (InvalidFormat "Migration cancelled" []), m') /\ m' = m
    else run_iteration m =
      (Ok (match memory_reader m with Some read => page_of read <$> tracker_dirty (dirty_tracker m) | None => [] end,
           Z.of_nat (length (tracker_dirty (dirty_tracker m)))), m') /\
      tracker_dirty (dirty_tracker m') = [] /\
      iteration (mstats (controller m')) = iteration (mstats (controller m)) + 1.
Proof.
  intros Ht Hn. destruct (cancelled (controller m)) eqn:Hc.
  - exists m. split; [|done]. unfold run_iteration, gather. rewrite st_bind_eq, st_bind_gets. by rewrite Hc.
  - destruct (run_iteration_ok m Hc Ht Hn) as (m' & -> & _ & Hd & _ & _ & _ & _ & _ & Hi). by exists m'.
Qed.

(** ** The stream *)

(** Calls on the stream, with the messages handed to the network and to the caller. *)
Inductive StreamOp := SSend (m : MigrationMessage) | SReceive | SPush (m : MigrationMessage) | SPop.

Fixpoint stream_run (ops : list StreamOp) (s : MigrationStream)
    : list MigrationMessage * list MigrationMessage * MigrationStream :=
  match ops with
  | [] => ([], [], s)
  | SSend m :: ops' => stream_run ops' (send m s)
  | SPush m :: ops' => stream_run ops' (push_incoming m s)
  | SReceive :: ops' =>
      let '(o, s1) := receive s in
      let '(out, inn, s2) := stream_run ops' s1 in (out, option_list o ++ inn, s2)
  | SPop :: ops' =>
      let '(o, s1) := pop_outgoing s in
      let '(out, inn, s2) := stream_run ops' s1 in (option_list o ++ out, inn, s2)
  end.

Definition sent (ops : list StreamOp) : list MigrationMessage :=
  concat ((fun o => match o with SSend m => [m] | _ => [] end) <$> ops).
Definition arrived (ops : list StreamOp) : list MigrationMessage :=
  concat ((fun o => match o with SPush m => [m] | _ => [] end) <$> ops).

Lemma pop_front_eq {A} (q : list A) o q' : pop_front q = (o, q') -> option_list o ++ q' = q.
Proof. destruct q; intros [= <- <-]; done. Qed.

(** Each direction delivers what was put into it, in order, each message once, and
    the two directions do not mix. *)
Theorem stream_fifo ops s :
  let '(out, inn, s') := stream_run ops s in
  out ++ outgoing s' = outgoing s ++ sent ops /\ inn ++ incoming s' = incoming s ++ arrived ops.
Proof.
  destruct (stream_run ops s) as [[out inn] s'] eqn:E. revert s out inn s' E.
  induction ops as [|[m| |m|] ops IH]; intros s out inn s' E; cbn [stream_run] in E; unfold sent, arrived in *; rewrite ?fmap_cons; cbn [concat app].
  - injection E as <- <- <-. by rewrite !app_nil_r.
  - destruct (IH _ _ _ _ E) as [-> ->]. cbn [send outgoing incoming]. by rewrite <- app_assoc.
  - unfold receive in E. destruct (pop_front (incoming s)) as [o q] eqn:Eq. apply pop_front_eq in Eq as <-.
    destruct (stream_run ops _) as [[out1 inn1] s2] eqn:E2. injection E as <- <- <-. destruct (IH _ _ _ _ E2) as [-> Hi].
    cbn [outgoing incoming] in *. by rewrite <- !app_assoc, Hi.
  - destruct (IH _ _ _ _ E) as [-> ->]. cbn [push_incoming outgoing incoming]. by rewrite <- app_assoc.
  - unfold pop_outgoing in E. destruct (pop_front (outgoing s)) as [o q] eqn:Eq. apply pop_front_eq in Eq as <-.
    destruct (stream_run ops _) as [[out1 inn1] s2] eqn:E2. injection E as <- <- <-. destruct (IH _ _ _ _ E2) as [Ho ->].
    cbn [outgoing incoming] in *. by rewrite <- !app_assoc, Ho.
Qed.

(** ** Examples *)

Definition example_controller : MigrationController := controller_new Source default_config.

Lemma reached_self : rtc ctl_step example_controller example_controller.
Proof. apply rtc_refl. Qed.

Lemma example_started : ctl_step example_controller (set_start_time (Some 5) (set_stage Setup example_controller)).
Proof. by exists (OStart 5), (Ok tt). Qed.

Lemma stages_ordered_witness :
  ctl_inv (set_start_time (Some 5) (set_stage Setup example_controller)) /\ stage_edge Idle Setup.
Proof. exact (stages_ordered Source default_config _ _ reached_self example_started). Defined.

Lemma cancel_final_witness :
  run_iteration (precopy_new (cancel example_controller) tracker_new) =
  (Err (InvalidFormat "Migration cancelled" []), precopy_new (cancel example_controller) tracker_new).
Proof.
  apply (cancel_final Source default_config example_controller (cancel example_controller) None tracker_new 0 reached_self).
  apply rtc_refl.
Defined.

(** Two pages at zero, all dirty; the byte at 5 is seven. *)
Definition full_bitmap : DirtyBitmap := bm_mark_range_dirty 0 8192 (bitmap_new 0 8192).
Definition example_sys : Sys :=
  mkSys (precopy_new example_controller (mkTracker [full_bitmap] true default_stats 0 0))
    (fun x => if x =? 5 then 7 else 0) (fun _ => 0).
Definition example_events : list Event := [Iterate; Write 4090 [1; 2; 3; 4; 5; 6; 7; 8]; Iterate; Write 0 [9]].

Lemma full_bitmap_wf : bitmap_wf full_bitmap.
Proof. apply mark_range_wf, bitmap_new_wf; lia. Qed.

Lemma example_sys_inv : sys_inv example_sys.
Proof.
  apply sys_inv_start; [apply Forall_singleton, full_bitmap_wf|done|done|].
  intros b p ->%list_elem_of_singleton Hp. change (num_pages full_bitmap) with 2 in Hp.
  assert (p = 0 \/ p = 1) as [-> | ->] by lia; reflexivity.
Qed.

Lemma example_events_ok : Forall event_ok example_events.
Proof. repeat (apply Forall_cons; split); try done; apply Forall_nil_2. Qed.

Lemma precopy_correct_witness :
  exists s', sys_run example_sys (example_events ++ [Iterate]) = Ok s' /\ src s' = writes (src example_sys) example_events /\
    forall b p x, b ∈ regions (dirty_tracker (mig example_sys)) -> 0 <= p < num_pages b -> in_page b p x -> dst s' x = src s' x.
Proof. apply (precopy_correct example_sys example_events example_sys_inv example_events_ok). by repeat split. Defined.

Lemma precopy_stops_witness :
  exists s', sys_run example_sys (replicate 30 Iterate) = Ok s' /\
    should_stop_and_copy (controller (mig s')) 100000 (f64_of 1000000) = true.
Proof.
  apply (precopy_stops example_sys (replicate 30 Iterate) 100000 (f64_of 1000000) example_sys_inv);
    [by apply Forall_replicate|by repeat split|done].
Defined.

Lemma lost_write_witness :
  exists pages n m1 m2,
    gather (with_memory (src example_sys) (mig example_sys)) = (Ok (pages, n), m1) /\
    let s1 := guest_write 5 [8] (mkSys m1 (src example_sys) (dst example_sys)) in
    on_tracker clear_all (mig s1) = (Ok tt, m2) /\
    tracker_dirty (dirty_tracker m2) = [] /\ install (dst s1) pages 5 <> src s1 5.
Proof.
  apply (lost_write example_sys full_bitmap 0 5 8 example_sys_inv);
    [by repeat split|by apply list_elem_of_singleton|done|done|done|done].
Defined.

Lemma run_iteration_spec_witness :
  exists m', run_iteration (mig example_sys) = (Ok ([], 2), m') /\ tracker_dirty (dirty_tracker m') = [] /\
    iteration (mstats (controller m')) = 1.
Proof.
  exact (run_iteration_spec (mig example_sys) (sv_wf _ example_sys_inv) ltac:(by repeat split)).
Defined.
