(* ===== verification/AuditChain.v ===== *)
(** * The audit chain ([hv2-core/src/security/audit_chain.rs])

    An append-only log whose records are chained by a MAC, and its verifier.  The
    MAC, the constant-time comparison and the JSON of numbers, strings and records
    are of other crates and parameters here.  A [String] is its bytes; a file is
    what [BufRead::lines] yields of it. *)

From S2P Require Import Prelude Utf8.

#[local] Set Warnings "-register-all".

(** A JSON value over a type of numbers; an object is the entries of its map, whose
    keys differ. *)
Inductive Value (N : Type) :=
| VNull
| VBool (b : bool)
| VNumber (n : N)
| VString (s : bytes)
| VArray (items : list (Value N))
| VObject (entries : list (bytes * Value N)).
Arguments VNull {N}.
Arguments VBool {N} _.
Arguments VNumber {N} _.
Arguments VString {N} _.
Arguments VArray {N} _.
Arguments VObject {N} _.

Definition MAC_DOMAIN : bytes := str "HyperMachine audit chain v1" ++ [0].
Definition GENESIS : bytes := replicate 32 0.

Record AuditRecord (N : Type) := mkRecord {
  seq : Z;
  timestamp_ms : Z;
  source : bytes;
  event : Value N;
  prev : bytes;
  mac : bytes
}.
Arguments mkRecord {N} _ _ _ _ _ _.
Arguments seq {N} _.
Arguments timestamp_ms {N} _.
Arguments source {N} _.
Arguments event {N} _.
Arguments prev {N} _.
Arguments mac {N} _.

Inductive VerifyError :=
| Malformed (line : Z) (reason : bytes)
| Sequence (line expected found : Z)
| Broken (line : Z)
| BadMac (line : Z).

(** [io::Error]: a message, or what the verifier reported. *)
Inductive IoError := Other (msg : bytes) | InvalidData (e : VerifyError) | NotHex.

(** ** Hexadecimal *)

(** [format!("{b:02x}")] of every byte. *)
Definition hex (bs : bytes) : bytes := concat ((fun b => [hex_digit (b / 16); hex_digit (b mod 16)]) <$> bs).

Definition digit_of (c : Z) : option Z :=
  if (48 <=? c) && (c <=? 57) then Some (c - 48)
  else if (97 <=? c) && (c <=? 102) then Some (c - 87)
  else if (65 <=? c) && (c <=? 70) then Some (c - 55)
  else None.

(** [u8::from_str_radix(_, 16)] of two characters: it takes a leading plus sign. *)
Definition from_str_radix16 (a b : Z) : option Z :=
  if a =? 43 then digit_of b
  else x ← digit_of a; y ← digit_of b; Some (x * 16 + y).

Fixpoint decode_pairs (n : nat) (text : bytes) : option bytes :=
  match n with
  | O => Some []
  | S n' =>
      match text with
      | a :: b :: text' => x ← from_str_radix16 a b; l ← decode_pairs n' text'; Some (x :: l)
      | _ => None
      end
  end.

Definition decode_hex32 (text : bytes) : option bytes :=
  if negb (Z.of_nat (length text) =? 64) || negb (forallb (fun c => c <? 128) text) then None
  else decode_pairs 32 text.

(** ** Canonical JSON *)

(** The order of strings. *)
Fixpoint bytes_leb (a b : bytes) : bool :=
  match a, b with
  | [], _ => true
  | _ :: _, [] => false
  | x :: a', y :: b' => if x =? y then bytes_leb a' b' else x <? y
  end.

Fixpoint insert_key {A} (k : bytes) (x : A) (l : list (bytes * A)) : list (bytes * A) :=
  match l with
  | [] => [(k, x)]
  | (k', y) :: l' => if bytes_leb k k' then (k, x) :: l else (k', y) :: insert_key k x l'
  end.
Definition sort_keys {A} (l : list (bytes * A)) : list (bytes * A) :=
  foldr (fun kx acc => insert_key kx.1 kx.2 acc) [] l.

(** Pieces with a comma between them. *)
Fixpoint join (l : list bytes) : bytes :=
  match l with
  | [] => []
  | [x] => x
  | x :: l' => x ++ [44] ++ join l'
  end.

Section canonical.
Context {N : Type}.
(** [to_string] of a value that is not an array or an object. *)
Context (scalar : Value N -> bytes).

Fixpoint canonical_json (v : Value N) : bytes :=
  match v with
  | VObject entries =>
      let fix go (l : list (bytes * Value N)) : list (bytes * bytes) :=
        match l with [] => [] | (k, x) :: l' => (k, canonical_json x) :: go l' end in
      [123] ++ join ((fun kx => scalar (VString kx.1) ++ [58] ++ kx.2) <$> sort_keys (go entries)) ++ [125]
  | VArray items =>
      let fix go (l : list (Value N)) : list bytes :=
        match l with [] => [] | x :: l' => canonical_json x :: go l' end in
      [91] ++ join (go items) ++ [93]
  | v => scalar v
  end.

Definition to_be_bytes (n z : Z) : bytes := reverse (to_le_bytes n z).

(** What a record's MAC is over. *)
Definition mac_message (sq ts : Z) (src prv : bytes) (ev : Value N) : bytes :=
  MAC_DOMAIN ++ to_be_bytes 8 sq ++ to_be_bytes 8 ts ++
  to_be_bytes 4 (if Z.of_nat (length src) <? 2 ^ 32 then Z.of_nat (length src) else 2 ^ 32 - 1) ++
  src ++ prv ++ canonical_json ev.
End canonical.

(** ** The sink *)

(** Where lines go, one at a time or in a group, and the lines it holds. *)
Class AuditSink (S : Type) := {
  write_line : bytes -> ST S IoError unit;
  write_lines : list bytes -> ST S IoError unit;
  sink_lines : S -> list bytes
}.

(** [write_lines] of a sink that does not define its own. *)
Fixpoint default_write_lines {S} (write : bytes -> ST S IoError unit) (lines : list bytes) : ST S IoError unit :=
  match lines with
  | [] => mret tt
  | l :: lines' => _ ← write l; default_write_lines write lines'
  end.

(** *** A file of lines *)

Record JsonLinesFile := mkFile { file : bytes; sync : bool }.

(** What [BufRead::lines] yields: a carriage return before the newline goes too. *)
Definition strip_cr (line : bytes) : bytes :=
  match reverse line with 13 :: r => reverse r | _ => line end.
Fixpoint split_lines (cur bs : bytes) : list bytes :=
  match bs with
  | [] => match cur with [] => [] | _ => [cur] end
  | b :: bs' => if b =? 10 then strip_cr cur :: split_lines [] bs' else split_lines (cur ++ [b]) bs'
  end.

(** [write_all] and [sync_data] of the operating system: the result and the file
    after it. *)
Class FileSystem := {
  write_all : bytes -> bytes -> Res IoError unit * bytes;
  sync_data : bytes -> Res IoError unit
}.

Definition file_write (buf : bytes) `{FileSystem} : ST JsonLinesFile IoError unit :=
  _ ← (fun f : JsonLinesFile => let '(r, c) := write_all (file f) buf in (r, mkFile c (sync f)));
  st_gets sync ≫= fun sy : bool =>
  if sy then st_read (fun f => sync_data (file f)) else mret tt.

Definition file_write_line `{FileSystem} (line : bytes) : ST JsonLinesFile IoError unit := file_write (line ++ [10]).
Definition file_write_lines `{FileSystem} (lines : list bytes) : ST JsonLinesFile IoError unit :=
  match lines with
  | [] => mret tt
  | _ => file_write (concat ((fun l => l ++ [10]) <$> lines))
  end.

#[global] Instance JsonLinesFile_sink `{FileSystem} : AuditSink JsonLinesFile := {
  write_line := file_write_line;
  write_lines := file_write_lines;
  sink_lines f := split_lines [] (file f)
}.

(** ** The chain *)

Record ChainState (S : Type) := mkChain { next_seq : Z; last_mac : bytes; sink : S }.
Arguments mkChain {S} _ _ _.
Arguments next_seq {S} _.
Arguments last_mac {S} _.
Arguments sink {S} _.

Section chain.
Context {N : Type}.
Context (scalar : Value N -> bytes) (hmac : bytes -> bytes -> bytes) (ct_verify : bytes -> bytes -> bool).
Context (to_string : AuditRecord N -> Res bytes bytes) (from_str : bytes -> Res bytes (AuditRecord N)).
Context {S : Type} `{!AuditSink S}.

Definition record_mac (key : bytes) (sq ts : Z) (src prv : bytes) (ev : Value N) : bytes :=
  hmac key (mac_message scalar sq ts src prv ev).

Definition make_record (key : bytes) (sq ts : Z) (src prv : bytes) (ev : Value N) : AuditRecord N :=
  mkRecord sq ts src ev (hex prv) (hex (record_mac key sq ts src prv ev)).

Definition on_sink {A} (f : ST S IoError A) : ST (ChainState S) IoError A :=
  fun c => let '(r, s) := f (sink c) in (r, mkChain (next_seq c) (last_mac c) s).

(** [map_err(io::Error::other)]. *)
Definition json_error {A} (r : Res bytes A) : Res IoError A :=
  match r with Ok a => Ok a | Err e => Err (Other e) | Panic p => Panic p end.

Definition chain_new (s : S) : ChainState S := mkChain 0 GENESIS s.

(** [append]: the clock's reading is an argument. *)
Definition append (key : bytes) (now : Z) (src : bytes) (ev : Value N) : ST (ChainState S) IoError (AuditRecord N) :=
  sq ← st_gets next_seq;
  prv ← st_gets last_mac;
  let m := record_mac key sq now src prv ev in
  let r := make_record key sq now src prv ev in
  line ← st_lift (json_error (to_string r));
  _ ← on_sink (write_line line);
  n ← st_lift (add 64 sq 1);
  _ ← st_modify (fun c => mkChain n m (sink c));
  mret r.

(** The loop of [append_batch]: the records, their lines, and what follows them. *)
Fixpoint batch_records (key : bytes) (now : Z) (src : bytes) (sq : Z) (prv : bytes) (evs : list (Value N))
    : Res IoError (list (AuditRecord N) * list bytes * Z * bytes) :=
  match evs with
  | [] => mret ([], [], sq, prv)
  | ev :: evs' =>
      let m := record_mac key sq now src prv ev in
      let r := make_record key sq now src prv ev in
      line ← json_error (to_string r);
      n ← ok_or (checked_add 64 sq 1) (Other (str "audit sequence exhausted"));
      '(rs, ls, sq', prv') ← batch_records key now src n m evs';
      mret (r :: rs, line :: ls, sq', prv')
  end.

Definition append_batch (key : bytes) (now : Z) (src : bytes) (evs : list (Value N))
    : ST (ChainState S) IoError (list (AuditRecord N)) :=
  match evs with
  | [] => mret []
  | _ =>
      sq ← st_gets next_seq;
      prv ← st_gets last_mac;
      res ← st_lift (batch_records key now src sq prv evs);
      let '(rs, ls, sq', prv') := res in
      _ ← on_sink (write_lines ls);
      _ ← st_modify (fun c => mkChain sq' prv' (sink c));
      mret rs
  end.

(** ** Verification *)

Definition verify_record (key line : bytes) (expected_seq : Z) (prv : bytes) : Res VerifyError (AuditRecord N) :=
  let line_no := saturating_add 64 expected_seq 1 in
  match from_str line with
  | Err e => Err (Malformed line_no e)
  | Panic p => Panic p
  | Ok r =>
      if negb (seq r =? expected_seq) then Err (Sequence line_no expected_seq (seq r))
      else
        claimed_prev ← ok_or (decode_hex32 (prev r)) (Malformed line_no (str "prev is not 32 hex bytes"));
        if negb (ct_verify claimed_prev prv) then Err (Broken line_no)
        else
          claimed_mac ← ok_or (decode_hex32 (mac r)) (Malformed line_no (str "mac is not 32 hex bytes"));
          let m := record_mac key (seq r) (timestamp_ms r) (source r) claimed_prev (event r) in
          if negb (ct_verify m claimed_mac) then Err (BadMac line_no)
          else mret r
  end.

(** The loop of [verify_lines], from a line and the MAC before it. *)
Fixpoint verify_from (key : bytes) (index : Z) (prv : bytes) (last : option (AuditRecord N)) (lines : list bytes)
    : Res VerifyError (option (AuditRecord N)) :=
  match lines with
  | [] => mret last
  | line :: lines' =>
      r ← verify_record key line index prv;
      match decode_hex32 (mac r) with
      | None => Panic ExpectFailed
      | Some m => verify_from key (index + 1) m (Some r) lines'
      end
  end.

Definition verify_lines (key : bytes) (lines : list bytes) : Res VerifyError (option (AuditRecord N)) :=
  verify_from key 0 GENESIS None lines.

Definition verify (key : bytes) (lines : list bytes) : Res VerifyError Z :=
  last ← verify_lines key lines;
  match last with Some r => add 64 (seq r) 1 | None => mret 0 end.

(** [open_file]: the lines of the file, if it exists, and the sink opened on it. *)
Definition open_file (key : bytes) (file : option (list bytes)) (s : S) : Res IoError (ChainState S) :=
  match file with
  | None => mret (chain_new s)
  | Some lines =>
      match verify_lines key lines with
      | Panic p => Panic p
      | Err e => Err (InvalidData e)
      | Ok None => mret (chain_new s)
      | Ok (Some r) =>
          n ← add 64 (seq r) 1;
          m ← ok_or (decode_hex32 (mac r)) NotHex;
          mret (mkChain n m s)
      end
  end.
End chain.

(** ** Hexadecimal, back and forth *)

Lemma digit_roundtrip d : 0 <= d < 16 -> digit_of (hex_digit d) = Some d /\ hex_digit d <> 43 /\ hex_digit d < 128.
Proof.
  intros Hd. unfold hex_digit, digit_of. destruct (Z.ltb_spec d 10).
  - rewrite !(proj2 (Z.leb_le _ _)) by lia. simpl. split_and!; [f_equal; lia|lia|lia].
  - rewrite (proj2 (Z.leb_le 48 _)), (proj2 (Z.leb_gt (87 + d) 57)) by lia. simpl.
    rewrite !(proj2 (Z.leb_le _ _)) by lia. simpl. split_and!; [f_equal; lia|lia|lia].
Qed.

Lemma byte_digits b : is_byte b -> 0 <= b / 16 < 16 /\ 0 <= b mod 16 < 16 /\ b / 16 * 16 + b mod 16 = b.
Proof.
  intros [H1 H2]. pose proof (Z.div_mod b 16 ltac:(lia)). pose proof (Z.mod_pos_bound b 16 ltac:(lia)). lia.
Qed.

Lemma decode_pairs_hex bs : Forall is_byte bs -> decode_pairs (length bs) (hex bs) = Some bs.
Proof.
  induction 1 as [|b bs Hb Hbs IH]; [done|]. unfold hex in *. rewrite fmap_cons. cbn [concat app length decode_pairs].
  destruct (byte_digits b Hb) as (H1 & H2 & H3). destruct (digit_roundtrip _ H1) as (D1 & N1 & _).
  destruct (digit_roundtrip _ H2) as (D2 & _ & _). unfold from_str_radix16. rewrite (proj2 (Z.eqb_neq _ _) N1), D1, D2.
  cbn [mbind option_bind]. rewrite H3, IH. done.
Qed.

Lemma decode_hex bs : Forall is_byte bs -> length bs = 32%nat -> decode_hex32 (hex bs) = Some bs.
Proof.
  intros Hb Hl. unfold decode_hex32.
  assert (forall l, length (hex l) = (2 * length l)%nat) as Hlen.
  { induction l as [|b l IH]; [done|]. unfold hex in *. rewrite fmap_cons. cbn [concat app length]. lia. }
  assert (forallb (fun c => c <? 128) (hex bs) = true) as Ha.
  { clear Hl Hlen. induction Hb as [|b bs Hb Hbs IH]; [done|]. unfold hex in *. rewrite fmap_cons. cbn [concat app forallb].
    destruct (byte_digits b Hb) as (H1 & H2 & _). destruct (digit_roundtrip _ H1) as (_ & _ & L1). destruct (digit_roundtrip _ H2) as (_ & _ & L2).
    by rewrite (proj2 (Z.ltb_lt _ _) L1), (proj2 (Z.ltb_lt _ _) L2). }
  rewrite Hlen, Hl, Ha. cbn [negb orb Z.eqb]. change (Z.of_nat (2 * 32) =? 64) with true. cbn [negb orb].
  rewrite <- Hl. by apply decode_pairs_hex.
Qed.

(** ** Canonical JSON determines the value

    The value with the keys of every object in order: [Value]'s own equality does not
    see their order. *)
Fixpoint canon {N} (v : Value N) : Value N :=
  match v with
  | VArray items => VArray (List.map canon items)
  | VObject entries => VObject (sort_keys (List.map (fun kx => (kx.1, canon kx.2)) entries))
  | v => v
  end.

(** Induction over a value and the values in it. *)
Definition Value_nested_ind {N} (P : Value N -> Prop)
    (Hscalar : forall v, match v with VArray _ | VObject _ => False | _ => True end -> P v)
    (Harray : forall items, Forall P items -> P (VArray items))
    (Hobject : forall entries, Forall (fun kx => P kx.2) entries -> P (VObject entries)) : forall v, P v :=
  fix go v : P v :=
    match v as v0 return P v0 with
    | VNull => Hscalar VNull I
    | VBool b => Hscalar (VBool b) I
    | VNumber n => Hscalar (VNumber n) I
    | VString s => Hscalar (VString s) I
    | VArray items =>
        Harray items ((fix all l : Forall P l :=
          match l return Forall P l with [] => Forall_nil_2 _ | x :: l' => Forall_cons_2 _ _ _ (go x) (all l') end) items)
    | VObject entries =>
        Hobject entries ((fix all l : Forall (fun kx => P kx.2) l :=
          match l return Forall (fun kx => P kx.2) l with
          | [] => Forall_nil_2 _
          | kx :: l' => Forall_cons_2 (fun kx => P kx.2) _ _ (go kx.2) (all l')
          end) entries)
    end.

Definition is_scalar {N} (v : Value N) : bool := match v with VArray _ | VObject _ => false | _ => true end.

(** What may come after a value: a comma, a colon, a closing bracket or nothing. *)
Definition delimiter (b : Z) : Prop := b = 44 \/ b = 58 \/ b = 93 \/ b = 125.
Definition delimited (r : bytes) : Prop := match r with [] => True | b :: _ => delimiter b end.

(** The texts of scalars are tokens of JSON: where a delimiter or nothing follows, the
    text says where it ends and what it is the text of; and it starts with neither a
    delimiter nor an opening bracket. *)
Class ScalarTokens {N} (scalar : Value N -> bytes) : Prop := {
  scalar_token v v' r r' : is_scalar v = true -> is_scalar v' = true -> delimited r -> delimited r' ->
    scalar v ++ r = scalar v' ++ r' -> v = v' /\ r = r';
  scalar_first v : is_scalar v = true -> exists b t, scalar v = b :: t /\ ~ delimiter b /\ b <> 91 /\ b <> 123
}.

(** A function whose values tell where they end. *)
Definition piece_inj {A} (f : A -> bytes) (x : A) : Prop :=
  forall y r r', delimited r -> delimited r' -> f x ++ r = f y ++ r' -> x = y /\ r = r'.
Definition piece_first {A} (f : A -> bytes) : Prop := forall x, exists b t, f x = b :: t /\ ~ delimiter b.

Lemma join_cons x l : join (x :: l) = x ++ match l with [] => [] | _ => 44 :: join l end.
Proof. destruct l; [by rewrite app_nil_r|done]. Qed.

(** Pieces, commas and a closing bracket. *)
Lemma join_inj {A} (f : A -> bytes) close l l' r r' :
  piece_first f -> delimiter close -> close <> 44 -> Forall (piece_inj f) l ->
  join (List.map f l) ++ close :: r = join (List.map f l') ++ close :: r' -> l = l' /\ r = r'.
Proof.
  intros Hf Hd Hne Hl. revert l'. induction Hl as [|x l Hx Hl IH]; intros [|y l'] E.
  - by injection E as ->.
  - destruct (Hf y) as (b & t & Hb & Hnd). cbn [List.map] in E. rewrite join_cons, Hb in E. cbn in E. injection E as -> _. done.
  - destruct (Hf x) as (b & t & Hb & Hnd). cbn [List.map] in E. rewrite join_cons, Hb in E. cbn in E. injection E as <- _. done.
  - cbn [List.map] in E. rewrite !join_cons, <- !app_assoc in E. apply Hx in E as [<- E].
    + destruct l as [|x' l], l' as [|y' l']; cbn [List.map app] in E.
      * by injection E as ->.
      * injection E as E _. congruence.
      * injection E as E _. congruence.
      * injection E as E. destruct (IH (y' :: l') E) as [-> ->]. done.
    + destruct l; [done|by left].
    + destruct l'; [done|by left].
Qed.

Section determines.
Context {N : Type} (scalar : Value N -> bytes) `{!ScalarTokens scalar}.

(** The text of a value, its keys as they come. *)
Fixpoint print_json (v : Value N) : bytes :=
  match v with
  | VObject entries => [123] ++ join (List.map (fun kx => scalar (VString kx.1) ++ [58] ++ print_json kx.2) entries) ++ [125]
  | VArray items => [91] ++ join (List.map print_json items) ++ [93]
  | v => scalar v
  end.

Lemma sort_keys_map {A B} (g : A -> B) (l : list (bytes * A)) :
  sort_keys (List.map (fun kx => (kx.1, g kx.2)) l) = List.map (fun kx => (kx.1, g kx.2)) (sort_keys l).
Proof.
  induction l as [|[k x] l IH]; [done|]. cbn [List.map fst snd]. unfold sort_keys in *. cbn [foldr fst snd]. rewrite IH. generalize (foldr (fun kx acc => insert_key kx.1 kx.2 acc) [] l) as acc.
  induction acc as [|[k' y] acc IH']; [done|]. cbn [insert_key List.map fst snd]. destruct (bytes_leb k k'); [done|]. by rewrite IH'.
Qed.

Lemma insert_key_Permutation {A} k (x : A) l : insert_key k x l ≡ₚ (k, x) :: l.
Proof.
  induction l as [|[k' y] l IH]; cbn [insert_key]; [done|]. destruct (bytes_leb k k'); [done|]. rewrite IH. apply perm_swap.
Qed.
Lemma sort_keys_Permutation {A} (l : list (bytes * A)) : sort_keys l ≡ₚ l.
Proof. induction l as [|[k x] l IH]; [done|]. unfold sort_keys in *. cbn [foldr fst snd]. by rewrite insert_key_Permutation, IH. Qed.

Lemma canonical_print v : canonical_json scalar v = print_json (canon v).
Proof.
  induction v as [v Hv|items IH|entries IH] using Value_nested_ind.
  - by destruct v.
  - cbn [canonical_json canon print_json]. do 3 f_equal.
    induction IH as [|x items Hx _ IHl]; [done|]. cbn [List.map]. by rewrite Hx, IHl.
  - cbn [canonical_json canon print_json]. do 3 f_equal.
    match goal with |- _ <$> sort_keys ?g = _ => assert (g = List.map (fun kx => (kx.1, canonical_json scalar kx.2)) entries) as -> end.
    { clear IH. induction entries as [|[k x] l IHl]; [done|]. cbn [List.map fst snd]. by rewrite IHl. }
    rewrite !sort_keys_map. rewrite <- (sort_keys_Permutation entries) in IH.
    induction IH as [|[k x] l Hx _ IHl]; [done|]. cbn [List.map fst snd] in *. rewrite fmap_cons, IHl. cbn [fst snd]. by rewrite Hx.
Qed.

Lemma print_first : piece_first print_json.
Proof.
  intros v. destruct (is_scalar v) eqn:Hs.
  - destruct (scalar_first v Hs) as (b & t & Hb & Hd & _). exists b, t. destruct v; done.
  - destruct v; try done; cbn [print_json app]; eexists _, _; (split; [reflexivity|unfold delimiter; lia]).
Qed.

(** A scalar, an array and an object start differently. *)
Lemma print_kinds v v' r r' : print_json v ++ r = print_json v' ++ r' -> is_scalar v = true -> is_scalar v' = true.
Proof.
  intros E Hs. destruct (scalar_first v Hs) as (b & t & Hb & _ & H1 & H2).
  assert (print_json v = b :: t) as Hp by (destruct v; done). rewrite Hp in E.
  destruct v'; try done; cbn [print_json app] in E; by injection E.
Qed.

Lemma print_inj v : piece_inj print_json v.
Proof.
  induction v as [v Hv|items IH|entries IH] using Value_nested_ind; intros v' r r' Hr Hr' E.
  - assert (is_scalar v = true) as Hs by by destruct v. pose proof (print_kinds _ _ _ _ E Hs) as Hs'.
    apply (scalar_token v v' r r'); [done..|]. by destruct v, v'.
  - destruct (is_scalar v') eqn:Hs; [by pose proof (print_kinds _ _ _ _ (eq_sym E) Hs)|].
    destruct v' as [| | | |items'|entries']; try done; cbn [print_json app] in E.
    injection E as E. rewrite <- !app_assoc in E. cbn [app] in E.
    apply (join_inj print_json 93) in E as [-> ->]; [done|exact print_first|unfold delimiter; lia|lia|done].
  - destruct (is_scalar v') eqn:Hs; [by pose proof (print_kinds _ _ _ _ (eq_sym E) Hs)|].
    destruct v' as [| | | |items'|entries']; try done; cbn [print_json app] in E.
    injection E as E. rewrite <- !app_assoc in E. cbn [app] in E.
    apply (join_inj (fun kx => scalar (VString kx.1) ++ [58] ++ print_json kx.2) 125) in E as [-> ->]; [done| |unfold delimiter; lia|lia|].
    + intros [k x]. destruct (scalar_first (VString k) eq_refl) as (b & t & Hb & Hd & _). exists b. eexists. cbn [fst snd]. rewrite Hb. done.
    + eapply Forall_impl; [done|]. intros [k x] Hx [k' x'] q q' Hq Hq' E'. cbn [fst snd] in *. rewrite <- !app_assoc in E'. cbn [app] in E'.
      apply scalar_token in E' as [E1 E2]; [|done|done|unfold delimited, delimiter; lia..]. injection E1 as <-. injection E2 as E2.
      by destruct (Hx x' q q' Hq Hq' E2) as [-> ->].
Qed.

(** Values of one canonical text are equal but for the order of keys. *)
Lemma canonical_inj v v' : canonical_json scalar v = canonical_json scalar v' -> canon v = canon v'.
Proof.
  rewrite !canonical_print. intros E. apply (print_inj (canon v) (canon v') [] []); [done|done|]. by rewrite !app_nil_r.
Qed.
End determines.

(** ** The message determines what it is made of *)

Lemma length_be n z : 0 <= n -> Z.of_nat (length (to_be_bytes n z)) = n.
Proof. intros Hn. unfold to_be_bytes. rewrite length_reverse. by apply length_to_le_bytes. Qed.

Lemma to_be_inj n a b : 0 <= n -> fits (8 * n) a -> fits (8 * n) b -> to_be_bytes n a = to_be_bytes n b -> a = b.
Proof.
  intros Hn Ha Hb He. apply (inj reverse) in He. by rewrite <- (from_to_le_bytes n a), He, from_to_le_bytes.
Qed.

Lemma mac_message_inj {N} (scalar : Value N -> bytes) sq ts src prv ev sq' ts' src' prv' ev' :
  fits 64 sq -> fits 64 ts -> fits 64 sq' -> fits 64 ts' ->
  Z.of_nat (length src) < 2 ^ 32 -> Z.of_nat (length src') < 2 ^ 32 -> length prv = 32%nat -> length prv' = 32%nat ->
  mac_message scalar sq ts src prv ev = mac_message scalar sq' ts' src' prv' ev' ->
  sq = sq' /\ ts = ts' /\ src = src' /\ prv = prv' /\ canonical_json scalar ev = canonical_json scalar ev'.
Proof.
  intros H1 H2 H3 H4 L1 L2 P1 P2. unfold mac_message. rewrite !(proj2 (Z.ltb_lt _ _)) by done. intros He.
  apply app_inv_head in He.
  apply app_inj_1 in He as [E1 He]; [|pose proof (length_be 8 sq); pose proof (length_be 8 sq'); lia].
  apply app_inj_1 in He as [E2 He]; [|pose proof (length_be 8 ts); pose proof (length_be 8 ts'); lia].
  apply app_inj_1 in He as [E3 He];
    [|pose proof (length_be 4 (Z.of_nat (length src))); pose proof (length_be 4 (Z.of_nat (length src'))); lia].
  apply to_be_inj in E3; [|lia|split; [lia|done]..].
  apply app_inj_1 in He as [E4 He]; [|lia]. apply app_inj_1 in He as [E5 He]; [|lia].
  split_and!; [by apply (to_be_inj 8)|by apply (to_be_inj 8)|done..].
Qed.

(** ** Sinks that keep their word *)

(** A line of JSON has no newline and does not end in a carriage return. *)
Definition line_ok (l : bytes) : Prop := Forall (fun b => b <> 10) l /\ strip_cr l = l.

(** What a write that failed may have left of its lines: the first [k] and the
    beginning [p] of the next. *)
Definition torn (ls : list bytes) (k : nat) (p : bytes) : list bytes := take k ls ++ match p with [] => [] | _ => [p] end.
Definition tears (ls : list bytes) (k : nat) (p : bytes) : Prop := p = [] \/ exists l, ls !! k = Some l /\ p `prefix_of` l.

(** A successful write adds exactly the lines.  One that fails may have added some of
    them, and torn one: there is no rollback.  [good] is a sink whose last line is
    finished. *)
Definition wrote {S} `{AuditSink S} (good : S -> Prop) (ls : list bytes) (s : S) (r : Res IoError unit) (s' : S) : Prop :=
  match r with
  | Ok _ => good s' /\ sink_lines s' = sink_lines s ++ ls
  | Err _ => exists k p, tears ls k p /\ sink_lines s' = sink_lines s ++ torn ls k p /\ (p = [] -> good s')
  | Panic _ => False
  end.

Class SinkLaws (S : Type) `{AuditSink S} := {
  sink_ok : S -> Prop;
  write_line_law l s r s' : line_ok l -> sink_ok s -> write_line l s = (r, s') -> wrote sink_ok [l] s r s';
  write_lines_law ls s r s' : Forall line_ok ls -> sink_ok s -> write_lines ls s = (r, s') -> wrote sink_ok ls s r s'
}.

(** The trait's own [write_lines] keeps the law of [write_line]. *)
Lemma default_write_lines_law {S} `{AuditSink S} (good : S -> Prop) :
  (forall l s r s', line_ok l -> good s -> write_line l s = (r, s') -> wrote good [l] s r s') ->
  forall ls s r s', Forall line_ok ls -> good s -> default_write_lines write_line ls s = (r, s') -> wrote good ls s r s'.
Proof.
  intros Hlaw ls s r s' Hls. revert s. induction Hls as [|l ls Hl Hls IH]; intros s Hs; cbn [default_write_lines].
  { intros [= <- <-]. cbn. by rewrite app_nil_r. }
  rewrite st_bind_eq. destruct (write_line l s) as [r1 s1] eqn:E. pose proof (Hlaw l s r1 s1 Hl Hs E) as Hw.
  destruct r1 as [[]|e|p]; [|intros [= <- <-]|done].
  - destruct Hw as [Hs1 Hl1]. intros E2. specialize (IH s1 Hs1 E2). destruct r as [u|e|p]; [|destruct IH as (k & p & Ht & Hk & Hp)|done].
    + destruct IH as [? Hl2]. split; [done|]. by rewrite Hl2, Hl1, <- app_assoc.
    + exists (Datatypes.S k), p. split_and!; [done| |done]. by rewrite Hk, Hl1, <- app_assoc.
  - destruct Hw as (k & p & Ht & Hk & Hp). destruct k as [|k].
    + exists 0%nat, p. split_and!; [destruct Ht as [|(x & [= <-] & ?)]; [by left|right; by exists l]|done|done].
    + assert (p = []) as -> by (destruct Ht as [|(x & Hx & _)]; [done|by destruct k]).
      exists 1%nat, []. split_and!; [by left| |done]. rewrite Hk. unfold torn. cbn. by rewrite take_nil.
Qed.

Lemma split_lines_app cur f g : split_lines cur (f ++ 10 :: g) = split_lines cur (f ++ [10]) ++ split_lines [] g.
Proof.
  revert cur. induction f as [|b f IH]; intros cur; [done|]. cbn [app split_lines].
  destruct (b =? 10); [by rewrite IH|apply IH].
Qed.

Lemma split_lines_line cur l : Forall (fun b => b <> 10) l -> split_lines cur (l ++ [10]) = [strip_cr (cur ++ l)].
Proof.
  intros Hl. revert cur. induction Hl as [|b l Hb Hl IH]; intros cur; [by rewrite app_nil_r|]. cbn [app split_lines].
  rewrite (proj2 (Z.eqb_neq _ _) Hb), IH, <- app_assoc. done.
Qed.

(** A file that ends with a newline, or has nothing in it. *)
Definition closed (f : bytes) : Prop := f = [] \/ exists f', f = f' ++ [10].

Lemma split_lines_closed f ls :
  closed f -> Forall line_ok ls -> split_lines [] (f ++ concat ((fun l => l ++ [10]) <$> ls)) = split_lines [] f ++ ls /\
  closed (f ++ concat ((fun l => l ++ [10]) <$> ls)).
Proof.
  intros Hf Hls. revert f Hf. induction Hls as [|l ls [Hl Hs] Hls IH]; intros f Hf; [by rewrite !app_nil_r|].
  rewrite fmap_cons. cbn [concat]. rewrite app_assoc. destruct (IH (f ++ l ++ [10])) as [E C].
  { right. exists (f ++ l). by rewrite app_assoc. }
  split; [|done]. rewrite E. destruct Hf as [->|[f' ->]]; cbn [app].
  - rewrite split_lines_line by done. cbn [app]. by rewrite Hs.
  - rewrite <- app_assoc. cbn [app]. rewrite split_lines_app, (split_lines_line [] l), <- app_assoc by done. cbn [app]. by rewrite Hs.
Qed.

Lemma split_lines_end cur p : Forall (fun b => b <> 10) p -> split_lines cur p = match cur ++ p with [] => [] | x => [x] end.
Proof.
  intros Hp. revert cur. induction Hp as [|b p Hb Hp IH]; intros cur; cbn [split_lines]; [by rewrite app_nil_r; destruct cur|].
  rewrite (proj2 (Z.eqb_neq _ _) Hb), IH, <- app_assoc. done.
Qed.

(** What a part of the bytes of some lines adds to a file. *)
Lemma split_lines_torn f ls n :
  closed f -> Forall line_ok ls ->
  let f' := f ++ take n (concat ((fun l => l ++ [10]) <$> ls)) in
  exists k p, tears ls k p /\ split_lines [] f' = split_lines [] f ++ torn ls k p /\ (p = [] -> closed f').
Proof.
  intros Hf Hls. cbv zeta. revert f n Hf. induction Hls as [|l ls [Hl Hs] Hls IH]; intros f n Hf.
  { exists 0%nat, []. cbn. rewrite take_nil, !app_nil_r. split_and!; [by left|done|done]. }
  rewrite fmap_cons. cbn [concat]. destruct (decide (n <= length l)%nat) as [Hn|Hn].
  - rewrite take_app_le by (rewrite length_app; lia). rewrite take_app_le by done. exists 0%nat, (take n l).
    assert (Forall (fun b => b <> 10) (take n l)) as Hp by by apply Forall_take.
    split_and!; [right; exists l; split; [done|apply prefix_take]| |].
    + destruct Hf as [->|[f' ->]]; cbn [app]; [rewrite split_lines_end by done; by destruct (take n l)|].
      rewrite <- app_assoc. cbn [app]. rewrite split_lines_app, (split_lines_end [] (take n l)) by done. by destruct (take n l).
    + intros ->. by rewrite app_nil_r.
  - rewrite take_app_ge, app_assoc by (rewrite length_app; cbn; lia).
    destruct (IH (f ++ l ++ [10]) (Nat.sub n (length (l ++ [10])))) as (k & p & Ht & Hk & Hp).
    { right. exists (f ++ l). by rewrite app_assoc. }
    exists (S k), p. split_and!; [done| |done].
    destruct (split_lines_closed f [l] Hf) as [E _]; [by apply Forall_singleton|]. cbn [fmap list_fmap concat] in E. rewrite app_nil_r in E.
    rewrite Hk, E, <- app_assoc. done.
Qed.

(** A file whose last record has no newline reads as if it had, and so is resumed, but the
    next record written then shares its line. *)
Theorem unterminated_merges f l l2 :
  closed f -> line_ok l -> l <> [] -> line_ok l2 ->
  split_lines [] (f ++ l) = split_lines [] f ++ [l] /\
  split_lines [] ((f ++ l) ++ l2 ++ [10]) = split_lines [] f ++ [strip_cr (l ++ l2)].
Proof.
  intros Hf [Hl _] Hne [Hl2 _]. assert (Forall (fun b => b <> 10) (l ++ l2)) as Hll by (by apply Forall_app).
  replace ((f ++ l) ++ l2 ++ [10]) with (f ++ (l ++ l2) ++ [10]) by (by rewrite <- !app_assoc).
  destruct Hf as [->|[f' ->]]; cbn [app].
  - rewrite split_lines_end, split_lines_line by done. by destruct l.
  - rewrite <- !app_assoc. cbn [app]. rewrite (split_lines_app [] f' l), (split_lines_app [] f' (l ++ l2 ++ [10])), (split_lines_end [] l), (app_assoc l), (split_lines_line [] (l ++ l2)) by done. by destruct l.
Qed.

Section file_sink.
Context `{FileSystem}.
(** A file system that appends: all of the bytes when it succeeds, some of the first of
    them when it fails. *)
Context (write_all_appends : forall f buf, write_all f buf = (Ok tt, f ++ buf) \/ exists e n, write_all f buf = (Err e, f ++ take n buf)).
Context (sync_returns : forall f, is_panic (sync_data f) = false).

Lemma file_write_law ls f r f' :
  Forall line_ok ls -> closed (file f) -> file_write (concat ((fun l => l ++ [10]) <$> ls)) f = (r, f') ->
  wrote (fun f => closed (file f)) ls f r f'.
Proof.
  intros Hls Hf. unfold file_write. set (buf := concat _). rewrite st_bind_eq. destruct (split_lines_closed (file f) ls Hf Hls) as [Hl Hc].
  destruct (write_all_appends (file f) buf) as [-> | (e & n & ->)].
  - rewrite st_bind_gets. cbn [sync]. pose proof (sync_returns (file f ++ buf)) as Hr.
    assert (wrote (fun f => closed (file f)) ls f (Ok tt) (mkFile (file f ++ buf) (sync f))) as Hok by (by split).
    destruct (sync f); [|by intros [= <- <-]]. unfold st_read. cbn [file]. destruct (sync_data (file f ++ buf)) as [[]|e|p]; [..|done]; intros [= <- <-]; [done|].
    exists (length ls), []. unfold torn. rewrite firstn_all, app_nil_r. split_and!; [by left|exact Hl|done].
  - intros [= <- <-]. apply (split_lines_torn (file f) ls n Hf Hls).
Qed.

#[export] Instance JsonLinesFile_laws : SinkLaws JsonLinesFile.
Proof.
  refine {| sink_ok f := closed (file f) |}.
  - intros l f r f' Hl Hf Hw. apply file_write_law; [by apply Forall_singleton|done|].
    change (write_line l f) with (file_write (l ++ [10]) f) in Hw. cbn. by rewrite app_nil_r.
  - intros [|l ls] f r f' Hls Hf Hw; [|by apply file_write_law].
    injection Hw as <- <-. split; [done|]. by rewrite app_nil_r.
Defined.
End file_sink.

(** ** Verified logs *)

Section laws.
Context {N : Type}.
Context (scalar : Value N -> bytes) (hmac : bytes -> bytes -> bytes) (ct_verify : bytes -> bytes -> bool).
Context (to_string : AuditRecord N -> Res bytes bytes) (from_str : bytes -> Res bytes (AuditRecord N)).
(** A MAC of 32 bytes; a comparison that compares; JSON that is read back, on a line
    of its own. *)
Context (hmac_length : forall k m, length (hmac k m) = 32%nat) (hmac_bytes : forall k m, Forall is_byte (hmac k m)).
Context (ct_verify_spec : forall a b, ct_verify a b = bool_decide (a = b)).
Context (json_roundtrip : forall r l, to_string r = Ok l -> from_str l = Ok r /\ line_ok l).
Context (to_string_returns : forall r, is_panic (to_string r) = false).
Context `{!ScalarTokens scalar}.

Abbreviation rmac := (record_mac scalar hmac).
Abbreviation vrecord := (verify_record scalar hmac ct_verify from_str).
Abbreviation vlines := (verify_lines scalar hmac ct_verify from_str).

Lemma verify_record_Ok key line idx prv r :
  vrecord key line idx prv = Ok r ->
  from_str line = Ok r /\ seq r = idx /\ decode_hex32 (prev r) = Some prv /\
  decode_hex32 (mac r) = Some (rmac key idx (timestamp_ms r) (source r) prv (event r)).
Proof.
  unfold verify_record. destruct (from_str line) as [r0|e|p]; try done.
  destruct (Z.eqb_spec (seq r0) idx) as [Hs|]; [|done]. cbn [negb].
  destruct (decode_hex32 (prev r0)) as [cp|] eqn:Ep; [|done]. cbn [ok_or mbind Res_bind]. rewrite ct_verify_spec.
  case_bool_decide as Hc; [|done]. subst cp. cbn [negb].
  destruct (decode_hex32 (mac r0)) as [cm|] eqn:Em; [|done]. cbn [ok_or mbind Res_bind]. rewrite ct_verify_spec.
  case_bool_decide as Hm; [|done]. subst cm. intros [= <-]. split_and!; try done. by rewrite Em, Hs.
Qed.

(** The records of a log and the MAC it ends in. *)
Fixpoint verify_all (key : bytes) (idx : Z) (prv : bytes) (lines : list bytes) : Res VerifyError (list (AuditRecord N) * bytes) :=
  match lines with
  | [] => mret ([], prv)
  | line :: lines' =>
      r ← vrecord key line idx prv;
      '(rs, m) ← verify_all key (idx + 1) (rmac key idx (timestamp_ms r) (source r) prv (event r)) lines';
      mret (r :: rs, m)
  end.

Lemma verify_from_all key idx prv lst lines :
  verify_from scalar hmac ct_verify from_str key idx prv lst lines =
  ('(rs, _) ← verify_all key idx prv lines; mret (match last rs with Some r => Some r | None => lst end)).
Proof.
  revert idx prv lst. induction lines as [|line lines IH]; intros idx prv lst; cbn [verify_from verify_all]; [done|].
  destruct (vrecord key line idx prv) as [r|e|p] eqn:Er; cbn [mbind Res_bind]; [|done..].
  destruct (verify_record_Ok _ _ _ _ _ Er) as (_ & _ & _ & ->). rewrite IH.
  destruct (verify_all _ _ _ lines) as [[rs m]|e|p]; cbn [mbind Res_bind mret Res_ret]; [|done..].
  destruct rs as [|r' rs]; [done|]. change (last (r :: r' :: rs)) with (last (r' :: rs)).
  destruct (last (r' :: rs)) eqn:El; [done|]. by apply last_None in El.
Qed.

Lemma verify_all_app key idx prv l1 l2 :
  verify_all key idx prv (l1 ++ l2) =
  ('(rs1, m1) ← verify_all key idx prv l1;
   '(rs2, m2) ← verify_all key (idx + Z.of_nat (length l1)) m1 l2; mret (rs1 ++ rs2, m2)).
Proof.
  revert idx prv. induction l1 as [|line l1 IH]; intros idx prv; cbn [app verify_all length].
  { cbn [mbind Res_bind mret Res_ret]. rewrite Z.add_0_r. by destruct (verify_all _ _ _ l2) as [[rs m]|e|p]. }
  destruct (vrecord key line idx prv) as [r|e|p]; cbn [mbind Res_bind]; [|done..]. rewrite IH.
  replace (idx + 1 + Z.of_nat (length l1)) with (idx + Z.of_nat (S (length l1))) by lia.
  destruct (verify_all _ (idx + 1) _ l1) as [[rs1 m1]|e|p]; cbn [mbind Res_bind mret Res_ret]; [|done..].
  by destruct (verify_all _ _ m1 l2) as [[rs2 m2]|e|p].
Qed.

Lemma verify_all_length key idx prv lines rs m : verify_all key idx prv lines = Ok (rs, m) -> length rs = length lines.
Proof.
  revert idx prv rs m. induction lines as [|line lines IH]; intros idx prv rs m; cbn [verify_all]; [by intros [= <- <-]|].
  destruct (vrecord key line idx prv) as [r|e|p]; cbn [mbind Res_bind]; [|done..].
  destruct (verify_all _ _ _ lines) as [[rs' m']|e|p] eqn:E; cbn [mbind Res_bind mret Res_ret]; [|done..].
  intros [= <- <-]. cbn. by rewrite (IH _ _ _ _ E).
Qed.

(** The message of a record of a log. *)
Definition message_in (l : list bytes) (m : bytes) : Prop :=
  exists line r p, line ∈ l /\ from_str line = Ok r /\ decode_hex32 (prev r) = Some p /\
    m = mac_message scalar (seq r) (timestamp_ms r) (source r) p (event r).

(** Different messages of two logs have one MAC. *)
Definition collision (key : bytes) (l1 l2 : list bytes) : Prop :=
  exists m m', message_in l1 m /\ message_in l2 m' /\ m <> m' /\ hmac key m = hmac key m'.

Lemma collision_app key l1 k1 l2 k2 : collision key l1 l2 -> collision key (l1 ++ k1) (l2 ++ k2).
Proof.
  intros (m & m' & (a & r & p & Ha & Hr) & (b & r' & p' & Hb & Hr') & Hc). exists m, m'. split_and!; try apply Hc.
  - exists a, r, p. split; [apply elem_of_app; by left|done].
  - exists b, r', p'. split; [apply elem_of_app; by left|done].
Qed.

(** Records that are the same: in their numbers, their source, the MAC before them and
    their event, but for the order in which the keys of its objects are listed and the
    case of hexadecimal digits. *)
Definition same_record (r r' : AuditRecord N) : Prop :=
  seq r = seq r' /\ timestamp_ms r = timestamp_ms r' /\ source r = source r' /\
  decode_hex32 (prev r) = decode_hex32 (prev r') /\ canon (event r) = canon (event r').

(** The numbers of a record are of 64 bits and its source is shorter than 4 GiB. *)
Definition typed_line (l : bytes) : Prop :=
  forall r, from_str l = Ok r -> fits 64 (seq r) /\ fits 64 (timestamp_ms r) /\ Z.of_nat (length (source r)) < 2 ^ 32.

Lemma decode_length t bs : decode_hex32 t = Some bs -> length bs = 32%nat.
Proof.
  unfold decode_hex32. destruct (_ || _); [done|]. generalize 32%nat as n. intros n. revert t bs.
  induction n as [|n IH]; intros t bs; cbn [decode_pairs]; [by intros [= <-]|].
  destruct t as [|a [|b t]]; try done. destruct (from_str_radix16 a b); [|done]. cbn.
  destruct (decode_pairs n t) as [l|] eqn:E; [|done]. intros [= <-]. cbn. by rewrite (IH _ _ E).
Qed.

Lemma verify_last key lines line rs m :
  verify_all key 0 GENESIS (lines ++ [line]) = Ok (rs, m) ->
  exists rs' m' r, verify_all key 0 GENESIS lines = Ok (rs', m') /\ rs = rs' ++ [r] /\ from_str line = Ok r /\
    seq r = Z.of_nat (length lines) /\ decode_hex32 (prev r) = Some m' /\
    m = rmac key (seq r) (timestamp_ms r) (source r) m' (event r).
Proof.
  rewrite verify_all_app. destruct (verify_all key 0 GENESIS lines) as [[rs' m']|e|p]; cbn [mbind Res_bind]; [|done..].
  cbn [verify_all]. rewrite Z.add_0_l. destruct (vrecord key line _ m') as [r|e|p] eqn:Er; cbn [mbind Res_bind mret Res_ret]; [|done..].
  intros [= <- <-]. destruct (verify_record_Ok _ _ _ _ _ Er) as (Hf & Hs & Hp & _). exists rs', m', r. by rewrite Hs.
Qed.

(** The MACs of two last records agree: the records do, or there is a collision. *)
Lemma same_last key l a r l' b r' m m' :
  from_str a = Ok r -> from_str b = Ok r' ->
  fits 64 (seq r) -> fits 64 (timestamp_ms r) -> Z.of_nat (length (source r)) < 2 ^ 32 ->
  fits 64 (seq r') -> fits 64 (timestamp_ms r') -> Z.of_nat (length (source r')) < 2 ^ 32 ->
  decode_hex32 (prev r) = Some m -> decode_hex32 (prev r') = Some m' ->
  rmac key (seq r) (timestamp_ms r) (source r) m (event r) = rmac key (seq r') (timestamp_ms r') (source r') m' (event r') ->
  (same_record r r' /\ m = m') \/ collision key (l ++ [a]) (l' ++ [b]).
Proof.
  intros F F' H1 H2 H3 H4 H5 H6 P1 P2 Hm. unfold record_mac in Hm.
  set (x := mac_message scalar (seq r) _ _ _ _) in *. set (y := mac_message scalar (seq r') _ _ _ _) in *.
  destruct (decide (x = y)) as [E|E]; [|right; exists x, y; split_and!; [exists a, r, m|exists b, r', m'|done|done]; (split; [apply elem_of_app; right; apply list_elem_of_here|done])]. left.
  apply mac_message_inj in E as (E1 & E2 & E3 & E4 & E5); [|done..|by eapply decode_length|by eapply decode_length].
  split; [|done]. split_and!; try done; [by rewrite P1, P2, E4|by apply (canonical_inj scalar)].
Qed.

Lemma same_logs key l1 l2 rs1 rs2 m :
  Forall typed_line l1 -> Forall typed_line l2 -> length l1 = length l2 ->
  verify_all key 0 GENESIS l1 = Ok (rs1, m) -> verify_all key 0 GENESIS l2 = Ok (rs2, m) ->
  Forall2 same_record rs1 rs2 \/ collision key l1 l2.
Proof.
  revert l2 rs1 rs2 m. induction l1 as [|a l1 IH] using rev_ind; intros l2 rs1 rs2 m T1 T2 Hl V1 V2.
  { destruct l2; [|done]. injection V1 as <- <-. injection V2 as <-. by left. }
  destruct l2 as [|b l2 _] using rev_ind; [rewrite length_app in Hl; cbn in Hl; lia|].
  rewrite !length_app in Hl. cbn in Hl. apply Forall_app in T1 as [T1 [Ta _]%Forall_cons]. apply Forall_app in T2 as [T2 [Tb _]%Forall_cons].
  destruct (verify_last _ _ _ _ _ V1) as (rs1' & m1 & r1 & V1' & -> & F1 & S1 & P1 & M1).
  destruct (verify_last _ _ _ _ _ V2) as (rs2' & m2 & r2 & V2' & -> & F2 & S2 & P2 & M2).
  destruct (Ta _ F1) as (A1 & A2 & A3). destruct (Tb _ F2) as (B1 & B2 & B3).
  destruct (same_last key l1 a r1 l2 b r2 m1 m2) as [[Hr ->]|Hc]; [done..|by rewrite <- M1, <- M2| |by right].
  destruct (IH l2 rs1' rs2' m2) as [Hf|Hc]; [done|done|lia|done|done| |right; by apply collision_app]. left. apply Forall2_app; [done|]. by constructor.
Qed.

Lemma verify_all_lines key idx prv lines rs m :
  verify_all key idx prv lines = Ok (rs, m) -> Forall2 (fun l r => from_str l = Ok r) lines rs.
Proof.
  revert idx prv rs m. induction lines as [|line lines IH]; intros idx prv rs m; cbn [verify_all]; [by intros [= <- <-]|].
  destruct (vrecord key line idx prv) as [r|e|p] eqn:Er; cbn [mbind Res_bind]; [|done..].
  destruct (verify_all _ _ _ lines) as [[rs' m']|e|p] eqn:E; cbn [mbind Res_bind mret Res_ret]; [|done..].
  intros [= <- <-]. destruct (verify_record_Ok _ _ _ _ _ Er) as (Hf & _). constructor; [done|by eapply IH].
Qed.

(** What [verify_lines] says, and what it ends in. *)
Lemma verify_lines_all key lines r :
  vlines key lines = Ok (Some r) ->
  exists lines' line rs m, lines = lines' ++ [line] /\ verify_all key 0 GENESIS lines = Ok (rs, m) /\ from_str line = Ok r /\
    seq r = Z.of_nat (length lines') /\ decode_hex32 (mac r) = Some m.
Proof.
  unfold verify_lines. rewrite verify_from_all. destruct (verify_all key 0 GENESIS lines) as [[rs m]|e|p] eqn:E; cbn [mbind Res_bind]; [|done..].
  destruct lines as [|line lines' _] using rev_ind; [injection E as <- <-; done|].
  destruct (verify_last _ _ _ _ _ E) as (rs' & m' & r' & E' & -> & Hf & Hs & Hp & Hm). cbn [mret Res_ret]. rewrite last_snoc.
  intros [= ->]. exists lines', line, (rs' ++ [r]), m. split_and!; try done.
  rewrite verify_all_app, E' in E. cbn [mbind Res_bind verify_all] in E. rewrite Z.add_0_l in E.
  destruct (vrecord key line _ m') as [r'|e|p] eqn:Er; cbn [mbind Res_bind mret Res_ret] in E; [|done..].
  destruct (verify_record_Ok _ _ _ _ _ Er) as (Hf' & Hs' & _ & Hd). assert (r' = r) as -> by congruence. rewrite Hd, Hm. by rewrite ?Hs.
Qed.

(** C24: Tamper evidence: two logs that verify under a key and end in the same MAC hold
    the same records, line by line: the same numbers, sources and MACs before them, and
    the same events, up to the order in which the keys of objects are listed; otherwise a
    record of the one and a record of the other are different messages with the same
    MAC.  So an edited, deleted, inserted or reordered record is caught as soon as the
    last MAC is known. *)
Theorem tamper_evident key l1 l2 r1 r2 :
  Forall typed_line l1 -> Forall typed_line l2 ->
  vlines key l1 = Ok (Some r1) -> vlines key l2 = Ok (Some r2) -> decode_hex32 (mac r1) = decode_hex32 (mac r2) ->
  Forall2 (fun a b => exists ra rb, from_str a = Ok ra /\ from_str b = Ok rb /\ same_record ra rb) l1 l2 \/
  collision key l1 l2.
Proof.
  intros T1 T2 V1 V2 Hm. destruct (verify_lines_all _ _ _ V1) as (a1 & b1 & rs1 & m1 & E1 & W1 & F1 & S1 & D1).
  destruct (verify_lines_all _ _ _ V2) as (a2 & b2 & rs2 & m2 & E2 & W2 & F2 & S2 & D2).
  assert (m1 = m2) as -> by congruence.
  assert (length l1 = length l2 \/ collision key l1 l2) as [Hl|Hc]; [| |by right].
  { rewrite E1 in W1, T1. rewrite E2 in W2, T2. apply Forall_app in T1 as [_ [Ta _]%Forall_cons]. apply Forall_app in T2 as [_ [Tb _]%Forall_cons].
    destruct (verify_last _ _ _ _ _ W1) as (? & p1 & x1 & _ & _ & G1 & U1 & P1 & M1).
    destruct (verify_last _ _ _ _ _ W2) as (? & p2 & x2 & _ & _ & G2 & U2 & P2 & M2).
    destruct (Ta _ G1) as (A1 & A2 & A3). destruct (Tb _ G2) as (B1 & B2 & B3).
    destruct (same_last key a1 b1 x1 a2 b2 x2 p1 p2) as [[(Hs & _) _]|Hc]; [done..|by rewrite <- M1, <- M2| |right; by rewrite E1, E2].
    left. rewrite E1, E2, !length_app. cbn. lia. }
  destruct (same_logs key l1 l2 rs1 rs2 m2 T1 T2 Hl W1 W2) as [Hs|Hc]; [|by right]. left.
  pose proof (verify_all_lines _ _ _ _ _ _ W1) as L1. pose proof (verify_all_lines _ _ _ _ _ _ W2) as L2.
  clear -Hs L1 L2. revert l2 rs2 L2 Hs. induction L1 as [|a r1 l1 rs1 Ha L1 IH]; intros l2 rs2 L2 Hs.
  - inversion Hs; subst. by inversion L2.
  - inversion Hs as [|? r2 ? rs2' Hr Hrs]; subst. inversion L2 as [|b ? l2' ? Hb L2']; subst. constructor; [by exists r1, r2|by eapply IH].
Qed.

(** The limit the module names: a log cut at its end verifies. *)
Theorem truncation_verifies key l1 l2 n :
  verify scalar hmac ct_verify from_str key (l1 ++ l2) = Ok n -> Z.of_nat (length l1) < 2 ^ 64 ->
  verify scalar hmac ct_verify from_str key l1 = Ok (Z.of_nat (length l1)).
Proof.
  unfold verify, verify_lines. rewrite !verify_from_all, verify_all_app.
  destruct (verify_all key 0 GENESIS l1) as [[rs1 m1]|e|p] eqn:E; cbn [mbind Res_bind]; [|done..]. intros _ Hl. cbn [mret Res_ret].
  destruct l1 as [|line l1 _] using rev_ind; [by injection E as <- <-|].
  destruct (verify_last _ _ _ _ _ E) as (rs' & m' & r & _ & -> & _ & Hs & _). rewrite last_snoc. cbn [mret Res_ret mbind Res_bind]. rewrite Hs. rewrite length_app in *. cbn [length] in *.
  rewrite add_ok by lia. f_equal. lia.
Qed.

(** ** The writer and the verifier *)

Definition mac_ok (m : bytes) : Prop := length m = 32%nat /\ Forall is_byte m.

Lemma rmac_ok key sq ts src prv ev : mac_ok (rmac key sq ts src prv ev).
Proof. split; [apply hmac_length|apply hmac_bytes]. Qed.

(** A record as the writer makes it verifies after the one before it. *)
Lemma written_verifies key sq ts src prv ev line :
  mac_ok prv -> to_string (make_record scalar hmac key sq ts src prv ev) = Ok line ->
  vrecord key line sq prv = Ok (make_record scalar hmac key sq ts src prv ev).
Proof.
  intros [Hl Hb] Ht. unfold verify_record. destruct (json_roundtrip _ _ Ht) as [-> _]. cbn [make_record seq prev mac timestamp_ms source event].
  rewrite Z.eqb_refl. cbn [negb]. rewrite (decode_hex prv Hb Hl). cbn [ok_or mbind Res_bind]. rewrite ct_verify_spec, bool_decide_true by done.
  cbn [negb]. destruct (rmac_ok key sq ts src prv ev) as [Hl' Hb']. rewrite (decode_hex _ Hb' Hl'). cbn [ok_or mbind Res_bind].
  rewrite ct_verify_spec, bool_decide_true by done. done.
Qed.

Lemma json_error_Ok {A} (r : Res bytes A) a : json_error r = Ok a -> r = Ok a.
Proof. by destruct r; intros [= ->]. Qed.

(** The line of a record. *)
Definition json_line (l : bytes) : Prop := exists r, to_string r = Ok l.

Lemma batch_records_ok key now src sq prv evs :
  mac_ok prv ->
  match batch_records scalar hmac to_string key now src sq prv evs with
  | Ok (rs, ls, sq', prv') =>
      verify_all key sq prv ls = Ok (rs, prv') /\ sq' = sq + Z.of_nat (length ls) /\ length ls = length evs /\
      Forall line_ok ls /\ Forall json_line ls /\ mac_ok prv'
  | Err _ => True
  | Panic _ => False
  end.
Proof.
  revert sq prv. induction evs as [|ev evs IH]; intros sq prv Hp; cbn [batch_records]; [cbn; split_and!; done || lia|].
  pose proof (to_string_returns (make_record scalar hmac key sq now src prv ev)) as Hr.
  destruct (to_string (make_record scalar hmac key sq now src prv ev)) as [line|e|p] eqn:Et; cbn [json_error mbind Res_bind]; [|done..].
  destruct (checked_add 64 sq 1) as [n|] eqn:En; cbn [ok_or mbind Res_bind]; [|done].
  assert (n = sq + 1) as -> by (unfold checked_add in En; destruct (_ <? _); by simplify_eq).
  specialize (IH (sq + 1) (rmac key sq now src prv ev) (rmac_ok _ _ _ _ _ _)).
  destruct (batch_records _ _ _ _ _ _ (sq + 1) _ evs) as [[[[rs ls] sq'] prv']|e|p]; cbn [mbind Res_bind mret Res_ret]; [|done..].
  destruct IH as (Hv & -> & Hlen & Hls & Hjs & Hp').
  split_and!; [|cbn [length]; lia|cbn [length]; lia|apply Forall_cons; split; [by eapply json_roundtrip|done]|apply Forall_cons; split; [by eexists|done]|done].
  cbn [verify_all]. rewrite (written_verifies key sq now src prv ev line Hp Et). cbn [mbind Res_bind make_record timestamp_ms source event].
  rewrite Hv. done.
Qed.

Context {S : Type} `{SinkLaws S}.

Definition chain_inv (key : bytes) (c : ChainState S) : Prop :=
  sink_ok (sink c) /\ mac_ok (last_mac c) /\ next_seq c = Z.of_nat (length (sink_lines (sink c))) /\
  exists rs, verify_all key 0 GENESIS (sink_lines (sink c)) = Ok (rs, last_mac c).

(** A call of the writer. *)
Inductive Call := CAppend (now : Z) (src : bytes) (ev : Value N) | CBatch (now : Z) (src : bytes) (evs : list (Value N)).

Definition do_call (key : bytes) (c : Call) : ST (ChainState S) IoError unit :=
  match c with
  | CAppend now src ev => _ ← append scalar hmac to_string key now src ev; mret tt
  | CBatch now src evs => _ ← append_batch scalar hmac to_string key now src evs; mret tt
  end.

(** Some lines of a verified continuation of a log. *)
Lemma verify_take key idx prv ls rs m k :
  verify_all key idx prv ls = Ok (rs, m) -> exists rs' m', verify_all key idx prv (take k ls) = Ok (rs', m').
Proof.
  rewrite <- (take_drop k ls) at 1. rewrite verify_all_app.
  destruct (verify_all key idx prv (take k ls)) as [[rs' m']|e|p]; [by exists rs', m'|done..].
Qed.

(** What a call does: all of it, or, when it fails, nothing to the chain, and to the sink
    at most some of the lines it was to write. *)
Definition call_left (key : bytes) (size : Z) (c c' : ChainState S) : Prop :=
  exists ls rs m k p, verify_all key (next_seq c) (last_mac c) ls = Ok (rs, m) /\ Z.of_nat (length ls) <= size /\ Forall json_line ls /\
    tears ls k p /\ c' = mkChain (next_seq c) (last_mac c) (sink c') /\
    sink_lines (sink c') = sink_lines (sink c) ++ torn ls k p /\ (p = [] -> sink_ok (sink c')).
Definition call_does {A} (key : bytes) (size : Z) (c : ChainState S) (rc : Res IoError A * ChainState S) : Prop :=
  match rc with
  | (Ok _, c') => chain_inv key c' /\ next_seq c <= next_seq c' <= next_seq c + size
  | (Err _, c') => call_left key size c c'
  | (Panic _, _) => False
  end.

Lemma left_nothing key size c : chain_inv key c -> 0 <= size -> call_left key size c c.
Proof.
  intros (Hs & _) Hz. exists [], [], (last_mac c), 0%nat, []. split_and!; [done|done|done|by left|by destruct c|by rewrite app_nil_r|done].
Qed.

(** Lines that continue the chain, once they are written. *)
Lemma chain_inv_more key c ls rs m s' :
  chain_inv key c -> verify_all key (next_seq c) (last_mac c) ls = Ok (rs, m) -> mac_ok m -> sink_ok s' ->
  sink_lines s' = sink_lines (sink c) ++ ls -> chain_inv key (mkChain (next_seq c + Z.of_nat (length ls)) m s').
Proof.
  intros (_ & _ & Hn & rs0 & Hv) Hv' Hm Hs Hl. split_and!; cbn [sink last_mac next_seq]; [done|done|rewrite Hl, length_app; lia|].
  exists (rs0 ++ rs). rewrite Hl, verify_all_app, Hv. cbn [mbind Res_bind]. rewrite Z.add_0_l, <- Hn, Hv'. done.
Qed.

Lemma append_does key now src ev c :
  chain_inv key c -> next_seq c + 1 < 2 ^ 64 -> call_does key 1 c (append scalar hmac to_string key now src ev c).
Proof.
  intros Hi Hb. pose proof Hi as (Hs & Hm & _). unfold append. rewrite !st_bind_gets. cbv zeta. rewrite st_bind_lift.
  pose proof (to_string_returns (make_record scalar hmac key (next_seq c) now src (last_mac c) ev)) as Hr.
  destruct (to_string (make_record scalar hmac key (next_seq c) now src (last_mac c) ev)) as [line|e|p] eqn:Et; cbn [json_error]; [|by apply left_nothing|done].
  set (m := rmac key (next_seq c) now src (last_mac c) ev).
  assert (verify_all key (next_seq c) (last_mac c) [line] = Ok ([make_record scalar hmac key (next_seq c) now src (last_mac c) ev], m)) as Hv.
  { cbn [verify_all]. by rewrite (written_verifies key (next_seq c) now src (last_mac c) ev line Hm Et). }
  rewrite st_bind_eq. unfold on_sink. destruct (write_line line (sink c)) as [res s'] eqn:Ew.
  pose proof (write_line_law line (sink c) res s' ltac:(by eapply json_roundtrip) Hs Ew) as Hw.
  destruct res as [[]|e|p]; cbn [wrote] in Hw; [|destruct Hw as (k & p & Ht & Hl & Hp)|done].
  - destruct Hw as [Hs' Hl]. rewrite st_bind_lift, add_ok, st_bind_modify by done. cbn [mret ST_ret call_does sink next_seq]. split; [|lia].
    by apply (chain_inv_more key c [line] _ m s' Hi Hv (rmac_ok _ _ _ _ _ _)).
  - eexists [line], _, _, k, p. split_and!; [exact Hv|done|apply Forall_singleton; by eexists|done..].
Qed.

Lemma batch_does key now src evs c :
  chain_inv key c -> call_does key (Z.of_nat (length evs)) c (append_batch scalar hmac to_string key now src evs c).
Proof.
  intros Hi. pose proof Hi as (Hs & Hm & _). unfold append_batch. destruct evs as [|ev evs]; [by split; [|cbn; lia]|].
  rewrite !st_bind_gets, st_bind_lift. pose proof (batch_records_ok key now src (next_seq c) (last_mac c) (ev :: evs) Hm) as Hr.
  destruct (batch_records _ _ _ _ _ _ _ _ _) as [[[[rs' ls] sq'] prv']|e|p]; [|apply left_nothing; [done|lia]|done].
  destruct Hr as (Hv & -> & Hlen & Hls & Hjs & Hp').
  rewrite st_bind_eq. unfold on_sink. destruct (write_lines ls (sink c)) as [res s'] eqn:Ew.
  pose proof (write_lines_law ls (sink c) res s' Hls Hs Ew) as Hw.
  destruct res as [[]|e|p]; cbn [wrote] in Hw; [|destruct Hw as (k & p & Ht & Hl & Hp)|done].
  - destruct Hw as [Hs' Hl]. rewrite st_bind_modify. cbn [mret ST_ret call_does sink next_seq]. split; [|lia]. by eapply chain_inv_more.
  - exists ls, rs', prv', k, p. split_and!; [done|lia|done..].
Qed.

Lemma chain_inv_new key s : sink_ok s -> sink_lines s = [] -> chain_inv key (chain_new s).
Proof. intros Hs Hl. split_and!; cbn [chain_new sink last_mac next_seq]; [done|split; [done|by apply Forall_replicate]|by rewrite Hl|]. exists []. by rewrite Hl. Qed.

(** A log that verifies is counted, and resumed where it ends. *)
Lemma verify_resume key lines rs m (s : S) :
  verify_all key 0 GENESIS lines = Ok (rs, m) -> Z.of_nat (length lines) < 2 ^ 64 ->
  verify scalar hmac ct_verify from_str key lines = Ok (Z.of_nat (length lines)) /\
  open_file scalar hmac ct_verify from_str key (Some lines) s = Ok (mkChain (Z.of_nat (length lines)) m s).
Proof.
  intros Hv Hb. unfold verify, open_file, verify_lines. rewrite verify_from_all, Hv. cbn [mbind Res_bind mret Res_ret].
  destruct lines as [|line lines _] using rev_ind; [by injection Hv as <- <-|].
  destruct (verify_last _ _ _ _ _ Hv) as (rs' & m' & r & Hv' & -> & Hf & Hsq & Hp & Hm). rewrite last_snoc.
  rewrite length_app in *. cbn [length] in *. rewrite add_ok by lia. split; [f_equal; lia|]. cbn [mbind Res_bind].
  rewrite verify_all_app, Hv' in Hv. cbn [mbind Res_bind verify_all] in Hv. rewrite Z.add_0_l in Hv.
  destruct (vrecord key line _ m') as [r0|e|p] eqn:Er; cbn [mbind Res_bind mret Res_ret] in Hv; [|done..].
  destruct (verify_record_Ok _ _ _ _ _ Er) as (Hf' & _ & _ & Hd). assert (r0 = r) as -> by congruence. rewrite Hd. cbn [ok_or mbind Res_bind mret Res_ret].
  rewrite add_ok by lia. cbn [mbind Res_bind mret Res_ret]. rewrite Hm, Hsq. do 2 f_equal. lia.
Qed.

(** The number of records a call can add. *)
Definition call_size (c : Call) : Z := match c with CAppend _ _ _ => 1 | CBatch _ _ evs => Z.of_nat (length evs) end.
Abbreviation total_size calls := (foldr (fun call n => call_size call + n) 0 calls).

(** A writer that goes on after a failure only if the failure left no trace in the
    sink, and stops otherwise. *)
Fixpoint run_calls (key : bytes) (calls : list Call) (c : ChainState S) : Res IoError unit * ChainState S :=
  match calls with
  | [] => (Ok tt, c)
  | call :: calls' =>
      match do_call key call c with
      | (Ok _, c') => run_calls key calls' c'
      | (Err e, c') => if bool_decide (sink_lines (sink c') = sink_lines (sink c)) then run_calls key calls' c' else (Err e, c')
      | (Panic p, c') => (Panic p, c')
      end
  end.

Lemma call_spec key call c :
  chain_inv key c -> next_seq c + call_size call < 2 ^ 64 -> call_does key (call_size call) c (do_call key call c).
Proof.
  intros Hi Hb. destruct call as [now src ev|now src evs]; cbn [do_call call_size] in *; rewrite st_bind_eq.
  - pose proof (append_does key now src ev c Hi Hb) as Hd. by destruct (append _ _ _ _ _ _ _ c) as [[x|e|p] c'].
  - pose proof (batch_does key now src evs c Hi) as Hd. by destruct (append_batch _ _ _ _ _ _ _ c) as [[x|e|p] c'].
Qed.

Lemma torn_nil ls k p : torn ls k p = [] -> p = [].
Proof. unfold torn. intros [_ E]%app_nil. by destruct p. Qed.

Lemma run_calls_inv key calls c :
  chain_inv key c -> next_seq c + total_size calls < 2 ^ 64 ->
  match run_calls key calls c with
  | (Ok _, c') => chain_inv key c' /\ next_seq c' < 2 ^ 64
  | (Err _, c') => exists size c0, chain_inv key c0 /\ next_seq c0 + size < 2 ^ 64 /\ call_left key size c0 c'
  | (Panic _, _) => False
  end.
Proof.
  assert (forall l, 0 <= total_size l) as Hpos.
  { induction l as [|x l IHl]; cbn [foldr]; [lia|]. destruct x; cbn [call_size]; lia. }
  revert c. induction calls as [|call calls IH]; intros c Hi Hb; cbn [run_calls foldr] in *; [split; [done|lia]|].
  specialize (Hpos calls). pose proof (call_spec key call c Hi ltac:(lia)) as Hd.
  destruct (do_call key call c) as [[u|e|p] c']; cbn [call_does] in Hd; [|case_bool_decide as Hsame|done].
  - destruct Hd as [Hi' Hn]. apply IH; [done|lia].
  - destruct Hd as (ls & rs & m & k & p & _ & _ & _ & _ & Hc & Hl & Hp). rewrite Hl in Hsame.
    rewrite <- (app_nil_r (sink_lines (sink c))) in Hsame at 2. apply app_inv_head in Hsame as Hn. rewrite Hn, app_nil_r in Hl.
    destruct Hi as (_ & Hm & Hq & Hv). rewrite Hc. apply IH; [|cbn [next_seq]; destruct call; cbn [call_size] in *; lia].
    split_and!; cbn [sink last_mac next_seq]; [by apply Hp, (torn_nil ls k)|done|by rewrite Hl|by rewrite Hl].
  - exists (call_size call), c. split_and!; [done|lia|done].
Qed.


(** A write that failed after its line was in the file, as one whose sync fails, breaks
    the chain for a writer that goes on: the next record repeats the sequence number, and
    the verifier reports it. *)
Theorem append_after_failed_sync key now src ev now' src' ev' c line e s1 r' c2 :
  chain_inv key c -> next_seq c + 2 < 2 ^ 64 ->
  to_string (make_record scalar hmac key (next_seq c) now src (last_mac c) ev) = Ok line ->
  append scalar hmac to_string key now src ev c = (Err e, mkChain (next_seq c) (last_mac c) s1) ->
  sink_ok s1 -> sink_lines s1 = sink_lines (sink c) ++ [line] ->
  append scalar hmac to_string key now' src' ev' (mkChain (next_seq c) (last_mac c) s1) = (Ok r', c2) ->
  verify scalar hmac ct_verify from_str key (sink_lines (sink c2)) = Err (Sequence (next_seq c + 2) (next_seq c + 1) (next_seq c)).
Proof.
  intros (_ & Hm & Hn & rs & Hv) Hb Ht _ Hs1 Hl1. unfold append. rewrite !st_bind_gets. cbv zeta. cbn [next_seq last_mac]. rewrite st_bind_lift.
  destruct (to_string (make_record scalar hmac key (next_seq c) now' src' (last_mac c) ev')) as [line2|?|?] eqn:Et; cbn [json_error]; [|done..].
  destruct (json_roundtrip _ _ Et) as [Hf Hok]. rewrite st_bind_eq. unfold on_sink. cbn [sink next_seq last_mac].
  destruct (write_line line2 s1) as [res s2] eqn:Ew. pose proof (write_line_law line2 s1 res s2 Hok Hs1 Ew) as Hw.
  destruct res as [[]|?|?]; [|done..]. destruct Hw as [_ Hl2]. rewrite st_bind_lift, add_ok, st_bind_modify by lia. intros [= <- <-]. cbn [sink].
  unfold verify, verify_lines. rewrite verify_from_all, Hl2, Hl1, !verify_all_app, Hv. cbn [mbind Res_bind verify_all]. rewrite <- Hn, !Z.add_0_l.
  rewrite (written_verifies key (next_seq c) now src (last_mac c) ev line Hm Ht). cbn [mbind Res_bind mret Res_ret length].
  rewrite length_app, Nat2Z.inj_add, <- Hn. unfold verify_record. rewrite Hf. cbn [make_record seq length Z.of_nat].
  rewrite (proj2 (Z.eqb_neq _ _)) by lia. cbn [negb mbind Res_bind]. do 2 f_equal. unfold saturating_add. lia.
Qed.
End laws.

(** ** Canonical JSON does not depend on the order of keys *)

Lemma bytes_leb_total a b : bytes_leb a b = false -> bytes_leb b a = true.
Proof.
  revert b. induction a as [|x a IH]; intros [|y b]; cbn [bytes_leb]; try done. rewrite (Z.eqb_sym y x).
  destruct (Z.eqb_spec x y); [apply IH|]. rewrite Z.ltb_ge, Z.ltb_lt. lia.
Qed.

Lemma bytes_leb_antisym a b : bytes_leb a b = true -> bytes_leb b a = true -> a = b.
Proof.
  revert b. induction a as [|x a IH]; intros [|y b]; cbn [bytes_leb]; try done. rewrite (Z.eqb_sym y x).
  destruct (Z.eqb_spec x y) as [->|]; [intros; f_equal; by apply IH|]. rewrite !Z.ltb_lt. lia.
Qed.

Lemma bytes_leb_trans a b c : bytes_leb a b = true -> bytes_leb b c = true -> bytes_leb a c = true.
Proof.
  revert b c. induction a as [|x a IH]; intros [|y b] [|z c]; cbn [bytes_leb]; try done.
  destruct (Z.eqb_spec x y), (Z.eqb_spec y z), (Z.eqb_spec x z); rewrite ?Z.ltb_lt; try lia. apply IH.
Qed.

Lemma insert_key_comm {A} k x k' y (l : list (bytes * A)) :
  k <> k' -> insert_key k x (insert_key k' y l) = insert_key k' y (insert_key k x l).
Proof.
  intros Hne. induction l as [|[k0 z] l IH]; cbn [insert_key].
  - destruct (bytes_leb k k') eqn:E, (bytes_leb k' k) eqn:E'; try done; [by destruct Hne; apply bytes_leb_antisym|].
    apply bytes_leb_total in E. congruence.
  - destruct (bytes_leb k' k0) eqn:E1, (bytes_leb k k0) eqn:E2; cbn [insert_key]; rewrite ?E1, ?E2.
    + destruct (bytes_leb k k') eqn:E, (bytes_leb k' k) eqn:E'; try done; [by destruct Hne; apply bytes_leb_antisym|].
      apply bytes_leb_total in E. congruence.
    + destruct (bytes_leb k k') eqn:E; [|done]. by rewrite (bytes_leb_trans _ _ _ E E1) in E2.
    + destruct (bytes_leb k' k) eqn:E; [|done]. by rewrite (bytes_leb_trans _ _ _ E E2) in E1.
    + by rewrite IH.
Qed.

Lemma sort_keys_perm {A} (l l' : list (bytes * A)) : NoDup l.*1 -> l ≡ₚ l' -> sort_keys l = sort_keys l'.
Proof.
  intros Hn Hp. revert Hn. induction Hp as [|[k x] l l' Hp IH|[k x] [k' y] l|l1 l2 l3 H1 IH1 H2 IH2]; intros Hn; cbn [sort_keys foldr fst snd].
  - done.
  - apply NoDup_cons in Hn as [_ Hn]. unfold sort_keys in IH. by rewrite IH.
  - rewrite !fmap_cons in Hn. apply NoDup_cons in Hn as [Hk _]. apply insert_key_comm. intros ->. apply Hk, list_elem_of_here.
  - rewrite IH1 by done. apply IH2. by rewrite <- H1.
Qed.

(** The bytes under the MAC are the same however the keys of an object were
    ordered. *)
Theorem canonical_order {N} (scalar : Value N -> bytes) entries entries' :
  NoDup entries.*1 -> entries ≡ₚ entries' ->
  canonical_json scalar (VObject entries) = canonical_json scalar (VObject entries').
Proof.
  intros Hn Hp. cbn [canonical_json].
  set (go := fix go (l : list (bytes * Value N)) : list (bytes * bytes) :=
    match l with [] => [] | (k, x) :: l' => (k, canonical_json scalar x) :: go l' end).
  assert (forall l, go l = (fun kx => (kx.1, canonical_json scalar kx.2)) <$> l) as Hgo.
  { induction l as [|[k x] l IH]; [done|]. cbn [go]. by rewrite IH, fmap_cons. }
  rewrite !Hgo. rewrite (sort_keys_perm _ ((fun kx => (kx.1, canonical_json scalar kx.2)) <$> entries')); [done| |by apply fmap_Permutation].
  rewrite <- list_fmap_compose. exact Hn.
Qed.

(** ** Examples *)

(** A pair of characters may start with a plus sign. *)
Example plus_sign_accepted : decode_hex32 (concat (replicate 32 [43; 102])) = Some (replicate 32 15).
Proof. reflexivity. Qed.

Module Toy.

(** Stand-ins for the parameters: a MAC that sums; scalars as JSON prints them, with the
    two characters a string has to escape; records whose event is null or a truth value,
    and whose fields have one length each. *)
Definition hmac (key m : bytes) : bytes := ((foldr Z.add 0 (key ++ m)) mod 256) :: replicate 31 0.
Definition ct_verify (a b : bytes) : bool := bool_decide (a = b).
Fixpoint escape (s : bytes) : bytes :=
  match s with
  | [] => []
  | b :: s' => if (b =? 34) || (b =? 92) then 92 :: b :: escape s' else b :: escape s'
  end.
Definition scalar (v : Value unit) : bytes :=
  match v with
  | VNull => str "null"
  | VBool true => str "true"
  | VBool false => str "false"
  | VNumber tt => [48]
  | VString s => 34 :: escape s ++ [34]
  | _ => []
  end.

Lemma escape_end s s' r r' : escape s ++ 34 :: r = escape s' ++ 34 :: r' -> s = s' /\ r = r'.
Proof.
  revert s'. induction s as [|b s IH]; intros [|b' s'] E; cbn [escape app] in E.
  - by injection E.
  - destruct (Z.eqb_spec b' 34), (Z.eqb_spec b' 92); cbn [orb app] in E; congruence.
  - destruct (Z.eqb_spec b 34), (Z.eqb_spec b 92); cbn [orb app] in E; congruence.
  - destruct (Z.eqb_spec b 34), (Z.eqb_spec b 92), (Z.eqb_spec b' 34), (Z.eqb_spec b' 92); cbn [orb app] in E; try congruence;
      (injection E as ? E || injection E as ? ? E || injection E as E); (destruct (IH s' E); by subst).
Qed.

#[global] Instance scalar_tokens : ScalarTokens scalar.
Proof.
  split.
  - intros v v' r r' Hv Hv' Hr Hr' E.
    destruct v as [|[]|[]|s| |], v' as [|[]|[]|s'| |]; try done; cbn in E; try discriminate E; try (injection E as ->; done).
    injection E as E. rewrite <- !app_assoc in E. by destruct (escape_end s s' r r' E) as [-> ->].
  - intros v Hv. destruct v as [|[]|[]|s| |]; try done; cbn; eexists _, _; (split; [reflexivity|unfold delimiter; lia]).
Qed.

(** The event of a record in one character. *)
Definition event_char (v : Value unit) : Z := match v with VBool true => 116 | VBool false => 102 | _ => 110 end.
Definition char_event (c : Z) : Value unit := if c =? 116 then VBool true else if c =? 102 then VBool false else VNull.

Definition enc (r : AuditRecord unit) : bytes := [seq r + 32; timestamp_ms r + 32; event_char (event r)] ++ source r ++ prev r ++ mac r.
Definition from_str (l : bytes) : Res bytes (AuditRecord unit) :=
  match l with
  | a :: b :: e :: c :: rest => Ok (mkRecord (a - 32) (b - 32) [c] (char_event e) (take 64 rest) (drop 64 rest))
  | _ => Err (str "short")
  end.
Definition same_event (v v' : Value unit) : bool :=
  match v, v' with VNull, VNull => true | VBool b, VBool b' => bool_decide (b = b') | _, _ => false end.
Definition same (r r' : AuditRecord unit) : bool :=
  (seq r =? seq r') && (timestamp_ms r =? timestamp_ms r') && bool_decide (source r = source r') &&
  same_event (event r) (event r') && bool_decide (prev r = prev r') && bool_decide (mac r = mac r').
Definition to_string (r : AuditRecord unit) : Res bytes bytes :=
  match from_str (enc r) with
  | Ok r' => if same r r' && forallb (fun b => negb (b =? 10)) (enc r) && bool_decide (strip_cr (enc r) = enc r)
             then Ok (enc r) else Err []
  | _ => Err []
  end.

Lemma hmac_length k m : length (hmac k m) = 32%nat.
Proof. done. Qed.
Lemma hmac_bytes k m : Forall is_byte (hmac k m).
Proof. apply Forall_cons. split; [by apply Z.mod_pos_bound|by apply Forall_replicate]. Qed.
Lemma ct_verify_spec a b : ct_verify a b = bool_decide (a = b).
Proof. done. Qed.

Lemma same_event_eq v v' : same_event v v' = true -> v = v'.
Proof. destruct v, v'; try done. cbn [same_event]. by rewrite bool_decide_eq_true; intros ->. Qed.

Lemma json_roundtrip r l : to_string r = Ok l -> from_str l = Ok r /\ line_ok l.
Proof.
  unfold to_string. destruct (from_str (enc r)) as [r'|?|?] eqn:E; [|done..].
  destruct (same r r') eqn:Es; [|done]. cbn [andb]. destruct (forallb _ _) eqn:Ef; [|done]. cbn [andb].
  case_bool_decide as Hc; [|done]. intros [= <-]. split.
  - rewrite E. f_equal. unfold same in Es. rewrite !andb_true_iff, !bool_decide_eq_true, !Z.eqb_eq in Es.
    destruct Es as (((((E1 & E2) & E3) & E4%same_event_eq) & E5) & E6). destruct r, r'. cbn in *. by subst.
  - split; [|done]. rewrite forallb_forall in Ef. apply Forall_forall. intros b Hb%list_elem_of_In%Ef. intros ->. done.
Qed.
Lemma to_string_returns r : is_panic (to_string r) = false.
Proof. unfold to_string. destruct (from_str _); [|done..]. by destruct (_ && _). Qed.

(** A disk of 450 bytes: a write that does not fit puts in what does, and fails. *)
Definition small_disk : FileSystem := {|
  write_all f buf :=
    if Z.of_nat (length (f ++ buf)) <=? 450 then (Ok tt, f ++ buf) else (Err (Other (str "no space")), f ++ take (450 - length f) buf);
  sync_data _ := Ok tt
|}.
Lemma small_disk_appends f buf :
  @write_all small_disk f buf = (Ok tt, f ++ buf) \/ exists e n, @write_all small_disk f buf = (Err e, f ++ take n buf).
Proof. cbn. destruct (_ <=? _); [by left|right; eauto]. Qed.

(** A disk whose sync fails once, when the file holds one line. *)
Definition flaky_disk : FileSystem := {|
  write_all f buf := (Ok tt, f ++ buf);
  sync_data f := if Z.of_nat (length f) =? 133 then Err (Other (str "i/o error")) else Ok tt
|}.
Lemma flaky_disk_appends f buf :
  @write_all flaky_disk f buf = (Ok tt, f ++ buf) \/ exists e n, @write_all flaky_disk f buf = (Err e, f ++ take n buf).
Proof. by left. Qed.
Lemma flaky_disk_returns f : is_panic (@sync_data flaky_disk f) = false.
Proof. cbn. by destruct (_ =? _). Qed.

Definition key : bytes := replicate 32 7.
Definition calls : list (@Call unit) := [CAppend 1 [104] (VBool true); CBatch 2 [104] [VBool false; VNull]; CAppend 3 [104] VNull].
Definition on_small : @AuditSink JsonLinesFile := @JsonLinesFile_sink small_disk.
Definition small_laws : @SinkLaws JsonLinesFile on_small :=
  @JsonLinesFile_laws small_disk small_disk_appends (fun _ => eq_refl).
(** The calls on the small disk; the fourth record does not fit. *)
Definition ran : Res IoError unit * ChainState JsonLinesFile :=
  @run_calls unit scalar hmac to_string JsonLinesFile on_small key calls (chain_new (mkFile [] true)).
(** The records that were acknowledged. *)
Definition log : list bytes := Eval vm_compute in take 3 (@sink_lines _ on_small (sink ran.2)).

Definition on_flaky : @AuditSink JsonLinesFile := @JsonLinesFile_sink flaky_disk.
Definition flaky_laws : @SinkLaws JsonLinesFile on_flaky :=
  @JsonLinesFile_laws flaky_disk flaky_disk_appends flaky_disk_returns.
Definition flaky_append (now : Z) (c : ChainState JsonLinesFile) : Res IoError (AuditRecord unit) * ChainState JsonLinesFile :=
  @append unit scalar hmac to_string JsonLinesFile on_flaky key now [104] VNull c.
Definition fresh : ChainState JsonLinesFile := chain_new (mkFile [] true).
Definition after_one : ChainState JsonLinesFile := Eval vm_compute in (flaky_append 1 fresh).2.
Definition after_two : ChainState JsonLinesFile := Eval vm_compute in (flaky_append 2 after_one).2.
End Toy.


Lemma append_after_failed_sync_witness :
  verify Toy.scalar Toy.hmac Toy.ct_verify Toy.from_str Toy.key (@sink_lines _ Toy.on_flaky (sink Toy.after_two)) = Err (Sequence 2 1 0).
Proof.
  refine (@append_after_failed_sync unit Toy.scalar Toy.hmac Toy.ct_verify Toy.to_string Toy.from_str
    Toy.hmac_length Toy.hmac_bytes Toy.ct_verify_spec Toy.json_roundtrip
    JsonLinesFile Toy.on_flaky Toy.flaky_laws Toy.key 1 [104] VNull 2 [104] VNull Toy.fresh _ _ (sink Toy.after_one) _ Toy.after_two
    _ _ _ _ _ _ _); try (vm_compute; reflexivity).
  - apply chain_inv_new; [left; reflexivity|reflexivity].
  - right. exists (removelast (file (sink Toy.after_one))). vm_compute. reflexivity.
Defined.

Lemma Toy_typed : Forall (typed_line Toy.from_str) Toy.log.
Proof. repeat (apply Forall_cons; split); try apply Forall_nil_2; intros r [= <-]; by repeat split. Qed.

Lemma tamper_evident_witness :
  exists r, verify_lines Toy.scalar Toy.hmac Toy.ct_verify Toy.from_str Toy.key Toy.log = Ok (Some r) /\
  (Forall2 (fun a b => exists ra rb, Toy.from_str a = Ok ra /\ Toy.from_str b = Ok rb /\ same_record ra rb)
     Toy.log Toy.log \/ collision Toy.scalar Toy.hmac Toy.from_str Toy.key Toy.log Toy.log).
Proof.
  eexists. split; [vm_compute; reflexivity|].
  eapply (tamper_evident Toy.scalar Toy.hmac Toy.ct_verify Toy.from_str Toy.ct_verify_spec Toy.key
    Toy.log Toy.log _ _ Toy_typed Toy_typed); [vm_compute; reflexivity|vm_compute; reflexivity|reflexivity].
Defined.

Lemma unterminated_merges_witness : split_lines [] (([65; 10] ++ [66]) ++ [67] ++ [10]) = [[65]; [66; 67]].
Proof.
  refine (proj2 (unterminated_merges [65; 10] [66] [67] (or_intror (ex_intro _ [65] eq_refl)) (conj _ eq_refl) _ (conj _ eq_refl)));
    [apply Forall_singleton; lia|discriminate|apply Forall_singleton; lia].
Defined.
